(** * Zyncoder: rotary encoders and switches (zyncoder.c)

    A shallow embedding of the encoder and switch event core of
    [zyncoder.c] and the properties its specification states about it.

    Conventions.
    - C integers are [Z] with the wrap-around written out: [uint8_t],
      [uint] (unsigned int, 32 bits) and [sint] (int, 32 bits).
    - The global arrays [zyncoders] and [zynswitches] are lists that hold
      exactly [MAX_NUM_ZYNCODERS] and [MAX_NUM_ZYNSWITCHES] records
      ([wf_state]); array indices are [nat].
    - [clock_gettime], [digitalRead], the I2C register reads and
      [serialGetchar] are inputs of the call that performs them.
    - Calls into the MIDI router, liblo, wiringPi, the serial driver and
      [printf] are appended to the [trace] of the state.
    - Undefined behaviour of the C program is a [Fault].
    - The constants of [zyncoder.h] are variables of the section; the
      structs it declares are records with the fields [zyncoder.c] reads
      and writes. *)

From Stdlib Require Import ZArith List Bool Lia String Ascii Recdef.
Import ListNotations.
Local Open Scope Z_scope.

(** ** Machine integers *)

Definition uint8_t (x : Z) : Z := x mod 2 ^ 8.
Definition uint (x : Z) : Z := x mod 2 ^ 32.
Definition sint (x : Z) : Z := (x + 2 ^ 31) mod 2 ^ 32 - 2 ^ 31.

(** [#define bitRead(value, bit) (((value) >> (bit)) & 0x01)] *)
Definition bitRead (value bit : Z) : Z := Z.land (Z.shiftr value bit) 1.

(** ** Outcomes: a result, or the undefined behaviour that was hit *)

Inductive fault : Type :=
| DivisionByZero
| OutOfBounds
| NullPointer
| ShiftTooWide.

Inductive outcome (A : Type) : Type :=
| Ok (a : A)
| Fault (f : fault).
Arguments Ok {A} a.
Arguments Fault {A} f.

Definition bind {A B : Type} (m : outcome A) (k : A -> outcome B) : outcome B :=
  match m with
  | Ok a => k a
  | Fault f => Fault f
  end.

Notation "x <- m ;; k" := (bind m (fun x => k))
  (at level 61, m at next level, right associativity).
Notation "' p <- m ;; k" := (bind m (fun x => let p := x in k))
  (at level 61, p pattern, m at next level, right associativity).

(** ** Calls to the outside world *)

Inductive log_msg : Type :=
| MaxZynswitchesExceeded
| MaxZyncodersExceeded
| CorruptUartDataBlock.

Inductive isr_handler : Type :=
| update_zyncoder_funcs (i : nat)
| update_zynswitch_funcs (i : nat).

Inductive event : Type :=
| printf (msg : log_msg)
| internal_send_ccontrol_change (chan num val : Z)
| write_zynmidi_ccontrol_change (chan num val : Z)
| internal_send_note_on (chan num val : Z)
| write_zynmidi_note_on (chan num val : Z)
| internal_send_note_off (chan num val : Z)
| write_zynmidi_note_off (chan num val : Z)
| internal_send_program_change (chan num : Z)
| write_zynmidi_program_change (chan num : Z)
| lo_send_T (addr : Z) (path : string)
| lo_send_F (addr : Z) (path : string)
| lo_send_i (addr : Z) (path : string) (v : Z)
| pinMode_INPUT (pin : Z)
| pullUpDnControl_PUD_UP (pin : Z)
| wiringPiISR_EDGE_BOTH (pin : Z) (h : isr_handler)
| serialFlush.

(** ** Data model *)

(** Modelled from the spec: the enum and the two structs are declared in
    [zyncoder.h]; the records follow the data model of the specification
    (section 3) and hold the fields [zyncoder.c] uses, with [enabled] as
    a boolean, the counters and bounds as unsigned int and the time
    stamps as the microsecond clock value. *)

Inductive midi_event_type_enum : Type :=
| NONE_EVENT
| CTRL_CHANGE
| NOTE_ON
| PROG_CHANGE
| CVGATE_IN_EVENT
| CVGATE_OUT_EVENT.

Record midi_event_st : Type := {
  ev_type : midi_event_type_enum;
  ev_chan : Z;
  ev_num : Z;
  ev_val : Z
}.

Record zynswitch_st : Type := {
  sw_enabled : bool;
  sw_pin : Z;
  sw_tsus : Z;
  sw_dtus : Z;
  sw_status : Z;
  sw_midi_event : midi_event_st;
  sw_last_cvgate_note : Z
}.

Record zyncoder_st : Type := {
  enabled : bool;
  pin_a : Z;
  pin_b : Z;
  pin_a_last_state : Z;
  pin_b_last_state : Z;
  midi_chan : Z;
  midi_ctrl : Z;
  osc_port : Z;
  osc_lo_addr : Z;
  osc_path : string;
  max_value : Z;
  step : Z;
  subvalue : Z;
  value : Z;
  last_encoded : Z;
  tsus : Z;
  dtus : list Z
}.

(** The globals of the library: the two arrays, the UART ring buffer
    ([buffer], [head], [prev_head], [tail], [elementsInBuffer]) and the
    calls made so far. *)
Record state : Type := {
  zyncoders : list zyncoder_st;
  zynswitches : list zynswitch_st;
  buffer : list Z;
  head : Z;
  prev_head : Z;
  tail : Z;
  elementsInBuffer : Z;
  trace : list event
}.

(** Field assignments. *)

Definition with_enabled (x : bool) (r : zyncoder_st) : zyncoder_st :=
  {| enabled := x; pin_a := pin_a r; pin_b := pin_b r;
     pin_a_last_state := pin_a_last_state r;
     pin_b_last_state := pin_b_last_state r; midi_chan := midi_chan r;
     midi_ctrl := midi_ctrl r; osc_port := osc_port r;
     osc_lo_addr := osc_lo_addr r; osc_path := osc_path r;
     max_value := max_value r; step := step r; subvalue := subvalue r;
     value := value r; last_encoded := last_encoded r; tsus := tsus r;
     dtus := dtus r |}.

Definition with_pin_a (x : Z) (r : zyncoder_st) : zyncoder_st :=
  {| enabled := enabled r; pin_a := x; pin_b := pin_b r;
     pin_a_last_state := pin_a_last_state r;
     pin_b_last_state := pin_b_last_state r; midi_chan := midi_chan r;
     midi_ctrl := midi_ctrl r; osc_port := osc_port r;
     osc_lo_addr := osc_lo_addr r; osc_path := osc_path r;
     max_value := max_value r; step := step r; subvalue := subvalue r;
     value := value r; last_encoded := last_encoded r; tsus := tsus r;
     dtus := dtus r |}.

Definition with_pin_b (x : Z) (r : zyncoder_st) : zyncoder_st :=
  {| enabled := enabled r; pin_a := pin_a r; pin_b := x;
     pin_a_last_state := pin_a_last_state r;
     pin_b_last_state := pin_b_last_state r; midi_chan := midi_chan r;
     midi_ctrl := midi_ctrl r; osc_port := osc_port r;
     osc_lo_addr := osc_lo_addr r; osc_path := osc_path r;
     max_value := max_value r; step := step r; subvalue := subvalue r;
     value := value r; last_encoded := last_encoded r; tsus := tsus r;
     dtus := dtus r |}.

Definition with_pin_a_last_state (x : Z) (r : zyncoder_st) : zyncoder_st :=
  {| enabled := enabled r; pin_a := pin_a r; pin_b := pin_b r;
     pin_a_last_state := x; pin_b_last_state := pin_b_last_state r;
     midi_chan := midi_chan r; midi_ctrl := midi_ctrl r;
     osc_port := osc_port r; osc_lo_addr := osc_lo_addr r;
     osc_path := osc_path r; max_value := max_value r; step := step r;
     subvalue := subvalue r; value := value r;
     last_encoded := last_encoded r; tsus := tsus r; dtus := dtus r |}.

Definition with_pin_b_last_state (x : Z) (r : zyncoder_st) : zyncoder_st :=
  {| enabled := enabled r; pin_a := pin_a r; pin_b := pin_b r;
     pin_a_last_state := pin_a_last_state r; pin_b_last_state := x;
     midi_chan := midi_chan r; midi_ctrl := midi_ctrl r;
     osc_port := osc_port r; osc_lo_addr := osc_lo_addr r;
     osc_path := osc_path r; max_value := max_value r; step := step r;
     subvalue := subvalue r; value := value r;
     last_encoded := last_encoded r; tsus := tsus r; dtus := dtus r |}.

Definition with_midi_chan (x : Z) (r : zyncoder_st) : zyncoder_st :=
  {| enabled := enabled r; pin_a := pin_a r; pin_b := pin_b r;
     pin_a_last_state := pin_a_last_state r;
     pin_b_last_state := pin_b_last_state r; midi_chan := x;
     midi_ctrl := midi_ctrl r; osc_port := osc_port r;
     osc_lo_addr := osc_lo_addr r; osc_path := osc_path r;
     max_value := max_value r; step := step r; subvalue := subvalue r;
     value := value r; last_encoded := last_encoded r; tsus := tsus r;
     dtus := dtus r |}.

Definition with_midi_ctrl (x : Z) (r : zyncoder_st) : zyncoder_st :=
  {| enabled := enabled r; pin_a := pin_a r; pin_b := pin_b r;
     pin_a_last_state := pin_a_last_state r;
     pin_b_last_state := pin_b_last_state r; midi_chan := midi_chan r;
     midi_ctrl := x; osc_port := osc_port r; osc_lo_addr := osc_lo_addr r;
     osc_path := osc_path r; max_value := max_value r; step := step r;
     subvalue := subvalue r; value := value r;
     last_encoded := last_encoded r; tsus := tsus r; dtus := dtus r |}.

Definition with_osc_port (x : Z) (r : zyncoder_st) : zyncoder_st :=
  {| enabled := enabled r; pin_a := pin_a r; pin_b := pin_b r;
     pin_a_last_state := pin_a_last_state r;
     pin_b_last_state := pin_b_last_state r; midi_chan := midi_chan r;
     midi_ctrl := midi_ctrl r; osc_port := x;
     osc_lo_addr := osc_lo_addr r; osc_path := osc_path r;
     max_value := max_value r; step := step r; subvalue := subvalue r;
     value := value r; last_encoded := last_encoded r; tsus := tsus r;
     dtus := dtus r |}.

Definition with_osc_lo_addr (x : Z) (r : zyncoder_st) : zyncoder_st :=
  {| enabled := enabled r; pin_a := pin_a r; pin_b := pin_b r;
     pin_a_last_state := pin_a_last_state r;
     pin_b_last_state := pin_b_last_state r; midi_chan := midi_chan r;
     midi_ctrl := midi_ctrl r; osc_port := osc_port r; osc_lo_addr := x;
     osc_path := osc_path r; max_value := max_value r; step := step r;
     subvalue := subvalue r; value := value r;
     last_encoded := last_encoded r; tsus := tsus r; dtus := dtus r |}.

Definition with_osc_path (x : string) (r : zyncoder_st) : zyncoder_st :=
  {| enabled := enabled r; pin_a := pin_a r; pin_b := pin_b r;
     pin_a_last_state := pin_a_last_state r;
     pin_b_last_state := pin_b_last_state r; midi_chan := midi_chan r;
     midi_ctrl := midi_ctrl r; osc_port := osc_port r;
     osc_lo_addr := osc_lo_addr r; osc_path := x;
     max_value := max_value r; step := step r; subvalue := subvalue r;
     value := value r; last_encoded := last_encoded r; tsus := tsus r;
     dtus := dtus r |}.

Definition with_max_value (x : Z) (r : zyncoder_st) : zyncoder_st :=
  {| enabled := enabled r; pin_a := pin_a r; pin_b := pin_b r;
     pin_a_last_state := pin_a_last_state r;
     pin_b_last_state := pin_b_last_state r; midi_chan := midi_chan r;
     midi_ctrl := midi_ctrl r; osc_port := osc_port r;
     osc_lo_addr := osc_lo_addr r; osc_path := osc_path r; max_value := x;
     step := step r; subvalue := subvalue r; value := value r;
     last_encoded := last_encoded r; tsus := tsus r; dtus := dtus r |}.

Definition with_step (x : Z) (r : zyncoder_st) : zyncoder_st :=
  {| enabled := enabled r; pin_a := pin_a r; pin_b := pin_b r;
     pin_a_last_state := pin_a_last_state r;
     pin_b_last_state := pin_b_last_state r; midi_chan := midi_chan r;
     midi_ctrl := midi_ctrl r; osc_port := osc_port r;
     osc_lo_addr := osc_lo_addr r; osc_path := osc_path r;
     max_value := max_value r; step := x; subvalue := subvalue r;
     value := value r; last_encoded := last_encoded r; tsus := tsus r;
     dtus := dtus r |}.

Definition with_subvalue (x : Z) (r : zyncoder_st) : zyncoder_st :=
  {| enabled := enabled r; pin_a := pin_a r; pin_b := pin_b r;
     pin_a_last_state := pin_a_last_state r;
     pin_b_last_state := pin_b_last_state r; midi_chan := midi_chan r;
     midi_ctrl := midi_ctrl r; osc_port := osc_port r;
     osc_lo_addr := osc_lo_addr r; osc_path := osc_path r;
     max_value := max_value r; step := step r; subvalue := x;
     value := value r; last_encoded := last_encoded r; tsus := tsus r;
     dtus := dtus r |}.

Definition with_value (x : Z) (r : zyncoder_st) : zyncoder_st :=
  {| enabled := enabled r; pin_a := pin_a r; pin_b := pin_b r;
     pin_a_last_state := pin_a_last_state r;
     pin_b_last_state := pin_b_last_state r; midi_chan := midi_chan r;
     midi_ctrl := midi_ctrl r; osc_port := osc_port r;
     osc_lo_addr := osc_lo_addr r; osc_path := osc_path r;
     max_value := max_value r; step := step r; subvalue := subvalue r;
     value := x; last_encoded := last_encoded r; tsus := tsus r;
     dtus := dtus r |}.

Definition with_last_encoded (x : Z) (r : zyncoder_st) : zyncoder_st :=
  {| enabled := enabled r; pin_a := pin_a r; pin_b := pin_b r;
     pin_a_last_state := pin_a_last_state r;
     pin_b_last_state := pin_b_last_state r; midi_chan := midi_chan r;
     midi_ctrl := midi_ctrl r; osc_port := osc_port r;
     osc_lo_addr := osc_lo_addr r; osc_path := osc_path r;
     max_value := max_value r; step := step r; subvalue := subvalue r;
     value := value r; last_encoded := x; tsus := tsus r; dtus := dtus r |}.

Definition with_tsus (x : Z) (r : zyncoder_st) : zyncoder_st :=
  {| enabled := enabled r; pin_a := pin_a r; pin_b := pin_b r;
     pin_a_last_state := pin_a_last_state r;
     pin_b_last_state := pin_b_last_state r; midi_chan := midi_chan r;
     midi_ctrl := midi_ctrl r; osc_port := osc_port r;
     osc_lo_addr := osc_lo_addr r; osc_path := osc_path r;
     max_value := max_value r; step := step r; subvalue := subvalue r;
     value := value r; last_encoded := last_encoded r; tsus := x;
     dtus := dtus r |}.

Definition with_dtus (x : list Z) (r : zyncoder_st) : zyncoder_st :=
  {| enabled := enabled r; pin_a := pin_a r; pin_b := pin_b r;
     pin_a_last_state := pin_a_last_state r;
     pin_b_last_state := pin_b_last_state r; midi_chan := midi_chan r;
     midi_ctrl := midi_ctrl r; osc_port := osc_port r;
     osc_lo_addr := osc_lo_addr r; osc_path := osc_path r;
     max_value := max_value r; step := step r; subvalue := subvalue r;
     value := value r; last_encoded := last_encoded r; tsus := tsus r;
     dtus := x |}.

Definition with_sw_enabled (x : bool) (r : zynswitch_st) : zynswitch_st :=
  {| sw_enabled := x; sw_pin := sw_pin r; sw_tsus := sw_tsus r;
     sw_dtus := sw_dtus r; sw_status := sw_status r;
     sw_midi_event := sw_midi_event r;
     sw_last_cvgate_note := sw_last_cvgate_note r |}.

Definition with_sw_pin (x : Z) (r : zynswitch_st) : zynswitch_st :=
  {| sw_enabled := sw_enabled r; sw_pin := x; sw_tsus := sw_tsus r;
     sw_dtus := sw_dtus r; sw_status := sw_status r;
     sw_midi_event := sw_midi_event r;
     sw_last_cvgate_note := sw_last_cvgate_note r |}.

Definition with_sw_tsus (x : Z) (r : zynswitch_st) : zynswitch_st :=
  {| sw_enabled := sw_enabled r; sw_pin := sw_pin r; sw_tsus := x;
     sw_dtus := sw_dtus r; sw_status := sw_status r;
     sw_midi_event := sw_midi_event r;
     sw_last_cvgate_note := sw_last_cvgate_note r |}.

Definition with_sw_dtus (x : Z) (r : zynswitch_st) : zynswitch_st :=
  {| sw_enabled := sw_enabled r; sw_pin := sw_pin r; sw_tsus := sw_tsus r;
     sw_dtus := x; sw_status := sw_status r;
     sw_midi_event := sw_midi_event r;
     sw_last_cvgate_note := sw_last_cvgate_note r |}.

Definition with_sw_status (x : Z) (r : zynswitch_st) : zynswitch_st :=
  {| sw_enabled := sw_enabled r; sw_pin := sw_pin r; sw_tsus := sw_tsus r;
     sw_dtus := sw_dtus r; sw_status := x;
     sw_midi_event := sw_midi_event r;
     sw_last_cvgate_note := sw_last_cvgate_note r |}.

Definition with_sw_midi_event (x : midi_event_st) (r : zynswitch_st) : zynswitch_st :=
  {| sw_enabled := sw_enabled r; sw_pin := sw_pin r; sw_tsus := sw_tsus r;
     sw_dtus := sw_dtus r; sw_status := sw_status r; sw_midi_event := x;
     sw_last_cvgate_note := sw_last_cvgate_note r |}.

Definition with_sw_last_cvgate_note (x : Z) (r : zynswitch_st) : zynswitch_st :=
  {| sw_enabled := sw_enabled r; sw_pin := sw_pin r; sw_tsus := sw_tsus r;
     sw_dtus := sw_dtus r; sw_status := sw_status r;
     sw_midi_event := sw_midi_event r; sw_last_cvgate_note := x |}.

Definition with_zyncoders (x : list zyncoder_st) (r : state) : state :=
  {| zyncoders := x; zynswitches := zynswitches r; buffer := buffer r;
     head := head r; prev_head := prev_head r; tail := tail r;
     elementsInBuffer := elementsInBuffer r; trace := trace r |}.

Definition with_zynswitches (x : list zynswitch_st) (r : state) : state :=
  {| zyncoders := zyncoders r; zynswitches := x; buffer := buffer r;
     head := head r; prev_head := prev_head r; tail := tail r;
     elementsInBuffer := elementsInBuffer r; trace := trace r |}.

Definition with_buffer (x : list Z) (r : state) : state :=
  {| zyncoders := zyncoders r; zynswitches := zynswitches r; buffer := x;
     head := head r; prev_head := prev_head r; tail := tail r;
     elementsInBuffer := elementsInBuffer r; trace := trace r |}.

Definition with_head (x : Z) (r : state) : state :=
  {| zyncoders := zyncoders r; zynswitches := zynswitches r;
     buffer := buffer r; head := x; prev_head := prev_head r;
     tail := tail r; elementsInBuffer := elementsInBuffer r;
     trace := trace r |}.

Definition with_prev_head (x : Z) (r : state) : state :=
  {| zyncoders := zyncoders r; zynswitches := zynswitches r;
     buffer := buffer r; head := head r; prev_head := x; tail := tail r;
     elementsInBuffer := elementsInBuffer r; trace := trace r |}.

Definition with_tail (x : Z) (r : state) : state :=
  {| zyncoders := zyncoders r; zynswitches := zynswitches r;
     buffer := buffer r; head := head r; prev_head := prev_head r;
     tail := x; elementsInBuffer := elementsInBuffer r; trace := trace r |}.

Definition with_elementsInBuffer (x : Z) (r : state) : state :=
  {| zyncoders := zyncoders r; zynswitches := zynswitches r;
     buffer := buffer r; head := head r; prev_head := prev_head r;
     tail := tail r; elementsInBuffer := x; trace := trace r |}.

Definition with_trace (x : list event) (r : state) : state :=
  {| zyncoders := zyncoders r; zynswitches := zynswitches r;
     buffer := buffer r; head := head r; prev_head := prev_head r;
     tail := tail r; elementsInBuffer := elementsInBuffer r; trace := x |}.

(** ** Arrays and loops *)

(** [a[i] = x]; an index outside the list leaves it as it is. *)
Fixpoint array_set {A : Type} (l : list A) (i : nat) (x : A) : list A :=
  match l, i with
  | [], _ => []
  | _ :: t, O => x :: t
  | h :: t, S i' => h :: array_set t i' x
  end.

Definition set_zyncoder (i : nat) (z : zyncoder_st) (st : state) : state :=
  with_zyncoders (array_set (zyncoders st) i z) st.

Definition set_zynswitch (i : nat) (zs : zynswitch_st) (st : state) : state :=
  with_zynswitches (array_set (zynswitches st) i zs) st.

Definition emit (e : event) (st : state) : state :=
  with_trace (trace st ++ [e]) st.

(** How a loop body ends: it falls through to the next iteration
    ([Continue], also what C's [continue] does) or leaves the function
    ([Return]). *)
Inductive flow : Type :=
| Continue
| Return.

(** [for (i = i0; i < i0 + n; i++) body]. *)
Fixpoint for_loop {S : Type} (body : nat -> S -> S) (i n : nat) (s : S) : S :=
  match n with
  | O => s
  | Datatypes.S n' => for_loop body (Datatypes.S i) n' (body i s)
  end.

Fixpoint for_loop_ret {S : Type} (body : nat -> S -> S * flow)
    (i n : nat) (s : S) : S * flow :=
  match n with
  | O => (s, Continue)
  | Datatypes.S n' =>
      match body i s with
      | (s', Continue) => for_loop_ret body (Datatypes.S i) n' s'
      | (s', Return) => (s', Return)
      end
  end.

Fixpoint for_loop_out {S : Type} (body : nat -> S -> outcome (S * flow))
    (i n : nat) (s : S) : outcome (S * flow) :=
  match n with
  | O => Ok (s, Continue)
  | Datatypes.S n' =>
      match body i s with
      | Ok (s', Continue) => for_loop_out body (Datatypes.S i) n' s'
      | Ok (s', Return) => Ok (s', Return)
      | Fault f => Fault f
      end
  end.

(** ** Constants of [zyncoder.c] *)

Definition PAYLOAD_SIZE_BYTES : Z := 2.
Definition BUFFER_SIZE_BYTES : Z := PAYLOAD_SIZE_BYTES + 2.
Definition START_FRAME_VALUE : Z := 0xEA.
Definition END_FRAME_VALUE : Z := 0xFB.
Definition MCP23017_BASE_PIN : Z := 100.
Definition MCP23008_BASE_PIN : Z := 100.

(** The build: which of the wiring flags is defined.  [PLAIN_WIRING] is
    the build with none of them. *)
Inductive wiring : Type :=
| PLAIN_WIRING
| MCP23017_ENCODERS
| MCP23008_ENCODERS
| UART_ENCODERS.

(** Where [update_zyncoder] takes the encoder's pins from: its arguments
    [MSB] and [LSB] (the plain and MCP23017 builds), [digitalRead] of
    [pin_a] and [pin_b] (MCP23008) or the UART payload. *)
Inductive zyncoder_source : Type :=
| from_args (MSB LSB : Z)
| from_digitalRead (digitalRead : Z -> Z)
| from_data (data : list Z).

(** Where [update_zynswitch] takes the level from: its argument, or
    [digitalRead] of the switch's pin (MCP23008). *)
Inductive zynswitch_source : Type :=
| status_arg (status : Z)
| status_digitalRead (digitalRead : Z -> Z).

(** What one run of [zyncoder_mcp23017_ISR] reads: the bank's GPIO
    register and the clock, once per device it updates. *)
Record isr_inputs : Type := {
  isr_reg : Z;
  isr_now_zyncoder : nat -> Z;
  isr_now_zynswitch : nat -> Z
}.

(** What a setup call reads from the hardware. *)
Record hw_inputs : Type := {
  hw_digitalRead : Z -> Z;
  hw_now : Z;
  hw_bankA : isr_inputs;
  hw_bankB : isr_inputs
}.

(** ** [strtok(s, ":")] *)

Fixpoint skip_delim (s : string) : string :=
  match s with
  | String c s' => if Ascii.eqb c ":"%char then skip_delim s' else s
  | EmptyString => s
  end.

(** The token at the start of [s] and where the next call resumes. *)
Fixpoint split_token (s : string) : string * string :=
  match s with
  | EmptyString => (EmptyString, EmptyString)
  | String c s' =>
      if Ascii.eqb c ":"%char then (EmptyString, s')
      else let (t, r) := split_token s' in (String c t, r)
  end.

Definition strtok (s : string) : option (string * string) :=
  match skip_delim s with
  | EmptyString => None
  | s' => Some (split_token s')
  end.

(** ** Quadrature decoding (lines 600-604) *)

Definition quadrature_encoded (MSB LSB : Z) : Z :=
  uint8_t (Z.lor (Z.shiftl MSB 1) LSB).

Definition quadrature_sum (last_encoded encoded : Z) : Z :=
  uint8_t (Z.lor (Z.shiftl last_encoded 2) encoded).

Definition quadrature_up (sum : Z) : Z :=
  (* 0b1101, 0b0100, 0b0010, 0b1011 *)
  if (sum =? 13) || (sum =? 4) || (sum =? 2) || (sum =? 11) then 1 else 0.

Definition quadrature_down (sum : Z) : Z :=
  if negb (quadrature_up sum =? 0) then 0
  (* 0b1110, 0b0111, 0b0001, 0b1000 *)
  else if (sum =? 14) || (sum =? 7) || (sum =? 1) || (sum =? 8) then 1 else 0.

(** The spurious-edge filter the three switch paths share (lines 371-380,
    421-430, 882-891): [release] is the level of the release edge, 1 on
    the GPIO paths and 0 on the UART path.  [Return] is the [return] of
    the source. *)
Definition debounce_zynswitch (release now : Z) (zs : zynswitch_st)
  : zynswitch_st * flow :=
  if sw_status zs =? release then
    if 0 <? sw_tsus zs then
      let dtus' := uint (now - sw_tsus zs) in
      let zs' := with_sw_tsus 0 zs in
      if dtus' <? 1000 then (zs', Return)
      else (with_sw_dtus dtus' zs', Continue)
    else (zs, Continue)
  else (with_sw_tsus now zs, Continue).

(** [(data[pin/8] >> (pin%8)) & 0x1] on the UART payload. *)
Definition payload_bit (data : list Z) (pin : Z) : outcome Z :=
  match nth_error data (Z.to_nat (pin / 8)) with
  | Some byte => Ok (Z.land (Z.shiftr byte (pin mod 8)) 1)
  | None => Fault OutOfBounds
  end.

(** ** Example records

    Encoder 0 as [setup_zyncoder] leaves it on the UART build, bound to
    channel 0, controller 1, set up with value 5 and bound 10: in
    fixed-step mode (step 1), in velocity mode (step 0, four ticks per
    detent) and with a coarse step of 3 from value 0. *)

Definition example_encoder (step' max_value' subvalue' value' : Z)
  : zyncoder_st :=
  {| enabled := true; pin_a := 1; pin_b := 2;
     pin_a_last_state := 0; pin_b_last_state := 0;
     midi_chan := 0; midi_ctrl := 1;
     osc_port := 0; osc_lo_addr := 0; osc_path := "";
     max_value := max_value'; step := step';
     subvalue := subvalue'; value := value';
     last_encoded := 0; tsus := 0; dtus := [0; 0; 0; 0] |}.

Definition example_fixed_encoder : zyncoder_st := example_encoder 1 10 0 5.
Definition example_velocity_encoder : zyncoder_st := example_encoder 0 40 20 5.
Definition example_coarse_encoder : zyncoder_st := example_encoder 3 10 0 0.

Definition example_switch (pin status tsus' : Z) : zynswitch_st :=
  {| sw_enabled := true; sw_pin := pin; sw_tsus := tsus'; sw_dtus := 0;
     sw_status := status;
     sw_midi_event :=
       {| ev_type := NONE_EVENT; ev_chan := 0; ev_num := 0; ev_val := 0 |};
     sw_last_cvgate_note := 0 |}.

Definition disabled_switch : zynswitch_st :=
  {| sw_enabled := false; sw_pin := 0; sw_tsus := 0; sw_dtus := 0;
     sw_status := 0;
     sw_midi_event :=
       {| ev_type := NONE_EVENT; ev_chan := 0; ev_num := 0; ev_val := 0 |};
     sw_last_cvgate_note := 0 |}.

(** A library state with one encoder and the given switches, ring empty. *)
Definition example_state (z : zyncoder_st) (sws : list zynswitch_st) : state :=
  {| zyncoders := [z]; zynswitches := sws;
     buffer := [0; 0; 0; 0]; head := 0; prev_head := 0; tail := 0;
     elementsInBuffer := 0; trace := [] |}.

(** Two switches on the UART payload (bits 0 and 1), both pressed at
    1000 us ([status] 1 is the pressed level there). *)
Definition example_uart_switches : list zynswitch_st :=
  [example_switch 0 1 1000; example_switch 1 1 1000].

(** Two switches on the expander (pins 100 and 101), both pressed at
    1000 us ([status] 0 is the pressed level there). *)
Definition example_expander_switches : list zynswitch_st :=
  [example_switch 100 0 1000; example_switch 101 0 1000].

(** The ring after the bytes 0xEA, 0xFF, 0x00 of a frame. *)
Definition example_ring_state : state :=
  {| zyncoders := [example_fixed_encoder]; zynswitches := [disabled_switch];
     buffer := [0xEA; 0xFF; 0; 0]; head := 3; prev_head := 2; tail := 0;
     elementsInBuffer := 3; trace := [] |}.

Definition no_hw : hw_inputs :=
  {| hw_digitalRead := fun _ => 0; hw_now := 0;
     hw_bankA := {| isr_reg := 0; isr_now_zyncoder := fun _ => 0;
                    isr_now_zynswitch := fun _ => 0 |};
     hw_bankB := {| isr_reg := 0; isr_now_zyncoder := fun _ => 0;
                    isr_now_zynswitch := fun _ => 0 |} |}.

(** ** Debug rendering (lines 173-175) *)

(** [int_to_int(k)]: [k == 0 || k == 1 ? k : (k % 2) + 10 * int_to_int(k / 2)]
    in unsigned int arithmetic.  [Z.quot] and [Z.rem] are C's [/] and [%];
    on an unsigned [k] they are [Z.div] and [Z.modulo]. *)
Function int_to_int (k : Z) {measure Z.abs_nat k} : Z :=
  if (k =? 0) || (k =? 1) then k
  else uint (Z.rem k 2 + 10 * int_to_int (Z.quot k 2)).
Proof.
  intros k e.
  apply orb_false_elim in e as [E0 E1].
  apply Z.eqb_neq in E0, E1.
  rewrite !Zabs2Nat.abs_nat_spec.
  destruct (Z_le_gt_dec 0 k).
  - pose proof (Z.quot_rem' k 2) as Hq.
    pose proof (Z.rem_bound_pos_pos k 2 ltac:(lia) ltac:(lia)) as Hpos.
    lia.
  - replace k with (- - k) by lia.
    rewrite Z.quot_opp_l by lia.
    pose proof (Z.quot_rem' (- k) 2) as Hq.
    pose proof (Z.rem_bound_pos_pos (- k) 2 ltac:(lia) ltac:(lia)) as Hpos.
    lia.
Defined.

(** ** The bit macros (lines 105-107) on a [uint8_t] variable

    [1UL << bit] is as wide as an unsigned long; the assignment back to
    the variable keeps the low eight bits, where the complement of the
    unsigned long and [Z.lnot] agree. *)

Definition bitSet (value bit : Z) : Z :=
  uint8_t (Z.lor value (Z.shiftl 1 bit)).

Definition bitClear (value bit : Z) : Z :=
  uint8_t (Z.land value (Z.lnot (Z.shiftl 1 bit))).

Definition bitWrite (value bit bitvalue : Z) : Z :=
  if bitvalue =? 0 then bitClear value bit else bitSet value bit.

(** ** Bringing up the MCP23017 (lines 208-274) *)

Definition MCP23017_I2C_ADDRESS : Z := 0x20.
Definition MCP23017_INTA_PIN : Z := 27.
Definition MCP23017_INTB_PIN : Z := 25.
Definition MCP23008_I2C_ADDRESS : Z := 0x20.

(** The registers of the expander [init_mcp23017] names. *)
Inductive mcp23x17_reg : Type :=
| MCP23x17_IODIRA | MCP23x17_IODIRB
| MCP23x17_GPPUA | MCP23x17_GPPUB
| MCP23x17_IPOLA | MCP23x17_IPOLB
| MCP23x17_INTCONA | MCP23x17_INTCONB
| MCP23x17_IOCON | MCP23x17_IOCONB
| MCP23x17_GPINTENA | MCP23x17_GPINTENB
| MCP23x17_GPIOA | MCP23x17_GPIOB.

Inductive thread_routine : Type :=
| poll_zynswitches
| uart_thread.

Inductive thread_msg : Type :=
| CantCreatePollThread (err : Z)
| PollThreadCreated.

(** The calls library initialisation makes to wiringPi, the I2C bus and
    pthreads, in the order it makes them.  [isr] is the index into
    [zyncoder_mcp23017_bank_ISRs]. *)
Inductive hw_call : Type :=
| wiringPiSetup
| mcp23017Setup (base_pin i2c_address : Z)
| mcp23008Setup (base_pin i2c_address : Z)
| wiringPiFindNode (base_pin : Z)
| wiringPiI2CWriteReg8 (fd : Z) (reg : mcp23x17_reg) (data : Z)
| wiringPiI2CReadReg8 (fd : Z) (reg : mcp23x17_reg)
| wiringPiISR_EDGE_RISING (pin : Z) (isr : nat)
| pthread_create (start_routine : thread_routine)
| printf_thread (msg : thread_msg).

(** [bitWrite(v, 6, 0); bitWrite(v, 2, 0); bitWrite(v, 1, 1);] on the
    [uint8_t] the IOCON register was read into (lines 240-243). *)
Definition ioconf (read : Z) : Z :=
  let ioconf_value := uint8_t read in
  let ioconf_value := bitWrite ioconf_value 6 0 in
  let ioconf_value := bitWrite ioconf_value 2 0 in
  let ioconf_value := bitWrite ioconf_value 1 1 in
  ioconf_value.

(** [node] is the file descriptor of the node [wiringPiFindNode] found,
    [None] if it returned [NULL]; [iocon] and [ioconb] are what the reads
    of the two IOCON registers returned.  The result is the calls made and
    the node returned. *)
Definition init_mcp23017 (base_pin i2c_address inta_pin intb_pin : Z)
    (node : option Z) (iocon ioconb : Z) : outcome (list hw_call * Z) :=
  match node with
  | None => Fault NullPointer
  | Some fd =>
      Ok ([ mcp23017Setup base_pin i2c_address;
            wiringPiFindNode base_pin;
            wiringPiI2CWriteReg8 fd MCP23x17_IODIRA 0xff;
            wiringPiI2CWriteReg8 fd MCP23x17_IODIRB 0xff;
            wiringPiI2CWriteReg8 fd MCP23x17_GPPUA 0xff;
            wiringPiI2CWriteReg8 fd MCP23x17_GPPUB 0xff;
            wiringPiI2CWriteReg8 fd MCP23x17_IPOLA 0;
            wiringPiI2CWriteReg8 fd MCP23x17_IPOLB 0;
            wiringPiI2CWriteReg8 fd MCP23x17_INTCONA 0;
            wiringPiI2CWriteReg8 fd MCP23x17_INTCONB 0;
            wiringPiI2CReadReg8 fd MCP23x17_IOCON;
            wiringPiI2CWriteReg8 fd MCP23x17_IOCON (ioconf iocon);
            wiringPiI2CReadReg8 fd MCP23x17_IOCONB;
            wiringPiI2CWriteReg8 fd MCP23x17_IOCONB (ioconf ioconb);
            wiringPiI2CWriteReg8 fd MCP23x17_GPINTENA 0xff;
            wiringPiI2CWriteReg8 fd MCP23x17_GPINTENB 0xff;
            wiringPiISR_EDGE_RISING inta_pin 0;
            wiringPiISR_EDGE_RISING intb_pin 1;
            wiringPiI2CReadReg8 fd MCP23x17_GPIOA;
            wiringPiI2CReadReg8 fd MCP23x17_GPIOB ], fd)
  end.

(** Lines 442-452 and 943-953: [err] is what [pthread_create] returned,
    [tid] the thread it made.  Both functions print the same two
    messages. *)
Definition init_thread (start_routine : thread_routine) (err tid : Z)
  : Z * list hw_call :=
  if negb (err =? 0)
  then (0, [pthread_create start_routine; printf_thread (CantCreatePollThread err)])
  else (tid, [pthread_create start_routine; printf_thread PollThreadCreated]).

Definition init_poll_zynswitches := init_thread poll_zynswitches.
Definition init_uart_thread := init_thread uart_thread.

(** What [init_zyncoder] reads from the outside. *)
Record init_inputs : Type := {
  init_node : option Z;
  init_iocon : Z;
  init_ioconb : Z;
  init_pthread_err : Z;
  init_pthread_tid : Z
}.

(** What one turn of the [uart_thread] loop reads: the byte
    [serialGetchar] returned and the clock, once per encoder and once for
    the switches. *)
Record uart_input : Type := {
  rx_char : Z;
  rx_now_zyncoder : nat -> Z;
  rx_now_zynswitches : Z
}.

(** ** More example records

    A byte received at 5000 us; the ring holding the frame 0xEA, 1, 2,
    0xFB; a released switch on pin 7; a register value read at a given
    time; an initialisation on which [pthread_create] fails. *)

Definition example_rx (c : Z) : uart_input :=
  {| rx_char := c; rx_now_zyncoder := fun _ => 5000;
     rx_now_zynswitches := 5000 |}.

Definition example_full_ring : state :=
  {| zyncoders := [example_fixed_encoder]; zynswitches := [disabled_switch];
     buffer := [0xEA; 1; 2; 0xFB]; head := 0; prev_head := 3; tail := 0;
     elementsInBuffer := 4; trace := [] |}.

Definition example_released_switch : zynswitch_st := example_switch 7 1 0.

Definition example_isr_inputs (reg now : Z) : isr_inputs :=
  {| isr_reg := reg; isr_now_zyncoder := fun _ => now;
     isr_now_zynswitch := fun _ => now |}.

(** What a setup call reads when the GPIO register of bank A holds
    [regA] and the clock stands at [now]. *)
Definition example_hw (regA now : Z) : hw_inputs :=
  {| hw_digitalRead := fun _ => 0; hw_now := now;
     hw_bankA := example_isr_inputs regA now;
     hw_bankB := example_isr_inputs 0 now |}.

Definition example_init_inputs : init_inputs :=
  {| init_node := Some 3; init_iocon := 0; init_ioconb := 0;
     init_pthread_err := 11; init_pthread_tid := 0 |}.

Section Zyncoder.

(** Constants of [zyncoder.h], and the size of the [osc_path] field. *)
Variable MAX_NUM_ZYNCODERS : nat.
Variable MAX_NUM_ZYNSWITCHES : nat.
Variable ZYNCODER_TICKS_PER_RETENT : Z.
Variable OSC_PATH_SIZE : nat.

(** libc's [atoi] and liblo's [lo_address_new] (0 is the null handle). *)
Variable atoi : string -> Z.
Variable lo_address_new : string -> Z.

(** ** Inbound MIDI and outbound emission of an encoder *)

(** Lines 544-554. *)
Definition midi_event_zyncoders (midi_chan' midi_ctrl' val : Z) (st : state)
  : state :=
  for_loop (fun j st =>
    match nth_error (zyncoders st) j with
    | Some z =>
        if enabled z && (midi_chan z =? midi_chan') && (midi_ctrl z =? midi_ctrl')
        then set_zyncoder j
               (with_subvalue (uint (val * ZYNCODER_TICKS_PER_RETENT))
                  (with_value val z)) st
        else st
    | None => st
    end) 0 MAX_NUM_ZYNCODERS st.

(** Lines 556-580. *)
Definition send_zyncoder (i : nat) (st : state) : state :=
  if (MAX_NUM_ZYNCODERS <=? i)%nat then st else
  match nth_error (zyncoders st) i with
  | None => st
  | Some z =>
      if negb (enabled z) then st
      else if 0 <? midi_ctrl z then
        emit (internal_send_ccontrol_change (midi_chan z) (midi_ctrl z) (value z)) st
      else if negb (osc_lo_addr z =? 0) && negb (String.eqb (osc_path z) "") then
        if 8 <=? step z then
          if 64 <=? value z then emit (lo_send_T (osc_lo_addr z) (osc_path z)) st
          else emit (lo_send_F (osc_lo_addr z) (osc_path z)) st
        else emit (lo_send_i (osc_lo_addr z) (osc_path z) (value z)) st
      else st
  end.

(** ** Switches *)

(** Lines 281-344, built without ZYNAPTIK_CONFIG. *)
Definition send_zynswitch_midi (zs : zynswitch_st) (status : Z) (st : state)
  : state :=
  let ev := sw_midi_event zs in
  match ev_type ev with
  | CTRL_CHANGE =>
      let val := if status =? 0 then ev_val ev else 0 in
      let st1 := emit (internal_send_ccontrol_change (ev_chan ev) (ev_num ev) val) st in
      let st2 := midi_event_zyncoders (ev_chan ev) (ev_num ev) val st1 in
      emit (write_zynmidi_ccontrol_change (ev_chan ev) (ev_num ev) val) st2
  | NOTE_ON =>
      if status =? 0 then
        emit (write_zynmidi_note_on (ev_chan ev) (ev_num ev) (ev_val ev))
          (emit (internal_send_note_on (ev_chan ev) (ev_num ev) (ev_val ev)) st)
      else
        emit (write_zynmidi_note_off (ev_chan ev) (ev_num ev) 0)
          (emit (internal_send_note_off (ev_chan ev) (ev_num ev) 0) st)
  | PROG_CHANGE =>
      if status =? 0 then
        emit (write_zynmidi_program_change (ev_chan ev) (ev_num ev))
          (emit (internal_send_program_change (ev_chan ev) (ev_num ev)) st)
      else st
  | _ => st
  end.

Definition read_status (src : zynswitch_source) (zs : zynswitch_st) : Z :=
  match src with
  | status_arg status => status
  | status_digitalRead digitalRead => uint8_t (digitalRead (sw_pin zs))
  end.

(** What the three switch paths (lines 362-380, 418-430, 879-891) do once
    the level read differs from [status]: store it, emit, filter. *)
Definition edge_zynswitch (release : Z) (i : nat) (zs : zynswitch_st)
    (status now : Z) (st : state) : state * flow :=
  let zs1 := with_sw_status status zs in
  let st1 := send_zynswitch_midi zs1 status (set_zynswitch i zs1 st) in
  let (zs2, fl) := debounce_zynswitch release now zs1 in
  (set_zynswitch i zs2 st1, fl).

(** Lines 347-381. *)
Definition update_zynswitch (i : nat) (src : zynswitch_source) (now : Z)
    (st : state) : state :=
  if (MAX_NUM_ZYNSWITCHES <=? i)%nat then st else
  match nth_error (zynswitches st) i with
  | None => st
  | Some zs =>
      if negb (sw_enabled zs) then st else
      let status := read_status src zs in
      if status =? sw_status zs then st
      else fst (edge_zynswitch 1 i zs status now st)
  end.

(** Lines 404-432 (MCP23008): one poll of the switches on the expander,
    over the first [n] switches. *)
Definition poll_zynswitch (digitalRead : Z -> Z) (now : Z) (i : nat)
    (st : state) : state * flow :=
  match nth_error (zynswitches st) i with
  | None => (st, Continue)
  | Some zs =>
      if negb (sw_enabled zs) || (sw_pin zs <? 100) then (st, Continue) else
      let status := uint8_t (digitalRead (sw_pin zs)) in
      if status =? sw_status zs then (st, Continue)
      else edge_zynswitch 1 i zs status now st
  end.

Definition update_expanded_zynswitches_upto (n : nat) (digitalRead : Z -> Z)
    (now : Z) (st : state) : state :=
  fst (for_loop_ret (poll_zynswitch digitalRead now) 0 n st).

Definition update_expanded_zynswitches :=
  update_expanded_zynswitches_upto MAX_NUM_ZYNSWITCHES.

(** Lines 865-893 (UART): the switches against one payload, over the
    first [n] switches. *)
Definition scan_zynswitch (data : list Z) (now : Z) (i : nat) (st : state)
  : outcome (state * flow) :=
  match nth_error (zynswitches st) i with
  | None => Ok (st, Continue)
  | Some zs =>
      if negb (sw_enabled zs) then Ok (st, Continue) else
      status <- payload_bit data (sw_pin zs) ;;
      if status =? sw_status zs then Ok (st, Continue)
      else Ok (edge_zynswitch 0 i zs status now st)
  end.

Definition update_zynswitches_upto (n : nat) (data : list Z) (now : Z)
    (st : state) : outcome state :=
  r <- for_loop_out (scan_zynswitch data now) 0 n st ;;
  Ok (fst r).

Definition update_zynswitches := update_zynswitches_upto MAX_NUM_ZYNSWITCHES.

(** Lines 491-514, built without ZYNAPTIK_CONFIG. *)
Definition setup_zynswitch_midi (i : nat) (midi_evt : midi_event_type_enum)
    (midi_chan' midi_num midi_val : Z) (st : state) : Z * state :=
  if (MAX_NUM_ZYNSWITCHES <=? i)%nat then
    (0, emit (printf MaxZynswitchesExceeded) st)
  else
    match nth_error (zynswitches st) i with
    | None => (1, st)
    | Some zs =>
        let ev := {| ev_type := midi_evt; ev_chan := midi_chan';
                     ev_num := midi_num; ev_val := midi_val |} in
        (1, set_zynswitch i
              (with_sw_last_cvgate_note (-1) (with_sw_midi_event ev zs)) st)
    end.

(** Lines 516-534. *)
Definition get_zynswitch_dtus (i : nat) (long_dtus : Z) (now : Z) (st : state)
  : Z * state :=
  if (MAX_NUM_ZYNSWITCHES <=? i)%nat then (0, st) else
  match nth_error (zynswitches st) i with
  | None => (0, st)
  | Some zs =>
      let dtus' := sw_dtus zs in
      if 0 <? dtus' then (dtus', set_zynswitch i (with_sw_dtus 0 zs) st)
      else if 0 <? sw_tsus zs then
        let dtus' := uint (now - sw_tsus zs) in
        if long_dtus <? dtus' then (dtus', set_zynswitch i (with_sw_tsus 0 zs) st)
        else (0, st)
      else (0, st)
  end.

(** ** Encoders *)

(** The pins of a tick: the encoder with [last_encoded] updated, [up]
    and [down] (lines 595-612). *)
Definition decode_zyncoder (src : zyncoder_source) (z : zyncoder_st)
  : outcome (zyncoder_st * Z * Z) :=
  let quadrature MSB LSB :=
    let encoded := quadrature_encoded MSB LSB in
    let sum := quadrature_sum (last_encoded z) encoded in
    Ok (with_last_encoded encoded z, quadrature_up sum, quadrature_down sum) in
  match src with
  | from_args MSB LSB => quadrature MSB LSB
  | from_digitalRead digitalRead =>
      quadrature (uint8_t (digitalRead (pin_a z))) (uint8_t (digitalRead (pin_b z)))
  | from_data data =>
      down <- payload_bit data (pin_a z) ;;
      up <- payload_bit data (pin_b z) ;;
      Ok (z, up, down)
  end.

(** Lines 619-669: the value after a tick, and whether [send_zyncoder] is
    called. *)
Definition advance_zyncoder (up down now : Z) (z : zyncoder_st)
  : outcome (zyncoder_st * bool) :=
  if step z =? 0 then
    let dtus' := uint (now - tsus z) in
    if dtus' <? 1000 then Ok (z, false) else
    let dtus_avg :=
      uint (fold_left Z.add (dtus z) dtus') / (ZYNCODER_TICKS_PER_RETENT + 1) in
    let z1 := with_dtus (tl (dtus z) ++ [dtus']) z in
    if dtus_avg =? 0 then Fault DivisionByZero else
    let dsval0 := sint (uint (10000 * ZYNCODER_TICKS_PER_RETENT) / dtus_avg) in
    let dsval :=
      if dsval0 <? 1 then 1
      else if 2 * ZYNCODER_TICKS_PER_RETENT <? dsval0
           then 2 * ZYNCODER_TICKS_PER_RETENT else dsval0 in
    let '(z2, value') :=
      if negb (up =? 0) then
        let z2 :=
          if uint dsval <=? uint (max_value z1 - subvalue z1)
          then with_subvalue (uint (subvalue z1 + dsval)) z1
          else with_subvalue (max_value z1) z1 in
        (z2, sint (subvalue z2 / ZYNCODER_TICKS_PER_RETENT))
      else if negb (down =? 0) then
        let z2 :=
          if uint dsval <=? subvalue z1
          then with_subvalue (uint (subvalue z1 - dsval)) z1
          else with_subvalue 0 z1 in
        (z2, sint (uint (subvalue z2 + ZYNCODER_TICKS_PER_RETENT - 1)
                   / ZYNCODER_TICKS_PER_RETENT))
      else (z1, -1) in
    let z3 := with_tsus now z2 in
    if (0 <=? value') && negb (value z3 =? uint value')
    then Ok (with_value (uint value') z3, true)
    else Ok (z3, false)
  else
    let last_value := value z in
    let z1 := if max_value z <? value z then with_value (max_value z) z else z in
    let z2 :=
      if (step z1 <=? uint (max_value z1 - value z1)) && negb (up =? 0)
      then with_value (uint (value z1 + step z1)) z1
      else if (step z1 <=? value z1) && negb (down =? 0)
      then with_value (uint (value z1 - step z1)) z1
      else z1 in
    Ok (z2, negb (last_value =? value z2)).

(** Lines 582-671. *)
Definition update_zyncoder (i : nat) (src : zyncoder_source) (now : Z)
    (st : state) : outcome state :=
  if (MAX_NUM_ZYNCODERS <=? i)%nat then Ok st else
  match nth_error (zyncoders st) i with
  | None => Fault OutOfBounds
  | Some z =>
      if negb (enabled z) then Ok st else
      '(z1, up, down) <- decode_zyncoder src z ;;
      '(z2, send) <- advance_zyncoder up down now z1 ;;
      let st' := set_zyncoder i z2 st in
      Ok (if send then send_zyncoder i st' else st')
  end.

(** Lines 765-768. *)
Definition get_value_zyncoder (i : nat) (st : state) : Z * state :=
  if (MAX_NUM_ZYNCODERS <=? i)%nat then (0, st) else
  match nth_error (zyncoders st) i with
  | None => (0, st)
  | Some z => (value z, st)
  end.

(** Lines 770-786. *)
Definition set_value_zyncoder (i : nat) (v : Z) (send : Z) (st : state)
  : state :=
  if (MAX_NUM_ZYNCODERS <=? i)%nat then st else
  match nth_error (zyncoders st) i with
  | None => st
  | Some z =>
      if negb (enabled z) then st else
      let z' :=
        if step z =? 0 then
          let v := uint (v * ZYNCODER_TICKS_PER_RETENT) in
          let z1 := if max_value z <? v then with_subvalue (max_value z) z
                    else with_subvalue v z in
          with_value (subvalue z1 / ZYNCODER_TICKS_PER_RETENT) z1
        else
          if max_value z <? v then with_value (max_value z) z
          else with_value v z in
      let st' := set_zyncoder i z' st in
      if negb (send =? 0) then send_zyncoder i st' else st'
  end.

(** ** The MCP23017 interrupt routine (lines 794-859) *)

(** [bitRead(reg, bit)] on the promoted register: a shift by 32 or more
    is undefined. *)
Definition bitRead_reg (reg bit : Z) : outcome Z :=
  if 32 <=? bit then Fault ShiftTooWide else Ok (bitRead reg bit).

Definition zyncoder_mcp23017_ISR (base_pin bank : Z) (inp : isr_inputs)
    (st : state) : outcome state :=
  let reg := uint8_t (isr_reg inp) in
  let pin_min := if bank =? 0 then uint8_t base_pin else uint8_t (base_pin + 8) in
  let pin_max := uint8_t (pin_min + 7) in
  let in_bank pin := (pin_min <=? pin) && (pin <=? pin_max) in
  r1 <- for_loop_out (fun i st =>
    match nth_error (zyncoders st) i with
    | None => Ok (st, Continue)
    | Some z =>
        if negb (enabled z) then Ok (st, Continue) else
        if in_bank (pin_a z) || in_bank (pin_b z) then
          state_a <- bitRead_reg reg (uint8_t (pin_a z - pin_min)) ;;
          state_b <- bitRead_reg reg (uint8_t (pin_b z - pin_min)) ;;
          if negb (state_a =? pin_a_last_state z)
             || negb (state_b =? pin_b_last_state z)
          then
            st' <- update_zyncoder i (from_args state_a state_b)
                     (isr_now_zyncoder inp i) st ;;
            match nth_error (zyncoders st') i with
            | None => Fault OutOfBounds
            | Some z' =>
                Ok (set_zyncoder i
                      (with_pin_b_last_state state_b
                         (with_pin_a_last_state state_a z')) st', Continue)
            end
          else Ok (st, Continue)
        else Ok (st, Continue)
    end) 0 MAX_NUM_ZYNCODERS st ;;
  r2 <- for_loop_out (fun i st =>
    match nth_error (zynswitches st) i with
    | None => Ok (st, Continue)
    | Some zs =>
        if negb (sw_enabled zs) then Ok (st, Continue) else
        if in_bank (sw_pin zs) then
          state' <- bitRead_reg reg (uint8_t (sw_pin zs - pin_min)) ;;
          if negb (state' =? sw_status zs)
          then Ok (update_zynswitch i (status_arg state')
                     (isr_now_zynswitch inp i) st, Continue)
          else Ok (st, Continue)
        else Ok (st, Continue)
    end) 0 MAX_NUM_ZYNSWITCHES (fst r1) ;;
  Ok (fst r2).

(** [zyncoder_mcp23017_bankA_ISR(); zyncoder_mcp23017_bankB_ISR();] *)
Definition zyncoder_mcp23017_bank_ISRs (hw : hw_inputs) (st : state)
  : outcome state :=
  st' <- zyncoder_mcp23017_ISR MCP23017_BASE_PIN 0 (hw_bankA hw) st ;;
  zyncoder_mcp23017_ISR MCP23017_BASE_PIN 1 (hw_bankB hw) st'.

(** ** Setup *)

(** Lines 457-489.  The result is the index of the record the returned
    pointer points to, [None] for [NULL].  The tables
    [update_zynswitch_funcs] and [update_zyncoder_funcs] have eight
    entries. *)
Definition setup_zynswitch (w : wiring) (i : nat) (pin : Z) (hw : hw_inputs)
    (st : state) : outcome (option nat * state) :=
  if (MAX_NUM_ZYNSWITCHES <=? i)%nat then
    Ok (None, emit (printf MaxZynswitchesExceeded) st)
  else
    match nth_error (zynswitches st) i with
    | None => Fault OutOfBounds
    | Some zs =>
        let zs' :=
          with_sw_status 0 (with_sw_dtus 0 (with_sw_tsus 0
            (with_sw_pin pin (with_sw_enabled true zs)))) in
        let st1 := set_zynswitch i zs' st in
        st2 <-
          match w with
          | UART_ENCODERS => Ok st1
          | _ =>
              if 0 <? pin then
                let st2 := emit (pullUpDnControl_PUD_UP pin)
                             (emit (pinMode_INPUT pin) st1) in
                match w with
                | MCP23017_ENCODERS => zyncoder_mcp23017_bank_ISRs hw st2
                | MCP23008_ENCODERS =>
                    if pin <? MCP23008_BASE_PIN then
                      if (8 <=? i)%nat then Fault OutOfBounds else
                      Ok (update_zynswitch i
                            (status_digitalRead (hw_digitalRead hw)) (hw_now hw)
                            (emit (wiringPiISR_EDGE_BOTH pin (update_zynswitch_funcs i))
                               st2))
                    else Ok st2
                | _ => Ok st2
                end
              else Ok st1
          end ;;
        Ok (Some i, st2)
    end.

(** The OSC binding of [setup_zyncoder] (lines 711-722). *)
Definition setup_osc (osc_path' : option string) (z : zyncoder_st)
  : outcome zyncoder_st :=
  match osc_path' with
  | Some s =>
      match strtok s with
      | None => Fault NullPointer
      | Some (osc_port_str, rest) =>
          let z1 := with_osc_port (uint (atoi osc_port_str)) z in
          if 0 <? osc_port z1 then
            let z2 := with_osc_lo_addr (lo_address_new osc_port_str) z1 in
            match strtok rest with
            | None => Fault NullPointer
            | Some (path, _) =>
                if (OSC_PATH_SIZE <=? String.length path)%nat
                then Fault OutOfBounds
                else Ok (with_osc_path path z2)
            end
          else Ok (with_osc_path "" z1)
      end
  | None => Ok (with_osc_path "" z)
  end.

(** Lines 696-763. *)
Definition setup_zyncoder (w : wiring) (i : nat)
    (pin_a' pin_b' midi_chan' midi_ctrl' : Z) (osc_path' : option string)
    (value' max_value' step' : Z) (hw : hw_inputs) (st : state)
  : outcome (option nat * state) :=
  if (MAX_NUM_ZYNCODERS <? i)%nat then
    Ok (None, emit (printf MaxZyncodersExceeded) st)
  else
    match nth_error (zyncoders st) i with
    | None => Fault OutOfBounds
    | Some z =>
        let midi_chan' := if 15 <? midi_chan' then 0 else midi_chan' in
        let midi_ctrl' := if 127 <? midi_ctrl' then 1 else midi_ctrl' in
        let z1 := with_midi_ctrl midi_ctrl' (with_midi_chan midi_chan' z) in
        z2 <- setup_osc osc_path' z1 ;;
        let value' := if max_value' <? value' then max_value' else value' in
        let z3 := with_step step' z2 in
        let z4 :=
          if 0 <? step' then
            with_max_value max_value' (with_subvalue 0 (with_value value' z3))
          else
            with_max_value (uint (ZYNCODER_TICKS_PER_RETENT * max_value'))
              (with_subvalue (uint (ZYNCODER_TICKS_PER_RETENT * value'))
                 (with_value value' z3)) in
        if negb (enabled z4) || negb (pin_a z4 =? pin_a') || negb (pin_b z4 =? pin_b')
        then
          let z5 :=
            with_tsus 0 (with_last_encoded 0 (with_pin_b pin_b'
              (with_pin_a pin_a' (with_enabled true z4)))) in
          let st1 := set_zyncoder i z5 st in
          st2 <-
            match w with
            | UART_ENCODERS => Ok st1
            | _ =>
                if negb (pin_a' =? pin_b') then
                  let st2 :=
                    emit (pullUpDnControl_PUD_UP pin_b')
                      (emit (pullUpDnControl_PUD_UP pin_a')
                         (emit (pinMode_INPUT pin_b')
                            (emit (pinMode_INPUT pin_a') st1))) in
                  match w with
                  | MCP23017_ENCODERS => zyncoder_mcp23017_bank_ISRs hw st2
                  | MCP23008_ENCODERS =>
                      if (8 <=? i)%nat then Fault OutOfBounds else
                      Ok (emit (wiringPiISR_EDGE_BOTH pin_b' (update_zyncoder_funcs i))
                            (emit (wiringPiISR_EDGE_BOTH pin_a' (update_zyncoder_funcs i))
                               st2))
                  | _ => Ok st2
                  end
                else Ok st1
            end ;;
          Ok (Some i, st2)
        else Ok (Some i, set_zyncoder i z4 st)
    end.

(** ** The UART transport (lines 895-1036) *)

(** Lines 1008-1019. *)
Definition flushBuffer (st : state) : state :=
  with_buffer (repeat 0 (Z.to_nat BUFFER_SIZE_BYTES))
    (with_elementsInBuffer 0 (with_tail 0 (with_prev_head 0 (with_head 0 st)))).

(** Lines 955-977. *)
Definition insertInBuffer (element : Z) (st : state) : state :=
  let st1 := with_prev_head (head st) st in
  let st2 := with_buffer (array_set (buffer st1) (Z.to_nat (head st1)) element) st1 in
  let st3 := with_head (uint8_t (head st2 + 1)) st2 in
  let st4 := if BUFFER_SIZE_BYTES <=? head st3 then with_head 0 st3 else st3 in
  if BUFFER_SIZE_BYTES <=? elementsInBuffer st4 then
    let st5 := with_tail (uint8_t (tail st4 + 1)) st4 in
    if BUFFER_SIZE_BYTES <=? tail st5 then with_tail 0 st5 else st5
  else with_elementsInBuffer (uint8_t (elementsInBuffer st4 + 1)) st4.

(** Lines 979-1006: the return value and the caller's [pBuffer]. *)
Definition getBufferData (pBuffer : list Z) (st : state) : Z * list Z :=
  match
    for_loop_ret (fun cnt pBuffer =>
      let k := head st + Z.of_nat cnt + 1 in
      let idx := if BUFFER_SIZE_BYTES <=? k then k - BUFFER_SIZE_BYTES else k in
      let b := nth (Z.to_nat idx) (buffer st) 0 in
      if (b =? START_FRAME_VALUE) || (b =? END_FRAME_VALUE) || (b =? 0xFF)
      then (pBuffer, Return)
      else (array_set pBuffer cnt b, Continue))
      0 (Z.to_nat PAYLOAD_SIZE_BYTES) pBuffer
  with
  | (p, Return) => (1, p)
  | (p, Continue) => (0, p)
  end.

(** Lines 1021-1036. *)
Definition checkFraming (startByte endByte : Z) (st : state) : Z * state :=
  if (nth (Z.to_nat (tail st)) (buffer st) 0 =? startByte)
     && (nth (Z.to_nat (prev_head st)) (buffer st) 0 =? endByte)
     && (BUFFER_SIZE_BYTES <=? elementsInBuffer st)
  then (1, st)
  else if BUFFER_SIZE_BYTES <=? elementsInBuffer st
  then (0, emit serialFlush (flushBuffer st))
  else (0, st).

(** One turn of the [while (1)] of [uart_thread] (lines 910-938): [c] is
    what [serialGetchar] returned, [payload] the thread's local array. *)
Definition uart_thread_iteration (c : Z) (now_zyncoder : nat -> Z)
    (now_zynswitches : Z) (payload : list Z) (st : state)
  : outcome (list Z * state) :=
  let st1 := insertInBuffer (uint8_t c) st in
  let (framed, st2) := checkFraming START_FRAME_VALUE END_FRAME_VALUE st1 in
  if framed =? 0 then Ok (payload, st2) else
  let (corrupt, payload') := getBufferData payload st2 in
  if corrupt =? 0 then
    let st3 := flushBuffer st2 in
    r <- for_loop_out (fun i st =>
           st' <- update_zyncoder i (from_data payload') (now_zyncoder i) st ;;
           Ok (st', Continue)) 0 MAX_NUM_ZYNCODERS st3 ;;
    st5 <- update_zynswitches payload' now_zynswitches (fst r) ;;
    Ok (payload', st5)
  else Ok (payload', emit (printf CorruptUartDataBlock) st2).

(** ** Initial state *)

Definition zero_zyncoder : zyncoder_st :=
  {| enabled := false; pin_a := 0; pin_b := 0;
     pin_a_last_state := 0; pin_b_last_state := 0;
     midi_chan := 0; midi_ctrl := 0;
     osc_port := 0; osc_lo_addr := 0; osc_path := "";
     max_value := 0; step := 0; subvalue := 0; value := 0;
     last_encoded := 0; tsus := 0;
     dtus := repeat 0 (Z.to_nat ZYNCODER_TICKS_PER_RETENT) |}.

Definition zero_zynswitch : zynswitch_st :=
  {| sw_enabled := false; sw_pin := 0; sw_tsus := 0; sw_dtus := 0;
     sw_status := 0;
     sw_midi_event :=
       {| ev_type := NONE_EVENT; ev_chan := 0; ev_num := 0; ev_val := 0 |};
     sw_last_cvgate_note := 0 |}.

(** The zero-initialised globals after [init_zyncoder] (lines 177-200)
    has disabled every record. *)
Definition init_zyncoder : state :=
  {| zyncoders := repeat zero_zyncoder MAX_NUM_ZYNCODERS;
     zynswitches := repeat zero_zynswitch MAX_NUM_ZYNSWITCHES;
     buffer := repeat 0 (Z.to_nat BUFFER_SIZE_BYTES);
     head := 0; prev_head := 0; tail := 0; elementsInBuffer := 0;
     trace := [] |}.

Definition wf_state (st : state) : Prop :=
  List.length (zyncoders st) = MAX_NUM_ZYNCODERS
  /\ List.length (zynswitches st) = MAX_NUM_ZYNSWITCHES.

(** ** Well-typed values and records *)

Definition is_uint8 (x : Z) : Prop := 0 <= x < 2 ^ 8.
Definition is_uint (x : Z) : Prop := 0 <= x < 2 ^ 32.

Definition zyncoder_ok (z : zyncoder_st) : Prop :=
  is_uint (max_value z) /\ is_uint (step z)
  /\ is_uint (subvalue z) /\ is_uint (value z).

(** ** Runs of ticks in one direction *)

(** The encoder after the ticks read at the times [nows], all of them
    decoded as [up], [down]. *)
Fixpoint ticks (up down : Z) (nows : list Z) (z : zyncoder_st)
  : outcome zyncoder_st :=
  match nows with
  | [] => Ok z
  | now :: rest =>
      r <- advance_zyncoder up down now z ;;
      ticks up down rest (fst r)
  end.

(** Every tick of the run passes the 1 ms filter of velocity mode and is
    defined. *)
Fixpoint all_accepted (up down : Z) (nows : list Z) (z : zyncoder_st) : Prop :=
  match nows with
  | [] => True
  | now :: rest =>
      (step z = 0 -> 1000 <= uint (now - tsus z))
      /\ match advance_zyncoder up down now z with
         | Ok (z', _) => all_accepted up down rest z'
         | Fault _ => False
         end
  end.

(** The bound an encoder was set up with, from its fields: velocity mode
    stores [max_value] in ticks. *)
Definition configured_max (z : zyncoder_st) : Z :=
  if step z =? 0 then max_value z / ZYNCODER_TICKS_PER_RETENT else max_value z.

(** Every long enough run of accepted ticks in one direction ends in an
    encoder that satisfies [P]. *)
Definition drives_to (up down : Z) (P : zyncoder_st -> Prop) (z : zyncoder_st)
  : Prop :=
  exists n : nat, forall nows,
    (n <= List.length nows)%nat -> all_accepted up down nows z ->
    exists z', ticks up down nows z = Ok z' /\ P z'.

(** ** States reachable through the setup and encoder interface *)

(** [g i] is the [max_value] encoder [i] was last set up with. *)
Definition configure (g : nat -> Z) (i : nat) (m : Z) : nat -> Z :=
  fun j => if (j =? i)%nat then m else g j.

Definition midi_guard : Type := (nat -> Z) -> state -> Z -> Z -> Z -> Prop.

Definition any_midi : midi_guard := fun _ _ _ _ _ => True.

(** The inbound value is within the bound of every encoder it reaches. *)
Definition bounded_midi : midi_guard := fun g st chan ctrl val =>
  forall j z, nth_error (zyncoders st) j = Some z -> enabled z = true ->
    midi_chan z = chan -> midi_ctrl z = ctrl -> val <= g j.

(** The control change each switch is bound to passes the guard: an edge
    of the switch hands it to [midi_event_zyncoders] (line 290). *)
Definition switches_guarded (G : midi_guard) (g : nat -> Z) (st : state)
  : Prop :=
  forall zs, In zs (zynswitches st) ->
    ev_type (sw_midi_event zs) = CTRL_CHANGE ->
    G g st (ev_chan (sw_midi_event zs)) (ev_num (sw_midi_event zs))
      (ev_val (sw_midi_event zs)).

Definition source_of (w : wiring) (src : zyncoder_source) : Prop :=
  match w, src with
  | PLAIN_WIRING, from_args _ _ => True
  | MCP23017_ENCODERS, from_args _ _ => True
  | MCP23008_ENCODERS, from_digitalRead _ => True
  | UART_ENCODERS, from_data _ => True
  | _, _ => False
  end.

(** The builds whose setup functions run a switch path: the interrupt
    routine on the MCP23017 build (lines 478-479, 752-753),
    [update_zynswitch] on the MCP23008 build (line 483). *)
Definition setup_runs_switches (w : wiring) : bool :=
  match w with
  | MCP23017_ENCODERS | MCP23008_ENCODERS => true
  | PLAIN_WIRING | UART_ENCODERS => false
  end.

(** The states of the build [w] reached from [init_zyncoder] through the
    three setup functions, encoder ticks, programmatic sets and inbound
    MIDI.  [G] guards the values that reach [midi_event_zyncoders]: the
    [val] of a direct call and, on the builds whose setup functions run
    a switch path, the control change of every switch binding once a
    setup call has bound a switch or set up an encoder. *)
Inductive reachable (G : midi_guard) (w : wiring) : state -> (nat -> Z) -> Prop :=
| reach_init_zyncoder :
    reachable G w init_zyncoder (fun _ => 0)
| reach_setup_zyncoder st g i pin_a' pin_b' chan ctrl osc v m s hw r st' :
    reachable G w st g ->
    is_uint v -> is_uint m -> is_uint s ->
    setup_zyncoder w i pin_a' pin_b' chan ctrl osc v m s hw st = Ok (r, st') ->
    (setup_runs_switches w = true ->
     switches_guarded G
       (match r with Some _ => configure g i m | None => g end) st') ->
    reachable G w st' (match r with Some _ => configure g i m | None => g end)
| reach_setup_zynswitch st g i pin hw r st' :
    reachable G w st g ->
    setup_zynswitch w i pin hw st = Ok (r, st') ->
    reachable G w st' g
| reach_setup_zynswitch_midi st g i evt chan num val :
    reachable G w st g ->
    is_uint8 val ->
    (setup_runs_switches w = true ->
     switches_guarded G g (snd (setup_zynswitch_midi i evt chan num val st))) ->
    reachable G w (snd (setup_zynswitch_midi i evt chan num val st)) g
| reach_update_zyncoder st g i src now st' :
    reachable G w st g ->
    source_of w src ->
    update_zyncoder i src now st = Ok st' ->
    reachable G w st' g
| reach_set_value_zyncoder st g i v send :
    reachable G w st g ->
    is_uint v ->
    reachable G w (set_value_zyncoder i v send st) g
| reach_midi_event_zyncoders st g chan ctrl val :
    reachable G w st g ->
    is_uint8 val -> G g st chan ctrl val ->
    reachable G w (midi_event_zyncoders chan ctrl val st) g.

Definition value_in_bounds (st : state) (g : nat -> Z) : Prop :=
  forall i z, nth_error (zyncoders st) i = Some z -> enabled z = true ->
    0 <= value z <= g i.

(** ** States reachable through the whole library *)

Inductive lib_reachable : state -> Prop :=
| lib_init_zyncoder :
    lib_reachable init_zyncoder
| lib_setup_zynswitch st w i pin hw r st' :
    lib_reachable st ->
    setup_zynswitch w i pin hw st = Ok (r, st') -> lib_reachable st'
| lib_setup_zynswitch_midi st i evt chan num val :
    lib_reachable st ->
    lib_reachable (snd (setup_zynswitch_midi i evt chan num val st))
| lib_get_zynswitch_dtus st i long_dtus now :
    lib_reachable st ->
    lib_reachable (snd (get_zynswitch_dtus i long_dtus now st))
| lib_update_zynswitch st i src now :
    lib_reachable st -> lib_reachable (update_zynswitch i src now st)
| lib_update_expanded_zynswitches st digitalRead now :
    lib_reachable st ->
    lib_reachable (update_expanded_zynswitches digitalRead now st)
| lib_update_zynswitches st data now st' :
    lib_reachable st ->
    update_zynswitches data now st = Ok st' -> lib_reachable st'
| lib_zyncoder_mcp23017_ISR st bank inp st' :
    lib_reachable st ->
    zyncoder_mcp23017_ISR MCP23017_BASE_PIN bank inp st = Ok st' ->
    lib_reachable st'
| lib_uart_thread_iteration st c nz ns payload payload' st' :
    lib_reachable st ->
    uart_thread_iteration c nz ns payload st = Ok (payload', st') ->
    lib_reachable st'
| lib_setup_zyncoder st w i pin_a' pin_b' chan ctrl osc v m s hw r st' :
    lib_reachable st ->
    setup_zyncoder w i pin_a' pin_b' chan ctrl osc v m s hw st = Ok (r, st') ->
    lib_reachable st'
| lib_update_zyncoder st i src now st' :
    lib_reachable st ->
    update_zyncoder i src now st = Ok st' -> lib_reachable st'
| lib_set_value_zyncoder st i v send :
    lib_reachable st -> lib_reachable (set_value_zyncoder i v send st)
| lib_midi_event_zyncoders st chan ctrl val :
    lib_reachable st -> lib_reachable (midi_event_zyncoders chan ctrl val st).

(** What a switch path that read [level] for a switch at time [now] has
    done to it: [status] is the level; [dtus] is untouched unless the
    level is a release that closes a press stamped [sw_tsus zs], measured
    at 1 ms or more; [tsus] is untouched, cleared, or stamped [now] by a
    press edge. *)
Definition switch_observed (release level now : Z) (zs zs' : zynswitch_st)
  : Prop :=
  sw_status zs' = level
  /\ (sw_dtus zs' = sw_dtus zs
      \/ (level = release /\ sw_status zs <> release /\ 0 < sw_tsus zs
          /\ sw_dtus zs' = uint (now - sw_tsus zs) /\ 1000 <= sw_dtus zs'))
  /\ (sw_tsus zs' = sw_tsus zs \/ sw_tsus zs' = 0
      \/ (level <> release /\ sw_status zs <> level /\ sw_tsus zs' = now)).

(** ** The UART ring buffer *)

(** The [k]-th oldest byte of the ring. *)
Definition ring_nth (st : state) (k : Z) : Z :=
  nth (Z.to_nat ((tail st + k) mod BUFFER_SIZE_BYTES)) (buffer st) 0.

(** The shape of the ring in every state [flushBuffer] and
    [insertInBuffer] lead to. *)
Definition ring_inv (st : state) : Prop :=
  List.length (buffer st) = Z.to_nat BUFFER_SIZE_BYTES
  /\ 0 <= elementsInBuffer st <= BUFFER_SIZE_BYTES
  /\ 0 <= head st < BUFFER_SIZE_BYTES
  /\ (elementsInBuffer st < BUFFER_SIZE_BYTES ->
      tail st = 0 /\ head st = elementsInBuffer st)
  /\ (elementsInBuffer st = BUFFER_SIZE_BYTES -> tail st = head st).

Definition reserved_byte (b : Z) : Prop :=
  b = START_FRAME_VALUE \/ b = END_FRAME_VALUE \/ b = 0xFF.

(** The ring after [c] was inserted holds a frame whose payload has a
    reserved byte. *)
Definition corrupt_frame (c : Z) (st : state) : Prop :=
  let st1 := insertInBuffer (uint8_t c) st in
  elementsInBuffer st1 = BUFFER_SIZE_BYTES
  /\ ring_nth st1 0 = START_FRAME_VALUE
  /\ ring_nth st1 3 = END_FRAME_VALUE
  /\ (reserved_byte (ring_nth st1 1) \/ reserved_byte (ring_nth st1 2)).

Definition ring_flushed (st : state) : Prop :=
  elementsInBuffer st = 0 /\ head st = 0 /\ tail st = 0
  /\ buffer st = repeat 0 (Z.to_nat BUFFER_SIZE_BYTES).

(** ** The claims that do not hold as they are stated *)

(** C1 as stated: any value may reach [midi_event_zyncoders]. *)
Definition bound_invariant_claim (w : wiring) : Prop :=
  forall st g, reachable any_midi w st g -> value_in_bounds st g.

(** C2 as stated: a tick whose [sum] is in neither set is a no-op: it
    stores the pins in [last_encoded] and does nothing else. *)
Definition quadrature_noop_claim : Prop :=
  forall st i z MSB LSB now st',
    (i < MAX_NUM_ZYNCODERS)%nat ->
    nth_error (zyncoders st) i = Some z -> enabled z = true ->
    let encoded := quadrature_encoded MSB LSB in
    let sum := quadrature_sum (last_encoded z) encoded in
    ~ In sum [13; 4; 2; 11] -> ~ In sum [14; 7; 1; 8] ->
    update_zyncoder i (from_args MSB LSB) now st = Ok st' ->
    st' = set_zyncoder i (with_last_encoded encoded z) st.

(** C3 as stated: every operation logs and returns null or 0 at every
    index at or above the capacity. *)
Definition soft_fail {R : Type} (null : R) (st : state) (r : outcome (R * state))
  : Prop :=
  exists msg, r = Ok (null, emit (printf msg) st).

Definition out_of_bounds_claim : Prop :=
  forall st, wf_state st ->
    (forall w i pin_a' pin_b' chan ctrl osc v m s hw,
        (MAX_NUM_ZYNCODERS <= i)%nat ->
        soft_fail None st (setup_zyncoder w i pin_a' pin_b' chan ctrl osc v m s hw st))
    /\ (forall w i pin hw,
        (MAX_NUM_ZYNSWITCHES <= i)%nat ->
        soft_fail None st (setup_zynswitch w i pin hw st))
    /\ (forall i evt chan num val,
        (MAX_NUM_ZYNSWITCHES <= i)%nat ->
        soft_fail 0 st (Ok (setup_zynswitch_midi i evt chan num val st)))
    /\ (forall i,
        (MAX_NUM_ZYNCODERS <= i)%nat ->
        soft_fail 0 st (Ok (get_value_zyncoder i st)))
    /\ (forall i long_dtus now,
        (MAX_NUM_ZYNSWITCHES <= i)%nat ->
        soft_fail 0 st (Ok (get_zynswitch_dtus i long_dtus now st))).

(** C4 as stated: a tick less than 1 ms after the last one changes
    nothing, whatever the mode. *)
Definition debounce_claim : Prop :=
  forall st i z src now st',
    (i < MAX_NUM_ZYNCODERS)%nat ->
    nth_error (zyncoders st) i = Some z -> enabled z = true ->
    uint (now - tsus z) < 1000 ->
    update_zyncoder i src now st = Ok st' ->
    exists z', nth_error (zyncoders st') i = Some z'
      /\ value z' = value z /\ subvalue z' = subvalue z
      /\ last_encoded z' = last_encoded z /\ tsus z' = tsus z.

(** C5 as stated: enough accepted ticks in one direction end at exactly
    the bound, in both modes. *)
Definition saturation_claim : Prop :=
  forall z, zyncoder_ok z ->
    0 <= subvalue z <= max_value z -> value z <= configured_max z ->
    drives_to 1 0 (fun z' => value z' = configured_max z) z
    /\ drives_to 0 1 (fun z' => value z' = 0) z.

(** C9 as stated: a corrupt frame flushes the ring and the serial
    device. *)
Definition corrupt_frame_claim : Prop :=
  forall st c nz ns payload,
    ring_inv st -> corrupt_frame c st ->
    exists payload' st',
      uart_thread_iteration c nz ns payload st = Ok (payload', st')
      /\ zyncoders st' = zyncoders st /\ zynswitches st' = zynswitches st
      /\ ring_flushed st'
      /\ exists evs, trace st' = trace st ++ evs /\ In serialFlush evs.

(** What [midi_event_zyncoders] does to one encoder. *)
Definition midi_event_zyncoder (chan ctrl val : Z) (z : zyncoder_st)
  : zyncoder_st :=
  if enabled z && (midi_chan z =? chan) && (midi_ctrl z =? ctrl)
  then with_subvalue (uint (val * ZYNCODER_TICKS_PER_RETENT)) (with_value val z)
  else z.

(** Everything but the encoder array is the same in both states. *)
Definition same_but_zyncoders (st st' : state) : Prop :=
  zynswitches st' = zynswitches st /\ buffer st' = buffer st
  /\ head st' = head st /\ prev_head st' = prev_head st
  /\ tail st' = tail st /\ elementsInBuffer st' = elementsInBuffer st
  /\ trace st' = trace st.

(** The pins a quadrature tick reads. *)
Definition pins_read (src : zyncoder_source) (z : zyncoder_st) : option (Z * Z) :=
  match src with
  | from_args MSB LSB => Some (MSB, LSB)
  | from_digitalRead digitalRead =>
      Some (uint8_t (digitalRead (pin_a z)), uint8_t (digitalRead (pin_b z)))
  | from_data _ => None
  end.

(** What the encoder interface keeps true of an enabled encoder set up
    with the bound [M]: [value] is within it; in fixed-step mode
    [max_value] is [M]; in velocity mode [max_value] is [M] in ticks and
    [subvalue] is within it, unless [M] in ticks does not fit an
    unsigned int. *)
Definition zyncoder_inv (M : Z) (z : zyncoder_st) : Prop :=
  0 <= value z <= M
  /\ is_uint (step z) /\ is_uint (max_value z) /\ is_uint (subvalue z)
  /\ (step z = 0 ->
      (ZYNCODER_TICKS_PER_RETENT * M < 2 ^ 32
       /\ max_value z = ZYNCODER_TICKS_PER_RETENT * M
       /\ subvalue z <= max_value z)
      \/ 2 ^ 32 <= ZYNCODER_TICKS_PER_RETENT * M)
  /\ (step z <> 0 -> max_value z = M).

(** What decides which encoders an inbound control change reaches. *)
Definition binding (z : zyncoder_st) : bool * Z * Z :=
  (enabled z, midi_chan z, midi_ctrl z).

(** Both states bind the same encoders to the same controllers and the
    same switches to the same events. *)
Definition same_bindings (st st' : state) : Prop :=
  (forall j, option_map binding (nth_error (zyncoders st') j)
             = option_map binding (nth_error (zyncoders st) j))
  /\ (forall j, option_map sw_midi_event (nth_error (zynswitches st') j)
                = option_map sw_midi_event (nth_error (zynswitches st) j)).

Definition encoders_inv (st : state) (g : nat -> Z) : Prop :=
  forall i z, nth_error (zyncoders st) i = Some z -> enabled z = true ->
    zyncoder_inv (g i) z.

(** The control change a switch is bound to carries a byte that is
    within the bound of every encoder it reaches. *)
Definition switch_events_inv (st : state) (g : nat -> Z) : Prop :=
  forall zs, In zs (zynswitches st) ->
    ev_type (sw_midi_event zs) = CTRL_CHANGE ->
    is_uint8 (ev_val (sw_midi_event zs))
    /\ bounded_midi g st (ev_chan (sw_midi_event zs))
         (ev_num (sw_midi_event zs)) (ev_val (sw_midi_event zs)).

Definition state_inv (st : state) (g : nat -> Z) : Prop :=
  switch_events_inv st g /\ encoders_inv st g.

(** The invariant of the build [w]: the switch bindings matter on the
    builds whose setup functions run a switch path. *)
Definition state_inv_on (w : wiring) (st : state) (g : nat -> Z) : Prop :=
  (setup_runs_switches w = true -> switch_events_inv st g)
  /\ encoders_inv st g.

(** A pending duration is one that passed the 1 ms filter. *)
Definition switch_inv (zs : zynswitch_st) : Prop :=
  sw_dtus zs = 0 \/ 1000 <= sw_dtus zs.

Definition switches_inv (st : state) : Prop :=
  forall zs, In zs (zynswitches st) -> switch_inv zs.

(** The level read for an enabled switch is a release that comes less
    than 1 ms after the press. *)
Definition spurious_release (release level now : Z) (zs : zynswitch_st)
  : Prop :=
  sw_enabled zs = true /\ level = release /\ sw_status zs <> release
  /\ 0 < sw_tsus zs /\ uint (now - sw_tsus zs) < 1000.

(** ** Library initialisation (lines 177-204) *)

(** What the first loop of [init_zyncoder] does to a switch (lines
    180-181) and the second to an encoder (lines 184-185). *)
Definition clear_zynswitch (zs : zynswitch_st) : zynswitch_st :=
  let zs1 := with_sw_enabled false zs in
  let ev := sw_midi_event zs1 in
  with_sw_midi_event
    {| ev_type := NONE_EVENT; ev_chan := ev_chan ev;
       ev_num := ev_num ev; ev_val := ev_val ev |} zs1.

Definition clear_zyncoder (z : zyncoder_st) : zyncoder_st :=
  let z1 := with_enabled false z in
  with_dtus
    (for_loop (fun j d => array_set d j 0) 0
       (Z.to_nat ZYNCODER_TICKS_PER_RETENT) (dtus z1)) z1.

(** The two loops of [init_zyncoder] (lines 179-186) on the globals as
    they are. *)
Definition init_zyncoder_arrays (st : state) : state :=
  let st1 :=
    for_loop (fun i st =>
      match nth_error (zynswitches st) i with
      | Some zs => set_zynswitch i (clear_zynswitch zs) st
      | None => st
      end) 0 MAX_NUM_ZYNSWITCHES st in
  for_loop (fun i st =>
    match nth_error (zyncoders st) i with
    | Some z => set_zyncoder i (clear_zyncoder z) st
    | None => st
    end) 0 MAX_NUM_ZYNCODERS st1.

(** [init_zyncoder()] as a call: its result, the globals after it and
    the calls it made to the hardware of the build. *)
Definition init_zyncoder_run (w : wiring) (inp : init_inputs) (st : state)
  : outcome (Z * state * list hw_call) :=
  let st' := init_zyncoder_arrays st in
  let setup := match w with UART_ENCODERS => [] | _ => [wiringPiSetup] end in
  calls <-
    match w with
    | MCP23017_ENCODERS =>
        r <- init_mcp23017 MCP23017_BASE_PIN MCP23017_I2C_ADDRESS
               MCP23017_INTA_PIN MCP23017_INTB_PIN
               (init_node inp) (init_iocon inp) (init_ioconb inp) ;;
        Ok (fst r)
    | MCP23008_ENCODERS =>
        Ok (mcp23008Setup MCP23008_BASE_PIN MCP23008_I2C_ADDRESS
            :: snd (init_poll_zynswitches (init_pthread_err inp)
                      (init_pthread_tid inp)))
    | UART_ENCODERS =>
        Ok (snd (init_uart_thread (init_pthread_err inp) (init_pthread_tid inp)))
    | PLAIN_WIRING => Ok []
    end ;;
  Ok (1, st', setup ++ calls).

(** Lines 202-204. *)
Definition end_zyncoder : Z := 1.

(** No encoder and no switch is enabled. *)
Definition all_disabled (st : state) : Prop :=
  (forall z, In z (zyncoders st) -> enabled z = false)
  /\ (forall zs, In zs (zynswitches st) -> sw_enabled zs = false).

(** ** Reading a switch (lines 536-538) *)

Definition get_zynswitch (i : nat) (long_dtus now : Z) (st : state)
  : Z * state :=
  get_zynswitch_dtus i long_dtus now st.

(** ** The UART thread (lines 895-941) *)

(** The [while (1)] of [uart_thread] over the bytes received so far. *)
Fixpoint uart_thread_loop (inputs : list uart_input) (payload : list Z)
    (st : state) : outcome (list Z * state) :=
  match inputs with
  | [] => Ok (payload, st)
  | inp :: rest =>
      r <- uart_thread_iteration (rx_char inp) (rx_now_zyncoder inp)
             (rx_now_zynswitches inp) payload st ;;
      uart_thread_loop rest (fst r) (snd r)
  end.

(** How far [uart_thread] got: it could not open the serial device,
    printed so on [stderr] and [stdout] and left through
    [pthread_exit((void * ) 1)], or it is in its loop. *)
Inductive uart_thread_progress : Type :=
| unable_to_open_serial_device (st : state)
| in_loop (payload : list Z) (st : state).

(** [fd] is what [serialOpen] returned, [payload] what the thread's local
    array holds when it starts. *)
Definition uart_thread_run (fd : Z) (inputs : list uart_input)
    (payload : list Z) (st : state) : outcome uart_thread_progress :=
  let st0 := flushBuffer st in
  if fd <? 0 then Ok (unable_to_open_serial_device st0)
  else
    r <- uart_thread_loop inputs payload (emit serialFlush st0) ;;
    Ok (in_loop (fst r) (snd r)).

(** What the loop does with a payload it accepts (lines 925-930): every
    encoder, then the switches. *)
Definition deliver_payload (payload : list Z) (now_zyncoder : nat -> Z)
    (now_zynswitches : Z) (st : state) : outcome state :=
  r <- for_loop_out (fun i st =>
         st' <- update_zyncoder i (from_data payload) (now_zyncoder i) st ;;
         Ok (st', Continue)) 0 MAX_NUM_ZYNCODERS st ;;
  update_zynswitches payload now_zynswitches (fst r).

(** The ring's indices are inside the buffer. *)
Definition ring_in_bounds (st : state) : Prop :=
  List.length (buffer st) = Z.to_nat BUFFER_SIZE_BYTES
  /\ 0 <= head st < BUFFER_SIZE_BYTES
  /\ 0 <= prev_head st < BUFFER_SIZE_BYTES
  /\ 0 <= tail st < BUFFER_SIZE_BYTES
  /\ 0 <= elementsInBuffer st <= BUFFER_SIZE_BYTES.

(** The states of the ring [uart_thread] goes through. *)
Inductive ring_reachable : state -> Prop :=
| ring_flushBuffer st :
    ring_reachable (flushBuffer st)
| ring_insertInBuffer st b :
    ring_reachable st -> ring_reachable (insertInBuffer (uint8_t b) st)
| ring_checkFraming st :
    ring_reachable st ->
    ring_reachable (snd (checkFraming START_FRAME_VALUE END_FRAME_VALUE st))
| ring_other st st' :
    ring_reachable st ->
    buffer st' = buffer st -> head st' = head st ->
    prev_head st' = prev_head st -> tail st' = tail st ->
    elementsInBuffer st' = elementsInBuffer st ->
    ring_reachable st'.

(** A string without the delimiter of [strtok(s, ":")]. *)
Fixpoint no_colon (s : string) : Prop :=
  match s with
  | EmptyString => True
  | String c s' => Ascii.eqb c ":"%char = false /\ no_colon s'
  end.

(** The two pin bits a quadrature tick reads are 0 or 1. *)
Definition is_bit (b : Z) : Prop := b = 0 \/ b = 1.

(** ** The MCP23017 interrupt routine, loop by loop *)

Definition in_bank (pin_min pin_max pin : Z) : bool :=
  (pin_min <=? pin) && (pin <=? pin_max).

(** The body of the encoder loop (lines 821-840). *)
Definition isr_zyncoder (reg pin_min pin_max : Z) (inp : isr_inputs)
    (i : nat) (st : state) : outcome (state * flow) :=
  match nth_error (zyncoders st) i with
  | None => Ok (st, Continue)
  | Some z =>
      if negb (enabled z) then Ok (st, Continue) else
      if in_bank pin_min pin_max (pin_a z) || in_bank pin_min pin_max (pin_b z)
      then
        state_a <- bitRead_reg reg (uint8_t (pin_a z - pin_min)) ;;
        state_b <- bitRead_reg reg (uint8_t (pin_b z - pin_min)) ;;
        if negb (state_a =? pin_a_last_state z)
           || negb (state_b =? pin_b_last_state z)
        then
          st' <- update_zyncoder i (from_args state_a state_b)
                   (isr_now_zyncoder inp i) st ;;
          match nth_error (zyncoders st') i with
          | None => Fault OutOfBounds
          | Some z' =>
              Ok (set_zyncoder i
                    (with_pin_b_last_state state_b
                       (with_pin_a_last_state state_a z')) st', Continue)
          end
        else Ok (st, Continue)
      else Ok (st, Continue)
  end.

(** The body of the switch loop (lines 843-857). *)
Definition isr_zynswitch (reg pin_min pin_max : Z) (inp : isr_inputs)
    (i : nat) (st : state) : outcome (state * flow) :=
  match nth_error (zynswitches st) i with
  | None => Ok (st, Continue)
  | Some zs =>
      if negb (sw_enabled zs) then Ok (st, Continue) else
      if in_bank pin_min pin_max (sw_pin zs) then
        state' <- bitRead_reg reg (uint8_t (sw_pin zs - pin_min)) ;;
        if negb (state' =? sw_status zs)
        then Ok (update_zynswitch i (status_arg state')
                   (isr_now_zynswitch inp i) st, Continue)
        else Ok (st, Continue)
      else Ok (st, Continue)
  end.

(** The routine has nothing to do for this encoder, or this switch: it
    is disabled, or outside the bank, or the register holds what the
    record holds. *)
Definition zyncoder_quiet (reg pin_min pin_max : Z) (z : zyncoder_st) : Prop :=
  enabled z = false
  \/ in_bank pin_min pin_max (pin_a z) || in_bank pin_min pin_max (pin_b z)
     = false
  \/ (bitRead_reg reg (uint8_t (pin_a z - pin_min)) = Ok (pin_a_last_state z)
      /\ bitRead_reg reg (uint8_t (pin_b z - pin_min))
         = Ok (pin_b_last_state z)).

Definition zynswitch_quiet (reg pin_min pin_max : Z) (zs : zynswitch_st)
  : Prop :=
  sw_enabled zs = false
  \/ in_bank pin_min pin_max (sw_pin zs) = false
  \/ bitRead_reg reg (uint8_t (sw_pin zs - pin_min)) = Ok (sw_status zs).

(** * Properties *)

Set Default Proof Using "Type".

Hypothesis TICKS_PER_RETENT_positive : 0 < ZYNCODER_TICKS_PER_RETENT.
Hypothesis TICKS_PER_RETENT_int : 10000 * ZYNCODER_TICKS_PER_RETENT < 2 ^ 31.

(** ** Arrays and loops *)

Lemma array_set_length {A : Type} (l : list A) i x :
  List.length (array_set l i x) = List.length l.
Proof.
  revert i; induction l as [|h t IH]; intros [|i]; simpl; auto.
Qed.

Lemma nth_error_array_set_eq {A : Type} (l : list A) i x :
  (i < List.length l)%nat -> nth_error (array_set l i x) i = Some x.
Proof.
  clear TICKS_PER_RETENT_positive TICKS_PER_RETENT_int.
  revert i; induction l as [|h t IH]; intros [|i] H; simpl in *; try lia; auto.
  apply IH; lia.
Qed.

Lemma nth_error_array_set_neq {A : Type} (l : list A) i j x :
  i <> j -> nth_error (array_set l i x) j = nth_error l j.
Proof.
  revert i j; induction l as [|h t IH]; intros [|i] [|j] H; simpl; auto;
    try congruence.
Qed.

Lemma array_set_same {A : Type} (l : list A) i x :
  nth_error l i = Some x -> array_set l i x = l.
Proof.
  revert i; induction l as [|h t IH]; intros [|i] H; simpl in *; try congruence.
  f_equal; auto.
Qed.

Lemma nth_error_Some_lt {A : Type} (l : list A) i x :
  nth_error l i = Some x -> (i < List.length l)%nat.
Proof.
  intros H. apply nth_error_Some. congruence.
Qed.

Lemma for_loop_invariant {S : Type} (P : nat -> S -> Prop) body n :
  forall i s,
    P i s ->
    (forall k s, (i <= k < i + n)%nat -> P k s -> P (Datatypes.S k) (body k s)) ->
    P (i + n)%nat (for_loop body i n s).
Proof.
  induction n as [|n IH]; intros i s H0 Hstep; simpl.
  - now rewrite Nat.add_0_r.
  - replace (i + Datatypes.S n)%nat with (Datatypes.S i + n)%nat by lia.
    apply IH.
    + apply Hstep; [lia | exact H0].
    + intros k s' Hk. apply Hstep. lia.
Qed.

(** ** Inbound MIDI *)

Lemma midi_event_zyncoders_spec chan ctrl val st :
  let st' := midi_event_zyncoders chan ctrl val st in
  same_but_zyncoders st st'
  /\ List.length (zyncoders st') = List.length (zyncoders st)
  /\ forall j, nth_error (zyncoders st') j =
       if (j <? MAX_NUM_ZYNCODERS)%nat
       then option_map (midi_event_zyncoder chan ctrl val) (nth_error (zyncoders st) j)
       else nth_error (zyncoders st) j.
Proof.
  unfold midi_event_zyncoders.
  set (body := fun (j : nat) (st0 : state) => _).
  pose (P := fun (k : nat) (s : state) =>
    same_but_zyncoders st s
    /\ List.length (zyncoders s) = List.length (zyncoders st)
    /\ forall j, nth_error (zyncoders s) j =
         if (j <? k)%nat
         then option_map (midi_event_zyncoder chan ctrl val) (nth_error (zyncoders st) j)
         else nth_error (zyncoders st) j).
  change (P (0 + MAX_NUM_ZYNCODERS)%nat (for_loop body 0 MAX_NUM_ZYNCODERS st)).
  apply for_loop_invariant.
  - unfold P, same_but_zyncoders. repeat split; auto.
  - intros k s _ (Hsame & Hlen & Hnth).
    assert (Hk : nth_error (zyncoders s) k = nth_error (zyncoders st) k).
    { rewrite Hnth. now rewrite Nat.ltb_irrefl. }
    unfold body.
    destruct (nth_error (zyncoders s) k) as [z|] eqn:Ez.
    + destruct (enabled z && (midi_chan z =? chan) && (midi_ctrl z =? ctrl)) eqn:Ehit.
      * unfold P, same_but_zyncoders, set_zyncoder in *; simpl.
        split; [exact Hsame|]. split; [now rewrite array_set_length|].
        intros j. destruct (Nat.eq_dec j k) as [->|Hjk].
        -- rewrite nth_error_array_set_eq
             by (apply nth_error_Some_lt with (x := z); exact Ez).
           replace (k <? Datatypes.S k)%nat with true
             by (symmetry; apply Nat.ltb_lt; lia).
           rewrite <- Hk. simpl. unfold midi_event_zyncoder. now rewrite Ehit.
        -- rewrite nth_error_array_set_neq by congruence.
           rewrite Hnth.
           destruct (j <? k)%nat eqn:E1; destruct (j <? Datatypes.S k)%nat eqn:E2;
             try reflexivity;
             [apply Nat.ltb_lt in E1; apply Nat.ltb_ge in E2; lia
             |apply Nat.ltb_ge in E1; apply Nat.ltb_lt in E2; lia].
      * unfold P. split; [exact Hsame|]. split; [exact Hlen|].
        intros j. destruct (Nat.eq_dec j k) as [->|Hjk].
        -- replace (k <? Datatypes.S k)%nat with true
             by (symmetry; apply Nat.ltb_lt; lia).
           rewrite Ez, <- Hk. simpl. unfold midi_event_zyncoder. now rewrite Ehit.
        -- rewrite Hnth.
           destruct (j <? k)%nat eqn:E1; destruct (j <? Datatypes.S k)%nat eqn:E2;
             try reflexivity;
             [apply Nat.ltb_lt in E1; apply Nat.ltb_ge in E2; lia
             |apply Nat.ltb_ge in E1; apply Nat.ltb_lt in E2; lia].
    + unfold P. split; [exact Hsame|]. split; [exact Hlen|].
      intros j. destruct (Nat.eq_dec j k) as [->|Hjk].
      * replace (k <? Datatypes.S k)%nat with true
          by (symmetry; apply Nat.ltb_lt; lia).
        rewrite Ez, <- Hk. reflexivity.
      * rewrite Hnth.
        destruct (j <? k)%nat eqn:E1; destruct (j <? Datatypes.S k)%nat eqn:E2;
          try reflexivity;
          [apply Nat.ltb_lt in E1; apply Nat.ltb_ge in E2; lia
          |apply Nat.ltb_ge in E1; apply Nat.ltb_lt in E2; lia].
Qed.

Lemma uint_small x : 0 <= x < 2 ^ 32 -> uint x = x.
Proof. intros H. unfold uint. now apply Z.mod_small. Qed.

Lemma uint_range x : 0 <= uint x < 2 ^ 32.
Proof. unfold uint. apply Z.mod_pos_bound. lia. Qed.

Lemma midi_value_ticks_fit val :
  is_uint8 val -> 0 <= val * ZYNCODER_TICKS_PER_RETENT < 2 ^ 32.
Proof using TICKS_PER_RETENT_positive TICKS_PER_RETENT_int.
  unfold is_uint8. intros H.
  assert (2 ^ 8 = 256) by reflexivity.
  assert (2 ^ 31 = 2147483648) by reflexivity.
  assert (2 ^ 32 = 4294967296) by reflexivity.
  nia.
Qed.

(** C7.  [midi_event_zyncoders] emits nothing: the trace is the one it
    started from, and so are the switches and the UART ring.  The encoder
    array keeps its length; an encoder changes in its [value] and
    [subvalue] fields only, and only if it is enabled and bound to
    [(chan, ctrl)], in which case they become [val] and
    [val * ZYNCODER_TICKS_PER_RETENT]. *)
Theorem midi_event_zyncoders_frame chan ctrl val st :
  let st' := midi_event_zyncoders chan ctrl val st in
  trace st' = trace st
  /\ same_but_zyncoders st st'
  /\ List.length (zyncoders st') = List.length (zyncoders st)
  /\ forall j z, nth_error (zyncoders st) j = Some z ->
       exists z', nth_error (zyncoders st') j = Some z'
         /\ z' = with_subvalue (subvalue z') (with_value (value z') z)
         /\ (z' <> z ->
             enabled z = true /\ midi_chan z = chan /\ midi_ctrl z = ctrl
             /\ value z' = val
             /\ subvalue z' = uint (val * ZYNCODER_TICKS_PER_RETENT)).
Proof.
  destruct (midi_event_zyncoders_spec chan ctrl val st) as (Hsame & Hlen & Hnth).
  cbv zeta. split; [apply Hsame|]. split; [exact Hsame|]. split; [exact Hlen|].
  intros j z Hz. rewrite Hnth, Hz.
  destruct (j <? MAX_NUM_ZYNCODERS)%nat; simpl.
  - unfold midi_event_zyncoder.
    destruct (enabled z && (midi_chan z =? chan) && (midi_ctrl z =? ctrl)) eqn:Ehit.
    + eexists; split; [reflexivity|]. split; [destruct z; reflexivity|].
      intros _.
      apply andb_prop in Ehit as [Ehit E3]. apply andb_prop in Ehit as [E1 E2].
      apply Z.eqb_eq in E2, E3. simpl. auto.
    + exists z. split; [reflexivity|]. split; [destruct z; reflexivity|].
      intros Hne. now elim Hne.
  - exists z. split; [reflexivity|]. split; [destruct z; reflexivity|].
    intros Hne. now elim Hne.
Qed.

(** C6.  Round trip through inbound MIDI: after
    [midi_event_zyncoders chan ctrl val], [get_value_zyncoder] on an
    enabled encoder bound to [(chan, ctrl)] returns [val], and the
    encoder's [subvalue] is [val * ZYNCODER_TICKS_PER_RETENT].  [val] is
    the [uint8_t] the function takes; the round trip needs no bound on it,
    so it holds for every [val <= max_value] in particular. *)
Theorem midi_event_zyncoders_round_trip st i z chan ctrl val :
  (i < MAX_NUM_ZYNCODERS)%nat ->
  nth_error (zyncoders st) i = Some z ->
  enabled z = true -> midi_chan z = chan -> midi_ctrl z = ctrl ->
  is_uint8 val ->
  let st' := midi_event_zyncoders chan ctrl val st in
  get_value_zyncoder i st' = (val, st')
  /\ exists z', nth_error (zyncoders st') i = Some z'
       /\ value z' = val
       /\ subvalue z' = val * ZYNCODER_TICKS_PER_RETENT.
Proof using TICKS_PER_RETENT_positive TICKS_PER_RETENT_int.
  intros Hi Hz Hen Hchan Hctrl Hval.
  destruct (midi_event_zyncoders_spec chan ctrl val st) as (_ & _ & Hnth).
  cbv zeta.
  assert (Hz' : nth_error (zyncoders (midi_event_zyncoders chan ctrl val st)) i =
                Some (with_subvalue (uint (val * ZYNCODER_TICKS_PER_RETENT))
                        (with_value val z))).
  { rewrite Hnth, Hz.
    replace (i <? MAX_NUM_ZYNCODERS)%nat with true
      by (symmetry; now apply Nat.ltb_lt).
    simpl. unfold midi_event_zyncoder.
    rewrite Hen, Hchan, Hctrl, !Z.eqb_refl. reflexivity. }
  split.
  - unfold get_value_zyncoder.
    replace (MAX_NUM_ZYNCODERS <=? i)%nat with false
      by (symmetry; apply Nat.leb_gt; exact Hi).
    now rewrite Hz'.
  - eexists. split; [exact Hz'|]. simpl. split; [reflexivity|].
    apply uint_small. now apply midi_value_ticks_fit.
Qed.

(** ** Encoder ticks *)

Lemma send_zyncoder_frame i st :
  zyncoders (send_zyncoder i st) = zyncoders st
  /\ zynswitches (send_zyncoder i st) = zynswitches st
  /\ buffer (send_zyncoder i st) = buffer st
  /\ head (send_zyncoder i st) = head st
  /\ prev_head (send_zyncoder i st) = prev_head st
  /\ tail (send_zyncoder i st) = tail st
  /\ elementsInBuffer (send_zyncoder i st) = elementsInBuffer st.
Proof.
  unfold send_zyncoder.
  repeat match goal with
         | |- context [if ?b then _ else _] => destruct b
         | |- context [match ?o with Some _ => _ | None => _ end] => destruct o
         end; simpl; repeat split; reflexivity.
Qed.

Lemma send_zyncoder_zyncoders i st :
  zyncoders (send_zyncoder i st) = zyncoders st.
Proof. apply send_zyncoder_frame. Qed.

Lemma send_zyncoder_zynswitches i st :
  zynswitches (send_zyncoder i st) = zynswitches st.
Proof. apply send_zyncoder_frame. Qed.

Lemma decode_zyncoder_pins src z MSB LSB :
  pins_read src z = Some (MSB, LSB) ->
  decode_zyncoder src z =
    Ok (with_last_encoded (quadrature_encoded MSB LSB) z,
        quadrature_up (quadrature_sum (last_encoded z) (quadrature_encoded MSB LSB)),
        quadrature_down (quadrature_sum (last_encoded z) (quadrature_encoded MSB LSB))).
Proof.
  destruct src; simpl; intros H; inversion H; subst; reflexivity.
Qed.

(** The tick of an enabled encoder, step by step. *)
Lemma update_zyncoder_enabled st i z src now :
  (i < MAX_NUM_ZYNCODERS)%nat ->
  nth_error (zyncoders st) i = Some z -> enabled z = true ->
  update_zyncoder i src now st =
    (r <- decode_zyncoder src z ;;
     r' <- advance_zyncoder (snd (fst r)) (snd r) now (fst (fst r)) ;;
     Ok (if snd r' then send_zyncoder i (set_zyncoder i (fst r') st)
         else set_zyncoder i (fst r') st)).
Proof.
  intros Hi Hz Hen. unfold update_zyncoder.
  replace (MAX_NUM_ZYNCODERS <=? i)%nat with false
    by (symmetry; apply Nat.leb_gt; exact Hi).
  rewrite Hz, Hen. simpl.
  destruct (decode_zyncoder src z) as [[[z1 up] down]|f]; simpl; [|reflexivity].
  destruct (advance_zyncoder up down now z1) as [[z2 send]|f]; reflexivity.
Qed.

Lemma update_zyncoder_result st i z src now st' :
  (i < MAX_NUM_ZYNCODERS)%nat ->
  nth_error (zyncoders st) i = Some z -> enabled z = true ->
  update_zyncoder i src now st = Ok st' ->
  exists z1 up down z2 send,
    decode_zyncoder src z = Ok (z1, up, down)
    /\ advance_zyncoder up down now z1 = Ok (z2, send)
    /\ st' = (if send then send_zyncoder i (set_zyncoder i z2 st)
              else set_zyncoder i z2 st)
    /\ nth_error (zyncoders st') i = Some z2.
Proof.
  intros Hi Hz Hen H. rewrite (update_zyncoder_enabled st i z src now Hi Hz Hen) in H.
  destruct (decode_zyncoder src z) as [[[z1 up] down]|f] eqn:Ed; simpl in H;
    [|discriminate].
  destruct (advance_zyncoder up down now z1) as [[z2 send]|f] eqn:Ea; simpl in H;
    [|discriminate].
  inversion H; subst; clear H.
  assert (Hset : nth_error (zyncoders (set_zyncoder i z2 st)) i = Some z2).
  { unfold set_zyncoder; simpl. apply nth_error_array_set_eq.
    now apply nth_error_Some_lt with (x := z). }
  exists z1, up, down, z2, send.
  split; [reflexivity|]. split; [exact Ea|]. split; [reflexivity|].
  destruct send; [rewrite send_zyncoder_zyncoders|]; exact Hset.
Qed.

(** A tick in neither direction leaves [subvalue] alone; [value] is only
    cut back to [max_value] by fixed-step mode. *)
Lemma advance_zyncoder_neither now z z' send :
  advance_zyncoder 0 0 now z = Ok (z', send) ->
  subvalue z' = subvalue z
  /\ last_encoded z' = last_encoded z
  /\ value z' =
       (if (step z =? 0) || negb (max_value z <? value z)
        then value z else max_value z)
  /\ send = negb (value z =? value z').
Proof.
  unfold advance_zyncoder. simpl.
  destruct (step z =? 0) eqn:Estep; simpl.
  - destruct (uint (now - tsus z) <? 1000).
    + intros H; inversion H; subst. rewrite Z.eqb_refl. auto.
    + match goal with
      | |- context [if ?c then Fault _ else _] => destruct c
      end; [intros H; discriminate H|].
      intros H; inversion H; subst; simpl. rewrite Z.eqb_refl. auto.
  - rewrite !andb_false_r.
    destruct (max_value z <? value z) eqn:E; simpl;
      intros H; inversion H; subst; simpl; auto.
Qed.

Lemma quadrature_up_iff sum :
  quadrature_up sum = 1 <-> In sum [13; 4; 2; 11].
Proof.
  unfold quadrature_up. simpl.
  destruct (sum =? 13) eqn:E1; [apply Z.eqb_eq in E1; intuition|].
  destruct (sum =? 4) eqn:E2; [apply Z.eqb_eq in E2; intuition|].
  destruct (sum =? 2) eqn:E3; [apply Z.eqb_eq in E3; intuition|].
  destruct (sum =? 11) eqn:E4; [apply Z.eqb_eq in E4; intuition|].
  apply Z.eqb_neq in E1, E2, E3, E4. simpl. intuition; try lia; congruence.
Qed.

Lemma quadrature_down_iff sum :
  quadrature_down sum = 1 <-> In sum [14; 7; 1; 8].
Proof.
  unfold quadrature_down, quadrature_up. simpl.
  destruct (sum =? 13) eqn:E1; [apply Z.eqb_eq in E1; simpl; intuition; lia|].
  destruct (sum =? 4) eqn:E2; [apply Z.eqb_eq in E2; simpl; intuition; lia|].
  destruct (sum =? 2) eqn:E3; [apply Z.eqb_eq in E3; simpl; intuition; lia|].
  destruct (sum =? 11) eqn:E4; [apply Z.eqb_eq in E4; simpl; intuition; lia|].
  simpl.
  destruct (sum =? 14) eqn:F1; [apply Z.eqb_eq in F1; intuition|].
  destruct (sum =? 7) eqn:F2; [apply Z.eqb_eq in F2; intuition|].
  destruct (sum =? 1) eqn:F3; [apply Z.eqb_eq in F3; intuition|].
  destruct (sum =? 8) eqn:F4; [apply Z.eqb_eq in F4; intuition|].
  apply Z.eqb_neq in F1, F2, F3, F4. simpl. intuition; try lia; congruence.
Qed.

Lemma quadrature_up_01 sum : quadrature_up sum = 0 \/ quadrature_up sum = 1.
Proof. unfold quadrature_up. destruct (_ || _); auto. Qed.

Lemma quadrature_down_01 sum : quadrature_down sum = 0 \/ quadrature_down sum = 1.
Proof.
  unfold quadrature_down. destruct (negb _); auto. destruct (_ || _); auto.
Qed.

(** A pair of pins read twice in a row is in neither direction. *)
Lemma quadrature_repeated MSB LSB :
  let encoded := quadrature_encoded MSB LSB in
  quadrature_up (quadrature_sum encoded encoded) = 0
  /\ quadrature_down (quadrature_sum encoded encoded) = 0.
Proof.
  cbv zeta.
  assert (Hall : forallb (fun e =>
            (quadrature_up (quadrature_sum e e) =? 0)
            && (quadrature_down (quadrature_sum e e) =? 0))
            (map Z.of_nat (seq 0 256)) = true) by (vm_compute; reflexivity).
  rewrite forallb_forall in Hall.
  assert (Hr : 0 <= quadrature_encoded MSB LSB < 256).
  { unfold quadrature_encoded, uint8_t. apply Z.mod_pos_bound. reflexivity. }
  specialize (Hall (quadrature_encoded MSB LSB)).
  assert (Hin : In (quadrature_encoded MSB LSB) (map Z.of_nat (seq 0 256))).
  { apply in_map_iff. exists (Z.to_nat (quadrature_encoded MSB LSB)).
    split; [lia|]. apply in_seq. lia. }
  apply Hall in Hin. apply andb_prop in Hin as [H1 H2].
  apply Z.eqb_eq in H1, H2. auto.
Qed.

(** Fixed-step mode in one expression: cut [value] back to [max_value],
    then step if there is room. *)
Lemma advance_zyncoder_fixed up down now z :
  step z <> 0 ->
  advance_zyncoder up down now z =
    let v1 := Z.min (value z) (max_value z) in
    let v2 :=
      if (step z <=? uint (max_value z - v1)) && negb (up =? 0)
      then uint (v1 + step z)
      else if (step z <=? v1) && negb (down =? 0)
      then uint (v1 - step z)
      else v1 in
    Ok (with_value v2 z, negb (value z =? v2)).
Proof.
  clear TICKS_PER_RETENT_positive TICKS_PER_RETENT_int.
  intros Hstep. unfold advance_zyncoder.
  apply Z.eqb_neq in Hstep. rewrite Hstep. cbv zeta.
  destruct z as [en pa pb pas pbs mc mk op ol opath mx sp sv v le ts ds].
  simpl in *.
  destruct (mx <? v) eqn:E; simpl.
  - apply Z.ltb_lt in E. rewrite Z.min_r by lia.
    repeat match goal with
           | |- context [if ?c then _ else _] => destruct c
           end; reflexivity.
  - apply Z.ltb_ge in E. rewrite Z.min_l by lia.
    repeat match goal with
           | |- context [if ?c then _ else _] => destruct c
           end; reflexivity.
Qed.

(** A tick touches [value], [subvalue], [tsus] and the [dtus] ring only. *)
Lemma advance_zyncoder_frame up down now z z' send :
  advance_zyncoder up down now z = Ok (z', send) ->
  z' = with_dtus (dtus z') (with_tsus (tsus z')
         (with_subvalue (subvalue z') (with_value (value z') z))).
Proof.
  unfold advance_zyncoder.
  destruct z as [en pa pb pas pbs mc mk op ol opath mx sp sv v le ts ds].
  simpl.
  repeat match goal with
         | |- context [if ?c then _ else _] => destruct c; simpl
         end;
    intros H; inversion H; subst; reflexivity.
Qed.

Lemma advance_zyncoder_fixed_bounded up down now z z' send :
  zyncoder_ok z -> step z <> 0 ->
  advance_zyncoder up down now z = Ok (z', send) ->
  0 <= value z' <= max_value z.
Proof.
  intros (Hm & Hs & _ & Hv) Hstep H.
  rewrite advance_zyncoder_fixed in H by exact Hstep.
  cbv zeta in H. inversion H; subst; clear H. simpl.
  unfold is_uint in *.
  set (v1 := Z.min (value z) (max_value z)).
  assert (Hv1 : 0 <= v1 <= max_value z) by (unfold v1; lia).
  assert (Hu : uint (max_value z - v1) = max_value z - v1)
    by (apply uint_small; lia).
  rewrite Hu.
  destruct (step z <=? max_value z - v1) eqn:E1; simpl.
  - apply Z.leb_le in E1. destruct (negb (up =? 0)); simpl.
    + rewrite uint_small; lia.
    + destruct (step z <=? v1) eqn:E2; simpl; [|lia].
      apply Z.leb_le in E2. destruct (negb (down =? 0)); [|lia].
      rewrite uint_small; lia.
  - destruct (step z <=? v1) eqn:E2; simpl; [|lia].
    apply Z.leb_le in E2. destruct (negb (down =? 0)); [|lia].
    rewrite uint_small; lia.
Qed.


Lemma decode_zyncoder_frame src z z1 up down :
  decode_zyncoder src z = Ok (z1, up, down) ->
  z1 = with_last_encoded (last_encoded z1) z
  /\ (forall MSB LSB, pins_read src z = Some (MSB, LSB) ->
      last_encoded z1 = quadrature_encoded MSB LSB)
  /\ (pins_read src z = None -> z1 = z).
Proof.
  destruct src as [MSB LSB|digitalRead|data]; simpl.
  - intros H; inversion H; subst. split; [destruct z; reflexivity|].
    split; [intros ? ? E; inversion E; reflexivity | discriminate].
  - intros H; inversion H; subst. split; [destruct z; reflexivity|].
    split; [intros ? ? E; inversion E; reflexivity | discriminate].
  - destruct (payload_bit data (pin_a z)); simpl; [|discriminate].
    destruct (payload_bit data (pin_b z)); simpl; [|discriminate].
    intros H; inversion H; subst. split; [destruct z1; reflexivity|].
    split; [discriminate | reflexivity].
Qed.

(** C4, as the code has it.  The 1 ms filter belongs to velocity mode: a
    tick of an enabled encoder with [step = 0] that comes less than
    1000 us after [tsus] stores the decoded encoder and nothing else, so
    [value], [subvalue], [tsus], the [dtus] ring, the other encoders, the
    switches and the trace stay as they were; [last_encoded] is the one
    field that moves, to the pins just read when the tick reads pins, and
    the UART tick, which reads none, changes nothing.  In fixed-step mode
    the time of the tick plays no part: the tick does the same at every
    [now]. *)
Theorem debounce_velocity_mode_only st i z src now :
  (i < MAX_NUM_ZYNCODERS)%nat ->
  nth_error (zyncoders st) i = Some z -> enabled z = true ->
  (step z = 0 -> uint (now - tsus z) < 1000 ->
   forall z1 up down, decode_zyncoder src z = Ok (z1, up, down) ->
     update_zyncoder i src now st = Ok (set_zyncoder i z1 st)
     /\ z1 = with_last_encoded (last_encoded z1) z
     /\ (forall MSB LSB, pins_read src z = Some (MSB, LSB) ->
         last_encoded z1 = quadrature_encoded MSB LSB)
     /\ (pins_read src z = None -> set_zyncoder i z1 st = st))
  /\ (step z <> 0 -> forall now',
      update_zyncoder i src now' st = update_zyncoder i src now st).
Proof.
  intros Hi Hz Hen. split.
  - intros Hstep Hdt z1 up down Hdec.
    destruct (decode_zyncoder_frame src z z1 up down Hdec) as (Hfr & Hpins & Hnone).
    split; [|split; [exact Hfr|split; [exact Hpins|]]].
    + rewrite (update_zyncoder_enabled st i z src now Hi Hz Hen), Hdec. simpl.
      unfold advance_zyncoder.
      assert (E1 : step z1 = 0) by (rewrite Hfr; exact Hstep).
      assert (E2 : tsus z1 = tsus z) by (rewrite Hfr; reflexivity).
      rewrite E1, E2. simpl.
      replace (uint (now - tsus z) <? 1000) with true
        by (symmetry; apply Z.ltb_lt; exact Hdt).
      reflexivity.
    + intros Hn. rewrite (Hnone Hn). unfold set_zyncoder.
      rewrite array_set_same by exact Hz. destruct st; reflexivity.
  - intros Hstep now'.
    rewrite !(update_zyncoder_enabled st i z src _ Hi Hz Hen).
    destruct (decode_zyncoder src z) as [[[z1 up] down]|f] eqn:Hdec; simpl;
      [|reflexivity].
    destruct (decode_zyncoder_frame src z z1 up down Hdec) as (Hfr & _).
    assert (E1 : step z1 <> 0) by (rewrite Hfr; exact Hstep).
    rewrite !advance_zyncoder_fixed by exact E1. reflexivity.
Qed.

(** ** Saturation *)

Section Arithmetic.

Local Arguments Z.mul : simpl never.
Local Arguments Z.add : simpl never.
Local Arguments Z.sub : simpl never.
Local Arguments Z.div : simpl never.
Local Arguments Z.modulo : simpl never.
Local Arguments Z.pow : simpl never.

Lemma sint_small x : 0 <= x < 2 ^ 31 -> sint x = x.
Proof.
  intros H. unfold sint.
  assert (2 ^ 32 = 2 * 2 ^ 31) by reflexivity.
  rewrite Z.mod_small; lia.
Qed.

Lemma store_value_result z3 v0 v' z' send :
  (if (0 <=? v') && negb (v0 =? uint v')
   then Ok (with_value (uint v') z3, true) else Ok (z3, false)) = Ok (z', send) ->
  v0 = value z3 ->
  subvalue z' = subvalue z3 /\ step z' = step z3
  /\ max_value z' = max_value z3
  /\ value z' = (if 0 <=? v' then uint v' else value z3).
Proof.
  destruct (0 <=? v'); simpl.
  - destruct (v0 =? uint v') eqn:E; simpl;
      intros H Hv; inversion H; subst; simpl; auto.
    apply Z.eqb_eq in E. auto.
  - intros H Hv; inversion H; subst; auto.
Qed.

(** The step [dsval] velocity mode works out from the tick times. *)
Lemma advance_zyncoder_velocity up down now z z' send :
  step z = 0 -> 1000 <= uint (now - tsus z) ->
  advance_zyncoder up down now z = Ok (z', send) ->
  exists dsval, 1 <= dsval <= 2 * ZYNCODER_TICKS_PER_RETENT
    /\ step z' = 0 /\ max_value z' = max_value z
    /\ subvalue z' =
         (if negb (up =? 0) then
            if uint dsval <=? uint (max_value z - subvalue z)
            then uint (subvalue z + dsval) else max_value z
          else if negb (down =? 0) then
            if uint dsval <=? subvalue z
            then uint (subvalue z - dsval) else 0
          else subvalue z)
    /\ value z' =
         (let value' :=
            if negb (up =? 0)
            then sint (subvalue z' / ZYNCODER_TICKS_PER_RETENT)
            else if negb (down =? 0)
            then sint (uint (subvalue z' + ZYNCODER_TICKS_PER_RETENT - 1)
                       / ZYNCODER_TICKS_PER_RETENT)
            else -1 in
          if 0 <=? value' then uint value' else value z).
Proof using TICKS_PER_RETENT_positive TICKS_PER_RETENT_int.
  intros Hstep Hdt. unfold advance_zyncoder. rewrite Hstep. simpl.
  replace (uint (now - tsus z) <? 1000) with false
    by (symmetry; apply Z.ltb_ge; exact Hdt).
  match goal with
  | |- context [if ?c then Fault _ else _] => destruct c
  end; [discriminate|].
  match goal with
  | |- context [sint ?x <? 1] => set (dsval0 := sint x)
  end.
  set (dsval := if dsval0 <? 1 then 1
                else if 2 * ZYNCODER_TICKS_PER_RETENT <? dsval0
                     then 2 * ZYNCODER_TICKS_PER_RETENT else dsval0).
  assert (Hds : 1 <= dsval <= 2 * ZYNCODER_TICKS_PER_RETENT).
  { unfold dsval. destruct (dsval0 <? 1) eqn:E1; [lia|].
    apply Z.ltb_ge in E1.
    destruct (2 * ZYNCODER_TICKS_PER_RETENT <? dsval0) eqn:E2; [lia|].
    apply Z.ltb_ge in E2. lia. }
  intros H. exists dsval. split; [exact Hds|].
  fold dsval in H.
  destruct (negb (up =? 0)).
  - destruct (uint dsval <=? uint (max_value z - subvalue z)) eqn:E;
      simpl in H; rewrite ?E in H; simpl in H;
      (apply store_value_result in H; [|reflexivity]); simpl in H;
      destruct H as (H1 & H2 & H3 & H4); rewrite H1;
      repeat split; auto; congruence.
  - destruct (negb (down =? 0)).
    + destruct (uint dsval <=? subvalue z) eqn:E;
        simpl in H; rewrite ?E in H; simpl in H;
        (apply store_value_result in H; [|reflexivity]); simpl in H;
        destruct H as (H1 & H2 & H3 & H4); rewrite H1;
        repeat split; auto; congruence.
    + simpl in H. inversion H; subst; simpl. repeat split; auto.
Qed.

Lemma ticks_up_velocity nows :
  forall z,
    step z = 0 -> is_uint (max_value z) ->
    0 <= subvalue z <= max_value z ->
    max_value z / ZYNCODER_TICKS_PER_RETENT < 2 ^ 31 ->
    all_accepted 1 0 nows z ->
    exists z', ticks 1 0 nows z = Ok z'
      /\ subvalue z <= subvalue z' <= max_value z
      /\ (subvalue z' = max_value z
          \/ subvalue z + Z.of_nat (List.length nows) <= subvalue z')
      /\ (nows = [] \/ value z' = subvalue z' / ZYNCODER_TICKS_PER_RETENT).
Proof using TICKS_PER_RETENT_positive TICKS_PER_RETENT_int.
  induction nows as [|now rest IH]; intros z Hstep Hmax Hsub Hdiv Hacc.
  - exists z. simpl. repeat split; try lia. auto.
  - simpl in Hacc. destruct Hacc as [Hdt Hacc]. specialize (Hdt Hstep).
    destruct (advance_zyncoder 1 0 now z) as [[z1 send]|f] eqn:Hadv;
      [|contradiction].
    destruct (advance_zyncoder_velocity _ _ _ _ _ _ Hstep Hdt Hadv)
      as (dsval & Hds & Hstep1 & Hmax1 & Hsub1 & Hval1).
    simpl in Hsub1, Hval1. unfold is_uint in Hmax.
    assert (H31 : 2 ^ 31 = 2147483648) by reflexivity.
    assert (H32 : 2 ^ 32 = 4294967296) by reflexivity.
    rewrite (uint_small dsval) in Hsub1 by lia.
    rewrite (uint_small (max_value z - subvalue z)) in Hsub1 by lia.
    assert (Hb1 : subvalue z < subvalue z1 <= max_value z
                  \/ (subvalue z1 = max_value z /\ subvalue z <= subvalue z1)).
    { destruct (dsval <=? max_value z - subvalue z) eqn:E.
      - apply Z.leb_le in E. rewrite uint_small in Hsub1 by lia. lia.
      - lia. }
    assert (Hq : 0 <= subvalue z1 / ZYNCODER_TICKS_PER_RETENT < 2 ^ 31).
    { split; [apply Z.div_pos; lia|].
      eapply Z.le_lt_trans; [|exact Hdiv].
      apply Z.div_le_mono; lia. }
    rewrite sint_small in Hval1 by exact Hq.
    replace (0 <=? subvalue z1 / ZYNCODER_TICKS_PER_RETENT) with true in Hval1
      by (symmetry; apply Z.leb_le; lia).
    rewrite uint_small in Hval1 by lia.
    destruct (IH z1) as (z' & Ht & Hr & Hprog & Hv).
    + exact Hstep1.
    + unfold is_uint. rewrite Hmax1. lia.
    + rewrite Hmax1. lia.
    + rewrite Hmax1. exact Hdiv.
    + exact Hacc.
    + exists z'. simpl ticks. rewrite Hadv. unfold bind. simpl fst.
      simpl List.length. split; [exact Ht|].
      rewrite Hmax1 in *. split; [lia|]. split.
      * destruct Hprog as [Hp|Hp]; [left; exact Hp|].
        destruct Hb1 as [Hb1|Hb1].
        -- right. rewrite Nat2Z.inj_succ. lia.
        -- left. lia.
      * right. destruct Hv as [Hv|Hv]; [|exact Hv].
        subst rest. simpl in Ht. inversion Ht; subst. exact Hval1.
Qed.

Lemma ticks_down_velocity nows :
  forall z,
    step z = 0 -> is_uint (subvalue z) ->
    all_accepted 0 1 nows z ->
    exists z', ticks 0 1 nows z = Ok z'
      /\ 0 <= subvalue z' <= subvalue z
      /\ (subvalue z' = 0
          \/ subvalue z' + Z.of_nat (List.length nows) <= subvalue z)
      /\ (nows = [] \/ (subvalue z' = 0 -> value z' = 0)).
Proof using TICKS_PER_RETENT_positive TICKS_PER_RETENT_int.
  induction nows as [|now rest IH]; intros z Hstep Hsub Hacc.
  - exists z. simpl. unfold is_uint in Hsub. repeat split; try lia. auto.
  - simpl in Hacc. destruct Hacc as [Hdt Hacc]. specialize (Hdt Hstep).
    destruct (advance_zyncoder 0 1 now z) as [[z1 send]|f] eqn:Hadv;
      [|contradiction].
    destruct (advance_zyncoder_velocity _ _ _ _ _ _ Hstep Hdt Hadv)
      as (dsval & Hds & Hstep1 & Hmax1 & Hsub1 & Hval1).
    simpl in Hsub1, Hval1. unfold is_uint in Hsub.
    assert (H31 : 2 ^ 31 = 2147483648) by reflexivity.
    assert (H32 : 2 ^ 32 = 4294967296) by reflexivity.
    rewrite (uint_small dsval) in Hsub1 by lia.
    assert (Hb1 : 0 <= subvalue z1 < subvalue z
                  \/ (subvalue z1 = 0 /\ 0 <= subvalue z)).
    { destruct (dsval <=? subvalue z) eqn:E.
      - apply Z.leb_le in E. rewrite uint_small in Hsub1 by lia. lia.
      - lia. }
    assert (Hv0 : subvalue z1 = 0 -> value z1 = 0).
    { intros E0. rewrite E0 in Hval1.
      replace (0 + ZYNCODER_TICKS_PER_RETENT - 1)
        with (ZYNCODER_TICKS_PER_RETENT - 1) in Hval1 by lia.
      rewrite (uint_small (ZYNCODER_TICKS_PER_RETENT - 1)) in Hval1 by lia.
      rewrite Z.div_small in Hval1 by lia.
      exact Hval1. }
    destruct (IH z1) as (z' & Ht & Hr & Hprog & Hv).
    + exact Hstep1.
    + unfold is_uint. lia.
    + exact Hacc.
    + exists z'. simpl ticks. rewrite Hadv. unfold bind. simpl fst.
      simpl List.length. split; [exact Ht|].
      split; [lia|]. split.
      * destruct Hprog as [Hp|Hp]; [left; exact Hp|].
        destruct Hb1 as [Hb1|Hb1].
        -- right. rewrite Nat2Z.inj_succ. lia.
        -- left. lia.
      * right. destruct Hv as [Hv|Hv]; [|exact Hv].
        subst rest. simpl in Ht. inversion Ht; subst. exact Hv0.
Qed.

Lemma all_accepted_fixed up down nows :
  forall z, step z <> 0 -> all_accepted up down nows z.
Proof.
  induction nows as [|now rest IH]; intros z Hstep; [exact I|].
  split; [intros E; contradiction|].
  rewrite advance_zyncoder_fixed by exact Hstep. cbv zeta.
  apply IH. exact Hstep.
Qed.

Lemma ticks_up_fixed nows :
  forall z,
    zyncoder_ok z -> 0 < step z -> value z <= max_value z ->
    exists z', ticks 1 0 nows z = Ok z'
      /\ value z' = value z
           + step z * Z.min (Z.of_nat (List.length nows))
                            ((max_value z - value z) / step z).
Proof.
  induction nows as [|now rest IH]; intros z Hok Hstep Hle.
  - exists z. simpl. split; [reflexivity|].
    destruct Hok as (Hm & Hs & _ & Hv). unfold is_uint in *.
    assert (0 <= (max_value z - value z) / step z) by (apply Z.div_pos; lia).
    rewrite Z.min_l by lia. lia.
  - destruct Hok as (Hm & Hs & Hsv & Hv). unfold is_uint in *.
    simpl ticks. rewrite advance_zyncoder_fixed by lia. cbv zeta.
    unfold bind. simpl fst. simpl List.length. rewrite Nat2Z.inj_succ.
    rewrite Z.min_l by lia.
    rewrite (uint_small (max_value z - value z)) by lia.
    rewrite andb_true_r.
    set (q := (max_value z - value z) / step z).
    destruct (step z <=? max_value z - value z) eqn:E.
    + apply Z.leb_le in E. rewrite uint_small by lia.
      destruct (IH (with_value (value z + step z) z)) as (z' & Ht & Hv').
      * unfold zyncoder_ok, is_uint; simpl. repeat split; lia.
      * exact Hstep.
      * simpl. lia.
      * exists z'. split; [exact Ht|]. rewrite Hv'. simpl.
        replace (max_value z - (value z + step z))
          with ((max_value z - value z) + (-1) * step z) by lia.
        rewrite Z.div_add by lia. fold q.
        assert (1 <= q).
        { unfold q. apply Z.div_le_lower_bound; lia. }
        repeat match goal with
               | |- context [Z.min ?a ?b] =>
                   destruct (Z.min_spec a b) as [[? ->]|[? ->]]
               end; lia.
    + apply Z.leb_gt in E. rewrite andb_false_r.
      destruct (IH (with_value (value z) z)) as (z' & Ht & Hv').
      * unfold zyncoder_ok, is_uint; simpl. repeat split; lia.
      * exact Hstep.
      * simpl. lia.
      * exists z'. split; [exact Ht|]. rewrite Hv'. simpl. fold q.
        assert (q = 0) by (unfold q; apply Z.div_small; lia).
        repeat match goal with
               | |- context [Z.min ?a ?b] =>
                   destruct (Z.min_spec a b) as [[? ->]|[? ->]]
               end; lia.
Qed.

Lemma ticks_down_fixed nows :
  forall z,
    zyncoder_ok z -> 0 < step z -> value z <= max_value z ->
    exists z', ticks 0 1 nows z = Ok z'
      /\ value z' = value z
           - step z * Z.min (Z.of_nat (List.length nows)) (value z / step z).
Proof.
  induction nows as [|now rest IH]; intros z Hok Hstep Hle.
  - exists z. simpl. split; [reflexivity|].
    destruct Hok as (Hm & Hs & _ & Hv). unfold is_uint in *.
    assert (0 <= value z / step z) by (apply Z.div_pos; lia).
    rewrite Z.min_l by lia. lia.
  - destruct Hok as (Hm & Hs & Hsv & Hv). unfold is_uint in *.
    simpl ticks. rewrite advance_zyncoder_fixed by lia. cbv zeta.
    unfold bind. simpl fst. simpl List.length. rewrite Nat2Z.inj_succ.
    rewrite Z.min_l by lia.
    rewrite andb_false_r, andb_true_r.
    set (q := value z / step z).
    destruct (step z <=? value z) eqn:E.
    + apply Z.leb_le in E. rewrite uint_small by lia.
      destruct (IH (with_value (value z - step z) z)) as (z' & Ht & Hv').
      * unfold zyncoder_ok, is_uint; simpl. repeat split; lia.
      * exact Hstep.
      * simpl. lia.
      * exists z'. split; [exact Ht|]. rewrite Hv'. simpl.
        replace (value z - step z) with (value z + (-1) * step z) by lia.
        rewrite Z.div_add by lia. fold q.
        assert (1 <= q).
        { unfold q. apply Z.div_le_lower_bound; lia. }
        repeat match goal with
               | |- context [Z.min ?a ?b] =>
                   destruct (Z.min_spec a b) as [[? ->]|[? ->]]
               end; lia.
    + apply Z.leb_gt in E.
      destruct (IH (with_value (value z) z)) as (z' & Ht & Hv').
      * unfold zyncoder_ok, is_uint; simpl. repeat split; lia.
      * exact Hstep.
      * simpl. lia.
      * exists z'. split; [exact Ht|]. rewrite Hv'. simpl. fold q.
        assert (q = 0) by (unfold q; apply Z.div_small; lia).
        repeat match goal with
               | |- context [Z.min ?a ?b] =>
                   destruct (Z.min_spec a b) as [[? ->]|[? ->]]
               end; lia.
Qed.

(** In fixed-step mode a run of ticks starts by cutting [value] back to
    [max_value]: it ends as the run from the encoder already cut ends. *)
Lemma ticks_fixed_cut up down now rest z :
  step z <> 0 ->
  ticks up down (now :: rest) z =
  ticks up down (now :: rest)
    (with_value (Z.min (value z) (max_value z)) z).
Proof.
  intros Hstep. simpl ticks.
  rewrite (advance_zyncoder_fixed up down now z) by exact Hstep.
  rewrite (advance_zyncoder_fixed up down now (with_value _ z))
    by exact Hstep.
  cbv zeta. unfold bind. simpl fst.
  destruct z as [en pa pb pas pbs mc mk op ol opath mx sp sv v le ts ds].
  unfold with_value.
  cbn [value max_value step enabled pin_a pin_b pin_a_last_state
       pin_b_last_state midi_chan midi_ctrl osc_port osc_lo_addr osc_path
       subvalue last_encoded tsus dtus].
  replace (Z.min (Z.min v mx) mx) with (Z.min v mx) by lia.
  reflexivity.
Qed.

(** C5, as the code has it.  Velocity mode saturates exactly: from a
    [subvalue] within the bound, enough accepted Up ticks end with
    [subvalue = max_value] and [value = max_value / ZYNCODER_TICKS_PER_RETENT]
    (the bound the encoder was set up with), enough accepted Down ticks
    with [subvalue = 0] and [value = 0], and more ticks keep it there.
    Fixed-step mode first cuts a [value] above [max_value] back to it and
    then moves by whole steps only while a whole step fits: with [v] the
    value after the cut, enough Up ticks end at the last [v + k * step]
    that does not exceed [max_value], which lies within one step below
    [max_value] and is [max_value] itself exactly when [step] divides the
    distance; enough Down ticks end at [v mod step]. *)
Theorem saturation_by_mode z :
  zyncoder_ok z ->
  (step z = 0 ->
   0 <= subvalue z <= max_value z ->
   max_value z / ZYNCODER_TICKS_PER_RETENT < 2 ^ 31 ->
   drives_to 1 0 (fun z' => subvalue z' = max_value z
                    /\ value z' = max_value z / ZYNCODER_TICKS_PER_RETENT) z
   /\ drives_to 0 1 (fun z' => subvalue z' = 0 /\ value z' = 0) z)
  /\ (step z <> 0 ->
      let v := Z.min (value z) (max_value z) in
      let top := v + step z * ((max_value z - v) / step z) in
      drives_to 1 0 (fun z' => value z' = top) z
      /\ drives_to 0 1 (fun z' => value z' = v mod step z) z
      /\ max_value z - step z < top <= max_value z
      /\ (top = max_value z <-> (max_value z - v) mod step z = 0)).
Proof using TICKS_PER_RETENT_positive TICKS_PER_RETENT_int.
  intros Hok. pose proof Hok as (Hm & Hs & Hsv & Hv). unfold is_uint in *.
  split.
  - intros Hstep Hsub Hdiv. split.
    + exists (Datatypes.S (Z.to_nat (max_value z - subvalue z))).
      intros nows Hlen Hacc.
      destruct (ticks_up_velocity nows z Hstep Hm Hsub Hdiv Hacc)
        as (z' & Ht & Hr & Hprog & Hval).
      exists z'. split; [exact Ht|].
      assert (Hfull : subvalue z' = max_value z).
      { destruct Hprog as [Hp|Hp]; [exact Hp|]. lia. }
      split; [exact Hfull|].
      destruct Hval as [Hnil|Hval]; [subst nows; simpl in Hlen; lia|].
      rewrite Hval, Hfull. reflexivity.
    + exists (Datatypes.S (Z.to_nat (subvalue z))).
      intros nows Hlen Hacc.
      destruct (ticks_down_velocity nows z Hstep Hsv Hacc)
        as (z' & Ht & Hr & Hprog & Hval).
      exists z'. split; [exact Ht|].
      assert (Hzero : subvalue z' = 0).
      { destruct Hprog as [Hp|Hp]; [exact Hp|]. lia. }
      split; [exact Hzero|].
      destruct Hval as [Hnil|Hval]; [subst nows; simpl in Hlen; lia|].
      exact (Hval Hzero).
  - intros Hstep. cbv zeta.
    set (v := Z.min (value z) (max_value z)).
    set (top := v + step z * ((max_value z - v) / step z)).
    assert (Hpos : 0 < step z) by lia.
    assert (Hv1 : 0 <= v <= max_value z) by (unfold v; lia).
    assert (Hq : 0 <= (max_value z - v) / step z)
      by (apply Z.div_pos; lia).
    assert (Hq' : 0 <= v / step z) by (apply Z.div_pos; lia).
    pose proof (Z.div_mod (max_value z - v) (step z) Hstep) as Hdm.
    pose proof (Z.mod_pos_bound (max_value z - v) (step z) Hpos) as Hmb.
    assert (Hok0 : zyncoder_ok (with_value v z)).
    { unfold zyncoder_ok, is_uint; simpl. repeat split; lia. }
    split; [|split; [|split]].
    + exists (Datatypes.S (Z.to_nat ((max_value z - v) / step z))).
      intros nows Hlen _.
      destruct nows as [|now rest]; [simpl in Hlen; lia|].
      rewrite ticks_fixed_cut by exact Hstep. fold v.
      destruct (ticks_up_fixed (now :: rest) (with_value v z) Hok0 Hpos)
        as (z' & Ht & Hval); [simpl; lia|].
      exists z'. split; [exact Ht|]. rewrite Hval. unfold top.
      change (value (with_value v z)) with v.
      change (step (with_value v z)) with (step z).
      change (max_value (with_value v z)) with (max_value z).
      rewrite Z.min_r by lia. reflexivity.
    + exists (Datatypes.S (Z.to_nat (v / step z))).
      intros nows Hlen _.
      destruct nows as [|now rest]; [simpl in Hlen; lia|].
      rewrite ticks_fixed_cut by exact Hstep. fold v.
      destruct (ticks_down_fixed (now :: rest) (with_value v z) Hok0 Hpos)
        as (z' & Ht & Hval); [simpl; lia|].
      exists z'. split; [exact Ht|]. rewrite Hval.
      change (value (with_value v z)) with v.
      change (step (with_value v z)) with (step z).
      rewrite Z.min_r by lia.
      pose proof (Z.div_mod v (step z) Hstep). lia.
    + unfold top. lia.
    + unfold top. lia.
Qed.

(** ** The bound on [value] *)

Lemma sint_nonneg x : 0 <= x < 2 ^ 32 -> 0 <= sint x -> sint x = x.
Proof.
  clear TICKS_PER_RETENT_positive TICKS_PER_RETENT_int.
  intros Hx Hs. unfold sint in *.
  assert (H31 : 2 ^ 31 = 2147483648) by reflexivity.
  assert (H32 : 2 ^ 32 = 4294967296) by reflexivity.
  rewrite H31, H32 in *.
  destruct (Z_lt_ge_dec x 2147483648) as [Hlt|Hge].
  - rewrite Z.mod_small by lia. lia.
  - exfalso.
    replace (x + 2147483648) with ((x - 2147483648) + 1 * 4294967296) in Hs by lia.
    rewrite Z.mod_add in Hs by lia.
    rewrite Z.mod_small in Hs by lia. lia.
Qed.

Lemma uint_le x : 0 <= x -> uint x <= x.
Proof. intros H. unfold uint. apply Z.mod_le; lia. Qed.

Lemma advance_zyncoder_debounced up down now z :
  step z = 0 -> uint (now - tsus z) < 1000 ->
  advance_zyncoder up down now z = Ok (z, false).
Proof.
  intros Hstep Hdt. unfold advance_zyncoder. rewrite Hstep. simpl.
  replace (uint (now - tsus z) <? 1000) with true
    by (symmetry; apply Z.ltb_lt; exact Hdt).
  reflexivity.
Qed.

Lemma advance_zyncoder_inv M up down now z z' send :
  zyncoder_inv M z ->
  advance_zyncoder up down now z = Ok (z', send) ->
  zyncoder_inv M z'.
Proof using TICKS_PER_RETENT_positive TICKS_PER_RETENT_int.
  intros (Hv & Hs & Hm & Hsv & Hvel & Hfix) Hadv.
  assert (H31 : 2 ^ 31 = 2147483648) by reflexivity.
  assert (H32 : 2 ^ 32 = 4294967296) by reflexivity.
  pose proof (advance_zyncoder_frame _ _ _ _ _ _ Hadv) as Hfr.
  assert (Hstep' : step z' = step z) by (rewrite Hfr; reflexivity).
  assert (Hmax' : max_value z' = max_value z) by (rewrite Hfr; reflexivity).
  unfold is_uint in *.
  destruct (Z.eq_dec (step z) 0) as [Hstep|Hstep].
  - destruct (Z_lt_ge_dec (uint (now - tsus z)) 1000) as [Hdt|Hdt].
    + rewrite advance_zyncoder_debounced in Hadv by assumption.
      inversion Hadv; subst. unfold zyncoder_inv, is_uint. tauto.
    + assert (Hdt' : 1000 <= uint (now - tsus z)) by lia.
      destruct (advance_zyncoder_velocity _ _ _ _ _ _ Hstep Hdt' Hadv)
        as (dsval & Hds & _ & _ & Hsub' & Hval').
      rewrite (uint_small dsval) in Hsub' by lia.
      assert (Hsub_u : 0 <= subvalue z' < 2 ^ 32).
      { rewrite Hsub'.
        repeat match goal with
               | |- context [if ?c then _ else _] => destruct c
               end; try apply uint_range; lia. }
      assert (Hsub_le : ZYNCODER_TICKS_PER_RETENT * M < 2 ^ 32 ->
                        max_value z = ZYNCODER_TICKS_PER_RETENT * M ->
                        subvalue z <= max_value z ->
                        subvalue z' <= max_value z).
      { intros HA HB HC. rewrite Hsub'.
        rewrite (uint_small (max_value z - subvalue z)) by lia.
        destruct (negb (up =? 0)).
        - destruct (dsval <=? max_value z - subvalue z) eqn:E; [|lia].
          apply Z.leb_le in E. rewrite uint_small; lia.
        - destruct (negb (down =? 0)); [|lia].
          destruct (dsval <=? subvalue z) eqn:E; [|lia].
          apply Z.leb_le in E. rewrite uint_small; lia. }
      assert (Hquot : forall x, 0 <= x < 2 ^ 32 ->
                (ZYNCODER_TICKS_PER_RETENT * M < 2 ^ 32 ->
                 x <= ZYNCODER_TICKS_PER_RETENT * M
                      + ZYNCODER_TICKS_PER_RETENT - 1) ->
                0 <= x / ZYNCODER_TICKS_PER_RETENT <= M).
      { intros x Hx Hxa. split; [apply Z.div_pos; lia|].
        destruct (Hvel Hstep) as [(HA & HB & HC)|HB].
        - specialize (Hxa HA).
          apply Z.lt_succ_r. apply Z.div_lt_upper_bound; [lia|]. nia.
        - apply Z.lt_succ_r. apply Z.div_lt_upper_bound; [lia|]. nia. }
      assert (Hval_b : 0 <= value z' <= M).
      { rewrite Hval'. cbv zeta.
        destruct (negb (up =? 0)).
        - destruct (0 <=? sint (subvalue z' / ZYNCODER_TICKS_PER_RETENT)) eqn:E;
            [|lia].
          apply Z.leb_le in E.
          assert (Hx : 0 <= subvalue z' / ZYNCODER_TICKS_PER_RETENT < 2 ^ 32).
          { split; [apply Z.div_pos; lia|].
            apply Z.div_lt_upper_bound; [lia|]. nia. }
          rewrite sint_nonneg in * by assumption.
          rewrite uint_small by lia.
          apply Hquot; [lia|]. intros HA.
          destruct (Hvel Hstep) as [(_ & HB & HC)|HB]; [|lia].
          specialize (Hsub_le HA HB HC). lia.
        - destruct (negb (down =? 0)); [|simpl; lia].
          set (y := uint (subvalue z' + ZYNCODER_TICKS_PER_RETENT - 1)) in *.
          assert (Hy : 0 <= y < 2 ^ 32) by apply uint_range.
          destruct (0 <=? sint (y / ZYNCODER_TICKS_PER_RETENT)) eqn:E; [|lia].
          apply Z.leb_le in E.
          assert (Hx : 0 <= y / ZYNCODER_TICKS_PER_RETENT < 2 ^ 32).
          { split; [apply Z.div_pos; lia|].
            apply Z.div_lt_upper_bound; [lia|]. nia. }
          rewrite sint_nonneg in * by assumption.
          rewrite uint_small by lia.
          apply Hquot; [lia|]. intros HA.
          destruct (Hvel Hstep) as [(_ & HB & HC)|HB]; [|lia].
          specialize (Hsub_le HA HB HC).
          assert (y <= subvalue z' + ZYNCODER_TICKS_PER_RETENT - 1)
            by (apply uint_le; lia).
          lia. }
      unfold zyncoder_inv, is_uint. rewrite Hstep', Hmax'.
      split; [exact Hval_b|]. split; [exact Hs|]. split; [exact Hm|].
      split; [exact Hsub_u|]. split; [|exact Hfix].
      intros _. destruct (Hvel Hstep) as [(HA & HB & HC)|HB]; [left|right; exact HB].
      split; [exact HA|]. split; [exact HB|]. apply Hsub_le; assumption.
  - assert (Hok : zyncoder_ok z).
    { unfold zyncoder_ok, is_uint. repeat split; try lia. }
    pose proof (advance_zyncoder_fixed_bounded _ _ _ _ _ _ Hok Hstep Hadv) as Hb.
    assert (Hsub' : subvalue z' = subvalue z).
    { rewrite advance_zyncoder_fixed in Hadv by exact Hstep.
      cbv zeta in Hadv. inversion Hadv; subst. reflexivity. }
    unfold zyncoder_inv, is_uint. rewrite Hstep', Hmax', Hsub'.
    rewrite (Hfix Hstep) in Hb.
    split; [exact Hb|]. split; [exact Hs|]. split; [exact Hm|].
    split; [exact Hsv|]. split; [|exact Hfix].
    intros E. contradiction.
Qed.

Lemma for_loop_out_invariant {S : Type} (P : S -> Prop) body n :
  (forall k s s' fl, P s -> body k s = Ok (s', fl) -> P s') ->
  forall i s s' fl,
    P s -> for_loop_out body i n s = Ok (s', fl) -> P s'.
Proof.
  intros Hbody. induction n as [|n IH]; intros i s s' fl Hs H; simpl in H.
  - inversion H; subst; exact Hs.
  - destruct (body i s) as [[s1 [|]]|f] eqn:Eb; try discriminate.
    + apply (IH (Datatypes.S i) s1 s' fl); [|exact H].
      apply (Hbody i s s1 Continue); assumption.
    + inversion H; subst. apply (Hbody i s s' Return); assumption.
Qed.

Lemma encoders_inv_frame st st' g :
  zyncoders st' = zyncoders st ->
  encoders_inv st g -> encoders_inv st' g.
Proof.
  intros Hz H. unfold encoders_inv. rewrite Hz. exact H.
Qed.

Lemma encoders_inv_emit e st g : encoders_inv st g -> encoders_inv (emit e st) g.
Proof. apply encoders_inv_frame; reflexivity. Qed.

Lemma encoders_inv_send_zyncoder i st g :
  encoders_inv st g -> encoders_inv (send_zyncoder i st) g.
Proof.
  apply encoders_inv_frame. apply send_zyncoder_zyncoders.
Qed.

Lemma encoders_inv_set_zyncoder st g g' i z :
  encoders_inv st g ->
  (enabled z = true -> zyncoder_inv (g' i) z) ->
  (forall j, j <> i -> g' j = g j) ->
  encoders_inv (set_zyncoder i z st) g'.
Proof.
  intros H2 Hz Hg.
  intros j zj Hj Hen. unfold set_zyncoder in Hj; simpl in Hj.
  destruct (Nat.eq_dec j i) as [->|Hne].
  - destruct (Nat.lt_ge_cases i (List.length (zyncoders st))) as [Hlt|Hge].
    + rewrite nth_error_array_set_eq in Hj by exact Hlt.
      inversion Hj; subst. auto.
    + apply nth_error_Some_lt in Hj. rewrite array_set_length in Hj. lia.
  - rewrite nth_error_array_set_neq in Hj by congruence.
    rewrite Hg by exact Hne. eauto.
Qed.

Lemma zyncoder_inv_fields M z z' :
  value z' = value z -> step z' = step z -> max_value z' = max_value z ->
  subvalue z' = subvalue z ->
  zyncoder_inv M z -> zyncoder_inv M z'.
Proof.
  unfold zyncoder_inv. intros -> -> -> ->. auto.
Qed.

Lemma update_zyncoder_encoders_inv i src now st st' g :
  encoders_inv st g -> update_zyncoder i src now st = Ok st' ->
  encoders_inv st' g.
Proof using TICKS_PER_RETENT_positive TICKS_PER_RETENT_int.
  intros Hinv H.
  destruct (Nat.lt_ge_cases i MAX_NUM_ZYNCODERS) as [Hi|Hi].
  - destruct (nth_error (zyncoders st) i) as [z|] eqn:Hz.
    + destruct (enabled z) eqn:Hen.
      * destruct (update_zyncoder_result st i z src now st' Hi Hz Hen H)
          as (z1 & up & down & z2 & send & Hdec & Hadv & Hst & _).
        destruct (decode_zyncoder_frame _ _ _ _ _ Hdec) as (Hfr & _).
        assert (Hz2 : zyncoder_inv (g i) z2).
        { apply (advance_zyncoder_inv (g i) up down now z1 z2 send); [|exact Hadv].
          apply (zyncoder_inv_fields (g i) z); try (rewrite Hfr; reflexivity).
          eauto. }
        assert (Hset : encoders_inv (set_zyncoder i z2 st) g).
        { apply encoders_inv_set_zyncoder with (g := g); auto. }
        subst st'. destruct send; [apply encoders_inv_send_zyncoder|]; exact Hset.
      * unfold update_zyncoder in H.
        replace (MAX_NUM_ZYNCODERS <=? i)%nat with false in H
          by (symmetry; apply Nat.leb_gt; exact Hi).
        rewrite Hz, Hen in H. simpl in H. inversion H; subst; exact Hinv.
    + unfold update_zyncoder in H.
      replace (MAX_NUM_ZYNCODERS <=? i)%nat with false in H
        by (symmetry; apply Nat.leb_gt; exact Hi).
      rewrite Hz in H. discriminate.
  - unfold update_zyncoder in H.
    replace (MAX_NUM_ZYNCODERS <=? i)%nat with true in H
      by (symmetry; apply Nat.leb_le; exact Hi).
    inversion H; subst; exact Hinv.
Qed.

Lemma update_zynswitch_disabled i src now st :
  (forall zs, In zs (zynswitches st) -> sw_enabled zs = false) ->
  update_zynswitch i src now st = st.
Proof.
  intros Hdis. unfold update_zynswitch.
  destruct (MAX_NUM_ZYNSWITCHES <=? i)%nat; [reflexivity|].
  destruct (nth_error (zynswitches st) i) as [zs|] eqn:E; [|reflexivity].
  rewrite (Hdis zs (nth_error_In _ _ E)). reflexivity.
Qed.


Lemma set_value_zyncoder_encoders_inv i v send st g :
  is_uint v -> encoders_inv st g ->
  encoders_inv (set_value_zyncoder i v send st) g.
Proof using TICKS_PER_RETENT_positive TICKS_PER_RETENT_int.
  intros Hv Hinv. unfold set_value_zyncoder.
  destruct (MAX_NUM_ZYNCODERS <=? i)%nat; [exact Hinv|].
  destruct (nth_error (zyncoders st) i) as [z|] eqn:Hz; [|exact Hinv].
  destruct (enabled z) eqn:Hen; simpl; [|exact Hinv].
  match goal with
  | |- encoders_inv (if _ then send_zyncoder i (set_zyncoder i ?z' st) else _) g =>
      assert (Hset : encoders_inv (set_zyncoder i z' st) g)
  end.
  { apply encoders_inv_set_zyncoder with (g := g); auto. intros _.
    specialize (Hinv i z Hz Hen).
    destruct Hinv as (Hval & Hs & Hm & Hsv & Hvel & Hfix).
    assert (H32 : 2 ^ 32 = 4294967296) by reflexivity.
    unfold is_uint in *.
    destruct (step z =? 0) eqn:Es.
    - apply Z.eqb_eq in Es.
      set (v' := uint (v * ZYNCODER_TICKS_PER_RETENT)).
      assert (Hv' : 0 <= v' < 2 ^ 32) by apply uint_range.
      set (sub' := if max_value z <? v' then max_value z else v').
      assert (Hsub' : 0 <= sub' <= max_value z /\ sub' < 2 ^ 32).
      { unfold sub'. destruct (max_value z <? v') eqn:E.
        - lia.
        - apply Z.ltb_ge in E. lia. }
      assert (Hz' : forall z1, subvalue z1 = sub' -> step z1 = 0 ->
                max_value z1 = max_value z ->
                zyncoder_inv (g i)
                  (with_value (subvalue z1 / ZYNCODER_TICKS_PER_RETENT) z1)).
      { intros z1 E1 E2 E3. unfold zyncoder_inv, is_uint. simpl.
        rewrite E1, E2, E3.
        split.
        - split; [apply Z.div_pos; lia|].
          apply Z.lt_succ_r. apply Z.div_lt_upper_bound; [lia|].
          destruct (Hvel Es) as [(HA & HB & HC)|HB]; nia.
        - split; [lia|]. split; [lia|]. split; [lia|]. split.
          + intros _. destruct (Hvel Es) as [(HA & HB & HC)|HB];
              [left; repeat split; lia | right; exact HB].
          + intros E. contradiction. }
      fold v'. destruct (max_value z <? v') eqn:E;
        apply Hz'; simpl; unfold sub'; rewrite ?E; auto.
    - apply Z.eqb_neq in Es. specialize (Hfix Es).
      destruct (max_value z <? v) eqn:E;
        unfold zyncoder_inv, is_uint; simpl;
        [|apply Z.ltb_ge in E];
        (split; [lia|]); (split; [lia|]); (split; [lia|]); (split; [lia|]);
        (split; [intros E0; contradiction | intros _; exact Hfix]). }
  destruct (negb (send =? 0)); [apply encoders_inv_send_zyncoder|]; exact Hset.
Qed.

Lemma midi_event_zyncoders_encoders_inv chan ctrl val st g :
  is_uint8 val -> bounded_midi g st chan ctrl val ->
  encoders_inv st g -> encoders_inv (midi_event_zyncoders chan ctrl val st) g.
Proof using TICKS_PER_RETENT_positive TICKS_PER_RETENT_int.
  intros Hval Hb Henc.
  destruct (midi_event_zyncoders_spec chan ctrl val st) as (Hsame & _ & Hnth).
  - intros j z' Hz' Hen'. rewrite Hnth in Hz'.
    destruct (j <? MAX_NUM_ZYNCODERS)%nat; [|eauto].
    destruct (nth_error (zyncoders st) j) as [z|] eqn:Hz; [|discriminate].
    simpl in Hz'. inversion Hz'; subst z'; clear Hz'.
    unfold midi_event_zyncoder in *.
    destruct (enabled z && (midi_chan z =? chan) && (midi_ctrl z =? ctrl)) eqn:Ehit;
      [|eauto].
    apply andb_prop in Ehit as [Ehit E3]. apply andb_prop in Ehit as [E1 E2].
    apply Z.eqb_eq in E2, E3.
    specialize (Hb j z Hz E1 E2 E3).
    destruct (Henc j z Hz E1) as (Hv & Hs & Hm & Hsv & Hvel & Hfix).
    pose proof (midi_value_ticks_fit val Hval) as Hfit.
    unfold zyncoder_inv, is_uint8, is_uint in *. simpl.
    rewrite uint_small by lia.
    split; [lia|]. split; [lia|]. split; [lia|]. split; [lia|].
    split; [|exact Hfix].
    intros Es. destruct (Hvel Es) as [(HA & HB & HC)|HB];
      [left; repeat split; try lia; nia | right; exact HB].
Qed.

Lemma setup_osc_frame osc z z' :
  setup_osc osc z = Ok z' ->
  enabled z' = enabled z /\ pin_a z' = pin_a z /\ pin_b z' = pin_b z
  /\ value z' = value z /\ step z' = step z /\ max_value z' = max_value z
  /\ subvalue z' = subvalue z.
Proof.
  unfold setup_osc.
  repeat match goal with
         | |- context [match ?o with Some _ => _ | None => _ end] => destruct o
         | |- context [let (_, _) := ?p in _] => destruct p
         | |- context [if ?c then _ else _] => destruct c
         end;
    intros H; inversion H; subst; simpl; repeat split; reflexivity.
Qed.

Lemma setup_values_inv v m s z :
  is_uint v -> is_uint m -> is_uint s ->
  zyncoder_inv m
    (if 0 <? s
     then with_max_value m
            (with_subvalue 0
               (with_value (if m <? v then m else v) (with_step s z)))
     else with_max_value (uint (ZYNCODER_TICKS_PER_RETENT * m))
            (with_subvalue
               (uint (ZYNCODER_TICKS_PER_RETENT * (if m <? v then m else v)))
               (with_value (if m <? v then m else v) (with_step s z)))).
Proof using TICKS_PER_RETENT_positive TICKS_PER_RETENT_int.
  unfold is_uint. intros Hv Hm Hs.
  assert (H32 : 2 ^ 32 = 4294967296) by reflexivity.
  set (v1 := if m <? v then m else v).
  assert (Hv1 : 0 <= v1 <= m).
  { unfold v1. destruct (m <? v) eqn:E; [|apply Z.ltb_ge in E]; lia. }
  destruct (0 <? s) eqn:Es; unfold zyncoder_inv, is_uint; simpl.
  - apply Z.ltb_lt in Es.
    split; [lia|]. split; [lia|]. split; [lia|]. split; [lia|].
    split; [intros E; lia | reflexivity].
  - apply Z.ltb_ge in Es.
    split; [lia|]. split; [lia|].
    split; [apply uint_range|]. split; [apply uint_range|].
    split; [|intros E; lia].
    intros _.
    destruct (Z_lt_ge_dec (ZYNCODER_TICKS_PER_RETENT * m) (2 ^ 32)) as [Hlt|Hge];
      [left|right; lia].
    rewrite !uint_small by nia. repeat split; try lia. nia.
Qed.

Lemma configure_other g i m j : j <> i -> configure g i m j = g j.
Proof.
  intros H. unfold configure.
  destruct (j =? i)%nat eqn:E; [apply Nat.eqb_eq in E; contradiction|reflexivity].
Qed.

Lemma configure_same g i m : configure g i m i = m.
Proof. unfold configure. now rewrite Nat.eqb_refl. Qed.


(** ** Switches *)

Lemma array_set_twice {A : Type} (l : list A) i x y :
  array_set (array_set l i x) i y = array_set l i y.
Proof.
  revert i; induction l as [|h t IH]; intros [|i]; simpl; auto.
  now rewrite IH.
Qed.

Lemma In_array_set {A : Type} (l : list A) i x y :
  In y (array_set l i x) -> y = x \/ In y l.
Proof.
  revert i; induction l as [|h t IH]; intros [|i]; simpl; auto.
  - intros [H|H]; auto.
  - intros [H|H]; auto. destruct (IH _ H); auto.
Qed.

Lemma for_loop_out_ret {S : Type} (body : nat -> S -> S * flow) n :
  forall i s,
    for_loop_out (fun k s => Ok (body k s)) i n s = Ok (for_loop_ret body i n s).
Proof.
  induction n as [|n IH]; intros i s; simpl; [reflexivity|].
  destruct (body i s) as [s' [|]]; [apply IH|reflexivity].
Qed.

(** Induction over a loop with an invariant that knows how far the loop
    has come. *)
Lemma for_loop_out_ind {S : Type} (P : nat -> S -> Prop) body n :
  forall i s s' fl,
    P i s ->
    (forall k s s' fl, (i <= k < i + n)%nat -> P k s ->
       body k s = Ok (s', fl) -> P (Datatypes.S k) s') ->
    for_loop_out body i n s = Ok (s', fl) ->
    exists k, (i <= k <= i + n)%nat /\ P k s'.
Proof.
  induction n as [|n IH]; intros i s s' fl Hs Hbody H; simpl in H.
  - inversion H; subst. exists i. split; [lia|exact Hs].
  - destruct (body i s) as [[s1 [|]]|f] eqn:Eb; try discriminate.
    + destruct (IH (Datatypes.S i) s1 s' fl) as (k & Hk & HP).
      * apply (Hbody i s s1 Continue); [lia|exact Hs|exact Eb].
      * intros k s2 s3 fl' Hk. apply Hbody. lia.
      * exact H.
      * exists k. split; [lia|exact HP].
    + inversion H; subst. exists (Datatypes.S i). split; [lia|].
      apply (Hbody i s s' Return); [lia|exact Hs|exact Eb].
Qed.

(** A loop whose [k]-th turn returns or faults does not depend on the
    turns after it. *)
Lemma for_loop_out_stops {S : Type} (Q : S -> Prop) body k :
  forall i n s,
    Q s ->
    (forall j s s', (i <= j < i + k)%nat -> Q s ->
       body j s = Ok (s', Continue) -> Q s') ->
    (forall s, Q s -> forall s', body (i + k)%nat s <> Ok (s', Continue)) ->
    for_loop_out body i (Datatypes.S k + n) s
    = for_loop_out body i (Datatypes.S k) s.
Proof.
  induction k as [|k IH]; intros i n s Hs Hpres Hstop.
  - simpl. specialize (Hstop s Hs). rewrite Nat.add_0_r in Hstop.
    destruct (body i s) as [[s' [|]]|f]; try reflexivity.
    exfalso. apply (Hstop s'). reflexivity.
  - change (for_loop_out body i (Datatypes.S (Datatypes.S k) + n) s)
      with (match body i s with
            | Ok (s', Continue) =>
                for_loop_out body (Datatypes.S i) (Datatypes.S k + n) s'
            | Ok (s', Return) => Ok (s', Return)
            | Fault f => Fault f
            end).
    change (for_loop_out body i (Datatypes.S (Datatypes.S k)) s)
      with (match body i s with
            | Ok (s', Continue) =>
                for_loop_out body (Datatypes.S i) (Datatypes.S k) s'
            | Ok (s', Return) => Ok (s', Return)
            | Fault f => Fault f
            end).
    destruct (body i s) as [[s' [|]]|f] eqn:Eb; try reflexivity.
    apply IH.
    + apply (Hpres i s s'); [lia|exact Hs|exact Eb].
    + intros j s1 s2 Hj. apply Hpres. lia.
    + intros s1 Hs1 s2.
      replace (Datatypes.S i + k)%nat with (i + Datatypes.S k)%nat by lia.
      apply Hstop. exact Hs1.
Qed.

Lemma send_zynswitch_midi_zynswitches zs status st :
  zynswitches (send_zynswitch_midi zs status st) = zynswitches st.
Proof.
  unfold send_zynswitch_midi.
  destruct (ev_type (sw_midi_event zs)); try reflexivity.
  - simpl.
    match goal with
    | |- zynswitches (midi_event_zyncoders ?c ?k ?v ?s) = _ =>
        destruct (midi_event_zyncoders_spec c k v s) as ((-> & _) & _)
    end.
    reflexivity.
  - destruct (status =? 0); reflexivity.
  - destruct (status =? 0); reflexivity.
Qed.

(** The filter set against [switch_observed]. *)
Lemma debounce_zynswitch_spec release now zs status :
  status <> sw_status zs ->
  let r := debounce_zynswitch release now (with_sw_status status zs) in
  switch_observed release status now zs (fst r)
  /\ sw_enabled (fst r) = sw_enabled zs /\ sw_pin (fst r) = sw_pin zs
  /\ sw_midi_event (fst r) = sw_midi_event zs
  /\ (snd r = Return <->
      status = release /\ 0 < sw_tsus zs /\ uint (now - sw_tsus zs) < 1000).
Proof.
  intros Hne. unfold debounce_zynswitch, switch_observed. simpl.
  destruct (status =? release) eqn:E1.
  - apply Z.eqb_eq in E1.
    destruct (0 <? sw_tsus zs) eqn:E2.
    + apply Z.ltb_lt in E2.
      destruct (uint (now - sw_tsus zs) <? 1000) eqn:E3; simpl.
      * apply Z.ltb_lt in E3.
        split; [split; [reflexivity|split; [left; reflexivity|auto]]|].
        do 3 (split; [reflexivity|]).
        split; auto.
      * apply Z.ltb_ge in E3.
        split; [split; [reflexivity|split; [right|auto]]|].
        { repeat split; auto; try lia; congruence. }
        do 3 (split; [reflexivity|]).
        split; [discriminate|]. intros (_ & _ & H). lia.
    + apply Z.ltb_ge in E2. simpl.
      split; [split; [reflexivity|split; [left; reflexivity|auto]]|].
      do 3 (split; [reflexivity|]).
      split; [discriminate|]. intros (_ & H & _). lia.
  - apply Z.eqb_neq in E1. simpl.
    split; [split; [reflexivity|split; [left; reflexivity|]]|].
    { right. right. repeat split; auto. }
    do 3 (split; [reflexivity|]).
    split; [discriminate|]. intros (H & _). contradiction.
Qed.

(** What an edge does to the switch array. *)
Lemma edge_zynswitch_zynswitches release i zs status now st :
  zynswitches (fst (edge_zynswitch release i zs status now st)) =
    array_set (zynswitches st) i
      (fst (debounce_zynswitch release now (with_sw_status status zs)))
  /\ snd (edge_zynswitch release i zs status now st) =
       snd (debounce_zynswitch release now (with_sw_status status zs)).
Proof.
  unfold edge_zynswitch.
  destruct (debounce_zynswitch release now (with_sw_status status zs))
    as [zs2 fl]; simpl.
  rewrite send_zynswitch_midi_zynswitches. simpl.
  rewrite array_set_twice. auto.
Qed.

Lemma scan_zynswitch_other data now k s s' fl :
  scan_zynswitch data now k s = Ok (s', fl) ->
  forall j, j <> k ->
    nth_error (zynswitches s') j = nth_error (zynswitches s) j.
Proof.
  unfold scan_zynswitch. intros H j Hj.
  destruct (nth_error (zynswitches s) k) as [zs|];
    [|inversion H; subst; reflexivity].
  destruct (negb (sw_enabled zs)); [inversion H; subst; reflexivity|].
  destruct (payload_bit data (sw_pin zs)) as [status|]; simpl in H;
    [|discriminate].
  destruct (status =? sw_status zs); [inversion H; subst; reflexivity|].
  destruct (edge_zynswitch_zynswitches 0 k zs status now s) as [Hsw _].
  inversion H as [Heq]. rewrite Heq in Hsw. simpl in Hsw.
  rewrite Hsw. apply nth_error_array_set_neq. congruence.
Qed.

Lemma poll_zynswitch_other digitalRead now k s :
  forall j, j <> k ->
    nth_error (zynswitches (fst (poll_zynswitch digitalRead now k s))) j
    = nth_error (zynswitches s) j.
Proof.
  unfold poll_zynswitch. intros j Hj.
  destruct (nth_error (zynswitches s) k) as [zs|]; [|reflexivity].
  destruct (negb (sw_enabled zs) || (sw_pin zs <? 100)); [reflexivity|].
  destruct (_ =? sw_status zs); [reflexivity|].
  destruct (edge_zynswitch_zynswitches 1 k zs
              (uint8_t (digitalRead (sw_pin zs))) now s) as [Hsw _].
  rewrite Hsw. apply nth_error_array_set_neq. congruence.
Qed.

Lemma scan_zynswitch_returns data now i s zs :
  nth_error (zynswitches s) i = Some zs ->
  payload_bit data (sw_pin zs) = Ok 0 ->
  spurious_release 0 0 now zs ->
  exists s', scan_zynswitch data now i s = Ok (s', Return).
Proof.
  intros Hz Hbit (Hen & _ & Hst & Hts & Hdt).
  unfold scan_zynswitch. rewrite Hz, Hen. cbn [negb]. rewrite Hbit. unfold bind.
  replace (0 =? sw_status zs) with false
    by (symmetry; apply Z.eqb_neq; congruence).
  destruct (edge_zynswitch_zynswitches 0 i zs 0 now s) as [_ Hfl].
  assert (Hne : 0 <> sw_status zs) by congruence.
  destruct (debounce_zynswitch_spec 0 now zs 0 Hne) as (_ & _ & _ & _ & Hret).
  destruct (edge_zynswitch 0 i zs 0 now s) as [s' fl]. simpl in Hfl.
  exists s'. f_equal. f_equal. rewrite Hfl. apply Hret. auto.
Qed.

Lemma poll_zynswitch_returns digitalRead now i s zs :
  nth_error (zynswitches s) i = Some zs ->
  100 <= sw_pin zs ->
  uint8_t (digitalRead (sw_pin zs)) = 1 ->
  spurious_release 1 1 now zs ->
  snd (poll_zynswitch digitalRead now i s) = Return.
Proof.
  intros Hz Hpin Hbit (Hen & _ & Hst & Hts & Hdt).
  unfold poll_zynswitch. rewrite Hz, Hen, Hbit. cbn [negb orb].
  replace (sw_pin zs <? 100) with false by (symmetry; apply Z.ltb_ge; lia).
  replace (1 =? sw_status zs) with false
    by (symmetry; apply Z.eqb_neq; congruence).
  destruct (edge_zynswitch_zynswitches 1 i zs 1 now s) as [_ Hfl].
  assert (Hne : 1 <> sw_status zs) by congruence.
  destruct (debounce_zynswitch_spec 1 now zs 1 Hne) as (_ & _ & _ & _ & Hret).
  rewrite Hfl. apply Hret. auto.
Qed.

Lemma for_loop_out_defined {S : Type} (Q : nat -> S -> Prop) body n :
  forall i s,
    Q i s ->
    (forall k s, (i <= k < i + n)%nat -> Q k s ->
       exists s' fl, body k s = Ok (s', fl) /\ Q (Datatypes.S k) s') ->
    exists s' fl, for_loop_out body i n s = Ok (s', fl).
Proof.
  induction n as [|n IH]; intros i s Hs Hbody; simpl.
  - eauto.
  - destruct (Hbody i s) as (s1 & fl & Eb & Hs1); [lia|exact Hs|].
    rewrite Eb. destruct fl; [|eauto].
    apply IH; [exact Hs1|]. intros k s2 Hk. apply Hbody. lia.
Qed.

(** C10.  A bulk scan that meets a release less than 1 ms after the press
    at switch [i] returns there.  The UART scan [update_zynswitches] and
    the expander poll [update_expanded_zynswitches] over all the switches
    are the scan over the first [i + 1] of them, which never reads a
    switch after [i]: so every switch [j > i] keeps its record ([status],
    [tsus], [dtus]), whatever its level in the payload or on its pin, and
    nothing is emitted for it.  The UART scan is defined if the pins of
    the enabled switches up to [i] lie in the payload. *)
Theorem bulk_scan_returns_at_spurious_release st i zs now :
  (i < MAX_NUM_ZYNSWITCHES)%nat ->
  nth_error (zynswitches st) i = Some zs ->
  (forall data,
      payload_bit data (sw_pin zs) = Ok 0 ->
      spurious_release 0 0 now zs ->
      update_zynswitches data now st
      = update_zynswitches_upto (Datatypes.S i) data now st
      /\ (forall st', update_zynswitches data now st = Ok st' ->
          forall j, (i < j)%nat ->
            nth_error (zynswitches st') j = nth_error (zynswitches st) j)
      /\ ((forall k zk, (k <= i)%nat -> nth_error (zynswitches st) k = Some zk ->
             sw_enabled zk = true ->
             exists b, payload_bit data (sw_pin zk) = Ok b) ->
          exists st', update_zynswitches data now st = Ok st'))
  /\ (forall digitalRead,
      100 <= sw_pin zs ->
      uint8_t (digitalRead (sw_pin zs)) = 1 ->
      spurious_release 1 1 now zs ->
      update_expanded_zynswitches digitalRead now st
      = update_expanded_zynswitches_upto (Datatypes.S i) digitalRead now st
      /\ forall j, (i < j)%nat ->
           nth_error (zynswitches (update_expanded_zynswitches digitalRead now st)) j
           = nth_error (zynswitches st) j).
Proof.
  intros Hi Hz. split.
  - intros data Hbit Hsp.
    assert (Heq : for_loop_out (scan_zynswitch data now) 0 MAX_NUM_ZYNSWITCHES st
                  = for_loop_out (scan_zynswitch data now) 0 (Datatypes.S i) st).
    { replace MAX_NUM_ZYNSWITCHES
        with (Datatypes.S i + (MAX_NUM_ZYNSWITCHES - Datatypes.S i))%nat by lia.
      apply (for_loop_out_stops
               (fun s => nth_error (zynswitches s) i = Some zs)).
      - exact Hz.
      - intros j s s' Hj Hs Hb.
        rewrite (scan_zynswitch_other _ _ _ _ _ _ Hb) by lia. exact Hs.
      - intros s Hs s' Hb. simpl in Hb.
        destruct (scan_zynswitch_returns data now i s zs Hs Hbit Hsp) as (s1 & E).
        rewrite E in Hb. discriminate. }
    assert (Hupto : update_zynswitches data now st
                    = update_zynswitches_upto (Datatypes.S i) data now st).
    { unfold update_zynswitches, update_zynswitches_upto. now rewrite Heq. }
    split; [exact Hupto|]. split.
    + intros st' H j Hj. rewrite Hupto in H.
      unfold update_zynswitches_upto in H.
      destruct (for_loop_out (scan_zynswitch data now) 0 (Datatypes.S i) st)
        as [[s1 fl]|] eqn:E; simpl in H; [|discriminate].
      inversion H; subst st'; clear H.
      destruct (for_loop_out_ind
                  (fun _ s => nth_error (zynswitches s) j
                              = nth_error (zynswitches st) j)
                  (scan_zynswitch data now) (Datatypes.S i) 0 st s1 fl)
        as (k & _ & Hk); auto.
      intros k s s' fl' Hk Hs Hb.
      rewrite (scan_zynswitch_other _ _ _ _ _ _ Hb) by lia. exact Hs.
    + intros Hpins. rewrite Hupto. unfold update_zynswitches_upto.
      destruct (for_loop_out_defined
                  (fun k s => forall j, (k <= j)%nat ->
                     nth_error (zynswitches s) j = nth_error (zynswitches st) j)
                  (scan_zynswitch data now) (Datatypes.S i) 0 st)
        as (s' & fl & E).
      * auto.
      * intros k s Hk Hs.
        assert (Hbody : exists s' fl, scan_zynswitch data now k s = Ok (s', fl)).
        { unfold scan_zynswitch.
          destruct (nth_error (zynswitches s) k) as [zk|] eqn:Ek; [|eauto].
          destruct (sw_enabled zk) eqn:Een; simpl; [|eauto].
          rewrite Hs in Ek by lia.
          destruct (Hpins k zk) as (b & Eb); [lia|exact Ek|exact Een|].
          rewrite Eb. simpl. destruct (b =? sw_status zk); [eauto|].
          destruct (edge_zynswitch 0 k zk b now s) as [s2 f2]; eauto. }
        destruct Hbody as (s' & fl & Hb). exists s', fl. split; [exact Hb|].
        intros j Hj.
        rewrite (scan_zynswitch_other _ _ _ _ _ _ Hb) by lia. apply Hs. lia.
      * rewrite E. simpl. eauto.
  - intros digitalRead Hpin Hbit Hsp.
    set (body := fun k s => Ok (poll_zynswitch digitalRead now k s)).
    assert (Heq : for_loop_out body 0 MAX_NUM_ZYNSWITCHES st
                  = for_loop_out body 0 (Datatypes.S i) st).
    { replace MAX_NUM_ZYNSWITCHES
        with (Datatypes.S i + (MAX_NUM_ZYNSWITCHES - Datatypes.S i))%nat by lia.
      apply (for_loop_out_stops
               (fun s => nth_error (zynswitches s) i = Some zs)).
      - exact Hz.
      - intros j s s' Hj Hs Hb. unfold body in Hb.
        inversion Hb as [Hb']. clear Hb.
        replace s' with (fst (poll_zynswitch digitalRead now j s))
          by (rewrite Hb'; reflexivity).
        rewrite poll_zynswitch_other by lia. exact Hs.
      - intros s Hs s' Hb. simpl in Hb. unfold body in Hb.
        inversion Hb as [Hb']. clear Hb.
        pose proof (poll_zynswitch_returns digitalRead now i s zs Hs Hpin Hbit Hsp)
          as Hret.
        rewrite Hb' in Hret. discriminate. }
    unfold body in Heq. rewrite !for_loop_out_ret in Heq.
    inversion Heq as [Heq'].
    assert (Hupto : update_expanded_zynswitches digitalRead now st
              = update_expanded_zynswitches_upto (Datatypes.S i) digitalRead now st).
    { unfold update_expanded_zynswitches, update_expanded_zynswitches_upto.
      now rewrite Heq'. }
    split; [exact Hupto|].
    intros j Hj. rewrite Hupto. unfold update_expanded_zynswitches_upto.
    pose proof (for_loop_out_ret (poll_zynswitch digitalRead now)
                  (Datatypes.S i) 0 st) as Hret.
    destruct (for_loop_ret (poll_zynswitch digitalRead now) 0 (Datatypes.S i) st)
      as [s1 fl] eqn:E.
    destruct (for_loop_out_ind
                (fun _ s => nth_error (zynswitches s) j
                            = nth_error (zynswitches st) j)
                (fun k s => Ok (poll_zynswitch digitalRead now k s))
                (Datatypes.S i) 0 st s1 fl)
      as (k & _ & Hk); auto.
    intros k s s' fl' Hk Hs Hb. inversion Hb as [Hb']. clear Hb.
    replace s' with (fst (poll_zynswitch digitalRead now k s))
      by (rewrite Hb'; reflexivity).
    rewrite poll_zynswitch_other by lia. exact Hs.
Qed.

Lemma switches_inv_frame st st' :
  zynswitches st' = zynswitches st -> switches_inv st -> switches_inv st'.
Proof. unfold switches_inv. intros ->. auto. Qed.

Lemma switches_inv_set st i zs :
  switches_inv st -> switch_inv zs -> switches_inv (set_zynswitch i zs st).
Proof.
  intros Hinv Hzs zs' Hin. unfold set_zynswitch in Hin. simpl in Hin.
  apply In_array_set in Hin as [->|Hin]; auto.
Qed.

Lemma midi_event_zyncoders_zynswitches chan ctrl val st :
  zynswitches (midi_event_zyncoders chan ctrl val st) = zynswitches st.
Proof.
  destruct (midi_event_zyncoders_spec chan ctrl val st) as ((H & _) & _).
  exact H.
Qed.

Lemma update_zyncoder_zynswitches i src now st st' :
  update_zyncoder i src now st = Ok st' -> zynswitches st' = zynswitches st.
Proof.
  unfold update_zyncoder.
  destruct (MAX_NUM_ZYNCODERS <=? i)%nat; [intros H; inversion H; reflexivity|].
  destruct (nth_error (zyncoders st) i) as [z|]; [|discriminate].
  destruct (negb (enabled z)); [intros H; inversion H; reflexivity|].
  destruct (decode_zyncoder src z) as [[[z1 up] down]|]; simpl; [|discriminate].
  destruct (advance_zyncoder up down now z1) as [[z2 send]|]; simpl;
    [|discriminate].
  intros H; inversion H; subst.
  destruct send; [rewrite send_zyncoder_zynswitches|]; reflexivity.
Qed.

Lemma set_value_zyncoder_zynswitches i v send st :
  zynswitches (set_value_zyncoder i v send st) = zynswitches st.
Proof.
  unfold set_value_zyncoder.
  destruct (MAX_NUM_ZYNCODERS <=? i)%nat; [reflexivity|].
  destruct (nth_error (zyncoders st) i) as [z|]; [|reflexivity].
  destruct (negb (enabled z)); [reflexivity|].
  destruct (negb (send =? 0)); [rewrite send_zyncoder_zynswitches|]; reflexivity.
Qed.


Lemma switch_observed_inv release level now zs zs' :
  switch_inv zs -> switch_observed release level now zs zs' -> switch_inv zs'.
Proof.
  unfold switch_inv. intros Hinv (_ & [H|H] & _).
  - rewrite H. exact Hinv.
  - right. tauto.
Qed.

Lemma edge_zynswitch_switches_inv release i zs status now st :
  nth_error (zynswitches st) i = Some zs ->
  status <> sw_status zs ->
  switches_inv st ->
  switches_inv (fst (edge_zynswitch release i zs status now st)).
Proof.
  intros Hz Hne Hinv zs' Hin.
  destruct (edge_zynswitch_zynswitches release i zs status now st) as [Hsw _].
  rewrite Hsw in Hin. apply In_array_set in Hin as [->|Hin]; [|auto].
  destruct (debounce_zynswitch_spec release now zs status Hne) as (Hobs & _).
  apply (switch_observed_inv release status now zs); [|exact Hobs].
  apply Hinv. apply (nth_error_In _ _ Hz).
Qed.

Lemma update_zynswitch_switches_inv i src now st :
  switches_inv st -> switches_inv (update_zynswitch i src now st).
Proof.
  intros Hinv. unfold update_zynswitch.
  destruct (MAX_NUM_ZYNSWITCHES <=? i)%nat; [exact Hinv|].
  destruct (nth_error (zynswitches st) i) as [zs|] eqn:Hz; [|exact Hinv].
  destruct (negb (sw_enabled zs)); [exact Hinv|].
  destruct (read_status src zs =? sw_status zs) eqn:E; [exact Hinv|].
  apply Z.eqb_neq in E. now apply edge_zynswitch_switches_inv.
Qed.

Lemma poll_zynswitch_switches_inv digitalRead now k st :
  switches_inv st -> switches_inv (fst (poll_zynswitch digitalRead now k st)).
Proof.
  intros Hinv. unfold poll_zynswitch.
  destruct (nth_error (zynswitches st) k) as [zs|] eqn:Hz; [|exact Hinv].
  destruct (negb (sw_enabled zs) || (sw_pin zs <? 100)); [exact Hinv|].
  destruct (uint8_t (digitalRead (sw_pin zs)) =? sw_status zs) eqn:E;
    [exact Hinv|].
  apply Z.eqb_neq in E. now apply edge_zynswitch_switches_inv.
Qed.

Lemma scan_zynswitch_switches_inv data now k st st' fl :
  switches_inv st -> scan_zynswitch data now k st = Ok (st', fl) ->
  switches_inv st'.
Proof.
  intros Hinv H. unfold scan_zynswitch in H.
  destruct (nth_error (zynswitches st) k) as [zs|] eqn:Hz;
    [|inversion H; subst; exact Hinv].
  destruct (negb (sw_enabled zs)); [inversion H; subst; exact Hinv|].
  destruct (payload_bit data (sw_pin zs)) as [status|]; simpl in H;
    [|discriminate].
  destruct (status =? sw_status zs) eqn:E; [inversion H; subst; exact Hinv|].
  apply Z.eqb_neq in E.
  pose proof (edge_zynswitch_switches_inv 0 k zs status now st Hz E Hinv) as Hs.
  inversion H as [Heq]. rewrite Heq in Hs. exact Hs.
Qed.

Lemma update_expanded_zynswitches_switches_inv digitalRead now st :
  switches_inv st ->
  switches_inv (update_expanded_zynswitches digitalRead now st).
Proof.
  intros Hinv.
  unfold update_expanded_zynswitches, update_expanded_zynswitches_upto.
  pose proof (for_loop_out_ret (poll_zynswitch digitalRead now)
                MAX_NUM_ZYNSWITCHES 0 st) as Hret.
  destruct (for_loop_ret (poll_zynswitch digitalRead now) 0 MAX_NUM_ZYNSWITCHES st)
    as [s1 fl].
  refine (for_loop_out_invariant switches_inv _ _ _ _ _ _ _ Hinv Hret).
  intros k s s' fl' Hs Hb. inversion Hb as [Hb'].
  replace s' with (fst (poll_zynswitch digitalRead now k s))
    by (rewrite Hb'; reflexivity).
  now apply poll_zynswitch_switches_inv.
Qed.

Lemma update_zynswitches_switches_inv data now st st' :
  switches_inv st -> update_zynswitches data now st = Ok st' ->
  switches_inv st'.
Proof.
  intros Hinv H. unfold update_zynswitches, update_zynswitches_upto in H.
  destruct (for_loop_out (scan_zynswitch data now) 0 MAX_NUM_ZYNSWITCHES st)
    as [[s1 fl]|] eqn:E; simpl in H; [|discriminate].
  inversion H; subst st'.
  refine (for_loop_out_invariant switches_inv _ _ _ _ _ _ _ Hinv E).
  intros k s s' fl' Hs Hb. eapply scan_zynswitch_switches_inv; eauto.
Qed.

Lemma zyncoder_mcp23017_ISR_switches_inv base_pin bank inp st st' :
  switches_inv st ->
  zyncoder_mcp23017_ISR base_pin bank inp st = Ok st' ->
  switches_inv st'.
Proof.
  intros Hinv H. unfold zyncoder_mcp23017_ISR in H.
  cbv zeta in H.
  match type of H with
  | bind (for_loop_out ?b1 0 _ st) _ = _ =>
      destruct (for_loop_out b1 0 MAX_NUM_ZYNCODERS st) as [[st1 fl1]|f] eqn:E1;
        [|discriminate];
      assert (Hinv1 : switches_inv st1);
        [ refine (for_loop_out_invariant switches_inv b1 _ _ _ _ _ _ Hinv E1)
        | ]
  end.
  - intros k s s' fl Hs Hb.
    destruct (nth_error (zyncoders s) k) as [z|] eqn:Hz;
      [|inversion Hb; subst; exact Hs].
    destruct (negb (enabled z)); [inversion Hb; subst; exact Hs|].
    match type of Hb with
    | (if ?c then _ else _) = _ => destruct c
    end; [|inversion Hb; subst; exact Hs].
    destruct (bitRead_reg _ _) as [state_a|]; simpl in Hb; [|discriminate].
    destruct (bitRead_reg _ _) as [state_b|]; simpl in Hb; [|discriminate].
    match type of Hb with
    | (if ?c then _ else _) = _ => destruct c
    end; [|inversion Hb; subst; exact Hs].
    destruct (update_zyncoder k _ _ s) as [s1|] eqn:Hupd; simpl in Hb;
      [|discriminate].
    apply update_zyncoder_zynswitches in Hupd.
    destruct (nth_error (zyncoders s1) k) as [z1|] eqn:Hz1; [|discriminate].
    inversion Hb; subst; clear Hb.
    apply (switches_inv_frame s); [exact Hupd|exact Hs].
  - simpl in H.
    match type of H with
    | bind (for_loop_out ?b2 0 _ _) _ = _ =>
        destruct (for_loop_out b2 0 MAX_NUM_ZYNSWITCHES st1) as [[st2 fl2]|f] eqn:E2;
          [|discriminate];
        assert (Hinv2 : switches_inv st2);
          [ refine (for_loop_out_invariant switches_inv b2 _ _ _ _ _ _ Hinv1 E2)
          | simpl in H; inversion H; subst; exact Hinv2 ]
    end.
    intros k s s' fl Hs Hb.
    destruct (nth_error (zynswitches s) k) as [zs|] eqn:Hz;
      [|inversion Hb; subst; exact Hs].
    destruct (negb (sw_enabled zs)); [inversion Hb; subst; exact Hs|].
    match type of Hb with
    | (if ?c then _ else _) = _ => destruct c
    end; [|inversion Hb; subst; exact Hs].
    destruct (bitRead_reg _ _) as [state'|]; simpl in Hb; [|discriminate].
    match type of Hb with
    | (if ?c then _ else _) = _ => destruct c
    end; inversion Hb; subst; [|exact Hs].
    now apply update_zynswitch_switches_inv.
Qed.

Lemma zyncoder_mcp23017_bank_ISRs_switches_inv hw st st' :
  switches_inv st ->
  zyncoder_mcp23017_bank_ISRs hw st = Ok st' ->
  switches_inv st'.
Proof.
  intros Hinv H. unfold zyncoder_mcp23017_bank_ISRs in H.
  destruct (zyncoder_mcp23017_ISR MCP23017_BASE_PIN 0 (hw_bankA hw) st)
    as [st1|] eqn:E1; simpl in H; [|discriminate].
  eapply zyncoder_mcp23017_ISR_switches_inv; [|exact H].
  eapply zyncoder_mcp23017_ISR_switches_inv; [exact Hinv|exact E1].
Qed.

Lemma setup_zynswitch_switches_inv w i pin hw st r st' :
  switches_inv st -> setup_zynswitch w i pin hw st = Ok (r, st') ->
  switches_inv st'.
Proof.
  intros Hinv H. unfold setup_zynswitch in H.
  destruct (MAX_NUM_ZYNSWITCHES <=? i)%nat; [inversion H; subst; exact Hinv|].
  destruct (nth_error (zynswitches st) i) as [zs|]; [|discriminate].
  cbv zeta in H.
  match type of H with
  | context [set_zynswitch i ?zs' st] =>
      assert (Hset : switches_inv (set_zynswitch i zs' st))
        by (apply switches_inv_set; [exact Hinv|left; reflexivity]);
      set (st1 := set_zynswitch i zs' st) in *
  end.
  match type of H with
  | bind ?hwpart _ = _ => destruct hwpart as [st2|] eqn:Ehw
  end; simpl bind in H; [|discriminate].
  inversion H; subst r st'; clear H.
  destruct w;
    repeat match type of Ehw with
           | (if ?c then _ else _) = _ => destruct c
           end;
    try discriminate;
    try (inversion Ehw; subst st2; exact Hset).
  - eapply zyncoder_mcp23017_bank_ISRs_switches_inv; [|exact Ehw]. exact Hset.
  - inversion Ehw; subst st2. apply update_zynswitch_switches_inv. exact Hset.
Qed.

Lemma setup_zynswitch_midi_switches_inv i evt chan num val st :
  switches_inv st ->
  switches_inv (snd (setup_zynswitch_midi i evt chan num val st)).
Proof.
  intros Hinv. unfold setup_zynswitch_midi.
  destruct (MAX_NUM_ZYNSWITCHES <=? i)%nat; [exact Hinv|].
  destruct (nth_error (zynswitches st) i) as [zs|] eqn:Hz; [|exact Hinv].
  simpl. apply switches_inv_set; [exact Hinv|].
  apply nth_error_In in Hz. apply (Hinv zs Hz).
Qed.

Lemma get_zynswitch_dtus_switches_inv i long_dtus now st :
  switches_inv st ->
  switches_inv (snd (get_zynswitch_dtus i long_dtus now st)).
Proof.
  intros Hinv. unfold get_zynswitch_dtus.
  destruct (MAX_NUM_ZYNSWITCHES <=? i)%nat; [exact Hinv|].
  destruct (nth_error (zynswitches st) i) as [zs|] eqn:Hz; [|exact Hinv].
  apply nth_error_In in Hz. pose proof (Hinv zs Hz) as Hzs.
  destruct (0 <? sw_dtus zs); simpl.
  - apply switches_inv_set; [exact Hinv|left; reflexivity].
  - destruct (0 <? sw_tsus zs); [|exact Hinv].
    destruct (long_dtus <? uint (now - sw_tsus zs)); simpl; [|exact Hinv].
    apply switches_inv_set; [exact Hinv|exact Hzs].
Qed.

Lemma setup_zyncoder_switches_inv w i pin_a' pin_b' chan ctrl osc v m s hw st r st' :
  switches_inv st ->
  setup_zyncoder w i pin_a' pin_b' chan ctrl osc v m s hw st = Ok (r, st') ->
  switches_inv st'.
Proof.
  intros Hinv H. unfold setup_zyncoder in H.
  destruct (MAX_NUM_ZYNCODERS <? i)%nat; [inversion H; subst; exact Hinv|].
  destruct (nth_error (zyncoders st) i) as [z|]; [|discriminate].
  cbv zeta in H.
  destruct (setup_osc osc _) as [z2|]; simpl bind in H; [|discriminate].
  match type of H with
  | (if ?c then _ else _) = _ => destruct c
  end; [|inversion H; subst; exact Hinv].
  match type of H with
  | bind ?hwpart _ = _ => destruct hwpart as [st2|] eqn:Ehw
  end; simpl bind in H; [|discriminate].
  inversion H; subst r st'; clear H.
  destruct w;
    repeat match type of Ehw with
           | (if ?c then _ else _) = _ => destruct c
           end;
    try discriminate;
    try (inversion Ehw; subst st2; exact Hinv).
  eapply zyncoder_mcp23017_bank_ISRs_switches_inv; [|exact Ehw]. exact Hinv.
Qed.

Lemma uart_thread_iteration_switches_inv c nz ns payload st payload' st' :
  switches_inv st ->
  uart_thread_iteration c nz ns payload st = Ok (payload', st') ->
  switches_inv st'.
Proof.
  intros Hinv H. unfold uart_thread_iteration in H.
  assert (Hins : switches_inv (insertInBuffer (uint8_t c) st)).
  { apply (switches_inv_frame st); [|exact Hinv].
    unfold insertInBuffer. cbv zeta.
    repeat match goal with
           | |- context [if ?b then _ else _] => destruct b
           end; reflexivity. }
  set (st1 := insertInBuffer (uint8_t c) st) in *.
  assert (Hchk : switches_inv (snd (checkFraming START_FRAME_VALUE END_FRAME_VALUE st1))).
  { unfold checkFraming.
    repeat match goal with
           | |- context [if ?b then _ else _] => destruct b
           end; exact Hins. }
  destruct (checkFraming START_FRAME_VALUE END_FRAME_VALUE st1) as [framed st2].
  simpl in Hchk.
  destruct (framed =? 0); [inversion H; subst; exact Hchk|].
  destruct (getBufferData payload st2) as [corrupt p'].
  destruct (corrupt =? 0); [|inversion H; subst; exact Hchk].
  match type of H with
  | bind (for_loop_out ?b 0 _ ?s0) _ = _ =>
      destruct (for_loop_out b 0 MAX_NUM_ZYNCODERS s0) as [[s1 fl]|] eqn:E;
        simpl bind in H; [|discriminate];
      assert (Hs1 : switches_inv s1);
        [ refine (for_loop_out_invariant switches_inv b _ _ _ _ _ _ _ E);
          [|exact Hchk]
        | ]
  end.
  - intros k s s' fl' Hs Hb.
    destruct (update_zyncoder k (from_data p') (nz k) s) as [s2|] eqn:Hu;
      simpl in Hb; [|discriminate].
    inversion Hb; subst.
    apply (switches_inv_frame s); [|exact Hs].
    apply (update_zyncoder_zynswitches _ _ _ _ _ Hu).
  - simpl fst in H.
    destruct (update_zynswitches p' ns s1) as [s5|] eqn:E5;
      simpl in H; [|discriminate].
    inversion H; subst.
    eapply update_zynswitches_switches_inv; [|exact E5]. exact Hs1.
Qed.

Lemma lib_reachable_switches_inv st :
  lib_reachable st -> switches_inv st.
Proof.
  induction 1.
  - intros zs Hin. simpl in Hin. apply repeat_spec in Hin. subst. now left.
  - eapply setup_zynswitch_switches_inv; eauto.
  - now apply setup_zynswitch_midi_switches_inv.
  - now apply get_zynswitch_dtus_switches_inv.
  - now apply update_zynswitch_switches_inv.
  - now apply update_expanded_zynswitches_switches_inv.
  - eapply update_zynswitches_switches_inv; eauto.
  - eapply zyncoder_mcp23017_ISR_switches_inv; eauto.
  - eapply uart_thread_iteration_switches_inv; eauto.
  - eapply setup_zyncoder_switches_inv; eauto.
  - apply (switches_inv_frame st); [|assumption].
    eapply update_zyncoder_zynswitches; eauto.
  - apply (switches_inv_frame st); [|assumption].
    apply set_value_zyncoder_zynswitches.
  - apply (switches_inv_frame st); [|assumption].
    apply midi_event_zyncoders_zynswitches.
Qed.






(** ** Indices at or above the capacity *)

(** [setup_zyncoder] tests [i > MAX_NUM_ZYNCODERS]: at
    [i = MAX_NUM_ZYNCODERS] it goes on to write past the array. *)
Lemma setup_zyncoder_at_capacity w pin_a' pin_b' chan ctrl osc v m s hw st :
  wf_state st ->
  setup_zyncoder w MAX_NUM_ZYNCODERS pin_a' pin_b' chan ctrl osc v m s hw st
  = Fault OutOfBounds.
Proof.
  intros [Hlen _]. unfold setup_zyncoder.
  rewrite Nat.ltb_irrefl.
  replace (nth_error (zyncoders st) MAX_NUM_ZYNCODERS) with (@None zyncoder_st);
    [reflexivity|].
  symmetry. apply nth_error_None. lia.
Qed.

(** C3, as the code has it.  At an index at or above the capacity the
    array is not touched: [setup_zynswitch] and [setup_zynswitch_midi]
    log and return [NULL] and 0; the two queries [get_value_zyncoder] and
    [get_zynswitch_dtus] return 0 and log nothing; [setup_zyncoder] logs
    and returns [NULL] at every index above [MAX_NUM_ZYNCODERS].  The log
    line leaves both arrays as they are. *)
Theorem out_of_bounds_soft_failure st :
  (forall w i pin_a' pin_b' chan ctrl osc v m s hw,
      (MAX_NUM_ZYNCODERS < i)%nat ->
      setup_zyncoder w i pin_a' pin_b' chan ctrl osc v m s hw st
      = Ok (None, emit (printf MaxZyncodersExceeded) st))
  /\ (forall w i pin hw,
      (MAX_NUM_ZYNSWITCHES <= i)%nat ->
      setup_zynswitch w i pin hw st
      = Ok (None, emit (printf MaxZynswitchesExceeded) st))
  /\ (forall i evt chan num val,
      (MAX_NUM_ZYNSWITCHES <= i)%nat ->
      setup_zynswitch_midi i evt chan num val st
      = (0, emit (printf MaxZynswitchesExceeded) st))
  /\ (forall i,
      (MAX_NUM_ZYNCODERS <= i)%nat -> get_value_zyncoder i st = (0, st))
  /\ (forall i long_dtus now,
      (MAX_NUM_ZYNSWITCHES <= i)%nat ->
      get_zynswitch_dtus i long_dtus now st = (0, st))
  /\ (forall msg,
      zyncoders (emit (printf msg) st) = zyncoders st
      /\ zynswitches (emit (printf msg) st) = zynswitches st).
Proof.
  repeat split.
  - intros w i pin_a' pin_b' chan ctrl osc v m s hw Hi. unfold setup_zyncoder.
    replace (MAX_NUM_ZYNCODERS <? i)%nat with true
      by (symmetry; apply Nat.ltb_lt; exact Hi).
    reflexivity.
  - intros w i pin hw Hi. unfold setup_zynswitch.
    replace (MAX_NUM_ZYNSWITCHES <=? i)%nat with true
      by (symmetry; apply Nat.leb_le; exact Hi).
    reflexivity.
  - intros i evt chan num val Hi. unfold setup_zynswitch_midi.
    replace (MAX_NUM_ZYNSWITCHES <=? i)%nat with true
      by (symmetry; apply Nat.leb_le; exact Hi).
    reflexivity.
  - intros i Hi. unfold get_value_zyncoder.
    replace (MAX_NUM_ZYNCODERS <=? i)%nat with true
      by (symmetry; apply Nat.leb_le; exact Hi).
    reflexivity.
  - intros i long_dtus now Hi. unfold get_zynswitch_dtus.
    replace (MAX_NUM_ZYNSWITCHES <=? i)%nat with true
      by (symmetry; apply Nat.leb_le; exact Hi).
    reflexivity.
Qed.

End Arithmetic.

(** ** The UART ring *)

Lemma reserved_byte_test b :
  ((b =? START_FRAME_VALUE) || (b =? END_FRAME_VALUE) || (b =? 0xFF)) = true
  <-> reserved_byte b.
Proof.
  unfold reserved_byte. rewrite !orb_true_iff, !Z.eqb_eq. tauto.
Qed.

(** The ring as [insertInBuffer] leaves it when it is full. *)
Lemma insertInBuffer_full b st :
  ring_inv st ->
  elementsInBuffer (insertInBuffer b st) = BUFFER_SIZE_BYTES ->
  let st1 := insertInBuffer b st in
  ring_inv st1
  /\ tail st1 = head st1
  /\ prev_head st1 = (head st1 + 3) mod BUFFER_SIZE_BYTES
  /\ zyncoders st1 = zyncoders st /\ zynswitches st1 = zynswitches st
  /\ trace st1 = trace st.
Proof.
  destruct st as [zc zsw buf h ph t n tr].
  unfold ring_inv. simpl.
  change BUFFER_SIZE_BYTES with 4. change (Z.to_nat 4) with 4%nat.
  intros (Hlen & Hn & Hh & Hpart & Hfull) Hel.
  assert (Hcases : (n = 3 /\ h = 3 /\ t = 0)
                   \/ (n = 4 /\ t = h /\ (h = 0 \/ h = 1 \/ h = 2 \/ h = 3))).
  { destruct (Z.eq_dec n 4) as [E|E].
    - right. specialize (Hfull E). repeat split; auto; lia.
    - left. assert (Hlt : n < 4) by lia. destruct (Hpart Hlt) as [Ht Hhn].
      unfold insertInBuffer in Hel. simpl in Hel.
      change BUFFER_SIZE_BYTES with 4 in Hel.
      assert (Hn4 : n = 0 \/ n = 1 \/ n = 2 \/ n = 3) by lia.
      destruct Hn4 as [E0|[E0|[E0|E0]]]; subst n; subst h;
        vm_compute in Hel; try discriminate; auto. }
  unfold insertInBuffer. simpl. change BUFFER_SIZE_BYTES with 4.
  destruct Hcases
    as [(-> & -> & ->) | (-> & -> & [ -> | [ -> | [ -> | -> ] ] ])];
    simpl; rewrite array_set_length;
    change (uint8_t 1) with 1; change (uint8_t 2) with 2;
    change (uint8_t 3) with 3; change (uint8_t 4) with 4;
    repeat split; try exact Hlen; try reflexivity; lia.
Qed.

Lemma ring_inv_full_cases st :
  ring_inv st -> elementsInBuffer st = BUFFER_SIZE_BYTES ->
  exists b0 b1 b2 b3,
    buffer st = [b0; b1; b2; b3]
    /\ tail st = head st
    /\ (head st = 0 \/ head st = 1 \/ head st = 2 \/ head st = 3).
Proof.
  unfold ring_inv. change BUFFER_SIZE_BYTES with 4.
  change (Z.to_nat 4) with 4%nat.
  intros (Hlen & Hn & Hh & _ & Hfull) Hel. specialize (Hfull Hel).
  destruct (buffer st) as [|b0 [|b1 [|b2 [|b3 [|]]]]]; simpl in Hlen;
    try discriminate.
  exists b0, b1, b2, b3. repeat split; auto. lia.
Qed.

(** The framing test on a full ring. *)
Lemma checkFraming_full st :
  ring_inv st -> elementsInBuffer st = BUFFER_SIZE_BYTES ->
  prev_head st = (head st + 3) mod BUFFER_SIZE_BYTES ->
  checkFraming START_FRAME_VALUE END_FRAME_VALUE st =
    if (ring_nth st 0 =? START_FRAME_VALUE) && (ring_nth st 3 =? END_FRAME_VALUE)
    then (1, st)
    else (0, emit serialFlush (flushBuffer st)).
Proof.
  intros Hinv Hel Hph.
  destruct (ring_inv_full_cases st Hinv Hel) as (b0 & b1 & b2 & b3 & Hb & Ht & Hh).
  unfold checkFraming, ring_nth. rewrite Hel, Hph, Hb, Ht.
  change (BUFFER_SIZE_BYTES <=? BUFFER_SIZE_BYTES) with true.
  rewrite !andb_true_r.
  destruct Hh as [E|[E|[E|E]]]; rewrite E; reflexivity.
Qed.

(** The payload test on a full ring. *)
Lemma getBufferData_corrupt pBuffer st :
  ring_inv st -> elementsInBuffer st = BUFFER_SIZE_BYTES ->
  reserved_byte (ring_nth st 1) \/ reserved_byte (ring_nth st 2) ->
  fst (getBufferData pBuffer st) = 1.
Proof.
  intros Hinv Hel Hres.
  destruct (ring_inv_full_cases st Hinv Hel) as (b0 & b1 & b2 & b3 & Hb & Ht & Hh).
  unfold getBufferData.
  change (Z.to_nat PAYLOAD_SIZE_BYTES) with 2%nat.
  unfold ring_nth in Hres. rewrite Hb, Ht in Hres.
  rewrite <- !reserved_byte_test in Hres.
  cbn [for_loop_ret]. rewrite Hb.
  destruct Hh as [E|[E|[E|E]]]; rewrite E in *;
    change BUFFER_SIZE_BYTES with 4 in *; cbn in Hres |- *;
    repeat match goal with
           | |- context [if ?c then _ else _] => destruct c eqn:?
           end; try reflexivity;
    destruct Hres; congruence.
Qed.

Lemma insertInBuffer_shift b st :
  ring_inv st -> elementsInBuffer st = BUFFER_SIZE_BYTES ->
  elementsInBuffer (insertInBuffer b st) = BUFFER_SIZE_BYTES
  /\ ring_nth (insertInBuffer b st) 0 = ring_nth st 1
  /\ ring_nth (insertInBuffer b st) 3 = b.
Proof.
  intros Hinv Hel.
  destruct (ring_inv_full_cases st Hinv Hel) as (b0 & b1 & b2 & b3 & Hb & Ht & Hh).
  destruct st as [zc zsw buf h ph t n tr]. simpl in *. subst buf t n.
  destruct Hh as [E|[E|[E|E]]]; subst h; repeat split; reflexivity.
Qed.

(** C9, as the code has it.  A frame with valid framing and a reserved
    byte in its payload is rejected: no encoder and no switch is updated,
    and the one thing the loop does is print "Corrupt UART data block".
    Neither the ring nor the serial device is flushed at that point: the
    ring stays full.  The flush comes with the next byte, when the ring
    no longer passes the framing test, which is the case unless the first
    payload byte was 0xEA and the next byte is 0xFB. *)
Theorem corrupt_frame_is_logged st c nz ns payload :
  ring_inv st -> corrupt_frame c st ->
  let st' := emit (printf CorruptUartDataBlock) (insertInBuffer (uint8_t c) st) in
  (exists payload',
      uart_thread_iteration c nz ns payload st = Ok (payload', st'))
  /\ zyncoders st' = zyncoders st /\ zynswitches st' = zynswitches st
  /\ trace st' = trace st ++ [printf CorruptUartDataBlock]
  /\ elementsInBuffer st' = BUFFER_SIZE_BYTES
  /\ (forall c' nz' ns' payload2,
       ~ (ring_nth st' 1 = START_FRAME_VALUE /\ uint8_t c' = END_FRAME_VALUE) ->
       uart_thread_iteration c' nz' ns' payload2 st'
       = Ok (payload2,
             emit serialFlush (flushBuffer (insertInBuffer (uint8_t c') st')))).
Proof.
  intros Hinv (Hel & Hstart & Hend & Hres). cbv zeta.
  destruct (insertInBuffer_full (uint8_t c) st Hinv Hel)
    as (Hinv1 & Ht1 & Hph1 & Hzc & Hzs & Htr).
  set (st1 := insertInBuffer (uint8_t c) st) in *.
  split; [|split; [exact Hzc|split; [exact Hzs|split; [|split; [exact Hel|]]]]].
  - unfold uart_thread_iteration. fold st1.
    rewrite (checkFraming_full st1 Hinv1 Hel Hph1), Hstart, Hend, !Z.eqb_refl.
    cbn [andb]. change (1 =? 0) with false. cbv iota.
    pose proof (getBufferData_corrupt payload st1 Hinv1 Hel Hres) as Hc.
    destruct (getBufferData payload st1) as [corrupt p']. simpl in Hc. subst corrupt.
    change (1 =? 0) with false. cbv iota. eauto.
  - simpl. now rewrite Htr.
  - intros c' nz' ns' payload2 Hnot.
    set (st' := emit (printf CorruptUartDataBlock) st1) in *.
    assert (Hinv' : ring_inv st') by exact Hinv1.
    assert (Hel' : elementsInBuffer st' = BUFFER_SIZE_BYTES) by exact Hel.
    destruct (insertInBuffer_shift (uint8_t c') st' Hinv' Hel')
      as (Hel2 & Hfirst & Hlast).
    destruct (insertInBuffer_full (uint8_t c') st' Hinv' Hel2)
      as (Hinv2 & _ & Hph2 & _).
    unfold uart_thread_iteration.
    rewrite (checkFraming_full _ Hinv2 Hel2 Hph2), Hfirst, Hlast.
    destruct ((ring_nth st' 1 =? START_FRAME_VALUE)
              && (uint8_t c' =? END_FRAME_VALUE)) eqn:E.
    + exfalso. apply Hnot. apply andb_prop in E as [E1 E2].
      apply Z.eqb_eq in E1, E2. auto.
    + change (0 =? 0) with true. cbv iota. reflexivity.
Qed.

(** ** The direction of a tick *)

(** The two flags of lines 603-605, from the two sets of [sum]. *)
Lemma quadrature_flags sum :
  quadrature_up sum = (if existsb (Z.eqb sum) [13; 4; 2; 11] then 1 else 0)
  /\ quadrature_down sum =
       (if existsb (Z.eqb sum) [14; 7; 1; 8] then 1 else 0)
  /\ (In sum [13; 4; 2; 11] ->
      quadrature_up sum = 1 /\ quadrature_down sum = 0)
  /\ (In sum [14; 7; 1; 8] ->
      quadrature_up sum = 0 /\ quadrature_down sum = 1)
  /\ (~ In sum [13; 4; 2; 11] -> ~ In sum [14; 7; 1; 8] ->
      quadrature_up sum = 0 /\ quadrature_down sum = 0).
Proof.
  assert (Hup : quadrature_up sum
                = (if existsb (Z.eqb sum) [13; 4; 2; 11] then 1 else 0)).
  { unfold quadrature_up. cbn [existsb].
    destruct (sum =? 13), (sum =? 4), (sum =? 2), (sum =? 11); reflexivity. }
  assert (Hdown : quadrature_down sum
                  = (if existsb (Z.eqb sum) [14; 7; 1; 8] then 1 else 0)).
  { unfold quadrature_down, quadrature_up. cbn [existsb].
    destruct (Z.eqb_spec sum 13) as [->|_]; [reflexivity|].
    destruct (Z.eqb_spec sum 4) as [->|_]; [reflexivity|].
    destruct (Z.eqb_spec sum 2) as [->|_]; [reflexivity|].
    destruct (Z.eqb_spec sum 11) as [->|_]; [reflexivity|].
    cbn [orb negb Z.eqb].
    destruct (sum =? 14), (sum =? 7), (sum =? 1), (sum =? 8); reflexivity. }
  split; [exact Hup|]. split; [exact Hdown|].
  split; [|split].
  - intros Hin. split; [apply quadrature_up_iff; exact Hin|].
    destruct (quadrature_down_01 sum) as [H|H]; [exact H|].
    apply quadrature_down_iff in H. simpl in Hin, H. lia.
  - intros Hin. split; [|apply quadrature_down_iff; exact Hin].
    destruct (quadrature_up_01 sum) as [H|H]; [exact H|].
    apply quadrature_up_iff in H. simpl in Hin, H. lia.
  - intros Hu Hd. split.
    + destruct (quadrature_up_01 sum) as [H|H]; [exact H|].
      apply quadrature_up_iff in H. contradiction.
    + destruct (quadrature_down_01 sum) as [H|H]; [exact H|].
      apply quadrature_down_iff in H. contradiction.
Qed.

(** C2, as the code has it.  A tick of an enabled encoder that reads the
    pins [MSB], [LSB] computes [encoded = (MSB << 1) | LSB] and
    [sum = (last_encoded << 2) | encoded] (both in 8 bits), stores
    [encoded] in [last_encoded] and runs the value computation with
    [up = 1] exactly when [sum] is one of 0b1101, 0b0100, 0b0010, 0b1011
    and [down = 1] exactly when it is one of 0b1110, 0b0111, 0b0001,
    0b1000.  In fixed-step mode every tick first cuts a [value] above
    [max_value] back to it; Up then adds [step] if it fits below
    [max_value], Down subtracts [step] if it fits above 0, and a tick in
    neither direction stops at the cut, which is sent like any other
    change of [value].  In velocity mode an accepted Up tick raises
    [subvalue] (or leaves it at [max_value]), an accepted Down tick
    lowers it (or leaves it at 0), and a tick in neither direction leaves
    [value] and [subvalue] alone and sends nothing.  The same pair of
    pins read twice in a row changes [value] at most once: the second
    tick leaves [value] and [subvalue] as the first one left them. *)
Theorem quadrature_classification :
  (forall st i z src MSB LSB now st',
      (i < MAX_NUM_ZYNCODERS)%nat ->
      nth_error (zyncoders st) i = Some z -> enabled z = true ->
      zyncoder_ok z ->
      pins_read src z = Some (MSB, LSB) ->
      update_zyncoder i src now st = Ok st' ->
      let encoded := Z.lor (Z.shiftl MSB 1) LSB mod 2 ^ 8 in
      let sum := Z.lor (Z.shiftl (last_encoded z) 2) encoded mod 2 ^ 8 in
      let up := if existsb (Z.eqb sum) [13; 4; 2; 11] then 1 else 0 in
      let down := if existsb (Z.eqb sum) [14; 7; 1; 8] then 1 else 0 in
      exists z' send,
        nth_error (zyncoders st') i = Some z'
        /\ advance_zyncoder up down now (with_last_encoded encoded z)
           = Ok (z', send)
        /\ st' = (if send then send_zyncoder i (set_zyncoder i z' st)
                  else set_zyncoder i z' st)
        /\ last_encoded z' = encoded
        /\ (step z <> 0 ->
            let v := Z.min (value z) (max_value z) in
            (In sum [13; 4; 2; 11] ->
             value z' = if step z <=? max_value z - v then v + step z else v)
            /\ (In sum [14; 7; 1; 8] ->
                value z' = if step z <=? v then v - step z else v)
            /\ (~ In sum [13; 4; 2; 11] -> ~ In sum [14; 7; 1; 8] ->
                value z' = v)
            /\ subvalue z' = subvalue z
            /\ send = negb (value z =? value z'))
        /\ (step z = 0 ->
            (1000 <= uint (now - tsus z) -> subvalue z <= max_value z ->
             (In sum [13; 4; 2; 11] ->
              subvalue z <= subvalue z' <= max_value z
              /\ (subvalue z' = max_value z \/ subvalue z < subvalue z'))
             /\ (In sum [14; 7; 1; 8] ->
                 0 <= subvalue z' <= subvalue z
                 /\ (subvalue z' = 0 \/ subvalue z' < subvalue z)))
            /\ (~ In sum [13; 4; 2; 11] -> ~ In sum [14; 7; 1; 8] ->
                value z' = value z /\ subvalue z' = subvalue z
                /\ send = false)))
  /\ (forall st i z src MSB LSB now1 now2 st1 st2,
      (i < MAX_NUM_ZYNCODERS)%nat ->
      nth_error (zyncoders st) i = Some z -> enabled z = true ->
      zyncoder_ok z ->
      pins_read src z = Some (MSB, LSB) ->
      update_zyncoder i src now1 st = Ok st1 ->
      update_zyncoder i src now2 st1 = Ok st2 ->
      exists z1 z2,
        nth_error (zyncoders st1) i = Some z1
        /\ nth_error (zyncoders st2) i = Some z2
        /\ value z2 = value z1 /\ subvalue z2 = subvalue z1).
Proof using TICKS_PER_RETENT_positive TICKS_PER_RETENT_int.
  split.
  - intros st i z src MSB LSB now st' Hi Hz Hen Hok Hpins Hupd.
    cbv zeta.
    destruct (update_zyncoder_result st i z src now st' Hi Hz Hen Hupd)
      as (z1 & up & down & z2 & send & Hdec & Hadv & Hst & Hz2).
    rewrite (decode_zyncoder_pins src z MSB LSB Hpins) in Hdec.
    inversion Hdec; subst z1 up down; clear Hdec.
    unfold quadrature_sum, quadrature_encoded, uint8_t in Hadv.
    set (encoded := Z.lor (Z.shiftl MSB 1) LSB mod 2 ^ 8) in *.
    set (sum := Z.lor (Z.shiftl (last_encoded z) 2) encoded mod 2 ^ 8) in *.
    destruct (quadrature_flags sum) as (Eup & Edown & HU & HD & HN).
    pose proof (advance_zyncoder_frame _ _ _ _ _ _ Hadv) as Hfr.
    pose proof Hok as (Hm & Hs & Hsv & Hv). unfold is_uint in Hm, Hs, Hsv, Hv.
    exists z2, send.
    split; [exact Hz2|].
    split; [rewrite <- Eup, <- Edown; exact Hadv|].
    split; [exact Hst|].
    split; [rewrite Hfr; reflexivity|].
    split.
    + intros Hstep. cbv zeta.
      rewrite advance_zyncoder_fixed in Hadv by exact Hstep.
      cbv zeta in Hadv.
      cbn [step value max_value with_last_encoded] in Hadv.
      set (v := Z.min (value z) (max_value z)) in *.
      assert (Hv1 : 0 <= v <= max_value z) by (unfold v; lia).
      rewrite (uint_small (max_value z - v)) in Hadv by lia.
      assert (Hsub : subvalue z2 = subvalue z).
      { inversion Hadv; subst z2; reflexivity. }
      assert (Hsend : send = negb (value z =? value z2)).
      { inversion Hadv; subst z2; reflexivity. }
      split; [|split; [|split; [|split; [exact Hsub|exact Hsend]]]].
      * intros Hin. destruct (HU Hin) as [Eu Ed]. rewrite Eu, Ed in Hadv.
        change (negb (1 =? 0)) with true in Hadv.
        change (negb (0 =? 0)) with false in Hadv.
        rewrite andb_true_r, andb_false_r in Hadv.
        destruct (step z <=? max_value z - v) eqn:E;
          inversion Hadv; subst z2; cbn [value with_value]; [|reflexivity].
        apply Z.leb_le in E. apply uint_small. lia.
      * intros Hin. destruct (HD Hin) as [Eu Ed]. rewrite Eu, Ed in Hadv.
        change (negb (1 =? 0)) with true in Hadv.
        change (negb (0 =? 0)) with false in Hadv.
        rewrite andb_true_r, andb_false_r in Hadv.
        destruct (step z <=? v) eqn:E;
          inversion Hadv; subst z2; cbn [value with_value]; [|reflexivity].
        apply Z.leb_le in E. apply uint_small. lia.
      * intros Hu Hd. destruct (HN Hu Hd) as [Eu Ed]. rewrite Eu, Ed in Hadv.
        change (negb (0 =? 0)) with false in Hadv.
        rewrite !andb_false_r in Hadv.
        inversion Hadv; subst z2; reflexivity.
    + intros Hstep. split.
      * intros Hacc Hle.
        destruct (advance_zyncoder_velocity _ _ now (with_last_encoded encoded z)
                    z2 send Hstep Hacc Hadv)
          as (dsval & Hds & _ & _ & Hsub & _).
        cbn [subvalue max_value with_last_encoded] in Hsub.
        assert (H32 : 2 ^ 32 = 4294967296) by reflexivity.
        assert (H31 : 2 ^ 31 = 2147483648) by reflexivity.
        rewrite (uint_small dsval) in Hsub by lia.
        rewrite (uint_small (max_value z - subvalue z)) in Hsub by lia.
        split.
        -- intros Hin. destruct (HU Hin) as [Eu Ed].
           rewrite Eu in Hsub. change (negb (1 =? 0)) with true in Hsub.
           cbv iota in Hsub.
           destruct (dsval <=? max_value z - subvalue z) eqn:E.
           ++ apply Z.leb_le in E. rewrite uint_small in Hsub by lia. lia.
           ++ apply Z.leb_gt in E. lia.
        -- intros Hin. destruct (HD Hin) as [Eu Ed].
           rewrite Eu, Ed in Hsub.
           change (negb (1 =? 0)) with true in Hsub.
           change (negb (0 =? 0)) with false in Hsub.
           cbv iota in Hsub.
           destruct (dsval <=? subvalue z) eqn:E.
           ++ apply Z.leb_le in E. rewrite uint_small in Hsub by lia. lia.
           ++ apply Z.leb_gt in E. lia.
      * intros Hu Hd. destruct (HN Hu Hd) as [Eu Ed].
        rewrite Eu, Ed in Hadv.
        apply advance_zyncoder_neither in Hadv.
        cbn [subvalue value step max_value last_encoded with_last_encoded]
          in Hadv.
        destruct Hadv as (Hsub & _ & Hval & Hsend).
        apply Z.eqb_eq in Hstep. rewrite Hstep in Hval.
        cbn [orb] in Hval.
        split; [exact Hval|]. split; [exact Hsub|].
        rewrite Hsend, Hval, Z.eqb_refl. reflexivity.
  - intros st i z src MSB LSB now1 now2 st1 st2 Hi Hz Hen Hok Hpins H1 H2.
    destruct (update_zyncoder_result st i z src now1 st1 Hi Hz Hen H1)
      as (za & up & down & z1 & send & Hdec & Hadv & _ & Hz1).
    rewrite (decode_zyncoder_pins src z MSB LSB Hpins) in Hdec.
    inversion Hdec; subst za up down; clear Hdec.
    pose proof (advance_zyncoder_frame _ _ _ _ _ _ Hadv) as Hfr.
    assert (Hen1 : enabled z1 = true) by (rewrite Hfr; exact Hen).
    assert (Hpins1 : pins_read src z1 = Some (MSB, LSB)).
    { rewrite Hfr. destruct src; exact Hpins. }
    assert (Hle1 : last_encoded z1 = quadrature_encoded MSB LSB)
      by (rewrite Hfr; reflexivity).
    destruct (update_zyncoder_result st1 i z1 src now2 st2 Hi Hz1 Hen1 H2)
      as (zb & up & down & z2 & send2 & Hdec & Hadv2 & _ & Hz2).
    rewrite (decode_zyncoder_pins src z1 MSB LSB Hpins1) in Hdec.
    inversion Hdec; subst zb up down; clear Hdec.
    rewrite Hle1 in Hadv2.
    destruct (quadrature_repeated MSB LSB) as [Hu Hd].
    rewrite Hu, Hd in Hadv2.
    apply advance_zyncoder_neither in Hadv2.
    cbn [subvalue value step max_value last_encoded with_last_encoded]
      in Hadv2.
    destruct Hadv2 as (Hsub & _ & Hval & _).
    exists z1, z2. split; [exact Hz1|]. split; [exact Hz2|].
    split; [|exact Hsub].
    rewrite Hval.
    destruct (step z1 =? 0) eqn:Es; [reflexivity|].
    apply Z.eqb_neq in Es.
    assert (Hstep : step z1 = step z) by (rewrite Hfr; reflexivity).
    assert (Hmax : max_value z1 = max_value z) by (rewrite Hfr; reflexivity).
    assert (Hb : 0 <= value z1 <= max_value z).
    { refine (advance_zyncoder_fixed_bounded _ _ _ _ _ _ _ _ Hadv).
      - exact Hok.
      - cbn [step with_last_encoded]. congruence. }
    rewrite Hmax.
    replace (max_value z <? value z1) with false
      by (symmetry; apply Z.ltb_ge; lia).
    reflexivity.
Qed.

(** ** The bound on [value], with the switches *)

(** *** What an operation leaves bound *)

Lemma same_bindings_refl st : same_bindings st st.
Proof. split; reflexivity. Qed.

Lemma same_bindings_sym st st' : same_bindings st st' -> same_bindings st' st.
Proof. intros [H1 H2]. split; intros j; symmetry; auto. Qed.

Lemma same_bindings_trans st1 st2 st3 :
  same_bindings st1 st2 -> same_bindings st2 st3 -> same_bindings st1 st3.
Proof.
  intros [H1 H2] [H3 H4]. split; intros j.
  - rewrite H3. apply H1.
  - rewrite H4. apply H2.
Qed.

Lemma same_bindings_frame st st' :
  zyncoders st' = zyncoders st -> zynswitches st' = zynswitches st ->
  same_bindings st st'.
Proof. intros Hz Hs. split; intros j; [rewrite Hz|rewrite Hs]; reflexivity. Qed.

Lemma option_map_array_set {A B : Type} (f : A -> B) (l : list A) i x j :
  (forall y, nth_error l i = Some y -> f x = f y) ->
  option_map f (nth_error (array_set l i x) j) = option_map f (nth_error l j).
Proof.
  intros H. destruct (Nat.eq_dec i j) as [<-|Hne].
  - destruct (nth_error l i) as [y|] eqn:E.
    + rewrite nth_error_array_set_eq
        by (apply nth_error_Some_lt with (x := y); exact E).
      simpl. f_equal. apply H. reflexivity.
    + replace (nth_error (array_set l i x) i) with (@None A); [reflexivity|].
      symmetry. apply nth_error_None. rewrite array_set_length.
      apply nth_error_None. exact E.
  - rewrite nth_error_array_set_neq by exact Hne. reflexivity.
Qed.

Lemma same_bindings_set_zyncoder st i z' :
  (forall z, nth_error (zyncoders st) i = Some z -> binding z' = binding z) ->
  same_bindings st (set_zyncoder i z' st).
Proof.
  intros H. split; intros j; [|reflexivity].
  unfold set_zyncoder. simpl. apply option_map_array_set. exact H.
Qed.

Lemma same_bindings_set_zynswitch st i zs' :
  (forall zs, nth_error (zynswitches st) i = Some zs ->
     sw_midi_event zs' = sw_midi_event zs) ->
  same_bindings st (set_zynswitch i zs' st).
Proof.
  intros H. split; intros j; [reflexivity|].
  unfold set_zynswitch. simpl. apply option_map_array_set. exact H.
Qed.

Lemma same_bindings_emit e st : same_bindings st (emit e st).
Proof. apply same_bindings_frame; reflexivity. Qed.

Lemma same_bindings_send_zyncoder i st : same_bindings st (send_zyncoder i st).
Proof.
  apply same_bindings_frame;
    [apply send_zyncoder_zyncoders | apply send_zyncoder_zynswitches].
Qed.

Lemma same_bindings_midi_event_zyncoders chan ctrl val st :
  same_bindings st (midi_event_zyncoders chan ctrl val st).
Proof.
  destruct (midi_event_zyncoders_spec chan ctrl val st)
    as ((Hsw & _) & _ & Hnth).
  split; intros j; [|rewrite Hsw; reflexivity].
  rewrite Hnth. destruct (j <? MAX_NUM_ZYNCODERS)%nat; [|reflexivity].
  destruct (nth_error (zyncoders st) j) as [z|]; [|reflexivity].
  simpl. f_equal. unfold midi_event_zyncoder.
  destruct (enabled z && (midi_chan z =? chan) && (midi_ctrl z =? ctrl));
    reflexivity.
Qed.

Lemma same_bindings_update_zyncoder i src now st st' :
  update_zyncoder i src now st = Ok st' -> same_bindings st st'.
Proof.
  intros H.
  destruct (Nat.lt_ge_cases i MAX_NUM_ZYNCODERS) as [Hi|Hi].
  - destruct (nth_error (zyncoders st) i) as [z|] eqn:Hz.
    + destruct (enabled z) eqn:Hen.
      * destruct (update_zyncoder_result st i z src now st' Hi Hz Hen H)
          as (z1 & up & down & z2 & send & Hdec & Hadv & Hst & _).
        destruct (decode_zyncoder_frame _ _ _ _ _ Hdec) as (Hfr1 & _).
        pose proof (advance_zyncoder_frame _ _ _ _ _ _ Hadv) as Hfr2.
        assert (Hset : same_bindings st (set_zyncoder i z2 st)).
        { apply same_bindings_set_zyncoder. intros z0 Hz0.
          rewrite Hz in Hz0. inversion Hz0; subst z0.
          rewrite Hfr2, Hfr1. reflexivity. }
        subst st'. destruct send; [|exact Hset].
        eapply same_bindings_trans; [exact Hset|].
        apply same_bindings_send_zyncoder.
      * unfold update_zyncoder in H.
        replace (MAX_NUM_ZYNCODERS <=? i)%nat with false in H
          by (symmetry; apply Nat.leb_gt; exact Hi).
        rewrite Hz, Hen in H. simpl in H. inversion H; subst.
        apply same_bindings_refl.
    + unfold update_zyncoder in H.
      replace (MAX_NUM_ZYNCODERS <=? i)%nat with false in H
        by (symmetry; apply Nat.leb_gt; exact Hi).
      rewrite Hz in H. discriminate.
  - unfold update_zyncoder in H.
    replace (MAX_NUM_ZYNCODERS <=? i)%nat with true in H
      by (symmetry; apply Nat.leb_le; exact Hi).
    inversion H; subst. apply same_bindings_refl.
Qed.

Lemma same_bindings_set_value_zyncoder i v send st :
  same_bindings st (set_value_zyncoder i v send st).
Proof.
  unfold set_value_zyncoder.
  destruct (MAX_NUM_ZYNCODERS <=? i)%nat; [apply same_bindings_refl|].
  destruct (nth_error (zyncoders st) i) as [z|] eqn:Hz;
    [|apply same_bindings_refl].
  destruct (negb (enabled z)); [apply same_bindings_refl|].
  match goal with
  | |- same_bindings st (if _ then send_zyncoder i (set_zyncoder i ?z' st)
                         else _) =>
      assert (Hset : same_bindings st (set_zyncoder i z' st))
  end.
  { apply same_bindings_set_zyncoder. intros z0 Hz0.
    rewrite Hz in Hz0. inversion Hz0; subst z0.
    destruct (step z =? 0); [|destruct (max_value z <? v); reflexivity].
    destruct (max_value z <? uint (v * ZYNCODER_TICKS_PER_RETENT));
      reflexivity. }
  destruct (negb (send =? 0)); [|exact Hset].
  eapply same_bindings_trans; [exact Hset|].
  apply same_bindings_send_zyncoder.
Qed.

Lemma same_bindings_send_zynswitch_midi zs status st :
  same_bindings st (send_zynswitch_midi zs status st).
Proof.
  unfold send_zynswitch_midi.
  destruct (ev_type (sw_midi_event zs)); try apply same_bindings_refl.
  - cbv zeta.
    eapply same_bindings_trans; [|apply same_bindings_emit].
    eapply same_bindings_trans; [|apply same_bindings_midi_event_zyncoders].
    apply same_bindings_emit.
  - destruct (status =? 0);
      (eapply same_bindings_trans; [|apply same_bindings_emit]);
      apply same_bindings_emit.
  - destruct (status =? 0); [|apply same_bindings_refl].
    eapply same_bindings_trans; [|apply same_bindings_emit].
    apply same_bindings_emit.
Qed.

Lemma debounce_zynswitch_event release now zs :
  sw_midi_event (fst (debounce_zynswitch release now zs)) = sw_midi_event zs.
Proof.
  unfold debounce_zynswitch.
  destruct (sw_status zs =? release); [|reflexivity].
  destruct (0 <? sw_tsus zs); [|reflexivity].
  destruct (uint (now - sw_tsus zs) <? 1000); reflexivity.
Qed.

Lemma same_bindings_edge_zynswitch release i zs status now st :
  nth_error (zynswitches st) i = Some zs ->
  same_bindings st (fst (edge_zynswitch release i zs status now st)).
Proof.
  intros Hz. unfold edge_zynswitch.
  pose proof (debounce_zynswitch_event release now (with_sw_status status zs))
    as Hev.
  destruct (debounce_zynswitch release now (with_sw_status status zs))
    as [zs2 fl].
  cbn [fst] in Hev |- *.
  set (st1 := set_zynswitch i (with_sw_status status zs) st).
  assert (H1 : same_bindings st st1).
  { apply same_bindings_set_zynswitch. intros zs0 Hz0.
    rewrite Hz in Hz0. inversion Hz0; reflexivity. }
  eapply same_bindings_trans; [exact H1|].
  eapply same_bindings_trans; [apply same_bindings_send_zynswitch_midi|].
  apply same_bindings_set_zynswitch. intros zs0 Hz0.
  rewrite send_zynswitch_midi_zynswitches in Hz0.
  unfold st1, set_zynswitch in Hz0. simpl in Hz0.
  rewrite nth_error_array_set_eq in Hz0
    by (apply nth_error_Some_lt with (x := zs); exact Hz).
  inversion Hz0; subst zs0. exact Hev.
Qed.

Lemma same_bindings_update_zynswitch i src now st :
  same_bindings st (update_zynswitch i src now st).
Proof.
  unfold update_zynswitch.
  destruct (MAX_NUM_ZYNSWITCHES <=? i)%nat; [apply same_bindings_refl|].
  destruct (nth_error (zynswitches st) i) as [zs|] eqn:Hz;
    [|apply same_bindings_refl].
  destruct (negb (sw_enabled zs)); [apply same_bindings_refl|].
  destruct (read_status src zs =? sw_status zs); [apply same_bindings_refl|].
  apply same_bindings_edge_zynswitch. exact Hz.
Qed.

Lemma same_bindings_zyncoder_mcp23017_ISR base_pin bank inp st st' :
  zyncoder_mcp23017_ISR base_pin bank inp st = Ok st' ->
  same_bindings st st'.
Proof.
  intros H. unfold zyncoder_mcp23017_ISR in H.
  cbv zeta in H.
  match type of H with
  | bind (for_loop_out ?b1 0 _ st) _ = _ =>
      destruct (for_loop_out b1 0 MAX_NUM_ZYNCODERS st) as [[st1 fl1]|f] eqn:E1;
        [|discriminate];
      assert (H1 : same_bindings st st1);
        [ refine (for_loop_out_invariant (same_bindings st) b1 _ _ _ _ _ _
                    (same_bindings_refl st) E1)
        | ]
  end.
  - intros k s s' fl Hs Hb.
    destruct (nth_error (zyncoders s) k) as [z|] eqn:Hz;
      [|inversion Hb; subst; exact Hs].
    destruct (negb (enabled z)); [inversion Hb; subst; exact Hs|].
    match type of Hb with
    | (if ?c then _ else _) = _ => destruct c
    end; [|inversion Hb; subst; exact Hs].
    destruct (bitRead_reg _ _) as [state_a|]; simpl in Hb; [|discriminate].
    destruct (bitRead_reg _ _) as [state_b|]; simpl in Hb; [|discriminate].
    match type of Hb with
    | (if ?c then _ else _) = _ => destruct c
    end; [|inversion Hb; subst; exact Hs].
    destruct (update_zyncoder k _ _ s) as [s1|] eqn:Hupd; simpl in Hb;
      [|discriminate].
    apply same_bindings_update_zyncoder in Hupd.
    destruct (nth_error (zyncoders s1) k) as [z1|] eqn:Hz1; [|discriminate].
    inversion Hb; subst; clear Hb.
    eapply same_bindings_trans; [exact Hs|].
    eapply same_bindings_trans; [exact Hupd|].
    apply same_bindings_set_zyncoder. intros z0 Hz0.
    rewrite Hz1 in Hz0. inversion Hz0; reflexivity.
  - simpl in H.
    match type of H with
    | bind (for_loop_out ?b2 0 _ _) _ = _ =>
        destruct (for_loop_out b2 0 MAX_NUM_ZYNSWITCHES st1) as [[st2 fl2]|f] eqn:E2;
          [|discriminate];
        assert (H2 : same_bindings st st2);
          [ refine (for_loop_out_invariant (same_bindings st) b2 _ _ _ _ _ _ H1 E2)
          | simpl in H; inversion H; subst; exact H2 ]
    end.
    intros k s s' fl Hs Hb.
    destruct (nth_error (zynswitches s) k) as [zs|] eqn:Hz;
      [|inversion Hb; subst; exact Hs].
    destruct (negb (sw_enabled zs)); [inversion Hb; subst; exact Hs|].
    match type of Hb with
    | (if ?c then _ else _) = _ => destruct c
    end; [|inversion Hb; subst; exact Hs].
    destruct (bitRead_reg _ _) as [state'|]; simpl in Hb; [|discriminate].
    match type of Hb with
    | (if ?c then _ else _) = _ => destruct c
    end; inversion Hb; subst; [|exact Hs].
    eapply same_bindings_trans; [exact Hs|].
    apply same_bindings_update_zynswitch.
Qed.

Lemma same_bindings_zyncoder_mcp23017_bank_ISRs hw st st' :
  zyncoder_mcp23017_bank_ISRs hw st = Ok st' -> same_bindings st st'.
Proof.
  intros H. unfold zyncoder_mcp23017_bank_ISRs in H.
  destruct (zyncoder_mcp23017_ISR MCP23017_BASE_PIN 0 (hw_bankA hw) st)
    as [st1|] eqn:E1; simpl in H; [|discriminate].
  eapply same_bindings_trans.
  - eapply same_bindings_zyncoder_mcp23017_ISR. exact E1.
  - eapply same_bindings_zyncoder_mcp23017_ISR. exact H.
Qed.

(** *** The guard depends on the bindings only *)

Lemma bounded_midi_same st st' g chan ctrl val :
  same_bindings st st' ->
  bounded_midi g st chan ctrl val -> bounded_midi g st' chan ctrl val.
Proof.
  intros [He _] Hb j z' Hz' Hen Hc Hk.
  specialize (He j). rewrite Hz' in He. simpl in He.
  destruct (nth_error (zyncoders st) j) as [z|] eqn:Hz; [|discriminate].
  simpl in He. inversion He as [[E1 E2 E3]].
  apply (Hb j z Hz); congruence.
Qed.

Lemma In_same_event st st' zs' :
  same_bindings st st' -> In zs' (zynswitches st') ->
  exists zs, In zs (zynswitches st) /\ sw_midi_event zs = sw_midi_event zs'.
Proof.
  intros [_ Hs] Hin. apply In_nth_error in Hin as [j Hj].
  specialize (Hs j). rewrite Hj in Hs. simpl in Hs.
  destruct (nth_error (zynswitches st) j) as [zs|] eqn:Hz; [|discriminate].
  simpl in Hs. inversion Hs as [E].
  exists zs. split; [exact (nth_error_In _ _ Hz)|congruence].
Qed.

Lemma switch_events_inv_same st st' g :
  same_bindings st st' ->
  switch_events_inv st g -> switch_events_inv st' g.
Proof.
  intros Hsame H zs' Hin Hty.
  destruct (In_same_event st st' zs' Hsame Hin) as (zs & Hzs & Hev).
  rewrite <- Hev in Hty |- *.
  destruct (H zs Hzs Hty) as [H8 Hb].
  split; [exact H8|]. exact (bounded_midi_same st st' g _ _ _ Hsame Hb).
Qed.

(** The invariant on the switches of [st2], from the bytes the bindings
    held before and the guard on a state with the bindings of [st2]. *)
Lemma switch_events_inv_guarded st st2 st' g g' :
  switch_events_inv st g ->
  (forall zs2, In zs2 (zynswitches st2) ->
     exists zs, In zs (zynswitches st)
                /\ sw_midi_event zs = sw_midi_event zs2) ->
  same_bindings st2 st' ->
  switches_guarded bounded_midi g' st' ->
  switch_events_inv st2 g'.
Proof.
  intros Hinv Hev Hsame Hg zs2 Hin Hty.
  split.
  - destruct (Hev zs2 Hin) as (zs & Hzs & E).
    rewrite <- E in Hty |- *. exact (proj1 (Hinv zs Hzs Hty)).
  - destruct (In_same_event st' st2 zs2 (same_bindings_sym _ _ Hsame) Hin)
      as (zs' & Hzs' & E).
    rewrite <- E in Hty |- *.
    apply (bounded_midi_same st' st2 g'); [apply same_bindings_sym; exact Hsame|].
    exact (Hg zs' Hzs' Hty).
Qed.

(** *** The operations keep the invariant *)

Lemma state_inv_same st st' g :
  same_bindings st st' -> zyncoders st' = zyncoders st ->
  state_inv st g -> state_inv st' g.
Proof.
  intros Hsame Hz [Hsw Henc]. split.
  - exact (switch_events_inv_same st st' g Hsame Hsw).
  - exact (encoders_inv_frame st st' g Hz Henc).
Qed.

Lemma state_inv_emit e st g : state_inv st g -> state_inv (emit e st) g.
Proof. apply state_inv_same; [apply same_bindings_emit|reflexivity]. Qed.

Lemma update_zyncoder_state_inv i src now st st' g :
  state_inv st g -> update_zyncoder i src now st = Ok st' -> state_inv st' g.
Proof using TICKS_PER_RETENT_positive TICKS_PER_RETENT_int.
  intros [Hsw Henc] H. split.
  - apply (switch_events_inv_same st); [|exact Hsw].
    exact (same_bindings_update_zyncoder i src now st st' H).
  - exact (update_zyncoder_encoders_inv i src now st st' g Henc H).
Qed.

Lemma set_value_zyncoder_state_inv i v send st g :
  is_uint v -> state_inv st g -> state_inv (set_value_zyncoder i v send st) g.
Proof using TICKS_PER_RETENT_positive TICKS_PER_RETENT_int.
  intros Hv [Hsw Henc]. split.
  - apply (switch_events_inv_same st); [|exact Hsw].
    apply same_bindings_set_value_zyncoder.
  - apply set_value_zyncoder_encoders_inv; assumption.
Qed.

Lemma midi_event_zyncoders_state_inv chan ctrl val st g :
  is_uint8 val -> bounded_midi g st chan ctrl val ->
  state_inv st g -> state_inv (midi_event_zyncoders chan ctrl val st) g.
Proof using TICKS_PER_RETENT_positive TICKS_PER_RETENT_int.
  intros Hval Hb [Hsw Henc]. split.
  - apply (switch_events_inv_same st); [|exact Hsw].
    apply same_bindings_midi_event_zyncoders.
  - apply midi_event_zyncoders_encoders_inv; assumption.
Qed.

(** Every bound is at least 0: the value 0 a switch sends on its other
    edge passes the guard. *)
Lemma bounded_midi_zero st g chan ctrl :
  encoders_inv st g -> bounded_midi g st chan ctrl 0.
Proof.
  intros Henc j z Hz Hen _ _.
  destruct (Henc j z Hz Hen) as (Hv & _). lia.
Qed.

Lemma send_zynswitch_midi_state_inv zs status st g :
  (ev_type (sw_midi_event zs) = CTRL_CHANGE ->
   is_uint8 (ev_val (sw_midi_event zs))
   /\ bounded_midi g st (ev_chan (sw_midi_event zs))
        (ev_num (sw_midi_event zs)) (ev_val (sw_midi_event zs))) ->
  state_inv st g -> state_inv (send_zynswitch_midi zs status st) g.
Proof using TICKS_PER_RETENT_positive TICKS_PER_RETENT_int.
  intros Hev Hinv. unfold send_zynswitch_midi.
  destruct (ev_type (sw_midi_event zs)) eqn:Ety; try exact Hinv.
  - destruct (Hev eq_refl) as [H8 Hb]. cbv zeta.
    apply state_inv_emit. apply midi_event_zyncoders_state_inv.
    + destruct (status =? 0); [exact H8|unfold is_uint8; lia].
    + destruct (status =? 0).
      * apply (bounded_midi_same st); [apply same_bindings_emit|exact Hb].
      * apply bounded_midi_zero. apply encoders_inv_emit. exact (proj2 Hinv).
    + apply state_inv_emit. exact Hinv.
  - destruct (status =? 0); repeat apply state_inv_emit; exact Hinv.
  - destruct (status =? 0); repeat apply state_inv_emit; exact Hinv.
Qed.

Lemma state_inv_set_zynswitch st i zs zs' g :
  nth_error (zynswitches st) i = Some zs ->
  sw_midi_event zs' = sw_midi_event zs ->
  state_inv st g -> state_inv (set_zynswitch i zs' st) g.
Proof.
  intros Hz Hev. apply state_inv_same; [|reflexivity].
  apply same_bindings_set_zynswitch. intros zs0 Hz0.
  rewrite Hz in Hz0. inversion Hz0; subst. exact Hev.
Qed.

Lemma edge_zynswitch_state_inv release i zs status now st g :
  nth_error (zynswitches st) i = Some zs ->
  state_inv st g ->
  state_inv (fst (edge_zynswitch release i zs status now st)) g.
Proof using TICKS_PER_RETENT_positive TICKS_PER_RETENT_int.
  intros Hz Hinv. unfold edge_zynswitch.
  pose proof (debounce_zynswitch_event release now (with_sw_status status zs))
    as Hev.
  destruct (debounce_zynswitch release now (with_sw_status status zs))
    as [zs2 fl].
  cbn [fst] in Hev |- *.
  set (zs1 := with_sw_status status zs) in *.
  assert (H1 : state_inv (set_zynswitch i zs1 st) g).
  { apply (state_inv_set_zynswitch st i zs); [exact Hz|reflexivity|exact Hinv]. }
  assert (Hz1 : nth_error (zynswitches (set_zynswitch i zs1 st)) i = Some zs1).
  { unfold set_zynswitch. simpl. apply nth_error_array_set_eq.
    apply nth_error_Some_lt with (x := zs). exact Hz. }
  assert (H2 : state_inv (send_zynswitch_midi zs1 status
                            (set_zynswitch i zs1 st)) g).
  { apply send_zynswitch_midi_state_inv; [|exact H1].
    intros Hty. apply (proj1 H1 zs1); [|exact Hty].
    exact (nth_error_In _ _ Hz1). }
  apply (state_inv_set_zynswitch _ i zs1); [|exact Hev|exact H2].
  rewrite send_zynswitch_midi_zynswitches. exact Hz1.
Qed.

Lemma update_zynswitch_state_inv i src now st g :
  state_inv st g -> state_inv (update_zynswitch i src now st) g.
Proof using TICKS_PER_RETENT_positive TICKS_PER_RETENT_int.
  intros Hinv. unfold update_zynswitch.
  destruct (MAX_NUM_ZYNSWITCHES <=? i)%nat; [exact Hinv|].
  destruct (nth_error (zynswitches st) i) as [zs|] eqn:Hz; [|exact Hinv].
  destruct (negb (sw_enabled zs)); [exact Hinv|].
  destruct (read_status src zs =? sw_status zs); [exact Hinv|].
  apply edge_zynswitch_state_inv; assumption.
Qed.

Lemma zyncoder_mcp23017_ISR_state_inv base_pin bank inp st st' g :
  state_inv st g ->
  zyncoder_mcp23017_ISR base_pin bank inp st = Ok st' ->
  state_inv st' g.
Proof using TICKS_PER_RETENT_positive TICKS_PER_RETENT_int.
  intros Hinv H. unfold zyncoder_mcp23017_ISR in H.
  cbv zeta in H.
  match type of H with
  | bind (for_loop_out ?b1 0 _ st) _ = _ =>
      destruct (for_loop_out b1 0 MAX_NUM_ZYNCODERS st) as [[st1 fl1]|f] eqn:E1;
        [|discriminate];
      assert (Hinv1 : state_inv st1 g);
        [ refine (for_loop_out_invariant (fun s => state_inv s g) b1 _ _ _ _ _ _ Hinv E1)
        | ]
  end.
  - intros k s s' fl Hs Hb.
    destruct (nth_error (zyncoders s) k) as [z|] eqn:Hz;
      [|inversion Hb; subst; exact Hs].
    destruct (negb (enabled z)); [inversion Hb; subst; exact Hs|].
    match type of Hb with
    | (if ?c then _ else _) = _ => destruct c
    end; [|inversion Hb; subst; exact Hs].
    destruct (bitRead_reg _ _) as [state_a|]; simpl in Hb; [|discriminate].
    destruct (bitRead_reg _ _) as [state_b|]; simpl in Hb; [|discriminate].
    match type of Hb with
    | (if ?c then _ else _) = _ => destruct c
    end; [|inversion Hb; subst; exact Hs].
    destruct (update_zyncoder k _ _ s) as [s1|] eqn:Hupd; simpl in Hb;
      [|discriminate].
    pose proof (update_zyncoder_state_inv _ _ _ _ _ _ Hs Hupd) as [Hsw1 Henc1].
    destruct (nth_error (zyncoders s1) k) as [z1|] eqn:Hz1; [|discriminate].
    inversion Hb; subst; clear Hb.
    split.
    + apply (switch_events_inv_same s1); [|exact Hsw1].
      apply same_bindings_set_zyncoder. intros z0 Hz0.
      rewrite Hz1 in Hz0. inversion Hz0; reflexivity.
    + apply encoders_inv_set_zyncoder with (g := g); auto.
      intros Hen. apply (zyncoder_inv_fields (g k) z1); try reflexivity.
      apply (Henc1 k z1 Hz1). exact Hen.
  - simpl in H.
    match type of H with
    | bind (for_loop_out ?b2 0 _ _) _ = _ =>
        destruct (for_loop_out b2 0 MAX_NUM_ZYNSWITCHES st1) as [[st2 fl2]|f] eqn:E2;
          [|discriminate];
        assert (Hinv2 : state_inv st2 g);
          [ refine (for_loop_out_invariant (fun s => state_inv s g) b2 _ _ _ _ _ _ Hinv1 E2)
          | simpl in H; inversion H; subst; exact Hinv2 ]
    end.
    intros k s s' fl Hs Hb.
    destruct (nth_error (zynswitches s) k) as [zs|] eqn:Hz;
      [|inversion Hb; subst; exact Hs].
    destruct (negb (sw_enabled zs)); [inversion Hb; subst; exact Hs|].
    match type of Hb with
    | (if ?c then _ else _) = _ => destruct c
    end; [|inversion Hb; subst; exact Hs].
    destruct (bitRead_reg _ _) as [state'|]; simpl in Hb; [|discriminate].
    match type of Hb with
    | (if ?c then _ else _) = _ => destruct c
    end; inversion Hb; subst; [|exact Hs].
    apply update_zynswitch_state_inv. exact Hs.
Qed.

Lemma zyncoder_mcp23017_bank_ISRs_state_inv hw st st' g :
  state_inv st g ->
  zyncoder_mcp23017_bank_ISRs hw st = Ok st' ->
  state_inv st' g.
Proof using TICKS_PER_RETENT_positive TICKS_PER_RETENT_int.
  intros Hinv H. unfold zyncoder_mcp23017_bank_ISRs in H.
  destruct (zyncoder_mcp23017_ISR MCP23017_BASE_PIN 0 (hw_bankA hw) st)
    as [st1|] eqn:E1; simpl in H; [|discriminate].
  eapply zyncoder_mcp23017_ISR_state_inv; [|exact H].
  eapply zyncoder_mcp23017_ISR_state_inv; [exact Hinv|exact E1].
Qed.

Lemma setup_zynswitch_state_inv w i pin hw st r st' g :
  state_inv st g -> setup_zynswitch w i pin hw st = Ok (r, st') ->
  state_inv st' g.
Proof using TICKS_PER_RETENT_positive TICKS_PER_RETENT_int.
  intros Hinv H. unfold setup_zynswitch in H.
  destruct (MAX_NUM_ZYNSWITCHES <=? i)%nat.
  { inversion H; subst. apply state_inv_emit. exact Hinv. }
  destruct (nth_error (zynswitches st) i) as [zs|] eqn:Hz; [|discriminate].
  cbv zeta in H.
  match type of H with
  | context [set_zynswitch i ?zs' st] =>
      assert (Hset : state_inv (set_zynswitch i zs' st) g)
        by (apply (state_inv_set_zynswitch st i zs);
            [exact Hz|reflexivity|exact Hinv]);
      set (st1 := set_zynswitch i zs' st) in *
  end.
  match type of H with
  | bind ?hwpart _ = _ => destruct hwpart as [st2|] eqn:Ehw
  end; simpl bind in H; [|discriminate].
  inversion H; subst r st'; clear H.
  destruct w;
    repeat match type of Ehw with
           | (if ?c then _ else _) = _ => destruct c
           end;
    try discriminate;
    try (inversion Ehw; subst st2; repeat apply state_inv_emit; exact Hset).
  - eapply zyncoder_mcp23017_bank_ISRs_state_inv; [|exact Ehw].
    repeat apply state_inv_emit. exact Hset.
  - inversion Ehw; subst st2. apply update_zynswitch_state_inv.
    repeat apply state_inv_emit. exact Hset.
Qed.

Lemma setup_zynswitch_midi_state_inv i evt chan num val st g :
  state_inv st g -> is_uint8 val ->
  switches_guarded bounded_midi g
    (snd (setup_zynswitch_midi i evt chan num val st)) ->
  state_inv (snd (setup_zynswitch_midi i evt chan num val st)) g.
Proof.
  intros [Hsw Henc] Hval Hg.
  assert (Hz : zyncoders (snd (setup_zynswitch_midi i evt chan num val st))
               = zyncoders st).
  { unfold setup_zynswitch_midi.
    destruct (MAX_NUM_ZYNSWITCHES <=? i)%nat; [reflexivity|].
    destruct (nth_error (zynswitches st) i); reflexivity. }
  split; [|exact (encoders_inv_frame st _ g Hz Henc)].
  intros zs Hin Hty. split; [|exact (Hg zs Hin Hty)].
  revert Hin. unfold setup_zynswitch_midi.
  destruct (MAX_NUM_ZYNSWITCHES <=? i)%nat;
    [intros Hin; exact (proj1 (Hsw zs Hin Hty))|].
  destruct (nth_error (zynswitches st) i) as [zs0|];
    [|intros Hin; exact (proj1 (Hsw zs Hin Hty))].
  cbn [snd set_zynswitch zynswitches with_zynswitches]. intros Hin.
  apply In_array_set in Hin as [->|Hin];
    [exact Hval | exact (proj1 (Hsw zs Hin Hty))].
Qed.

Lemma setup_zyncoder_state_inv w i pin_a' pin_b' chan ctrl osc v m s hw st g r st' :
  state_inv st g ->
  is_uint v -> is_uint m -> is_uint s ->
  setup_zyncoder w i pin_a' pin_b' chan ctrl osc v m s hw st = Ok (r, st') ->
  switches_guarded bounded_midi
    (match r with Some _ => configure g i m | None => g end) st' ->
  state_inv st' (match r with Some _ => configure g i m | None => g end).
Proof using TICKS_PER_RETENT_positive TICKS_PER_RETENT_int.
  intros Hinv Hv Hm Hs H Hg. pose proof Hinv as [Hsw Henc].
  unfold setup_zyncoder in H.
  destruct (MAX_NUM_ZYNCODERS <? i)%nat.
  { inversion H; subst. apply state_inv_emit. exact Hinv. }
  destruct (nth_error (zyncoders st) i) as [z|] eqn:Hz; [|discriminate].
  cbv zeta in H.
  destruct (setup_osc osc _) as [z2|] eqn:Hosc; simpl bind in H; [|discriminate].
  apply setup_osc_frame in Hosc.
  pose proof (setup_values_inv v m s z2 Hv Hm Hs) as Hz4.
  match type of Hz4 with
  | zyncoder_inv m ?t => set (z4 := t) in *
  end.
  assert (Hset : forall z5,
            value z5 = value z4 -> step z5 = step z4 ->
            max_value z5 = max_value z4 -> subvalue z5 = subvalue z4 ->
            encoders_inv (set_zyncoder i z5 st) (configure g i m)).
  { intros z5 E1 E2 E3 E4.
    apply encoders_inv_set_zyncoder with (g := g).
    - exact Henc.
    - intros _. rewrite configure_same.
      apply (zyncoder_inv_fields m z4); assumption.
    - intros j Hj. apply configure_other. exact Hj. }
  (* the invariant of a state with the switches of [st] and the bindings
     of [st'] *)
  assert (Hguard : forall st2,
            zynswitches st2 = zynswitches st ->
            encoders_inv st2 (configure g i m) ->
            same_bindings st2 st' ->
            switches_guarded bounded_midi (configure g i m) st' ->
            state_inv st2 (configure g i m)).
  { intros st2 Hsw2 Henc2 Hsame Hg'. split; [|exact Henc2].
    apply (switch_events_inv_guarded st st2 st' g); auto.
    intros zs2 Hin. rewrite Hsw2 in Hin. exists zs2. auto. }
  match type of H with
  | (if ?c then _ else _) = _ => destruct c
  end.
  - match type of H with
    | bind ?hwpart _ = _ => destruct hwpart as [st2|] eqn:Ehw
    end; simpl bind in H; [|discriminate].
    inversion H; subst r st'; clear H.
    match type of Ehw with
    | context [set_zyncoder i ?z5 st] =>
        specialize (Hset z5 eq_refl eq_refl eq_refl eq_refl);
        set (st1 := set_zyncoder i z5 st) in *
    end.
    destruct w;
      repeat match type of Ehw with
             | (if ?c then _ else _) = _ => destruct c
             end;
      try discriminate;
      try (inversion Ehw; subst st2;
           apply Hguard;
           [reflexivity
           |repeat apply encoders_inv_emit; exact Hset
           |apply same_bindings_refl
           |exact Hg]).
    match type of Ehw with
    | zyncoder_mcp23017_bank_ISRs hw ?s = _ => set (st1' := s) in *
    end.
    eapply zyncoder_mcp23017_bank_ISRs_state_inv; [|exact Ehw].
    apply Hguard.
    + reflexivity.
    + unfold st1'. repeat apply encoders_inv_emit. exact Hset.
    + exact (same_bindings_zyncoder_mcp23017_bank_ISRs hw st1' st2 Ehw).
    + exact Hg.
  - inversion H; subst r st'; clear H.
    apply Hguard.
    + reflexivity.
    + apply Hset; reflexivity.
    + apply same_bindings_refl.
    + exact Hg.
Qed.

Lemma init_zyncoder_state_inv : state_inv init_zyncoder (fun _ => 0).
Proof.
  split.
  - intros zs Hin. simpl in Hin. apply repeat_spec in Hin. subst.
    discriminate.
  - intros i z Hz Hen. simpl in Hz. apply nth_error_In in Hz.
    apply repeat_spec in Hz. subst. discriminate.
Qed.

(** On the builds whose setup functions run no switch path the setup
    functions touch the encoders only where they store the new
    configuration. *)
Lemma setup_zynswitch_zyncoders w i pin hw st r st' :
  setup_runs_switches w = false ->
  setup_zynswitch w i pin hw st = Ok (r, st') ->
  zyncoders st' = zyncoders st.
Proof.
  intros Hw H. unfold setup_zynswitch in H.
  destruct (MAX_NUM_ZYNSWITCHES <=? i)%nat; [inversion H; reflexivity|].
  destruct (nth_error (zynswitches st) i) as [zs|]; [|discriminate].
  cbv zeta in H.
  match type of H with
  | bind ?hwpart _ = _ => destruct hwpart as [st2|] eqn:Ehw
  end; simpl bind in H; [|discriminate].
  inversion H; subst r st'; clear H.
  destruct w; try discriminate Hw;
    repeat match type of Ehw with
           | (if ?c then _ else _) = _ => destruct c
           end;
    inversion Ehw; subst st2; reflexivity.
Qed.

Lemma setup_zynswitch_midi_zyncoders i evt chan num val st :
  zyncoders (snd (setup_zynswitch_midi i evt chan num val st)) = zyncoders st.
Proof.
  unfold setup_zynswitch_midi.
  destruct (MAX_NUM_ZYNSWITCHES <=? i)%nat; [reflexivity|].
  destruct (nth_error (zynswitches st) i); reflexivity.
Qed.

Lemma setup_zyncoder_encoders_inv w i pin_a' pin_b' chan ctrl osc v m s hw st g r st' :
  setup_runs_switches w = false ->
  encoders_inv st g ->
  is_uint v -> is_uint m -> is_uint s ->
  setup_zyncoder w i pin_a' pin_b' chan ctrl osc v m s hw st = Ok (r, st') ->
  encoders_inv st' (match r with Some _ => configure g i m | None => g end).
Proof using TICKS_PER_RETENT_positive TICKS_PER_RETENT_int.
  intros Hw Henc Hv Hm Hs H.
  unfold setup_zyncoder in H.
  destruct (MAX_NUM_ZYNCODERS <? i)%nat.
  { inversion H; subst. apply encoders_inv_emit. exact Henc. }
  destruct (nth_error (zyncoders st) i) as [z|] eqn:Hz; [|discriminate].
  cbv zeta in H.
  destruct (setup_osc osc _) as [z2|] eqn:Hosc; simpl bind in H; [|discriminate].
  apply setup_osc_frame in Hosc.
  pose proof (setup_values_inv v m s z2 Hv Hm Hs) as Hz4.
  match type of Hz4 with
  | zyncoder_inv m ?t => set (z4 := t) in *
  end.
  assert (Hset : forall z5,
            value z5 = value z4 -> step z5 = step z4 ->
            max_value z5 = max_value z4 -> subvalue z5 = subvalue z4 ->
            encoders_inv (set_zyncoder i z5 st) (configure g i m)).
  { intros z5 E1 E2 E3 E4.
    apply encoders_inv_set_zyncoder with (g := g).
    - exact Henc.
    - intros _. rewrite configure_same.
      apply (zyncoder_inv_fields m z4); assumption.
    - intros j Hj. apply configure_other. exact Hj. }
  match type of H with
  | (if ?c then _ else _) = _ => destruct c
  end.
  - match type of H with
    | bind ?hwpart _ = _ => destruct hwpart as [st2|] eqn:Ehw
    end; simpl bind in H; [|discriminate].
    inversion H; subst r st'; clear H.
    match type of Ehw with
    | context [set_zyncoder i ?z5 st] =>
        specialize (Hset z5 eq_refl eq_refl eq_refl eq_refl)
    end.
    destruct w; try discriminate Hw;
      repeat match type of Ehw with
             | (if ?c then _ else _) = _ => destruct c
             end;
      inversion Ehw; subst st2; repeat apply encoders_inv_emit; exact Hset.
  - inversion H; subst r st'; clear H.
    apply Hset; reflexivity.
Qed.

(** C1, as the code has it.  Take the states reached from
    [init_zyncoder] through [setup_zyncoder], [setup_zynswitch],
    [setup_zynswitch_midi], encoder ticks, [set_value_zyncoder] and
    inbound MIDI, where every value that reaches [midi_event_zyncoders]
    is within the bound of the enabled encoders on its channel and
    controller: the [val] of a direct call and, on the MCP23017 and
    MCP23008 builds, the value of the control change a switch is bound
    to, which the switch paths that the setup functions run there hand
    on at an edge.  In every such state every enabled encoder has
    [0 <= value <= max_value], the [max_value] it was last set up with.
    ([midi_event_zyncoders] itself stores its value unclamped.) *)
Theorem value_bounded_under_bounded_midi w st g :
  reachable bounded_midi w st g -> value_in_bounds st g.
Proof using TICKS_PER_RETENT_positive TICKS_PER_RETENT_int.
  intros Hr.
  assert (Hinv : state_inv_on w st g).
  { induction Hr as [ | st g i pin_a' pin_b' chan ctrl osc v m s hw r st'
                        Hr IH Hv Hm Hs Hsetup Hguard
                      | st g i pin hw r st' Hr IH Hsetup
                      | st g i evt chan num val Hr IH Hval Hguard
                      | st g i src now st' Hr IH Hsrc Hupd
                      | st g i v send Hr IH Hv
                      | st g chan ctrl val Hr IH Hval Hguard ];
      (assert (Hw : setup_runs_switches w = true
                    \/ setup_runs_switches w = false)
         by (destruct w; auto));
      destruct Hw as [Hw|Hw].
    - destruct init_zyncoder_state_inv as [H1 H2]. split; auto.
    - destruct init_zyncoder_state_inv as [H1 H2]. split; [intro Ht; congruence|auto].
    - destruct IH as [Hsw Henc].
      destruct (setup_zyncoder_state_inv w i pin_a' pin_b' chan ctrl osc v m s
                  hw st g r st' (conj (Hsw Hw) Henc) Hv Hm Hs Hsetup
                  (Hguard Hw)) as [H1 H2].
      split; auto.
    - split; [intro Ht; congruence|].
      exact (setup_zyncoder_encoders_inv w i pin_a' pin_b' chan ctrl osc v m s
               hw st g r st' Hw (proj2 IH) Hv Hm Hs Hsetup).
    - destruct IH as [Hsw Henc].
      destruct (setup_zynswitch_state_inv w i pin hw st r st' g
                  (conj (Hsw Hw) Henc) Hsetup) as [H1 H2].
      split; auto.
    - split; [intro Ht; congruence|].
      apply (encoders_inv_frame st); [|exact (proj2 IH)].
      exact (setup_zynswitch_zyncoders w i pin hw st r st' Hw Hsetup).
    - destruct IH as [Hsw Henc].
      destruct (setup_zynswitch_midi_state_inv i evt chan num val st g
                  (conj (Hsw Hw) Henc) Hval (Hguard Hw)) as [H1 H2].
      split; auto.
    - split; [intro Ht; congruence|].
      apply (encoders_inv_frame st); [|exact (proj2 IH)].
      apply setup_zynswitch_midi_zyncoders.
    - destruct IH as [Hsw Henc].
      destruct (update_zyncoder_state_inv i src now st st' g
                  (conj (Hsw Hw) Henc) Hupd) as [H1 H2].
      split; auto.
    - split; [intro Ht; congruence|].
      exact (update_zyncoder_encoders_inv i src now st st' g (proj2 IH) Hupd).
    - destruct IH as [Hsw Henc].
      destruct (set_value_zyncoder_state_inv i v send st g Hv
                  (conj (Hsw Hw) Henc)) as [H1 H2].
      split; auto.
    - split; [intro Ht; congruence|].
      apply set_value_zyncoder_encoders_inv; [exact Hv|exact (proj2 IH)].
    - destruct IH as [Hsw Henc].
      destruct (midi_event_zyncoders_state_inv chan ctrl val st g Hval Hguard
                  (conj (Hsw Hw) Henc)) as [H1 H2].
      split; auto.
    - split; [intro Ht; congruence|].
      apply midi_event_zyncoders_encoders_inv;
        [exact Hval|exact Hguard|exact (proj2 IH)]. }
  intros i z Hz Hen. destruct Hinv as [_ Henc].
  apply (Henc i z Hz Hen).
Qed.

(** * Further properties of the code *)

(** ** The UART ring, in general *)

(** The ring is in one of eight shapes. *)
Lemma ring_inv_cases st :
  ring_inv st ->
  exists b0 b1 b2 b3,
    buffer st = [b0; b1; b2; b3]
    /\ ((elementsInBuffer st = 0 /\ head st = 0 /\ tail st = 0)
        \/ (elementsInBuffer st = 1 /\ head st = 1 /\ tail st = 0)
        \/ (elementsInBuffer st = 2 /\ head st = 2 /\ tail st = 0)
        \/ (elementsInBuffer st = 3 /\ head st = 3 /\ tail st = 0)
        \/ (elementsInBuffer st = 4 /\ tail st = head st
            /\ (head st = 0 \/ head st = 1 \/ head st = 2 \/ head st = 3))).
Proof.
  unfold ring_inv. change BUFFER_SIZE_BYTES with 4.
  change (Z.to_nat 4) with 4%nat.
  intros (Hlen & Hn & Hh & Hpart & Hfull).
  destruct (buffer st) as [|b0 [|b1 [|b2 [|b3 [|]]]]]; simpl in Hlen;
    try discriminate.
  exists b0, b1, b2, b3. split; [reflexivity|].
  destruct (Z.eq_dec (elementsInBuffer st) 4) as [E|E].
  - right; right; right; right. specialize (Hfull E). repeat split; auto. lia.
  - assert (Hlt : elementsInBuffer st < 4) by lia.
    destruct (Hpart Hlt) as [Ht Hhn].
    assert (Hc : elementsInBuffer st = 0 \/ elementsInBuffer st = 1
                 \/ elementsInBuffer st = 2 \/ elementsInBuffer st = 3) by lia.
    destruct Hc as [Hc|[Hc|[Hc|Hc]]]; rewrite Hc in *; tauto.
Qed.

Ltac ring_cases Hinv :=
  let b0 := fresh "b0" in let b1 := fresh "b1" in
  let b2 := fresh "b2" in let b3 := fresh "b3" in
  let Hb := fresh "Hb" in let Hc := fresh "Hc" in
  destruct (ring_inv_cases _ Hinv) as (b0 & b1 & b2 & b3 & Hb & Hc);
  match type of Hb with
  | buffer ?st = _ =>
      destruct st as [zc zsw buf h ph t n tr]; simpl in Hb, Hc; subst buf;
      destruct Hc as [(-> & -> & ->) | [(-> & -> & ->) | [(-> & -> & ->)
                     | [(-> & -> & ->) | (-> & -> & [ -> | [ -> | [ -> | -> ]]])]]]]
  end.

Lemma insertInBuffer_ring_inv b st :
  ring_inv st ->
  ring_inv (insertInBuffer b st)
  /\ prev_head (insertInBuffer b st) = head st
  /\ zyncoders (insertInBuffer b st) = zyncoders st
  /\ zynswitches (insertInBuffer b st) = zynswitches st
  /\ trace (insertInBuffer b st) = trace st.
Proof.
  intros Hinv. ring_cases Hinv;
    (split; [|repeat split; reflexivity]);
    unfold ring_inv; cbn; change BUFFER_SIZE_BYTES with 4;
    repeat split; try reflexivity; try lia.
Qed.

Lemma flushBuffer_ring_inv st : ring_inv (flushBuffer st).
Proof.
  unfold ring_inv, flushBuffer. simpl. change BUFFER_SIZE_BYTES with 4.
  repeat split; try reflexivity; try lia.
Qed.

Lemma checkFraming_ring_inv s e st :
  ring_inv st -> ring_inv (snd (checkFraming s e st)).
Proof.
  intros Hinv. unfold checkFraming.
  repeat match goal with
         | |- context [if ?c then _ else _] => destruct c
         end; simpl; auto.
  apply (flushBuffer_ring_inv st).
Qed.

Lemma ring_reachable_inv st :
  ring_reachable st -> ring_inv st /\ 0 <= prev_head st < BUFFER_SIZE_BYTES.
Proof.
  induction 1 as [st|st b _ [IH IHp]|st _ [IH IHp]|st st' _ [IH IHp] Hb Hh Hp Ht Hn].
  - split; [apply flushBuffer_ring_inv|]. simpl. change BUFFER_SIZE_BYTES with 4. lia.
  - destruct (insertInBuffer_ring_inv (uint8_t b) st IH) as (Hi & Hp & _).
    split; [exact Hi|]. rewrite Hp. apply IH.
  - split; [now apply checkFraming_ring_inv|].
    unfold checkFraming.
    repeat match goal with
           | |- context [if ?c then _ else _] => destruct c
           end; simpl; auto.
    change BUFFER_SIZE_BYTES with 4. lia.
  - unfold ring_inv in *. rewrite Hb, Hh, Ht, Hn, Hp. auto.
Qed.

(** X1.  The ring never leaves its buffer: in every state the UART thread
    reaches from [flushBuffer] through [insertInBuffer] and
    [checkFraming], the buffer holds [BUFFER_SIZE_BYTES] bytes, [head],
    [prev_head] and [tail] index into it and [elementsInBuffer] is at
    most [BUFFER_SIZE_BYTES]. *)
Theorem uart_ring_stays_in_bounds st :
  ring_reachable st -> ring_in_bounds st.
Proof.
  intros Hr. destruct (ring_reachable_inv st Hr) as [Hinv Hp].
  unfold ring_in_bounds.
  pose proof Hinv as (Hlen & Hn & Hh & Hpart & Hfull).
  repeat split; try apply Hlen; try apply Hn; try apply Hh; try apply Hp.
  - destruct (Z.eq_dec (elementsInBuffer st) BUFFER_SIZE_BYTES) as [E|E].
    + rewrite (Hfull E). apply Hh.
    + assert (Hlt : elementsInBuffer st < BUFFER_SIZE_BYTES) by lia.
      destruct (Hpart Hlt) as [-> _]. lia.
  - destruct (Z.eq_dec (elementsInBuffer st) BUFFER_SIZE_BYTES) as [E|E].
    + rewrite (Hfull E). apply Hh.
    + assert (Hlt : elementsInBuffer st < BUFFER_SIZE_BYTES) by lia.
      destruct (Hpart Hlt) as [-> _]. change BUFFER_SIZE_BYTES with 4. lia.
Qed.

(** X2.  The ring is a queue of the last [BUFFER_SIZE_BYTES] bytes.
    While it is not full, [insertInBuffer] appends: the bytes it holds
    stay where they are and the new one comes after them.  Once it is
    full, [insertInBuffer] drops the oldest byte: every byte moves one
    place towards the front and the new one is the last. *)
Theorem insertInBuffer_fifo b st :
  ring_inv st ->
  let st' := insertInBuffer b st in
  (elementsInBuffer st < BUFFER_SIZE_BYTES ->
     elementsInBuffer st' = elementsInBuffer st + 1
     /\ (forall k, 0 <= k < elementsInBuffer st -> ring_nth st' k = ring_nth st k)
     /\ ring_nth st' (elementsInBuffer st) = b)
  /\ (elementsInBuffer st = BUFFER_SIZE_BYTES ->
     elementsInBuffer st' = BUFFER_SIZE_BYTES
     /\ (forall k, 0 <= k < BUFFER_SIZE_BYTES - 1 ->
           ring_nth st' k = ring_nth st (k + 1))
     /\ ring_nth st' (BUFFER_SIZE_BYTES - 1) = b).
Proof.
  intros Hinv. cbv zeta. change BUFFER_SIZE_BYTES with 4.
  ring_cases Hinv; cbn [elementsInBuffer];
    (split; [intros Hlt|intros Hfull]); try lia;
    (split; [reflexivity|]);
    (split; [|reflexivity]);
    intros k Hk;
    assert (Hk4 : k = 0 \/ k = 1 \/ k = 2 \/ k = 3) by lia;
    destruct Hk4 as [ -> | [ -> | [ -> | -> ] ] ];
    try lia; reflexivity.
Qed.

Lemma reserved_byte_dec b :
  reserved_byte b
  \/ ((b =? START_FRAME_VALUE) || (b =? END_FRAME_VALUE) || (b =? 0xFF)) = false.
Proof.
  destruct ((b =? START_FRAME_VALUE) || (b =? END_FRAME_VALUE) || (b =? 0xFF))
    eqn:E; [left; now apply reserved_byte_test|right; reflexivity].
Qed.

(** [getBufferData] on a buffer of two bytes, test by test. *)
Lemma getBufferData_unfold p0 p1 st :
  let idx k := if BUFFER_SIZE_BYTES <=? k then k - BUFFER_SIZE_BYTES else k in
  let x1 := nth (Z.to_nat (idx (head st + 1))) (buffer st) 0 in
  let x2 := nth (Z.to_nat (idx (head st + 2))) (buffer st) 0 in
  getBufferData [p0; p1] st =
    if (x1 =? START_FRAME_VALUE) || (x1 =? END_FRAME_VALUE) || (x1 =? 0xFF)
    then (1, [p0; p1])
    else if (x2 =? START_FRAME_VALUE) || (x2 =? END_FRAME_VALUE) || (x2 =? 0xFF)
    then (1, [x1; p1])
    else (0, [x1; x2]).
Proof.
  cbv zeta. unfold getBufferData.
  change (Z.to_nat PAYLOAD_SIZE_BYTES) with 2%nat.
  cbn [for_loop_ret].
  change (Z.of_nat 0) with 0. change (Z.of_nat 1) with 1.
  rewrite Z.add_0_r. replace (head st + 1 + 1) with (head st + 2) by lia.
  set (x1 := nth _ (buffer st) 0).
  destruct ((x1 =? START_FRAME_VALUE) || (x1 =? END_FRAME_VALUE) || (x1 =? 0xFF));
    [reflexivity|].
  cbn [array_set].
  set (x2 := nth _ (buffer st) 0).
  destruct ((x2 =? START_FRAME_VALUE) || (x2 =? END_FRAME_VALUE) || (x2 =? 0xFF));
    reflexivity.
Qed.

Lemma getBufferData_spec pBuffer st :
  ring_inv st -> elementsInBuffer st = BUFFER_SIZE_BYTES ->
  List.length pBuffer = Z.to_nat PAYLOAD_SIZE_BYTES ->
  (reserved_byte (ring_nth st 1) \/ reserved_byte (ring_nth st 2) ->
   fst (getBufferData pBuffer st) = 1)
  /\ (~ reserved_byte (ring_nth st 1) -> ~ reserved_byte (ring_nth st 2) ->
      getBufferData pBuffer st = (0, [ring_nth st 1; ring_nth st 2])).
Proof.
  intros Hinv Hel Hlen.
  split; [now apply getBufferData_corrupt|].
  destruct pBuffer as [|p0 [|p1 [|]]]; try discriminate Hlen.
  destruct (ring_inv_full_cases st Hinv Hel) as (b0 & b1 & b2 & b3 & Hb & Ht & Hh).
  rewrite getBufferData_unfold. cbv zeta.
  assert (Hi1 : (if BUFFER_SIZE_BYTES <=? head st + 1
                 then head st + 1 - BUFFER_SIZE_BYTES else head st + 1)
                = (tail st + 1) mod BUFFER_SIZE_BYTES).
  { rewrite Ht. destruct Hh as [E|[E|[E|E]]]; rewrite E; reflexivity. }
  assert (Hi2 : (if BUFFER_SIZE_BYTES <=? head st + 2
                 then head st + 2 - BUFFER_SIZE_BYTES else head st + 2)
                = (tail st + 2) mod BUFFER_SIZE_BYTES).
  { rewrite Ht. destruct Hh as [E|[E|[E|E]]]; rewrite E; reflexivity. }
  rewrite Hi1, Hi2. fold (ring_nth st 1). fold (ring_nth st 2).
  intros H1 H2.
  destruct (reserved_byte_dec (ring_nth st 1)) as [Hr1|Hr1]; [contradiction|].
  destruct (reserved_byte_dec (ring_nth st 2)) as [Hr2|Hr2]; [contradiction|].
  rewrite Hr1, Hr2. reflexivity.
Qed.

(** X3.  [getBufferData] on a full ring: it returns 0 exactly when
    neither of the two bytes between the oldest and the newest is 0xEA,
    0xFB or 0xFF, and then the caller's buffer holds these two bytes in
    the order they arrived; otherwise it returns 1. *)
Theorem getBufferData_payload pBuffer st :
  ring_inv st -> elementsInBuffer st = BUFFER_SIZE_BYTES ->
  List.length pBuffer = Z.to_nat PAYLOAD_SIZE_BYTES ->
  (fst (getBufferData pBuffer st) = 0
   <-> ~ reserved_byte (ring_nth st 1) /\ ~ reserved_byte (ring_nth st 2))
  /\ (fst (getBufferData pBuffer st) = 0 ->
      snd (getBufferData pBuffer st) = [ring_nth st 1; ring_nth st 2])
  /\ (fst (getBufferData pBuffer st) <> 0 -> fst (getBufferData pBuffer st) = 1).
Proof.
  intros Hinv Hel Hlen.
  destruct (getBufferData_spec pBuffer st Hinv Hel Hlen) as [Hbad Hgood].
  assert (Hdec : (reserved_byte (ring_nth st 1) \/ reserved_byte (ring_nth st 2))
                 \/ (~ reserved_byte (ring_nth st 1)
                     /\ ~ reserved_byte (ring_nth st 2))).
  { destruct (reserved_byte_dec (ring_nth st 1)) as [H1|H1]; [left; now left|].
    destruct (reserved_byte_dec (ring_nth st 2)) as [H2|H2]; [left; now right|].
    right. rewrite <- !reserved_byte_test. rewrite H1, H2. split; discriminate. }
  destruct Hdec as [Hres|[H1 H2]].
  - specialize (Hbad Hres). rewrite Hbad.
    split; [|split]; [split| |]; try discriminate; try reflexivity.
    intros [N1 N2]. destruct Hres; contradiction.
  - rewrite (Hgood H1 H2). simpl.
    split; [|split]; [split| |]; auto. congruence.
Qed.

(** One turn of the loop, by what the ring holds once the byte is in. *)
Lemma uart_thread_iteration_spec c nz ns payload st :
  ring_inv st ->
  List.length payload = Z.to_nat PAYLOAD_SIZE_BYTES ->
  let st1 := insertInBuffer (uint8_t c) st in
  (elementsInBuffer st1 < BUFFER_SIZE_BYTES /\
   uart_thread_iteration c nz ns payload st = Ok (payload, st1))
  \/ (elementsInBuffer st1 = BUFFER_SIZE_BYTES /\
      ~ (ring_nth st1 0 = START_FRAME_VALUE /\ ring_nth st1 3 = END_FRAME_VALUE) /\
      uart_thread_iteration c nz ns payload st
      = Ok (payload, emit serialFlush (flushBuffer st1)))
  \/ (elementsInBuffer st1 = BUFFER_SIZE_BYTES /\
      ring_nth st1 0 = START_FRAME_VALUE /\ ring_nth st1 3 = END_FRAME_VALUE /\
      (reserved_byte (ring_nth st1 1) \/ reserved_byte (ring_nth st1 2)) /\
      exists payload',
        uart_thread_iteration c nz ns payload st
        = Ok (payload', emit (printf CorruptUartDataBlock) st1))
  \/ (elementsInBuffer st1 = BUFFER_SIZE_BYTES /\
      ring_nth st1 0 = START_FRAME_VALUE /\ ring_nth st1 3 = END_FRAME_VALUE /\
      ~ reserved_byte (ring_nth st1 1) /\ ~ reserved_byte (ring_nth st1 2) /\
      uart_thread_iteration c nz ns payload st
      = (st' <- deliver_payload [ring_nth st1 1; ring_nth st1 2] nz ns
                  (flushBuffer st1) ;;
         Ok ([ring_nth st1 1; ring_nth st1 2], st'))).
Proof.
  intros Hinv Hlen. cbv zeta.
  destruct (insertInBuffer_ring_inv (uint8_t c) st Hinv) as (Hinv1 & _).
  set (st1 := insertInBuffer (uint8_t c) st) in *.
  destruct (Z.eq_dec (elementsInBuffer st1) BUFFER_SIZE_BYTES) as [Hel|Hel].
  - right.
    destruct (insertInBuffer_full (uint8_t c) st Hinv Hel) as (_ & _ & Hph & _).
    fold st1 in Hph.
    unfold uart_thread_iteration. fold st1.
    rewrite (checkFraming_full st1 Hinv1 Hel Hph).
    destruct ((ring_nth st1 0 =? START_FRAME_VALUE)
              && (ring_nth st1 3 =? END_FRAME_VALUE)) eqn:Ef.
    + right. apply andb_prop in Ef as [E0 E3]. apply Z.eqb_eq in E0, E3.
      change (1 =? 0) with false. cbv iota.
      destruct (getBufferData_spec payload st1 Hinv1 Hel Hlen) as [Hbad Hgood].
      destruct (reserved_byte_dec (ring_nth st1 1)) as [H1|H1];
        [|destruct (reserved_byte_dec (ring_nth st1 2)) as [H2|H2]].
      * left. repeat split; auto.
        pose proof (Hbad (or_introl H1)) as Hc.
        destruct (getBufferData payload st1) as [corrupt p']. simpl in Hc.
        subst corrupt. change (1 =? 0) with false. cbv iota. eauto.
      * left. repeat split; auto.
        pose proof (Hbad (or_intror H2)) as Hc.
        destruct (getBufferData payload st1) as [corrupt p']. simpl in Hc.
        subst corrupt. change (1 =? 0) with false. cbv iota. eauto.
      * right.
        assert (N1 : ~ reserved_byte (ring_nth st1 1))
          by (rewrite <- reserved_byte_test, H1; discriminate).
        assert (N2 : ~ reserved_byte (ring_nth st1 2))
          by (rewrite <- reserved_byte_test, H2; discriminate).
        repeat split; auto.
        rewrite (Hgood N1 N2). change (0 =? 0) with true. cbv iota.
        unfold deliver_payload.
        destruct (for_loop_out _ 0 MAX_NUM_ZYNCODERS (flushBuffer st1))
          as [[s fl]|f]; simpl; [|reflexivity].
        destruct (update_zynswitches _ ns s); reflexivity.
    + left. split; [exact Hel|]. split.
      * intros [E0 E3]. rewrite E0, E3 in Ef. discriminate Ef.
      * change (0 =? 0) with true. cbv iota. reflexivity.
  - left.
    assert (Hlt : elementsInBuffer st1 < BUFFER_SIZE_BYTES)
      by (destruct Hinv1 as (_ & Hn & _); lia).
    split; [exact Hlt|].
    unfold uart_thread_iteration. fold st1. unfold checkFraming.
    replace (BUFFER_SIZE_BYTES <=? elementsInBuffer st1) with false
      by (symmetry; apply Z.leb_gt; exact Hlt).
    rewrite andb_false_r. change (0 =? 0) with true. reflexivity.
Qed.

(** X4.  One turn of the [uart_thread] loop does exactly one of four
    things, decided by the ring once the received byte is in it.  While
    fewer than four bytes are in, nothing else happens.  Four bytes that
    do not start with 0xEA and end with 0xFB are thrown away: the ring
    and the serial device are flushed.  A frame with a reserved payload
    byte is reported and left in the ring.  A frame with a clean payload
    is taken out of the ring and its two payload bytes are handed to
    every encoder and then to the switches. *)
Theorem uart_thread_iteration_cases c nz ns payload st :
  ring_inv st ->
  List.length payload = Z.to_nat PAYLOAD_SIZE_BYTES ->
  let st1 := insertInBuffer (uint8_t c) st in
  (elementsInBuffer st1 < BUFFER_SIZE_BYTES /\
   uart_thread_iteration c nz ns payload st = Ok (payload, st1))
  \/ (elementsInBuffer st1 = BUFFER_SIZE_BYTES /\
      ~ (ring_nth st1 0 = START_FRAME_VALUE /\ ring_nth st1 3 = END_FRAME_VALUE) /\
      uart_thread_iteration c nz ns payload st
      = Ok (payload, emit serialFlush (flushBuffer st1)))
  \/ (elementsInBuffer st1 = BUFFER_SIZE_BYTES /\
      ring_nth st1 0 = START_FRAME_VALUE /\ ring_nth st1 3 = END_FRAME_VALUE /\
      (reserved_byte (ring_nth st1 1) \/ reserved_byte (ring_nth st1 2)) /\
      exists payload',
        uart_thread_iteration c nz ns payload st
        = Ok (payload', emit (printf CorruptUartDataBlock) st1))
  \/ (elementsInBuffer st1 = BUFFER_SIZE_BYTES /\
      ring_nth st1 0 = START_FRAME_VALUE /\ ring_nth st1 3 = END_FRAME_VALUE /\
      ~ reserved_byte (ring_nth st1 1) /\ ~ reserved_byte (ring_nth st1 2) /\
      uart_thread_iteration c nz ns payload st
      = (st' <- deliver_payload [ring_nth st1 1; ring_nth st1 2] nz ns
                  (flushBuffer st1) ;;
         Ok ([ring_nth st1 1; ring_nth st1 2], st'))).
Proof. exact (uart_thread_iteration_spec c nz ns payload st). Qed.

(** ** Whole frames *)

Lemma uart_thread_iteration_filling c nz ns payload st :
  elementsInBuffer (insertInBuffer (uint8_t c) st) < BUFFER_SIZE_BYTES ->
  uart_thread_iteration c nz ns payload st
  = Ok (payload, insertInBuffer (uint8_t c) st).
Proof.
  intros Hlt. unfold uart_thread_iteration, checkFraming.
  replace (BUFFER_SIZE_BYTES <=? elementsInBuffer (insertInBuffer (uint8_t c) st))
    with false by (symmetry; apply Z.leb_gt; exact Hlt).
  rewrite andb_false_r. reflexivity.
Qed.

(** Four bytes into a flushed ring. *)
Lemma ring_flushed_filled st a b c d :
  ring_flushed st ->
  let st3 := insertInBuffer c (insertInBuffer b (insertInBuffer a st)) in
  let st4 := insertInBuffer d st3 in
  elementsInBuffer (insertInBuffer a st) < BUFFER_SIZE_BYTES
  /\ elementsInBuffer (insertInBuffer b (insertInBuffer a st)) < BUFFER_SIZE_BYTES
  /\ elementsInBuffer st3 < BUFFER_SIZE_BYTES
  /\ ring_inv st3
  /\ elementsInBuffer st4 = BUFFER_SIZE_BYTES
  /\ ring_nth st4 0 = a /\ ring_nth st4 1 = b
  /\ ring_nth st4 2 = c /\ ring_nth st4 3 = d
  /\ flushBuffer st4 = flushBuffer st.
Proof.
  destruct st as [zc zsw buf h ph t n tr].
  unfold ring_flushed. simpl. intros (-> & -> & -> & ->).
  cbv zeta. change BUFFER_SIZE_BYTES with 4.
  repeat split; try reflexivity; cbn; lia.
Qed.

(** Four bytes that make a frame, into a flushed ring. *)
Lemma uart_thread_loop_frame i0 i1 i2 i3 payload st :
  ring_flushed st ->
  List.length payload = Z.to_nat PAYLOAD_SIZE_BYTES ->
  uint8_t (rx_char i0) = START_FRAME_VALUE ->
  ~ reserved_byte (uint8_t (rx_char i1)) ->
  ~ reserved_byte (uint8_t (rx_char i2)) ->
  uint8_t (rx_char i3) = END_FRAME_VALUE ->
  let data := [uint8_t (rx_char i1); uint8_t (rx_char i2)] in
  uart_thread_loop [i0; i1; i2; i3] payload st
  = (st' <- deliver_payload data (rx_now_zyncoder i3) (rx_now_zynswitches i3)
              (flushBuffer st) ;;
     Ok (data, st')).
Proof.
  intros Hfl Hlen H0 H1 H2 H3. cbv zeta.
  destruct (ring_flushed_filled st (uint8_t (rx_char i0)) (uint8_t (rx_char i1))
              (uint8_t (rx_char i2)) (uint8_t (rx_char i3)) Hfl)
    as (E1 & E2 & E3 & Hinv3 & E4 & N0 & N1 & N2 & N3 & Hflush).
  cbn [uart_thread_loop].
  rewrite (uart_thread_iteration_filling _ _ _ _ _ E1). cbn [bind fst snd].
  rewrite (uart_thread_iteration_filling _ _ _ _ _ E2). cbn [bind fst snd].
  rewrite (uart_thread_iteration_filling _ _ _ _ _ E3). cbn [bind fst snd].
  destruct (uart_thread_iteration_spec (rx_char i3) (rx_now_zyncoder i3)
              (rx_now_zynswitches i3) payload _ Hinv3 Hlen)
    as [(Hlt & _)|[(_ & Hnot & _)|[(_ & _ & _ & Hres & _)
       |(_ & _ & _ & _ & _ & Hrun)]]].
  - rewrite E4 in Hlt. lia.
  - exfalso. apply Hnot. rewrite N0, N3. split; [exact H0|exact H3].
  - exfalso. rewrite N1, N2 in Hres. destruct Hres; contradiction.
  - rewrite Hrun, N1, N2, Hflush.
    destruct (deliver_payload _ _ _ (flushBuffer st)); reflexivity.
Qed.

(** X5.  A frame is delivered.  From a flushed ring, the four bytes
    0xEA, b1, b2, 0xFB with neither b1 nor b2 one of 0xEA, 0xFB, 0xFF
    make the loop hand the payload [b1; b2] to every encoder and to the
    switches, with the clock read at the fourth byte.  The first three
    bytes cause nothing but their insertion, and the ring is flushed
    again before the payload is handed on. *)
Theorem uart_frame_delivered i0 i1 i2 i3 payload st :
  ring_flushed st ->
  List.length payload = Z.to_nat PAYLOAD_SIZE_BYTES ->
  uint8_t (rx_char i0) = START_FRAME_VALUE ->
  ~ reserved_byte (uint8_t (rx_char i1)) ->
  ~ reserved_byte (uint8_t (rx_char i2)) ->
  uint8_t (rx_char i3) = END_FRAME_VALUE ->
  let data := [uint8_t (rx_char i1); uint8_t (rx_char i2)] in
  uart_thread_loop [i0; i1; i2; i3] payload st
  = (st' <- deliver_payload data (rx_now_zyncoder i3) (rx_now_zynswitches i3)
              (flushBuffer st) ;;
     Ok (data, st')).
Proof. exact (uart_thread_loop_frame i0 i1 i2 i3 payload st). Qed.

(** X6.  A block that is not a frame is dropped whole.  From a flushed
    ring, four bytes of which the first is not 0xEA or the last is not
    0xFB leave every encoder and switch alone: at the fourth byte the
    ring and the serial device are flushed, and that is all.  The ring
    never slides over such a block, so a frame that starts inside it is
    not found. *)
Theorem uart_misframed_block_dropped i0 i1 i2 i3 payload st :
  ring_flushed st ->
  List.length payload = Z.to_nat PAYLOAD_SIZE_BYTES ->
  ~ (uint8_t (rx_char i0) = START_FRAME_VALUE
     /\ uint8_t (rx_char i3) = END_FRAME_VALUE) ->
  uart_thread_loop [i0; i1; i2; i3] payload st
  = Ok (payload, emit serialFlush (flushBuffer st)).
Proof.
  intros Hfl Hlen Hnot.
  destruct (ring_flushed_filled st (uint8_t (rx_char i0)) (uint8_t (rx_char i1))
              (uint8_t (rx_char i2)) (uint8_t (rx_char i3)) Hfl)
    as (E1 & E2 & E3 & Hinv3 & E4 & N0 & N1 & N2 & N3 & Hflush).
  cbn [uart_thread_loop].
  rewrite (uart_thread_iteration_filling _ _ _ _ _ E1). cbn [bind fst snd].
  rewrite (uart_thread_iteration_filling _ _ _ _ _ E2). cbn [bind fst snd].
  rewrite (uart_thread_iteration_filling _ _ _ _ _ E3). cbn [bind fst snd].
  destruct (uart_thread_iteration_spec (rx_char i3) (rx_now_zyncoder i3)
              (rx_now_zynswitches i3) payload _ Hinv3 Hlen)
    as [(Hlt & _)|[(_ & _ & Hrun)|[(_ & F0 & F3 & _)
       |(_ & F0 & F3 & _)]]].
  - rewrite E4 in Hlt. lia.
  - rewrite Hrun, Hflush. reflexivity.
  - exfalso. apply Hnot. rewrite N0 in F0. rewrite N3 in F3. split; assumption.
  - exfalso. apply Hnot. rewrite N0 in F0. rewrite N3 in F3. split; assumption.
Qed.

(** ** Setting and reading an encoder *)

Lemma get_value_zyncoder_at i st z :
  (i < MAX_NUM_ZYNCODERS)%nat -> nth_error (zyncoders st) i = Some z ->
  get_value_zyncoder i st = (value z, st).
Proof.
  intros Hi Hz. unfold get_value_zyncoder.
  replace (MAX_NUM_ZYNCODERS <=? i)%nat with false
    by (symmetry; apply Nat.leb_gt; exact Hi).
  now rewrite Hz.
Qed.

Lemma set_value_zyncoder_at st i z v send :
  (i < MAX_NUM_ZYNCODERS)%nat ->
  nth_error (zyncoders st) i = Some z -> enabled z = true ->
  exists z',
    nth_error (zyncoders (set_value_zyncoder i v send st)) i = Some z'
    /\ subvalue z' =
         (if step z =? 0
          then Z.min (uint (v * ZYNCODER_TICKS_PER_RETENT)) (max_value z)
          else subvalue z)
    /\ value z' =
         (if step z =? 0
          then Z.min (uint (v * ZYNCODER_TICKS_PER_RETENT)) (max_value z)
               / ZYNCODER_TICKS_PER_RETENT
          else Z.min v (max_value z)).
Proof.
  intros Hi Hz Hen. unfold set_value_zyncoder.
  replace (MAX_NUM_ZYNCODERS <=? i)%nat with false
    by (symmetry; apply Nat.leb_gt; exact Hi).
  rewrite Hz, Hen. cbn [negb].
  match goal with
  | |- context [set_zyncoder i ?x st] => set (z' := x)
  end.
  exists z'. split.
  - assert (Hset : nth_error (zyncoders (set_zyncoder i z' st)) i = Some z').
    { unfold set_zyncoder; simpl. apply nth_error_array_set_eq.
      now apply nth_error_Some_lt with (x := z). }
    destruct (negb (send =? 0)); [rewrite send_zyncoder_zyncoders|]; exact Hset.
  - unfold z'. destruct (step z =? 0).
    + destruct (max_value z <? uint (v * ZYNCODER_TICKS_PER_RETENT)) eqn:E; simpl.
      * apply Z.ltb_lt in E. rewrite Z.min_r by lia. auto.
      * apply Z.ltb_ge in E. rewrite Z.min_l by lia. auto.
    + destruct (max_value z <? v) eqn:E; simpl.
      * apply Z.ltb_lt in E. rewrite Z.min_r by lia. auto.
      * apply Z.ltb_ge in E. rewrite Z.min_l by lia. auto.
Qed.

(** X7.  Round trip through [set_value_zyncoder]: on an enabled encoder,
    [get_value_zyncoder] then returns the value that was set, cut to the
    bound the encoder was set up with.  In velocity mode this needs the
    value in ticks to fit an unsigned int.  On a disabled encoder
    [set_value_zyncoder] does nothing. *)
Theorem set_value_zyncoder_round_trip st i z v send :
  (i < MAX_NUM_ZYNCODERS)%nat ->
  nth_error (zyncoders st) i = Some z ->
  (enabled z = false -> set_value_zyncoder i v send st = st)
  /\ (enabled z = true -> 0 <= v ->
      (step z = 0 -> v * ZYNCODER_TICKS_PER_RETENT < 2 ^ 32) ->
      fst (get_value_zyncoder i (set_value_zyncoder i v send st))
      = Z.min v (configured_max z)).
Proof using TICKS_PER_RETENT_positive.
  intros Hi Hz. split.
  - intros Hen. unfold set_value_zyncoder.
    replace (MAX_NUM_ZYNCODERS <=? i)%nat with false
      by (symmetry; apply Nat.leb_gt; exact Hi).
    now rewrite Hz, Hen.
  - intros Hen Hv Hfit.
    destruct (set_value_zyncoder_at st i z v send Hi Hz Hen) as (z' & Hz' & _ & Hval).
    rewrite (get_value_zyncoder_at i _ z' Hi Hz'). simpl. rewrite Hval.
    unfold configured_max.
    destruct (step z =? 0) eqn:Es; [|reflexivity].
    apply Z.eqb_eq in Es. specialize (Hfit Es).
    rewrite uint_small by nia.
    destruct (Z_le_gt_dec (v * ZYNCODER_TICKS_PER_RETENT) (max_value z)) as [Hle|Hgt].
    + rewrite Z.min_l by exact Hle.
      rewrite Z.div_mul by lia.
      rewrite Z.min_l; [reflexivity|].
      apply Z.div_le_lower_bound; lia.
    + rewrite Z.min_r by lia.
      rewrite Z.min_r; [reflexivity|].
      assert (max_value z / ZYNCODER_TICKS_PER_RETENT < v); [|lia].
      apply Z.div_lt_upper_bound; lia.
Qed.

(** ** Setting up an encoder *)

Lemma setup_osc_fields osc z z' :
  setup_osc osc z = Ok z' ->
  z' = with_osc_path (osc_path z')
         (with_osc_lo_addr (osc_lo_addr z') (with_osc_port (osc_port z') z)).
Proof.
  unfold setup_osc. destruct z.
  repeat match goal with
         | |- context [match ?o with Some _ => _ | None => _ end] => destruct o
         | |- context [let (_, _) := ?p in _] => destruct p
         | |- context [if ?c then _ else _] => destruct c
         end;
    intros H; inversion H; subst; reflexivity.
Qed.

(** The encoder [setup_zyncoder] stores, whichever branch it takes. *)
Lemma setup_zyncoder_stores w i pin_a' pin_b' chan ctrl osc v m s hw st r st' z :
  w <> MCP23017_ENCODERS ->
  (i < MAX_NUM_ZYNCODERS)%nat ->
  nth_error (zyncoders st) i = Some z ->
  setup_zyncoder w i pin_a' pin_b' chan ctrl osc v m s hw st = Ok (r, st') ->
  r = Some i
  /\ zynswitches st' = zynswitches st
  /\ (forall j, j <> i -> nth_error (zyncoders st') j = nth_error (zyncoders st) j)
  /\ exists z',
       nth_error (zyncoders st') i = Some z'
       /\ enabled z' = true /\ pin_a z' = pin_a' /\ pin_b z' = pin_b'
       /\ midi_chan z' = (if 15 <? chan then 0 else chan)
       /\ midi_ctrl z' = (if 127 <? ctrl then 1 else ctrl)
       /\ step z' = s
       /\ value z' = Z.min v m
       /\ max_value z' =
            (if 0 <? s then m else uint (ZYNCODER_TICKS_PER_RETENT * m))
       /\ subvalue z' =
            (if 0 <? s then 0
             else uint (ZYNCODER_TICKS_PER_RETENT * Z.min v m)).
Proof.
  intros Hw Hi Hz H. unfold setup_zyncoder in H.
  replace (MAX_NUM_ZYNCODERS <? i)%nat with false in H
    by (symmetry; apply Nat.ltb_ge; lia).
  rewrite Hz in H.
  match type of H with
  | context [setup_osc osc ?x] => destruct (setup_osc osc x) as [z2|f] eqn:Eosc
  end; [|discriminate H].
  apply setup_osc_fields in Eosc.
  assert (Hlt : (i < List.length (zyncoders st))%nat)
    by (now apply nth_error_Some_lt with (x := z)).
  assert (Hmin : (if m <? v then m else v) = Z.min v m).
  { destruct (m <? v) eqn:E; [apply Z.ltb_lt in E|apply Z.ltb_ge in E]; lia. }
  cbn [bind] in H. rewrite Hmin in H.
  match type of H with
  | context [if negb (enabled ?x) || _ || _ then _ else _] => set (z4 := x) in *
  end.
  assert (Hz4 : midi_chan z4 = (if 15 <? chan then 0 else chan)
                /\ midi_ctrl z4 = (if 127 <? ctrl then 1 else ctrl)
                /\ step z4 = s /\ value z4 = Z.min v m
                /\ max_value z4 =
                     (if 0 <? s then m else uint (ZYNCODER_TICKS_PER_RETENT * m))
                /\ subvalue z4 =
                     (if 0 <? s then 0
                      else uint (ZYNCODER_TICKS_PER_RETENT * Z.min v m))).
  { unfold z4. rewrite Eosc. destruct (0 <? s); simpl; repeat split; reflexivity. }
  destruct Hz4 as (F1 & F2 & F3 & F4 & F5 & F6).
  destruct (negb (enabled z4) || negb (pin_a z4 =? pin_a')
            || negb (pin_b z4 =? pin_b')) eqn:Econd.
  - match type of H with
    | context [set_zyncoder i ?x st] => set (z5 := x) in *
    end.
    assert (Hres : exists evs,
               st' = with_trace (trace st ++ evs) (set_zyncoder i z5 st)
               /\ r = Some i).
    { clear - H Hw. destruct w; try congruence.
      - destruct (negb (pin_a' =? pin_b')); cbn [bind] in H;
          inversion H; subst; unfold emit; simpl;
          [eexists; split; [rewrite <- !app_assoc; reflexivity|reflexivity]
          |exists []; rewrite app_nil_r; split; [destruct st|]; reflexivity].
      - destruct (negb (pin_a' =? pin_b')); cbn [bind] in H.
        + destruct (8 <=? i)%nat; [discriminate H|].
          cbn [bind] in H. inversion H; subst; unfold emit; simpl.
          eexists; split; [rewrite <- !app_assoc; reflexivity|reflexivity].
        + inversion H; subst.
          exists []; rewrite app_nil_r; split; [destruct st|]; reflexivity.
      - cbn [bind] in H. inversion H; subst.
        exists []; rewrite app_nil_r; split; [destruct st|]; reflexivity. }
    destruct Hres as (evs & -> & ->).
    split; [reflexivity|]. split; [reflexivity|]. split.
    + intros j Hj. simpl. now apply nth_error_array_set_neq.
    + exists z5. split; [simpl; now apply nth_error_array_set_eq|].
      unfold z5; simpl. repeat split; assumption.
  - injection H as <- <-.
    apply orb_false_elim in Econd as [Econd E3].
    apply orb_false_elim in Econd as [E1 E2].
    apply negb_false_iff in E1, E2, E3. apply Z.eqb_eq in E2, E3.
    split; [reflexivity|]. split; [reflexivity|]. split.
    + intros j Hj. simpl. now apply nth_error_array_set_neq.
    + exists z4. split; [simpl; now apply nth_error_array_set_eq|].
      repeat split; assumption.
Qed.

(** X8.  Round trip through [setup_zyncoder].  On a build that does not
    run the MCP23017 interrupt routine from the setup, an encoder that
    has been set up is enabled on the pins given, bound to the channel
    and controller given, with a channel above 15 replaced by 0 and a
    controller above 127 by 1, and [get_value_zyncoder] returns the
    initial value cut to [max_value].  No other encoder and no switch is
    touched. *)
Theorem setup_zyncoder_round_trip
    w i pin_a' pin_b' chan ctrl osc v m s hw st r st' :
  w <> MCP23017_ENCODERS ->
  (i < MAX_NUM_ZYNCODERS)%nat ->
  setup_zyncoder w i pin_a' pin_b' chan ctrl osc v m s hw st = Ok (r, st') ->
  r = Some i
  /\ get_value_zyncoder i st' = (Z.min v m, st')
  /\ (exists z',
        nth_error (zyncoders st') i = Some z'
        /\ enabled z' = true /\ pin_a z' = pin_a' /\ pin_b z' = pin_b'
        /\ step z' = s
        /\ midi_chan z' = (if 15 <? chan then 0 else chan)
        /\ midi_ctrl z' = (if 127 <? ctrl then 1 else ctrl))
  /\ (forall j, j <> i -> nth_error (zyncoders st') j = nth_error (zyncoders st) j)
  /\ zynswitches st' = zynswitches st.
Proof.
  intros Hw Hi H.
  destruct (nth_error (zyncoders st) i) as [z|] eqn:Hz.
  - destruct (setup_zyncoder_stores _ _ _ _ _ _ _ _ _ _ _ _ _ _ _ Hw Hi Hz H)
      as (Hr & Hsw & Hother & z' & Hz' & F0 & Fa & Fb & F1 & F2 & F3 & F4 & _).
    split; [exact Hr|]. split.
    + rewrite (get_value_zyncoder_at i st' z' Hi Hz'). now rewrite F4.
    + split; [|split; assumption].
      exists z'. repeat split; assumption.
  - unfold setup_zyncoder in H.
    replace (MAX_NUM_ZYNCODERS <? i)%nat with false in H
      by (symmetry; apply Nat.ltb_ge; lia).
    rewrite Hz in H. discriminate H.
Qed.

(** X9.  Setting up an encoder again on the pins it already has keeps
    its wiring: on every build, [last_encoded], [tsus], the two last pin
    states and the [dtus] window stay as they were, and no call is made
    to the hardware, so no interrupt handler is registered twice. *)
Theorem setup_zyncoder_same_pins w i z chan ctrl osc v m s hw st r st' :
  (i < MAX_NUM_ZYNCODERS)%nat ->
  nth_error (zyncoders st) i = Some z -> enabled z = true ->
  setup_zyncoder w i (pin_a z) (pin_b z) chan ctrl osc v m s hw st = Ok (r, st') ->
  trace st' = trace st
  /\ exists z',
       nth_error (zyncoders st') i = Some z'
       /\ enabled z' = true
       /\ last_encoded z' = last_encoded z /\ tsus z' = tsus z
       /\ pin_a_last_state z' = pin_a_last_state z
       /\ pin_b_last_state z' = pin_b_last_state z
       /\ dtus z' = dtus z.
Proof.
  intros Hi Hz Hen H. unfold setup_zyncoder in H.
  replace (MAX_NUM_ZYNCODERS <? i)%nat with false in H
    by (symmetry; apply Nat.ltb_ge; lia).
  rewrite Hz in H.
  match type of H with
  | context [setup_osc osc ?x] => destruct (setup_osc osc x) as [z2|f] eqn:Eosc
  end; [|discriminate H].
  apply setup_osc_fields in Eosc.
  cbn [bind] in H.
  match type of H with
  | context [if negb (enabled ?x) || _ || _ then _ else _] => set (z4 := x) in *
  end.
  assert (Hz4 : enabled z4 = true /\ pin_a z4 = pin_a z /\ pin_b z4 = pin_b z
                /\ last_encoded z4 = last_encoded z /\ tsus z4 = tsus z
                /\ pin_a_last_state z4 = pin_a_last_state z
                /\ pin_b_last_state z4 = pin_b_last_state z
                /\ dtus z4 = dtus z).
  { unfold z4. rewrite Eosc. destruct (0 <? s); simpl; repeat split; auto. }
  destruct Hz4 as (F0 & Fa & Fb & F1 & F2 & F3 & F4 & F5).
  rewrite F0, Fa, Fb, !Z.eqb_refl in H. cbn [negb orb] in H.
  inversion H; subst. split; [reflexivity|].
  exists z4. split.
  - simpl. apply nth_error_array_set_eq.
    now apply nth_error_Some_lt with (x := z).
  - repeat split; assumption.
Qed.

(** ** Ticks *)

Lemma store_value_send z3 v' z' send :
  (if (0 <=? v') && negb (value z3 =? uint v')
   then Ok (with_value (uint v') z3, true) else Ok (z3, false)) = Ok (z', send) ->
  send = negb (value z3 =? value z').
Proof.
  destruct ((0 <=? v') && negb (value z3 =? uint v')) eqn:E;
    intros H; injection H as <- <-.
  - apply andb_prop in E as [_ E]. simpl. now rewrite E.
  - now rewrite Z.eqb_refl.
Qed.

(** [send_zyncoder] is called exactly when the tick changed [value]. *)
Lemma advance_zyncoder_send up down now z z' send :
  advance_zyncoder up down now z = Ok (z', send) ->
  send = negb (value z =? value z').
Proof.
  unfold advance_zyncoder.
  destruct (step z =? 0).
  - destruct (uint (now - tsus z) <? 1000).
    { intros H; injection H as <- <-. now rewrite Z.eqb_refl. }
    cbv zeta.
    match goal with
    | |- context [if ?c then Fault _ else _] => destruct c
    end; [intros H; discriminate H|].
    destruct (negb (up =? 0)); [|destruct (negb (down =? 0))];
      repeat match goal with
             | |- context [if uint ?a <=? ?b then _ else _] =>
                 destruct (uint a <=? b)
             end;
      cbv beta iota; intros H; apply store_value_send in H;
      cbn [value with_tsus with_subvalue with_dtus] in H; exact H.
  - cbv zeta. intros H; injection H as <- <-. reflexivity.
Qed.

Lemma send_zyncoder_trace i st z :
  (i < MAX_NUM_ZYNCODERS)%nat ->
  nth_error (zyncoders st) i = Some z -> enabled z = true ->
  (0 < midi_ctrl z ->
   trace (send_zyncoder i st)
   = trace st ++ [internal_send_ccontrol_change (midi_chan z) (midi_ctrl z)
                    (value z)])
  /\ (trace (send_zyncoder i st) = trace st
      \/ exists e, trace (send_zyncoder i st) = trace st ++ [e]).
Proof.
  intros Hi Hz Hen. unfold send_zyncoder.
  replace (MAX_NUM_ZYNCODERS <=? i)%nat with false
    by (symmetry; apply Nat.leb_gt; exact Hi).
  rewrite Hz, Hen. cbn [negb]. split.
  - intros Hc. replace (0 <? midi_ctrl z) with true
      by (symmetry; apply Z.ltb_lt; exact Hc).
    reflexivity.
  - repeat match goal with
           | |- context [if ?c then _ else _] => destruct c
           end; simpl; eauto.
Qed.

(** X10.  A tick reports a change and nothing else.  A tick of an
    enabled encoder touches neither the other encoders nor the switches;
    it calls out exactly when it has changed the encoder's [value], and
    then at most once; for an encoder bound to a MIDI controller the
    call is the control change that carries the new [value]. *)
Theorem update_zyncoder_sends_on_change st i z src now st' :
  (i < MAX_NUM_ZYNCODERS)%nat ->
  nth_error (zyncoders st) i = Some z -> enabled z = true ->
  update_zyncoder i src now st = Ok st' ->
  exists z',
    nth_error (zyncoders st') i = Some z'
    /\ (forall j, j <> i -> nth_error (zyncoders st') j = nth_error (zyncoders st) j)
    /\ zynswitches st' = zynswitches st
    /\ (value z' = value z -> trace st' = trace st)
    /\ (value z' <> value z -> 0 < midi_ctrl z ->
        trace st' = trace st
                    ++ [internal_send_ccontrol_change (midi_chan z) (midi_ctrl z)
                          (value z')])
    /\ (trace st' = trace st \/ exists e, trace st' = trace st ++ [e]).
Proof.
  intros Hi Hz Hen H.
  destruct (update_zyncoder_result st i z src now st' Hi Hz Hen H)
    as (z1 & up & down & z2 & send & Hdec & Hadv & Hst & Hz2).
  destruct (decode_zyncoder_frame _ _ _ _ _ Hdec) as (Hfr & _).
  pose proof (advance_zyncoder_frame _ _ _ _ _ _ Hadv) as Hfr2.
  pose proof (advance_zyncoder_send _ _ _ _ _ _ Hadv) as Hsend.
  assert (Hv1 : value z1 = value z) by (rewrite Hfr; reflexivity).
  assert (Hfields : enabled z2 = true /\ midi_chan z2 = midi_chan z
                    /\ midi_ctrl z2 = midi_ctrl z).
  { rewrite Hfr2, Hfr. simpl. auto. }
  destruct Hfields as (Hen2 & Hch & Hct).
  rewrite Hv1 in Hsend.
  set (st1 := set_zyncoder i z2 st) in *.
  assert (Hz1 : nth_error (zyncoders st1) i = Some z2).
  { unfold st1, set_zyncoder; simpl. apply nth_error_array_set_eq.
    now apply nth_error_Some_lt with (x := z). }
  assert (Hother : forall j, j <> i ->
            nth_error (zyncoders st1) j = nth_error (zyncoders st) j).
  { intros j Hj. unfold st1, set_zyncoder; simpl.
    now apply nth_error_array_set_neq. }
  exists z2. split; [exact Hz2|].
  destruct (send_zyncoder_trace i st1 z2 Hi Hz1 Hen2) as [Hcc Hone].
  destruct send; subst st'.
  - symmetry in Hsend. apply negb_true_iff in Hsend. apply Z.eqb_neq in Hsend.
    split; [intros j Hj; rewrite send_zyncoder_zyncoders; now apply Hother|].
    split; [now rewrite send_zyncoder_zynswitches|].
    split; [intros E; congruence|].
    split; [|exact Hone].
    intros _ Hc. rewrite Hcc by (rewrite Hct; exact Hc).
    now rewrite Hch, Hct.
  - symmetry in Hsend. apply negb_false_iff in Hsend. apply Z.eqb_eq in Hsend.
    split; [exact Hother|]. split; [reflexivity|].
    split; [reflexivity|]. split; [intros E; congruence|].
    left; reflexivity.
Qed.

(** ** Contact bounce in fixed-step mode *)

Lemma quadrature_encoded_bits MSB LSB :
  is_bit MSB -> is_bit LSB ->
  quadrature_encoded MSB LSB = 2 * MSB + LSB.
Proof. intros [->| ->] [->| ->]; reflexivity. Qed.

(** A transition and its reverse are ticks in opposite directions. *)
Lemma quadrature_reverse a b :
  0 <= a <= 3 -> 0 <= b <= 3 ->
  quadrature_up (quadrature_sum a b) = quadrature_down (quadrature_sum b a)
  /\ quadrature_down (quadrature_sum a b) = quadrature_up (quadrature_sum b a).
Proof.
  intros Ha Hb.
  assert (Ea : a = 0 \/ a = 1 \/ a = 2 \/ a = 3) by lia.
  assert (Eb : b = 0 \/ b = 1 \/ b = 2 \/ b = 3) by lia.
  destruct Ea as [ -> | [ -> | [ -> | -> ] ] ];
    destruct Eb as [ -> | [ -> | [ -> | -> ] ] ]; split; reflexivity.
Qed.

(** A quadrature tick in fixed-step mode, in one expression. *)
Lemma update_zyncoder_fixed_args st i z MSB LSB now :
  (i < MAX_NUM_ZYNCODERS)%nat ->
  nth_error (zyncoders st) i = Some z -> enabled z = true -> step z <> 0 ->
  let e := quadrature_encoded MSB LSB in
  let up := quadrature_up (quadrature_sum (last_encoded z) e) in
  let down := quadrature_down (quadrature_sum (last_encoded z) e) in
  let v1 := Z.min (value z) (max_value z) in
  let v2 :=
    if (step z <=? uint (max_value z - v1)) && negb (up =? 0)
    then uint (v1 + step z)
    else if (step z <=? v1) && negb (down =? 0)
    then uint (v1 - step z)
    else v1 in
  exists st',
    update_zyncoder i (from_args MSB LSB) now st = Ok st'
    /\ nth_error (zyncoders st') i = Some (with_value v2 (with_last_encoded e z)).
Proof.
  intros Hi Hz Hen Hstep. cbv zeta.
  rewrite (update_zyncoder_enabled st i z _ now Hi Hz Hen).
  cbn [decode_zyncoder bind fst snd].
  rewrite advance_zyncoder_fixed by exact Hstep.
  cbv zeta. cbn [bind fst snd step value max_value with_last_encoded].
  eexists. split; [reflexivity|].
  match goal with
  | |- nth_error (zyncoders (if ?c then _ else _)) i = _ => destruct c
  end; [rewrite send_zyncoder_zyncoders|];
    (unfold set_zyncoder; simpl; apply nth_error_array_set_eq;
     now apply nth_error_Some_lt with (x := z)).
Qed.

(** X11.  Contact bounce cancels in fixed-step mode.  An encoder with
    room for one step either way whose pins go from one state to another
    and back again ends with the [value] it started from, whatever the
    two states are and whenever the two ticks come: the second tick is
    the reverse of the first. *)
Theorem fixed_step_bounce_cancels st i z MSB0 LSB0 MSB1 LSB1 now1 now2 :
  (i < MAX_NUM_ZYNCODERS)%nat ->
  nth_error (zyncoders st) i = Some z -> enabled z = true ->
  step z <> 0 -> zyncoder_ok z ->
  step z <= value z -> value z + step z <= max_value z ->
  is_bit MSB0 -> is_bit LSB0 -> is_bit MSB1 -> is_bit LSB1 ->
  last_encoded z = quadrature_encoded MSB0 LSB0 ->
  exists st1 st2 z2,
    update_zyncoder i (from_args MSB1 LSB1) now1 st = Ok st1
    /\ update_zyncoder i (from_args MSB0 LSB0) now2 st1 = Ok st2
    /\ nth_error (zyncoders st2) i = Some z2
    /\ value z2 = value z /\ last_encoded z2 = last_encoded z.
Proof.
  intros Hi Hz Hen Hstep (Hm & Hs & _ & Hv) Hlo Hhi B0 B1 B2 B3 Hle.
  unfold is_uint in *.
  destruct (update_zyncoder_fixed_args st i z MSB1 LSB1 now1 Hi Hz Hen Hstep)
    as (st1 & Hst1 & Hz1).
  cbv zeta in Hz1.
  set (e0 := quadrature_encoded MSB0 LSB0) in *.
  set (e1 := quadrature_encoded MSB1 LSB1) in *.
  assert (He0 : 0 <= e0 <= 3).
  { unfold e0. rewrite quadrature_encoded_bits by assumption.
    destruct B0 as [->| ->]; destruct B1 as [->| ->]; lia. }
  assert (He1 : 0 <= e1 <= 3).
  { unfold e1. rewrite quadrature_encoded_bits by assumption.
    destruct B2 as [->| ->]; destruct B3 as [->| ->]; lia. }
  rewrite Hle in Hz1.
  destruct (quadrature_reverse e0 e1 He0 He1) as [Hud Hdu].
  set (up := quadrature_up (quadrature_sum e0 e1)) in *.
  set (down := quadrature_down (quadrature_sum e0 e1)) in *.
  assert (Hup : up = 0 \/ up = 1) by apply quadrature_up_01.
  assert (Hdown : down = 0 \/ down = 1) by apply quadrature_down_01.
  assert (Hexcl : up = 1 -> down = 0).
  { unfold up, down, quadrature_down. intros ->. reflexivity. }
  rewrite Z.min_l in Hz1 by lia.
  rewrite (uint_small (max_value z - value z)) in Hz1 by lia.
  match type of Hz1 with
  | _ = Some (with_value ?v _) => set (v1 := v) in *
  end.
  assert (Hv1 : v1 = value z + (if up =? 0 then 0 else step z)
                         - (if (up =? 0) && negb (down =? 0) then step z else 0)).
  { unfold v1.
    replace (step z <=? max_value z - value z) with true
      by (symmetry; apply Z.leb_le; lia).
    replace (step z <=? value z) with true
      by (symmetry; apply Z.leb_le; lia).
    destruct Hup as [->| ->]; destruct Hdown as [->| ->]; simpl;
      rewrite ?uint_small; lia. }
  set (z1 := with_value v1 (with_last_encoded e1 z)) in *.
  assert (Hen1 : enabled z1 = true) by exact Hen.
  assert (Hstep1 : step z1 <> 0) by exact Hstep.
  destruct (update_zyncoder_fixed_args st1 i z1 MSB0 LSB0 now2 Hi Hz1 Hen1 Hstep1)
    as (st2 & Hst2 & Hz2).
  cbv zeta in Hz2. fold e0 in Hz2.
  change (last_encoded z1) with e1 in Hz2.
  change (value z1) with v1 in Hz2.
  change (max_value z1) with (max_value z) in Hz2.
  change (step z1) with (step z) in Hz2.
  rewrite <- Hdu, <- Hud in Hz2. fold up down in Hz2.
  exists st1, st2. eexists. split; [exact Hst1|]. split; [exact Hst2|].
  split; [exact Hz2|]. split; [|simpl; symmetry; exact Hle].
  simpl.
  assert (Hr : 0 <= v1 <= max_value z).
  { rewrite Hv1. destruct Hup as [->| ->]; destruct Hdown as [->| ->]; simpl; lia. }
  rewrite Z.min_l by lia.
  rewrite (uint_small (max_value z - v1)) by lia.
  destruct Hup as [Eu|Eu]; destruct Hdown as [Ed|Ed];
    try (specialize (Hexcl Eu); congruence);
    rewrite Eu, Ed in *; simpl in Hv1 |- *.
  - rewrite !andb_false_r. lia.
  - rewrite andb_true_r.
    replace (step z <=? max_value z - v1) with true
      by (symmetry; apply Z.leb_le; lia).
    rewrite uint_small; lia.
  - rewrite andb_false_r, andb_true_r.
    replace (step z <=? v1) with true by (symmetry; apply Z.leb_le; lia).
    rewrite uint_small; lia.
Qed.

(** ** Velocity mode *)

(** X12.  One tick moves at most two detents.  An accepted tick of a
    velocity-mode encoder moves [subvalue] in the direction of the tick
    by at least 1 and at most [2 * ZYNCODER_TICKS_PER_RETENT], or to the
    bound if that is nearer; [up] wins over [down], and a tick in
    neither direction leaves [subvalue] and [value] alone. *)
Theorem velocity_tick_step_bounded up down now z z' send :
  step z = 0 -> is_uint (max_value z) ->
  0 <= subvalue z <= max_value z ->
  1000 <= uint (now - tsus z) ->
  advance_zyncoder up down now z = Ok (z', send) ->
  (up <> 0 ->
   subvalue z <= subvalue z' <= max_value z
   /\ subvalue z' <= subvalue z + 2 * ZYNCODER_TICKS_PER_RETENT
   /\ (subvalue z' = max_value z \/ subvalue z < subvalue z'))
  /\ (up = 0 -> down <> 0 ->
      0 <= subvalue z' <= subvalue z
      /\ subvalue z - 2 * ZYNCODER_TICKS_PER_RETENT <= subvalue z'
      /\ (subvalue z' = 0 \/ subvalue z' < subvalue z))
  /\ (up = 0 -> down = 0 -> subvalue z' = subvalue z /\ value z' = value z).
Proof using TICKS_PER_RETENT_positive TICKS_PER_RETENT_int.
  intros Hstep Hm Hsub Hacc Hadv. unfold is_uint in Hm.
  destruct (advance_zyncoder_velocity up down now z z' send Hstep Hacc Hadv)
    as (dsval & Hds & _ & _ & Hsv & Hval).
  assert (H32 : 2 ^ 32 = 4294967296) by reflexivity.
  assert (H31 : 2 ^ 31 = 2147483648) by reflexivity.
  assert (Hu : uint dsval = dsval) by (apply uint_small; lia).
  rewrite Hu in Hsv.
  rewrite (uint_small (max_value z - subvalue z)) in Hsv by lia.
  split; [|split].
  - intros Hup. apply Z.eqb_neq in Hup. rewrite Hup in Hsv. cbn [negb] in Hsv.
    destruct (dsval <=? max_value z - subvalue z) eqn:E.
    + apply Z.leb_le in E. rewrite uint_small in Hsv by lia. lia.
    + apply Z.leb_gt in E. lia.
  - intros Hup Hdown. apply Z.eqb_neq in Hdown.
    rewrite Hup, Hdown in Hsv. cbn [negb Z.eqb] in Hsv.
    destruct (dsval <=? subvalue z) eqn:E.
    + apply Z.leb_le in E. rewrite uint_small in Hsv by lia. lia.
    + apply Z.leb_gt in E. lia.
  - intros Hup Hdown. rewrite Hup, Hdown in Hsv, Hval.
    cbn [negb Z.eqb] in Hsv, Hval. cbv zeta in Hval.
    split; [exact Hsv|]. exact Hval.
Qed.

Lemma fold_left_add_le ds :
  Forall (fun d => 0 <= d) ds ->
  forall a, a <= fold_left Z.add ds a.
Proof.
  induction 1 as [|d ds Hd _ IH]; intros a; simpl; [lia|].
  specialize (IH (a + d)). lia.
Qed.

(** X13.  The one undefined step of a tick.  [advance] of a tick is
    undefined only in velocity mode and only by the division
    [10000 * ZYNCODER_TICKS_PER_RETENT / dtus_avg]: that is when the tick
    passes the 1 ms filter and the sum of the [dtus] window and the new
    interval, wrapped to 32 bits, is at most
    [ZYNCODER_TICKS_PER_RETENT].  With fewer than 1000 ticks per detent
    and a window whose sum does not wrap, every tick is defined. *)
Theorem velocity_tick_division up down now z :
  (forall f, advance_zyncoder up down now z = Fault f ->
     f = DivisionByZero /\ step z = 0)
  /\ (step z = 0 ->
      (advance_zyncoder up down now z = Fault DivisionByZero
       <-> 1000 <= uint (now - tsus z)
           /\ uint (fold_left Z.add (dtus z) (uint (now - tsus z)))
              <= ZYNCODER_TICKS_PER_RETENT))
  /\ (ZYNCODER_TICKS_PER_RETENT < 1000 ->
      Forall (fun d => 0 <= d) (dtus z) ->
      fold_left Z.add (dtus z) (uint (now - tsus z)) < 2 ^ 32 ->
      exists z' send, advance_zyncoder up down now z = Ok (z', send)).
Proof using TICKS_PER_RETENT_positive.
  assert (Hzero : forall x, 0 <= x ->
            (x / (ZYNCODER_TICKS_PER_RETENT + 1) =? 0) = true
            <-> x <= ZYNCODER_TICKS_PER_RETENT).
  { intros x Hx. rewrite Z.eqb_eq. rewrite Z.div_small_iff by lia. lia. }
  assert (Hshape : advance_zyncoder up down now z =
            if (step z =? 0) && negb (uint (now - tsus z) <? 1000)
               && (uint (fold_left Z.add (dtus z) (uint (now - tsus z)))
                   / (ZYNCODER_TICKS_PER_RETENT + 1) =? 0)
            then Fault DivisionByZero
            else advance_zyncoder up down now z).
  { unfold advance_zyncoder.
    destruct (step z =? 0); [|reflexivity].
    destruct (uint (now - tsus z) <? 1000); [reflexivity|]. cbv zeta.
    cbn [andb negb].
    match goal with
    | |- context [if ?c then Fault _ else _] => destruct c
    end; reflexivity. }
  assert (Hok : (step z =? 0) && negb (uint (now - tsus z) <? 1000)
                && (uint (fold_left Z.add (dtus z) (uint (now - tsus z)))
                    / (ZYNCODER_TICKS_PER_RETENT + 1) =? 0) = false ->
                exists z' send, advance_zyncoder up down now z = Ok (z', send)).
  { intros Hc. unfold advance_zyncoder.
    destruct (step z =? 0); [|cbv zeta; eauto].
    destruct (uint (now - tsus z) <? 1000); [eauto|]. cbv zeta.
    cbn [andb negb] in Hc. rewrite Hc.
    destruct (negb (up =? 0)); [|destruct (negb (down =? 0))];
      repeat match goal with
             | |- context [if uint ?a <=? ?b then _ else _] =>
                 destruct (uint a <=? b)
             end;
      cbv beta iota;
      match goal with
      | |- context [if ?c then Ok (_, true) else _] => destruct c
      end; eauto. }
  pose proof (uint_range (fold_left Z.add (dtus z) (uint (now - tsus z)))) as Hr.
  destruct ((step z =? 0) && negb (uint (now - tsus z) <? 1000)
            && (uint (fold_left Z.add (dtus z) (uint (now - tsus z)))
                / (ZYNCODER_TICKS_PER_RETENT + 1) =? 0)) eqn:Ec.
  - apply andb_prop in Ec as [Ec E3]. apply andb_prop in Ec as [E1 E2].
    apply Z.eqb_eq in E1. apply negb_true_iff in E2. apply Z.ltb_ge in E2.
    apply Hzero in E3; [|lia].
    split; [|split].
    + intros f Hf. rewrite Hshape in Hf. injection Hf as <-. auto.
    + intros _. split; [auto|]. intros _. exact Hshape.
    + intros HT Hall Hsum. exfalso.
      pose proof (fold_left_add_le (dtus z) Hall (uint (now - tsus z))) as Hle.
      rewrite uint_small in E3 by lia. lia.
  - destruct (Hok eq_refl) as (z' & send & Hres).
    split; [|split].
    + intros f Hf. rewrite Hres in Hf. discriminate Hf.
    + intros Hstep. split.
      * intros Hf. rewrite Hres in Hf. discriminate Hf.
      * intros [Hacc Hsum]. exfalso.
        apply Z.eqb_eq in Hstep. rewrite Hstep in Ec.
        replace (uint (now - tsus z) <? 1000) with false in Ec
          by (symmetry; apply Z.ltb_ge; exact Hacc).
        cbn [andb negb] in Ec.
        apply (proj2 (Hzero _ (proj1 Hr))) in Hsum. congruence.
    + intros _ _ _. eauto.
Qed.

(** ** Inbound MIDI, twice *)

Lemma state_ext st st' :
  zyncoders st = zyncoders st' -> same_but_zyncoders st st' -> st = st'.
Proof.
  destruct st, st'. unfold same_but_zyncoders. simpl.
  intros -> (-> & -> & -> & -> & -> & -> & ->). reflexivity.
Qed.

Lemma midi_event_zyncoder_twice chan ctrl v1 v2 z :
  midi_event_zyncoder chan ctrl v2 (midi_event_zyncoder chan ctrl v1 z)
  = midi_event_zyncoder chan ctrl v2 z.
Proof.
  unfold midi_event_zyncoder.
  destruct (enabled z && (midi_chan z =? chan) && (midi_ctrl z =? ctrl)) eqn:E;
    [|now rewrite E].
  cbn [enabled midi_chan midi_ctrl with_subvalue with_value]. rewrite E.
  destruct z; reflexivity.
Qed.

(** X14.  The last inbound value wins.  Two MIDI events on the same
    channel and controller leave the library in the state the second
    alone would have left it in: no trace of the first remains in any
    encoder. *)
Theorem midi_event_zyncoders_last_wins chan ctrl v1 v2 st :
  midi_event_zyncoders chan ctrl v2 (midi_event_zyncoders chan ctrl v1 st)
  = midi_event_zyncoders chan ctrl v2 st.
Proof.
  destruct (midi_event_zyncoders_spec chan ctrl v1 st) as (Hs1 & Hl1 & Hn1).
  destruct (midi_event_zyncoders_spec chan ctrl v2 st) as (Hs2 & Hl2 & Hn2).
  destruct (midi_event_zyncoders_spec chan ctrl v2
              (midi_event_zyncoders chan ctrl v1 st)) as (Hs3 & Hl3 & Hn3).
  cbv zeta in *.
  apply state_ext.
  - apply nth_error_ext. intros j. rewrite Hn3, Hn2, Hn1.
    destruct (j <? MAX_NUM_ZYNCODERS)%nat; [|reflexivity].
    destruct (nth_error (zyncoders st) j) as [z|]; [|reflexivity].
    simpl. now rewrite midi_event_zyncoder_twice.
  - unfold same_but_zyncoders in *.
    destruct Hs1 as (A1 & A2 & A3 & A4 & A5 & A6 & A7).
    destruct Hs2 as (B1 & B2 & B3 & B4 & B5 & B6 & B7).
    destruct Hs3 as (C1 & C2 & C3 & C4 & C5 & C6 & C7).
    repeat split; congruence.
Qed.

(** ** A press, from edge to report *)

(** The switch an edge leaves behind. *)
Lemma update_zynswitch_edge st i zs status now :
  (i < MAX_NUM_ZYNSWITCHES)%nat ->
  nth_error (zynswitches st) i = Some zs -> sw_enabled zs = true ->
  status <> sw_status zs ->
  nth_error (zynswitches (update_zynswitch i (status_arg status) now st)) i
  = Some (fst (debounce_zynswitch 1 now (with_sw_status status zs))).
Proof.
  intros Hi Hz Hen Hne. unfold update_zynswitch.
  replace (MAX_NUM_ZYNSWITCHES <=? i)%nat with false
    by (symmetry; apply Nat.leb_gt; exact Hi).
  rewrite Hz, Hen. cbn [negb read_status].
  replace (status =? sw_status zs) with false
    by (symmetry; apply Z.eqb_neq; exact Hne).
  destruct (edge_zynswitch_zynswitches 1 i zs status now st) as [-> _].
  apply nth_error_array_set_eq. now apply nth_error_Some_lt with (x := zs).
Qed.

Lemma get_zynswitch_at st i zs long_dtus now :
  (i < MAX_NUM_ZYNSWITCHES)%nat ->
  nth_error (zynswitches st) i = Some zs ->
  get_zynswitch i long_dtus now st =
    if 0 <? sw_dtus zs
    then (sw_dtus zs, set_zynswitch i (with_sw_dtus 0 zs) st)
    else if (0 <? sw_tsus zs) && (long_dtus <? uint (now - sw_tsus zs))
    then (uint (now - sw_tsus zs), set_zynswitch i (with_sw_tsus 0 zs) st)
    else (0, st).
Proof.
  intros Hi Hz. unfold get_zynswitch, get_zynswitch_dtus.
  replace (MAX_NUM_ZYNSWITCHES <=? i)%nat with false
    by (symmetry; apply Nat.leb_gt; exact Hi).
  rewrite Hz.
  destruct (0 <? sw_dtus zs); [reflexivity|].
  destruct (0 <? sw_tsus zs); [|reflexivity].
  destruct (long_dtus <? uint (now - sw_tsus zs)); reflexivity.
Qed.

Lemma nth_error_set_zynswitch st i zs zs' :
  nth_error (zynswitches st) i = Some zs ->
  nth_error (zynswitches (set_zynswitch i zs' st)) i = Some zs'.
Proof.
  intros Hz. unfold set_zynswitch; simpl. apply nth_error_array_set_eq.
  now apply nth_error_Some_lt with (x := zs).
Qed.

(** X15.  A press is measured once.  A released switch (level 1) that is
    pressed at [t1] and released at [t2], at least 1 ms later, has the
    duration [t2 - t1] waiting for the next [get_zynswitch], which
    returns it; the call after that returns 0.  Released sooner than
    1 ms after the press, the switch reports nothing. *)
Theorem press_measured_once st i zs t1 t2 long_dtus now :
  (i < MAX_NUM_ZYNSWITCHES)%nat ->
  nth_error (zynswitches st) i = Some zs -> sw_enabled zs = true ->
  sw_status zs = 1 -> sw_dtus zs = 0 ->
  0 < t1 -> t1 <= t2 < t1 + 2 ^ 32 ->
  let st1 := update_zynswitch i (status_arg 0) t1 st in
  let st2 := update_zynswitch i (status_arg 1) t2 st1 in
  let r := get_zynswitch i long_dtus now st2 in
  (1000 <= t2 - t1 ->
   fst r = t2 - t1
   /\ forall long_dtus' now', fst (get_zynswitch i long_dtus' now' (snd r)) = 0)
  /\ (t2 - t1 < 1000 -> r = (0, st2)).
Proof.
  intros Hi Hz Hen Hst Hd Ht1 Ht2. cbv zeta.
  assert (Hne1 : 0 <> sw_status zs) by (rewrite Hst; discriminate).
  pose proof (update_zynswitch_edge st i zs 0 t1 Hi Hz Hen Hne1) as Hz1.
  unfold debounce_zynswitch in Hz1. cbn [sw_status with_sw_status] in Hz1.
  change (0 =? 1) with false in Hz1. cbn [fst] in Hz1.
  set (st1 := update_zynswitch i (status_arg 0) t1 st) in *.
  set (zs1 := with_sw_tsus t1 (with_sw_status 0 zs)) in *.
  assert (Hne2 : 1 <> sw_status zs1) by (simpl; discriminate).
  pose proof (update_zynswitch_edge st1 i zs1 1 t2 Hi Hz1 Hen Hne2) as Hz2.
  unfold debounce_zynswitch in Hz2.
  cbn [sw_status sw_tsus with_sw_status with_sw_tsus zs1] in Hz2.
  change (1 =? 1) with true in Hz2.
  replace (0 <? t1) with true in Hz2 by (symmetry; apply Z.ltb_lt; exact Ht1).
  rewrite (uint_small (t2 - t1)) in Hz2 by lia.
  set (st2 := update_zynswitch i (status_arg 1) t2 st1) in *.
  split.
  - intros Hlong.
    replace (t2 - t1 <? 1000) with false in Hz2
      by (symmetry; apply Z.ltb_ge; exact Hlong).
    cbn [fst] in Hz2.
    rewrite (get_zynswitch_at st2 i _ long_dtus now Hi Hz2).
    cbn [sw_dtus with_sw_dtus].
    replace (0 <? t2 - t1) with true by (symmetry; apply Z.ltb_lt; lia).
    cbn [fst snd]. split; [reflexivity|].
    intros long' now'.
    erewrite get_zynswitch_at;
      [|exact Hi|apply (nth_error_set_zynswitch _ _ _ _ Hz2)].
    reflexivity.
  - intros Hshort.
    replace (t2 - t1 <? 1000) with true in Hz2
      by (symmetry; apply Z.ltb_lt; exact Hshort).
    cbn [fst] in Hz2.
    rewrite (get_zynswitch_at st2 i _ long_dtus now Hi Hz2).
    cbn [sw_dtus sw_tsus with_sw_tsus with_sw_status zs1]. rewrite Hd.
    reflexivity.
Qed.

(** X16.  A long press is reported once, while it is held.  With the
    switch pressed at [t1] and still down, [get_zynswitch] returns 0 and
    changes nothing until the press is longer than [long_dtus]; the first
    call after that returns the time the switch has been down.  The
    release that follows, whenever it comes, reports nothing more. *)
Theorem long_press_reported_once st i zs t1 long_dtus now t2 :
  (i < MAX_NUM_ZYNSWITCHES)%nat ->
  nth_error (zynswitches st) i = Some zs -> sw_enabled zs = true ->
  sw_status zs = 1 -> sw_dtus zs = 0 -> 0 < t1 ->
  let st1 := update_zynswitch i (status_arg 0) t1 st in
  let r := get_zynswitch i long_dtus now st1 in
  (uint (now - t1) <= long_dtus -> r = (0, st1))
  /\ (long_dtus < uint (now - t1) ->
      fst r = uint (now - t1)
      /\ forall long_dtus' now',
           fst (get_zynswitch i long_dtus' now'
                  (update_zynswitch i (status_arg 1) t2 (snd r))) = 0).
Proof.
  intros Hi Hz Hen Hst Hd Ht1. cbv zeta.
  assert (Hne1 : 0 <> sw_status zs) by (rewrite Hst; discriminate).
  pose proof (update_zynswitch_edge st i zs 0 t1 Hi Hz Hen Hne1) as Hz1.
  unfold debounce_zynswitch in Hz1. cbn [sw_status with_sw_status] in Hz1.
  change (0 =? 1) with false in Hz1. cbn [fst] in Hz1.
  set (st1 := update_zynswitch i (status_arg 0) t1 st) in *.
  set (zs1 := with_sw_tsus t1 (with_sw_status 0 zs)) in *.
  rewrite (get_zynswitch_at st1 i zs1 long_dtus now Hi Hz1).
  cbn [sw_dtus sw_tsus with_sw_tsus with_sw_status zs1]. rewrite Hd.
  change (0 <? 0) with false. cbv iota.
  replace (0 <? t1) with true by (symmetry; apply Z.ltb_lt; exact Ht1).
  cbn [andb]. split.
  - intros Hnot.
    replace (long_dtus <? uint (now - t1)) with false
      by (symmetry; apply Z.ltb_ge; exact Hnot).
    reflexivity.
  - intros Hlong.
    replace (long_dtus <? uint (now - t1)) with true
      by (symmetry; apply Z.ltb_lt; exact Hlong).
    cbn [fst snd]. split; [reflexivity|].
    intros long' now'.
    set (zs2 := with_sw_tsus 0 zs1).
    set (st2 := set_zynswitch i zs2 st1).
    assert (Hz2 : nth_error (zynswitches st2) i = Some zs2)
      by (apply (nth_error_set_zynswitch _ _ _ _ Hz1)).
    assert (Hne2 : 1 <> sw_status zs2) by (simpl; discriminate).
    pose proof (update_zynswitch_edge st2 i zs2 1 t2 Hi Hz2 Hen Hne2) as Hz3.
    unfold debounce_zynswitch in Hz3.
    cbn [sw_status sw_tsus with_sw_status with_sw_tsus zs2] in Hz3.
    change (1 =? 1) with true in Hz3. change (0 <? 0) with false in Hz3.
    cbn [fst] in Hz3.
    rewrite (get_zynswitch_at _ i _ long' now' Hi Hz3).
    cbn [sw_dtus sw_tsus with_sw_tsus with_sw_status zs1 zs2]. rewrite Hd.
    reflexivity.
Qed.

(** X17.  A level is acted on once.  Calling [update_zynswitch] again
    with the level it was last called with does nothing, whatever the
    clock says: the first call has stored the level, also when it
    dropped the edge as spurious, so MIDI goes out once per edge. *)
Theorem update_zynswitch_same_level i status now1 now2 st :
  update_zynswitch i (status_arg status) now2
    (update_zynswitch i (status_arg status) now1 st)
  = update_zynswitch i (status_arg status) now1 st.
Proof.
  assert (Hidle : (forall now, update_zynswitch i (status_arg status) now st = st)
                  -> update_zynswitch i (status_arg status) now2
                       (update_zynswitch i (status_arg status) now1 st)
                     = update_zynswitch i (status_arg status) now1 st).
  { intros H. now rewrite !H. }
  destruct (Nat.lt_ge_cases i MAX_NUM_ZYNSWITCHES) as [Hi|Hi].
  - destruct (nth_error (zynswitches st) i) as [zs|] eqn:Hz.
    + destruct (sw_enabled zs) eqn:Hen.
      * destruct (Z.eq_dec status (sw_status zs)) as [E|E].
        -- apply Hidle. intros now. unfold update_zynswitch.
           replace (MAX_NUM_ZYNSWITCHES <=? i)%nat with false
             by (symmetry; apply Nat.leb_gt; exact Hi).
           rewrite Hz, Hen. cbn [negb read_status].
           now replace (status =? sw_status zs) with true
             by (symmetry; apply Z.eqb_eq; exact E).
        -- pose proof (update_zynswitch_edge st i zs status now1 Hi Hz Hen E) as Hz1.
           destruct (debounce_zynswitch_spec 1 now1 zs status E)
             as ((Hs & _) & Hen1 & _).
           cbv zeta in Hs, Hen1.
           set (st1 := update_zynswitch i (status_arg status) now1 st) in *.
           set (zs1 := fst (debounce_zynswitch 1 now1 (with_sw_status status zs))) in *.
           unfold update_zynswitch at 1.
           replace (MAX_NUM_ZYNSWITCHES <=? i)%nat with false
             by (symmetry; apply Nat.leb_gt; exact Hi).
           rewrite Hz1, Hen1, Hen. cbn [negb read_status].
           rewrite Hs, Z.eqb_refl. reflexivity.
      * apply Hidle. intros now. unfold update_zynswitch.
        replace (MAX_NUM_ZYNSWITCHES <=? i)%nat with false
          by (symmetry; apply Nat.leb_gt; exact Hi).
        now rewrite Hz, Hen.
    + apply Hidle. intros now. unfold update_zynswitch.
      replace (MAX_NUM_ZYNSWITCHES <=? i)%nat with false
        by (symmetry; apply Nat.leb_gt; exact Hi).
      now rewrite Hz.
  - apply Hidle. intros now. unfold update_zynswitch.
    now replace (MAX_NUM_ZYNSWITCHES <=? i)%nat with true
      by (symmetry; apply Nat.leb_le; exact Hi).
Qed.

(** ** The debug rendering *)

Lemma int_to_int_digits (n : nat) :
  (n <= 10)%nat ->
  forall k, 0 <= k < 2 ^ Z.of_nat n ->
    0 <= int_to_int k /\ 9 * int_to_int k < 10 ^ Z.of_nat n
    /\ forall i, 0 <= i ->
         (int_to_int k / 10 ^ i) mod 10 = Z.b2z (Z.testbit k i).
Proof.
  induction n as [|n IH]; intros Hn k Hk.
  - change (2 ^ Z.of_nat 0) with 1 in Hk. assert (k = 0) by lia. subst k.
    rewrite int_to_int_equation. simpl. split; [lia|]. split; [lia|].
    intros i Hi. rewrite Z.div_0_l by (apply Z.pow_nonzero; lia).
    now rewrite Z.testbit_0_l.
  - rewrite Nat2Z.inj_succ, Z.pow_succ_r in * by lia.
    rewrite int_to_int_equation.
    destruct ((k =? 0) || (k =? 1)) eqn:E.
    + assert (Hk01 : k = 0 \/ k = 1).
      { apply orb_prop in E as [E|E]; apply Z.eqb_eq in E; auto. }
      assert (Hp : 0 < 10 ^ Z.of_nat n) by (apply Z.pow_pos_nonneg; lia).
      split; [lia|]. split; [destruct Hk01; subst k; lia|].
      intros i Hi. destruct Hk01 as [->| ->].
      * rewrite Z.div_0_l by (apply Z.pow_nonzero; lia).
        now rewrite Z.testbit_0_l.
      * destruct (Z.eq_dec i 0) as [->|Hi0]; [reflexivity|].
        rewrite Z.div_small
          by (split; [lia|]; apply Z.pow_gt_1; lia).
        replace i with (Z.succ (i - 1)) by lia.
        rewrite <- Z.div2_bits by lia. simpl. now rewrite Z.testbit_0_l.
    + apply orb_false_elim in E as [E0 E1]. apply Z.eqb_neq in E0, E1.
      rewrite Z.quot_div_nonneg, Z.rem_mod_nonneg by lia.
      assert (Hhalf : 0 <= k / 2 < 2 ^ Z.of_nat n).
      { split; [apply Z.div_pos; lia|]. apply Z.div_lt_upper_bound; lia. }
      destruct (IH ltac:(lia) (k / 2) Hhalf) as (Hr0 & Hr9 & Hdig).
      set (r := int_to_int (k / 2)) in *.
      assert (Hb : 0 <= k mod 2 < 2) by (apply Z.mod_pos_bound; lia).
      assert (Hpow : 10 ^ Z.of_nat n <= 10 ^ 9).
      { apply Z.pow_le_mono_r; lia. }
      assert (H109 : 10 ^ 9 = 1000000000) by reflexivity.
      assert (H32 : 2 ^ 32 = 4294967296) by reflexivity.
      rewrite uint_small by lia.
      split; [lia|]. split; [lia|].
      intros i Hi. destruct (Z.eq_dec i 0) as [->|Hi0].
      * rewrite Z.pow_0_r, Z.div_1_r.
        replace (k mod 2 + 10 * r) with (k mod 2 + r * 10) by lia.
        rewrite Z.mod_add by lia.
        rewrite Z.mod_small by lia. symmetry. apply Z.bit0_mod.
      * replace i with (Z.succ (i - 1)) at 1 by lia.
        rewrite Z.pow_succ_r by lia.
        rewrite <- Z.div_div by (try lia; apply Z.pow_pos_nonneg; lia).
        replace ((k mod 2 + 10 * r) / 10) with r
          by (replace (k mod 2 + 10 * r) with (k mod 2 + r * 10) by lia;
              rewrite Z.div_add by lia;
              rewrite (Z.div_small (k mod 2)) by lia; lia).
        rewrite Hdig by lia.
        rewrite Z.div2_bits by lia.
        f_equal. f_equal. lia.
Qed.

(** X18.  [int_to_int] writes a number in binary, as a decimal number.
    For [k] below 1024 the decimal digits of [int_to_int k] are the bits
    of [k], digit [i] being bit [i]: ten digits fit an unsigned int, so
    nothing wraps.  That covers the two bytes the debug line prints. *)
Theorem int_to_int_binary_digits k i :
  0 <= k < 1024 -> 0 <= i ->
  (int_to_int k / 10 ^ i) mod 10 = Z.b2z (Z.testbit k i).
Proof.
  intros Hk Hi.
  apply (int_to_int_digits 10 (Nat.le_refl 10) k); [|exact Hi].
  change (2 ^ Z.of_nat 10) with 1024. exact Hk.
Qed.

(** ** Bringing up the MCP23017 *)



(** ** Library initialisation *)

Lemma ltb_succ_cases j k :
  (j <? Datatypes.S k)%nat = (j <? k)%nat || (j =? k)%nat.
Proof.
  destruct (j <? Datatypes.S k)%nat eqn:E1; destruct (j <? k)%nat eqn:E2;
    destruct (j =? k)%nat eqn:E3; try reflexivity;
    rewrite ?Nat.ltb_lt, ?Nat.ltb_ge, ?Nat.eqb_eq, ?Nat.eqb_neq in *; lia.
Qed.

(** A loop that rewrites the first [n] records of an array one by one. *)
Lemma for_loop_array_map {A : Type} (f : A -> A) n :
  forall (l : list A),
    let l' := for_loop (fun i l => match nth_error l i with
                                   | Some x => array_set l i (f x)
                                   | None => l
                                   end) 0 n l in
    List.length l' = List.length l
    /\ forall j, nth_error l' j =
         if (j <? n)%nat then option_map f (nth_error l j) else nth_error l j.
Proof.
  intros l. cbv zeta.
  set (body := fun (i : nat) (l0 : list A) => _).
  pose (P := fun (k : nat) (s : list A) =>
    List.length s = List.length l
    /\ forall j, nth_error s j =
         if (j <? k)%nat then option_map f (nth_error l j) else nth_error l j).
  change (P (0 + n)%nat (for_loop body 0 n l)).
  apply for_loop_invariant.
  - split; [reflexivity|]. intros j. reflexivity.
  - intros k s _ (Hlen & Hnth).
    assert (Hk : nth_error s k = nth_error l k).
    { rewrite Hnth. now rewrite Nat.ltb_irrefl. }
    unfold body, P.
    destruct (nth_error s k) as [x|] eqn:Ex.
    + split; [now rewrite array_set_length|].
      intros j. rewrite ltb_succ_cases.
      destruct (Nat.eq_dec j k) as [->|Hjk].
      * rewrite nth_error_array_set_eq
          by (apply nth_error_Some_lt with (x := x); exact Ex).
        rewrite Nat.eqb_refl, orb_true_r, <- Hk. reflexivity.
      * rewrite nth_error_array_set_neq by congruence.
        replace (j =? k)%nat with false by (symmetry; now apply Nat.eqb_neq).
        rewrite orb_false_r. apply Hnth.
    + split; [exact Hlen|].
      intros j. rewrite ltb_succ_cases.
      destruct (Nat.eq_dec j k) as [->|Hjk].
      * rewrite Nat.eqb_refl, orb_true_r, Ex, <- Hk. reflexivity.
      * replace (j =? k)%nat with false by (symmetry; now apply Nat.eqb_neq).
        rewrite orb_false_r. apply Hnth.
Qed.

Lemma for_loop_zynswitches (f : zynswitch_st -> zynswitch_st) n st :
  for_loop (fun i st => match nth_error (zynswitches st) i with
                        | Some zs => set_zynswitch i (f zs) st
                        | None => st
                        end) 0 n st
  = with_zynswitches
      (for_loop (fun i l => match nth_error l i with
                            | Some x => array_set l i (f x)
                            | None => l
                            end) 0 n (zynswitches st)) st.
Proof.
  assert (H : forall k i st,
            for_loop (fun i st => match nth_error (zynswitches st) i with
                                  | Some zs => set_zynswitch i (f zs) st
                                  | None => st
                                  end) i k st
            = with_zynswitches
                (for_loop (fun i l => match nth_error l i with
                                      | Some x => array_set l i (f x)
                                      | None => l
                                      end) i k (zynswitches st)) st).
  { induction k as [|k IH]; intros i s; simpl.
    - destruct s; reflexivity.
    - rewrite IH. destruct (nth_error (zynswitches s) i); destruct s; reflexivity. }
  apply H.
Qed.

Lemma for_loop_zyncoders (f : zyncoder_st -> zyncoder_st) n st :
  for_loop (fun i st => match nth_error (zyncoders st) i with
                        | Some z => set_zyncoder i (f z) st
                        | None => st
                        end) 0 n st
  = with_zyncoders
      (for_loop (fun i l => match nth_error l i with
                            | Some x => array_set l i (f x)
                            | None => l
                            end) 0 n (zyncoders st)) st.
Proof.
  assert (H : forall k i st,
            for_loop (fun i st => match nth_error (zyncoders st) i with
                                  | Some z => set_zyncoder i (f z) st
                                  | None => st
                                  end) i k st
            = with_zyncoders
                (for_loop (fun i l => match nth_error l i with
                                      | Some x => array_set l i (f x)
                                      | None => l
                                      end) i k (zyncoders st)) st).
  { induction k as [|k IH]; intros i s; simpl.
    - destruct s; reflexivity.
    - rewrite IH. destruct (nth_error (zyncoders s) i); destruct s; reflexivity. }
  apply H.
Qed.

(** The arrays after the two loops of [init_zyncoder]. *)
Lemma init_zyncoder_arrays_spec st :
  let st' := init_zyncoder_arrays st in
  trace st' = trace st /\ buffer st' = buffer st /\ head st' = head st
  /\ prev_head st' = prev_head st /\ tail st' = tail st
  /\ elementsInBuffer st' = elementsInBuffer st
  /\ List.length (zyncoders st') = List.length (zyncoders st)
  /\ List.length (zynswitches st') = List.length (zynswitches st)
  /\ (forall j, nth_error (zyncoders st') j =
        if (j <? MAX_NUM_ZYNCODERS)%nat
        then option_map clear_zyncoder (nth_error (zyncoders st) j)
        else nth_error (zyncoders st) j)
  /\ (forall j, nth_error (zynswitches st') j =
        if (j <? MAX_NUM_ZYNSWITCHES)%nat
        then option_map clear_zynswitch (nth_error (zynswitches st) j)
        else nth_error (zynswitches st) j).
Proof.
  cbv zeta. unfold init_zyncoder_arrays.
  rewrite for_loop_zynswitches, for_loop_zyncoders.
  destruct (for_loop_array_map clear_zynswitch MAX_NUM_ZYNSWITCHES (zynswitches st))
    as [Hl1 Hn1].
  destruct (for_loop_array_map clear_zyncoder MAX_NUM_ZYNCODERS (zyncoders st))
    as [Hl2 Hn2].
  simpl. repeat split; assumption.
Qed.

Lemma zero_window n :
  forall d : list Z,
    let d' := for_loop (fun j d => array_set d j 0) 0 n d in
    List.length d' = List.length d
    /\ forall k, nth_error d' k =
         if (k <? n)%nat then option_map (fun _ => 0) (nth_error d k)
         else nth_error d k.
Proof.
  intros d. cbv zeta.
  set (body := fun (j : nat) (d0 : list Z) => _).
  pose (P := fun (m : nat) (s : list Z) =>
    List.length s = List.length d
    /\ forall k, nth_error s k =
         if (k <? m)%nat then option_map (fun _ => 0) (nth_error d k)
         else nth_error d k).
  change (P (0 + n)%nat (for_loop body 0 n d)).
  apply for_loop_invariant.
  - split; [reflexivity|]. intros k. reflexivity.
  - intros m s _ (Hlen & Hnth). unfold body, P.
    split; [now rewrite array_set_length|].
    intros k. rewrite ltb_succ_cases.
    destruct (Nat.eq_dec k m) as [->|Hkm].
    + rewrite Nat.eqb_refl, orb_true_r.
      destruct (Nat.lt_ge_cases m (List.length s)) as [Hlt|Hge].
      * rewrite nth_error_array_set_eq by exact Hlt.
        destruct (nth_error d m) eqn:E; [reflexivity|].
        apply nth_error_None in E. lia.
      * replace (nth_error (array_set s m 0) m) with (@None Z)
          by (symmetry; apply nth_error_None; rewrite array_set_length; lia).
        replace (nth_error d m) with (@None Z)
          by (symmetry; apply nth_error_None; lia).
        reflexivity.
    + rewrite nth_error_array_set_neq by congruence.
      replace (k =? m)%nat with false by (symmetry; now apply Nat.eqb_neq).
      rewrite orb_false_r. apply Hnth.
Qed.

(** X20.  [init_zyncoder] leaves a library in which nothing is enabled.
    Whatever the globals held, on every build, once [init_zyncoder] has
    returned every encoder and every switch is disabled, no switch has a
    MIDI event bound and the first [ZYNCODER_TICKS_PER_RETENT] entries of
    every [dtus] window are 0; the arrays keep their size and nothing
    has gone out through the MIDI or OSC sinks.  The result is 1 in
    every case, also when the thread of the build could not be
    created. *)
Theorem init_zyncoder_run_disables w inp st r st' calls :
  wf_state st ->
  init_zyncoder_run w inp st = Ok (r, st', calls) ->
  r = 1
  /\ wf_state st' /\ all_disabled st' /\ trace st' = trace st
  /\ (forall zs, In zs (zynswitches st') ->
        ev_type (sw_midi_event zs) = NONE_EVENT)
  /\ (forall z k d, In z (zyncoders st') ->
        (k < Z.to_nat ZYNCODER_TICKS_PER_RETENT)%nat ->
        nth_error (dtus z) k = Some d -> d = 0).
Proof.
  intros [Hlz Hls] H.
  assert (Hst : st' = init_zyncoder_arrays st /\ r = 1).
  { unfold init_zyncoder_run in H.
    match type of H with
    | bind ?m _ = _ => destruct m as [c|f]; [|discriminate H]
    end.
    cbn [bind] in H. injection H as <- <- _. auto. }
  destruct Hst as [-> ->].
  destruct (init_zyncoder_arrays_spec st)
    as (Htr & _ & _ & _ & _ & _ & Hl1 & Hl2 & Hn1 & Hn2).
  cbv zeta in *.
  assert (Hz : forall z, In z (zyncoders (init_zyncoder_arrays st)) ->
             exists z0, z = clear_zyncoder z0).
  { intros z Hin. apply In_nth_error in Hin as [j Hj].
    assert (Hlt : (j < MAX_NUM_ZYNCODERS)%nat).
    { apply nth_error_Some_lt in Hj. lia. }
    rewrite Hn1 in Hj.
    replace (j <? MAX_NUM_ZYNCODERS)%nat with true in Hj
      by (symmetry; now apply Nat.ltb_lt).
    destruct (nth_error (zyncoders st) j) as [z0|]; [|discriminate Hj].
    injection Hj as <-. eauto. }
  assert (Hs : forall zs, In zs (zynswitches (init_zyncoder_arrays st)) ->
             exists zs0, zs = clear_zynswitch zs0).
  { intros zs Hin. apply In_nth_error in Hin as [j Hj].
    assert (Hlt : (j < MAX_NUM_ZYNSWITCHES)%nat).
    { apply nth_error_Some_lt in Hj. lia. }
    rewrite Hn2 in Hj.
    replace (j <? MAX_NUM_ZYNSWITCHES)%nat with true in Hj
      by (symmetry; now apply Nat.ltb_lt).
    destruct (nth_error (zynswitches st) j) as [zs0|]; [|discriminate Hj].
    injection Hj as <-. eauto. }
  split; [reflexivity|]. split; [split; lia|]. split; [split|].
  - intros z Hin. destruct (Hz z Hin) as [z0 ->]. reflexivity.
  - intros zs Hin. destruct (Hs zs Hin) as [zs0 ->]. reflexivity.
  - split; [exact Htr|]. split.
    + intros zs Hin. destruct (Hs zs Hin) as [zs0 ->]. reflexivity.
    + intros z k d Hin Hk Hd. destruct (Hz z Hin) as [z0 ->].
      unfold clear_zyncoder in Hd. cbn [dtus with_dtus with_enabled] in Hd.
      destruct (zero_window (Z.to_nat ZYNCODER_TICKS_PER_RETENT) (dtus z0))
        as [_ Hw].
      cbv zeta in Hw. rewrite Hw in Hd.
      replace (k <? Z.to_nat ZYNCODER_TICKS_PER_RETENT)%nat with true in Hd
        by (symmetry; now apply Nat.ltb_lt).
      destruct (nth_error (dtus z0) k); [|discriminate Hd].
      now injection Hd as <-.
Qed.

Lemma for_loop_out_idle {S : Type} (body : nat -> S -> outcome (S * flow)) n s :
  (forall k, body k s = Ok (s, Continue)) ->
  forall i, for_loop_out body i n s = Ok (s, Continue).
Proof.
  intros Hb. induction n as [|n IH]; intros i; simpl; [reflexivity|].
  rewrite Hb. apply IH.
Qed.

Lemma for_loop_ret_idle {S : Type} (body : nat -> S -> S * flow) n s :
  (forall k, body k s = (s, Continue)) ->
  forall i, for_loop_ret body i n s = (s, Continue).
Proof.
  intros Hb. induction n as [|n IH]; intros i; simpl; [reflexivity|].
  rewrite Hb. apply IH.
Qed.

Lemma midi_event_zyncoders_disabled chan ctrl val st :
  (forall z, In z (zyncoders st) -> enabled z = false) ->
  midi_event_zyncoders chan ctrl val st = st.
Proof.
  intros Hdis.
  destruct (midi_event_zyncoders_spec chan ctrl val st) as (Hsame & _ & Hnth).
  cbv zeta in *. symmetry. apply state_ext; [|exact Hsame].
  apply nth_error_ext. intros j. rewrite Hnth.
  destruct (j <? MAX_NUM_ZYNCODERS)%nat; [|reflexivity].
  destruct (nth_error (zyncoders st) j) as [z|] eqn:Hz; [|reflexivity].
  simpl. unfold midi_event_zyncoder.
  now rewrite (Hdis z (nth_error_In _ _ Hz)).
Qed.

Lemma update_zyncoder_disabled i src now st :
  wf_state st ->
  (forall z, In z (zyncoders st) -> enabled z = false) ->
  update_zyncoder i src now st = Ok st.
Proof.
  intros [Hlen _] Hdis. unfold update_zyncoder.
  destruct (MAX_NUM_ZYNCODERS <=? i)%nat eqn:E; [reflexivity|].
  apply Nat.leb_gt in E.
  destruct (nth_error (zyncoders st) i) as [z|] eqn:Hz.
  - now rewrite (Hdis z (nth_error_In _ _ Hz)).
  - apply nth_error_None in Hz. lia.
Qed.

(** X21.  A library in which nothing is enabled is inert.  With every
    encoder and switch disabled, as [init_zyncoder] leaves them, no
    tick, inbound MIDI event, set, send, switch edge, expander poll,
    UART payload or MCP23017 interrupt changes the state or sends
    anything, whatever the pins, the payload and the clock hold. *)
Theorem disabled_library_is_inert st :
  wf_state st -> all_disabled st ->
  (forall i src now, update_zyncoder i src now st = Ok st)
  /\ (forall i v send, set_value_zyncoder i v send st = st)
  /\ (forall i, send_zyncoder i st = st)
  /\ (forall chan ctrl val, midi_event_zyncoders chan ctrl val st = st)
  /\ (forall i src now, update_zynswitch i src now st = st)
  /\ (forall digitalRead now, update_expanded_zynswitches digitalRead now st = st)
  /\ (forall data now, update_zynswitches data now st = Ok st)
  /\ (forall payload nz ns, deliver_payload payload nz ns st = Ok st)
  /\ (forall base_pin bank inp, zyncoder_mcp23017_ISR base_pin bank inp st = Ok st).
Proof.
  intros Hwf [Hz Hs].
  assert (Hupd : forall i src now, update_zyncoder i src now st = Ok st)
    by (intros; now apply update_zyncoder_disabled).
  assert (Hscan : forall data now, update_zynswitches data now st = Ok st).
  { intros data now. unfold update_zynswitches, update_zynswitches_upto.
    rewrite for_loop_out_idle; [reflexivity|].
    intros k. unfold scan_zynswitch.
    destruct (nth_error (zynswitches st) k) as [zs|] eqn:E; [|reflexivity].
    now rewrite (Hs zs (nth_error_In _ _ E)). }
  split; [exact Hupd|]. split; [|split; [|split; [|split; [|split; [|split;
    [exact Hscan|split]]]]]].
  - intros i v send. unfold set_value_zyncoder.
    destruct (MAX_NUM_ZYNCODERS <=? i)%nat; [reflexivity|].
    destruct (nth_error (zyncoders st) i) as [z|] eqn:E; [|reflexivity].
    now rewrite (Hz z (nth_error_In _ _ E)).
  - intros i. unfold send_zyncoder.
    destruct (MAX_NUM_ZYNCODERS <=? i)%nat; [reflexivity|].
    destruct (nth_error (zyncoders st) i) as [z|] eqn:E; [|reflexivity].
    now rewrite (Hz z (nth_error_In _ _ E)).
  - intros chan ctrl val. now apply midi_event_zyncoders_disabled.
  - intros i src now. now apply update_zynswitch_disabled.
  - intros digitalRead now.
    unfold update_expanded_zynswitches, update_expanded_zynswitches_upto.
    rewrite for_loop_ret_idle; [reflexivity|].
    intros k. unfold poll_zynswitch.
    destruct (nth_error (zynswitches st) k) as [zs|] eqn:E; [|reflexivity].
    now rewrite (Hs zs (nth_error_In _ _ E)).
  - intros payload nz ns. unfold deliver_payload.
    rewrite for_loop_out_idle; [cbn [bind fst]; apply Hscan|].
    intros k. now rewrite Hupd.
  - intros base_pin bank inp. unfold zyncoder_mcp23017_ISR.
    rewrite for_loop_out_idle.
    + cbn [bind fst]. rewrite for_loop_out_idle; [reflexivity|].
      intros k.
      destruct (nth_error (zynswitches st) k) as [zs|] eqn:E; [|reflexivity].
      now rewrite (Hs zs (nth_error_In _ _ E)).
    + intros k.
      destruct (nth_error (zyncoders st) k) as [z|] eqn:E; [|reflexivity].
      now rewrite (Hz z (nth_error_In _ _ E)).
Qed.

(** ** The OSC binding of an encoder *)

Lemma split_token_no_colon p :
  no_colon p -> split_token p = (p, EmptyString).
Proof.
  induction p as [|c p IH]; simpl; [reflexivity|].
  intros [Hc Hp]. rewrite Hc, (IH Hp). reflexivity.
Qed.

Lemma split_token_colon p q :
  no_colon p -> split_token (p ++ String ":" q) = (p, q).
Proof.
  induction p as [|c p IH]; simpl; [reflexivity|].
  intros [Hc Hp]. rewrite Hc, (IH Hp). reflexivity.
Qed.

Lemma strtok_no_colon p :
  no_colon p -> p <> EmptyString -> strtok p = Some (p, EmptyString).
Proof.
  intros Hp Hne. unfold strtok.
  destruct p as [|c p]; [congruence|].
  pose proof Hp as [Hc _]. cbn [skip_delim]. rewrite Hc.
  now rewrite split_token_no_colon.
Qed.

Lemma strtok_colon p q :
  no_colon p -> p <> EmptyString ->
  strtok (p ++ String ":" q) = Some (p, q).
Proof.
  intros Hp Hne. unfold strtok.
  destruct p as [|c p]; [congruence|].
  pose proof Hp as [Hc _].
  change (String c p ++ String ":" q)%string
    with (String c (p ++ String ":" q)).
  cbn [skip_delim]. rewrite Hc.
  change (String c (p ++ String ":" q))
    with (String c p ++ String ":" q)%string.
  now rewrite split_token_colon.
Qed.

Lemma strtok_only_colons s : skip_delim s = EmptyString -> strtok s = None.
Proof. intros H. unfold strtok. now rewrite H. Qed.

(** X22.  The OSC binding "port:path".  [setup_zyncoder] given such a
    string, with a port number above 0 and a path that fits the field,
    stores the port, the liblo address made for it and the path.  With a
    port number that reads as 0 the path is cleared instead, which turns
    OSC off for the encoder. *)
Theorem setup_osc_port_and_path port path z :
  no_colon port -> port <> EmptyString ->
  no_colon path -> path <> EmptyString ->
  (0 < uint (atoi port) -> (String.length path < OSC_PATH_SIZE)%nat ->
   setup_osc (Some (port ++ String ":" path)%string) z
   = Ok (with_osc_path path
           (with_osc_lo_addr (lo_address_new port)
              (with_osc_port (uint (atoi port)) z))))
  /\ (uint (atoi port) = 0 ->
      setup_osc (Some (port ++ String ":" path)%string) z
      = Ok (with_osc_path EmptyString (with_osc_port 0 z))).
Proof.
  intros Hp Hpne Hq Hqne. unfold setup_osc.
  rewrite (strtok_colon port path Hp Hpne). split.
  - intros Hpos Hlen. cbn [osc_port with_osc_port].
    replace (0 <? uint (atoi port)) with true
      by (symmetry; apply Z.ltb_lt; exact Hpos).
    rewrite (strtok_no_colon path Hq Hqne).
    replace (OSC_PATH_SIZE <=? String.length path)%nat with false
      by (symmetry; apply Nat.leb_gt; exact Hlen).
    reflexivity.
  - intros H0. cbn [osc_port with_osc_port]. rewrite H0. reflexivity.
Qed.

(** X23.  An OSC binding without a path is undefined.  [strtok] returns
    [NULL] on a string that is empty or all colons, and [atoi] is called
    on it; with a port above 0 and nothing but colons after it, [strcpy]
    is called on [NULL]; a path that does not fit [osc_path] overruns the
    field. *)
Theorem setup_osc_undefined z :
  (forall s, skip_delim s = EmptyString ->
     setup_osc (Some s) z = Fault NullPointer)
  /\ (forall port colons,
        no_colon port -> port <> EmptyString -> 0 < uint (atoi port) ->
        skip_delim colons = EmptyString ->
        setup_osc (Some (port ++ colons)%string) z = Fault NullPointer)
  /\ (forall port path,
        no_colon port -> port <> EmptyString -> 0 < uint (atoi port) ->
        no_colon path -> path <> EmptyString ->
        (OSC_PATH_SIZE <= String.length path)%nat ->
        setup_osc (Some (port ++ String ":" path)%string) z
        = Fault OutOfBounds).
Proof.
  split; [|split].
  - intros s Hs. unfold setup_osc. now rewrite (strtok_only_colons s Hs).
  - intros port colons Hp Hpne Hpos Hc. unfold setup_osc.
    assert (Htok : exists rest, strtok (port ++ colons)%string = Some (port, rest)
                                /\ skip_delim rest = EmptyString).
    { destruct colons as [|c colons'].
      - exists EmptyString. split; [|reflexivity].
        replace (port ++ "")%string with port.
        + now apply strtok_no_colon.
        + clear. induction port as [|c p IH]; simpl; [reflexivity|].
          now rewrite <- IH.
      - cbn [skip_delim] in Hc.
        destruct (Ascii.eqb c ":"%char) eqn:E; [|discriminate Hc].
        apply Ascii.eqb_eq in E. subst c.
        exists colons'. split; [now apply strtok_colon|exact Hc]. }
    destruct Htok as (rest & -> & Hrest).
    cbn [osc_port with_osc_port].
    replace (0 <? uint (atoi port)) with true
      by (symmetry; apply Z.ltb_lt; exact Hpos).
    now rewrite (strtok_only_colons rest Hrest).
  - intros port path Hp Hpne Hpos Hq Hqne Hlen. unfold setup_osc.
    rewrite (strtok_colon port path Hp Hpne).
    cbn [osc_port with_osc_port].
    replace (0 <? uint (atoi port)) with true
      by (symmetry; apply Z.ltb_lt; exact Hpos).
    rewrite (strtok_no_colon path Hq Hqne).
    now replace (OSC_PATH_SIZE <=? String.length path)%nat with true
      by (symmetry; apply Nat.leb_le; exact Hlen).
Qed.

(** ** The UART payload *)

Lemma land_1_testbit a k :
  0 <= k -> Z.land (Z.shiftr a k) 1 = Z.b2z (Z.testbit a k).
Proof.
  intros Hk. change 1 with (Z.ones 1). rewrite Z.land_ones by lia.
  change (2 ^ 1) with 2. rewrite <- Z.bit0_mod.
  rewrite Z.shiftr_spec by lia. now rewrite Z.add_0_l.
Qed.

(** X24.  The payload is a 16-bit word, low byte first.  A pin below 16
    reads the bit of that number of [b0 + 256 * b1]; reading a pin from 16
    up leaves the two payload bytes. *)
Theorem payload_bit_layout b0 b1 pin :
  is_uint8 b0 -> is_uint8 b1 -> 0 <= pin ->
  (pin < 16 ->
   payload_bit [b0; b1] pin = Ok (Z.b2z (Z.testbit (b0 + 256 * b1) pin)))
  /\ (16 <= pin -> payload_bit [b0; b1] pin = Fault OutOfBounds).
Proof.
  unfold is_uint8. change (2 ^ 8) with 256. intros H0 H1 Hp.
  unfold payload_bit. split.
  - intros Hlt.
    assert (Hm : 0 <= pin mod 8 < 8) by (apply Z.mod_pos_bound; lia).
    pose proof (Z.div_mod pin 8 ltac:(lia)) as Hdm.
    destruct (Z_lt_ge_dec pin 8) as [Hlo|Hhi].
    + rewrite (Z.div_small pin 8) in * by lia.
      cbn [Z.to_nat nth_error]. rewrite land_1_testbit by lia.
      rewrite Z.mod_small by lia.
      do 2 f_equal.
      rewrite <- (Z.mod_pow2_bits_low (b0 + 256 * b1) 8 pin) by lia.
      change (2 ^ 8) with 256.
      replace (b0 + 256 * b1) with (b0 + b1 * 256) by lia.
      rewrite Z.mod_add by lia. now rewrite Z.mod_small by lia.
    + assert (Hq : pin / 8 = 1).
      { symmetry. apply (Z.div_unique pin 8 1 (pin - 8)); lia. }
      rewrite Hq. change (Z.to_nat 1) with 1%nat. cbn [nth_error].
      rewrite land_1_testbit by lia.
      do 2 f_equal.
      replace pin with ((pin mod 8) + 8) at 2 by lia.
      rewrite <- Z.div_pow2_bits by lia.
      change (2 ^ 8) with 256.
      replace (b0 + 256 * b1) with (b0 + b1 * 256) by lia.
      rewrite Z.div_add by lia. rewrite (Z.div_small b0) by lia.
      reflexivity.
  - intros Hge.
    assert (Hq : 2 <= pin / 8) by (apply Z.div_le_lower_bound; lia).
    replace (nth_error [b0; b1] (Z.to_nat (pin / 8))) with (@None Z);
      [reflexivity|].
    symmetry. apply nth_error_None. simpl. lia.
Qed.

(** ** A switch bound to a controller *)

(** X25.  A switch drives the encoders on its controller.  Once
    [setup_zynswitch_midi] has bound an enabled switch to a control
    change, an edge seen by [update_zynswitch] sends that control change
    to the router and to the UI, with the bound value at level 0 and
    with 0 at any other level, and every enabled encoder on the same
    channel and controller then reads that value; the other encoders are
    left alone. *)
Theorem switch_controller_moves_zyncoders st0 i zs chan num val level now :
  (i < MAX_NUM_ZYNSWITCHES)%nat ->
  nth_error (zynswitches st0) i = Some zs -> sw_enabled zs = true ->
  level <> sw_status zs ->
  let st := snd (setup_zynswitch_midi i CTRL_CHANGE chan num val st0) in
  let st' := update_zynswitch i (status_arg level) now st in
  let v := if level =? 0 then val else 0 in
  trace st' = trace st0 ++ [internal_send_ccontrol_change chan num v;
                            write_zynmidi_ccontrol_change chan num v]
  /\ (forall j z, (j < MAX_NUM_ZYNCODERS)%nat ->
        nth_error (zyncoders st0) j = Some z ->
        if enabled z && (midi_chan z =? chan) && (midi_ctrl z =? num)
        then get_value_zyncoder j st' = (v, st')
        else nth_error (zyncoders st') j = Some z).
Proof.
  intros Hi Hz Hen Hne. cbv zeta.
  unfold setup_zynswitch_midi.
  replace (MAX_NUM_ZYNSWITCHES <=? i)%nat with false
    by (symmetry; apply Nat.leb_gt; exact Hi).
  rewrite Hz. cbn [snd].
  set (ev := {| ev_type := CTRL_CHANGE; ev_chan := chan; ev_num := num;
                ev_val := val |}).
  set (zs1 := with_sw_last_cvgate_note (-1) (with_sw_midi_event ev zs)).
  set (st := set_zynswitch i zs1 st0).
  assert (Hz1 : nth_error (zynswitches st) i = Some zs1)
    by (apply (nth_error_set_zynswitch _ _ _ _ Hz)).
  unfold update_zynswitch.
  replace (MAX_NUM_ZYNSWITCHES <=? i)%nat with false
    by (symmetry; apply Nat.leb_gt; exact Hi).
  rewrite Hz1. change (sw_enabled zs1) with (sw_enabled zs). rewrite Hen.
  cbn [negb read_status]. change (sw_status zs1) with (sw_status zs).
  replace (level =? sw_status zs) with false
    by (symmetry; apply Z.eqb_neq; exact Hne).
  unfold edge_zynswitch.
  destruct (debounce_zynswitch 1 now (with_sw_status level zs1)) as [zs2 fl].
  cbn [fst].
  unfold send_zynswitch_midi.
  change (sw_midi_event (with_sw_status level zs1)) with ev.
  cbn [ev_type ev_chan ev_num ev_val ev].
  set (v := if level =? 0 then val else 0).
  set (sA := emit (internal_send_ccontrol_change chan num v)
               (set_zynswitch i (with_sw_status level zs1) st)).
  destruct (midi_event_zyncoders_spec chan num v sA) as (Hsame & _ & Hnth).
  cbv zeta in Hsame, Hnth.
  set (sB := midi_event_zyncoders chan num v sA) in *.
  destruct Hsame as (_ & _ & _ & _ & _ & _ & Htr).
  split.
  - cbn [trace set_zynswitch with_zynswitches emit with_trace].
    rewrite Htr. unfold sA. cbn. rewrite <- app_assoc. reflexivity.
  - intros j z Hj Hzj.
    assert (HzB : nth_error (zyncoders sB) j
                  = Some (midi_event_zyncoder chan num v z)).
    { rewrite Hnth.
      replace (j <? MAX_NUM_ZYNCODERS)%nat with true
        by (symmetry; now apply Nat.ltb_lt).
      unfold sA. cbn. rewrite Hzj. reflexivity. }
    unfold midi_event_zyncoder in HzB.
    destruct (enabled z && (midi_chan z =? chan) && (midi_ctrl z =? num)).
    + erewrite get_value_zyncoder_at; [|exact Hj|exact HzB]. reflexivity.
    + exact HzB.
Qed.

(** ** The thread from its start *)

(** X26.  The first frame after the thread starts.  [uart_thread]
    flushes the ring before it opens the serial device, so whatever the
    ring held, the first four bytes received are the first block: a
    clean frame is delivered after the serial device has been flushed
    once.  If the device cannot be opened, the thread ends with the ring
    flushed and nothing is ever read. *)
Theorem uart_thread_first_frame fd i0 i1 i2 i3 payload st :
  List.length payload = Z.to_nat PAYLOAD_SIZE_BYTES ->
  uint8_t (rx_char i0) = START_FRAME_VALUE ->
  ~ reserved_byte (uint8_t (rx_char i1)) ->
  ~ reserved_byte (uint8_t (rx_char i2)) ->
  uint8_t (rx_char i3) = END_FRAME_VALUE ->
  let data := [uint8_t (rx_char i1); uint8_t (rx_char i2)] in
  (0 <= fd ->
   uart_thread_run fd [i0; i1; i2; i3] payload st
   = (st' <- deliver_payload data (rx_now_zyncoder i3) (rx_now_zynswitches i3)
               (emit serialFlush (flushBuffer st)) ;;
      Ok (in_loop data st')))
  /\ (fd < 0 ->
      forall inputs,
        uart_thread_run fd inputs payload st
        = Ok (unable_to_open_serial_device (flushBuffer st))).
Proof.
  intros Hlen H0 H1 H2 H3. cbv zeta. unfold uart_thread_run. split.
  - intros Hfd.
    replace (fd <? 0) with false by (symmetry; apply Z.ltb_ge; exact Hfd).
    assert (Hfl : ring_flushed (emit serialFlush (flushBuffer st)))
      by (repeat split).
    rewrite (uart_thread_loop_frame i0 i1 i2 i3 payload _ Hfl Hlen H0 H1 H2 H3).
    replace (flushBuffer (emit serialFlush (flushBuffer st)))
      with (emit serialFlush (flushBuffer st)) by (destruct st; reflexivity).
    destruct (deliver_payload _ _ _ (emit serialFlush (flushBuffer st)));
      reflexivity.
  - intros Hfd inputs.
    now replace (fd <? 0) with true by (symmetry; apply Z.ltb_lt; exact Hfd).
Qed.

(** ** The MCP23017 interrupt routine *)

Lemma zyncoder_mcp23017_ISR_loops base_pin bank inp st :
  let reg := uint8_t (isr_reg inp) in
  let pin_min := if bank =? 0 then uint8_t base_pin else uint8_t (base_pin + 8) in
  let pin_max := uint8_t (pin_min + 7) in
  zyncoder_mcp23017_ISR base_pin bank inp st =
    (r1 <- for_loop_out (isr_zyncoder reg pin_min pin_max inp)
             0 MAX_NUM_ZYNCODERS st ;;
     r2 <- for_loop_out (isr_zynswitch reg pin_min pin_max inp)
             0 MAX_NUM_ZYNSWITCHES (fst r1) ;;
     Ok (fst r2)).
Proof. reflexivity. Qed.

Lemma for_loop_out_idle_range {S : Type}
    (body : nat -> S -> outcome (S * flow)) n s :
  forall i,
    (forall k, (i <= k < i + n)%nat -> body k s = Ok (s, Continue)) ->
    for_loop_out body i n s = Ok (s, Continue).
Proof.
  induction n as [|n IH]; intros i Hb; simpl; [reflexivity|].
  rewrite Hb by lia. apply IH. intros k Hk. apply Hb. lia.
Qed.

(** A loop whose body never leaves the function runs to its end. *)
Lemma for_loop_out_all {S : Type} (P : nat -> S -> Prop) body n :
  forall i s s' fl,
    P i s ->
    (forall k s s' fl, (i <= k < i + n)%nat -> P k s ->
       body k s = Ok (s', fl) -> fl = Continue /\ P (Datatypes.S k) s') ->
    for_loop_out body i n s = Ok (s', fl) ->
    P (i + n)%nat s'.
Proof.
  induction n as [|n IH]; intros i s s' fl Hs Hbody H; simpl in H.
  - injection H as <- <-. now rewrite Nat.add_0_r.
  - destruct (body i s) as [[s1 fl1]|f] eqn:Eb; [|discriminate H].
    destruct (Hbody i s s1 fl1 ltac:(lia) Hs Eb) as [-> Hs1].
    replace (i + Datatypes.S n)%nat with (Datatypes.S i + n)%nat by lia.
    apply (IH (Datatypes.S i) s1 s' fl Hs1); [|exact H].
    intros k s2 s3 fl' Hk. apply Hbody. lia.
Qed.

Lemma isr_zyncoder_quiet reg pin_min pin_max inp i st z :
  nth_error (zyncoders st) i = Some z ->
  zyncoder_quiet reg pin_min pin_max z ->
  isr_zyncoder reg pin_min pin_max inp i st = Ok (st, Continue).
Proof.
  intros Hz Hq. unfold isr_zyncoder. rewrite Hz.
  destruct Hq as [Hq|[Hq|[Ha Hb]]].
  - now rewrite Hq.
  - rewrite Hq. now destruct (negb (enabled z)).
  - destruct (negb (enabled z)); [reflexivity|].
    destruct (in_bank pin_min pin_max (pin_a z)
              || in_bank pin_min pin_max (pin_b z)); [|reflexivity].
    rewrite Ha, Hb. cbn [bind]. now rewrite !Z.eqb_refl.
Qed.

Lemma isr_zynswitch_quiet reg pin_min pin_max inp i st zs :
  nth_error (zynswitches st) i = Some zs ->
  zynswitch_quiet reg pin_min pin_max zs ->
  isr_zynswitch reg pin_min pin_max inp i st = Ok (st, Continue).
Proof.
  intros Hz Hq. unfold isr_zynswitch. rewrite Hz.
  destruct Hq as [Hq|[Hq|Hs]].
  - now rewrite Hq.
  - rewrite Hq. now destruct (negb (sw_enabled zs)).
  - destruct (negb (sw_enabled zs)); [reflexivity|].
    destruct (in_bank pin_min pin_max (sw_pin zs)); [|reflexivity].
    rewrite Hs. cbn [bind]. now rewrite Z.eqb_refl.
Qed.

(** A tick keeps the wiring of its encoder and leaves the others. *)
Lemma update_zyncoder_wiring k src now s s1 z :
  update_zyncoder k src now s = Ok s1 ->
  nth_error (zyncoders s) k = Some z ->
  (forall j, j <> k -> nth_error (zyncoders s1) j = nth_error (zyncoders s) j)
  /\ exists z1,
       nth_error (zyncoders s1) k = Some z1
       /\ enabled z1 = enabled z /\ pin_a z1 = pin_a z /\ pin_b z1 = pin_b z
       /\ pin_a_last_state z1 = pin_a_last_state z
       /\ pin_b_last_state z1 = pin_b_last_state z.
Proof.
  intros H Hz.
  assert (Hsame : s1 = s ->
            (forall j, j <> k -> nth_error (zyncoders s1) j = nth_error (zyncoders s) j)
            /\ exists z1,
                 nth_error (zyncoders s1) k = Some z1
                 /\ enabled z1 = enabled z /\ pin_a z1 = pin_a z
                 /\ pin_b z1 = pin_b z
                 /\ pin_a_last_state z1 = pin_a_last_state z
                 /\ pin_b_last_state z1 = pin_b_last_state z).
  { intros ->. split; [reflexivity|]. exists z. repeat split; auto. }
  destruct (Nat.lt_ge_cases k MAX_NUM_ZYNCODERS) as [Hk|Hk].
  - destruct (enabled z) eqn:Hen.
    + destruct (update_zyncoder_result s k z src now s1 Hk Hz Hen H)
        as (zd & up & down & z2 & send & Hdec & Hadv & Hst & Hz2).
      destruct (decode_zyncoder_frame _ _ _ _ _ Hdec) as (Hfr & _).
      pose proof (advance_zyncoder_frame _ _ _ _ _ _ Hadv) as Hfr2.
      split.
      * intros j Hj. subst s1.
        destruct send; [rewrite send_zyncoder_zyncoders|];
          unfold set_zyncoder; simpl; now apply nth_error_array_set_neq.
      * exists z2. split; [exact Hz2|].
        rewrite Hfr2, Hfr. simpl. repeat split; auto.
    + apply Hsame. unfold update_zyncoder in H.
      replace (MAX_NUM_ZYNCODERS <=? k)%nat with false in H
        by (symmetry; apply Nat.leb_gt; exact Hk).
      rewrite Hz, Hen in H. cbn [negb] in H. now injection H as <-.
  - apply Hsame. unfold update_zyncoder in H.
    replace (MAX_NUM_ZYNCODERS <=? k)%nat with true in H
      by (symmetry; apply Nat.leb_le; exact Hk).
    now injection H as <-.
Qed.

(** The encoder loop settles the encoder it is at and leaves the rest. *)
Lemma isr_zyncoder_step reg pin_min pin_max inp k s s' fl :
  isr_zyncoder reg pin_min pin_max inp k s = Ok (s', fl) ->
  fl = Continue
  /\ zynswitches s' = zynswitches s
  /\ (forall j, j <> k -> nth_error (zyncoders s') j = nth_error (zyncoders s) j)
  /\ (forall z', nth_error (zyncoders s') k = Some z' ->
        zyncoder_quiet reg pin_min pin_max z').
Proof.
  unfold isr_zyncoder. intros H.
  destruct (nth_error (zyncoders s) k) as [z|] eqn:Hz.
  - destruct (enabled z) eqn:Hen; cbn [negb] in H.
    + destruct (in_bank pin_min pin_max (pin_a z)
                || in_bank pin_min pin_max (pin_b z)) eqn:Hb.
      * destruct (bitRead_reg reg (uint8_t (pin_a z - pin_min)))
          as [sa|f] eqn:Ea; [|discriminate H].
        destruct (bitRead_reg reg (uint8_t (pin_b z - pin_min)))
          as [sb|f] eqn:Eb; [|discriminate H].
        cbn [bind] in H.
        destruct (negb (sa =? pin_a_last_state z)
                  || negb (sb =? pin_b_last_state z)) eqn:Ech.
        -- destruct (update_zyncoder k (from_args sa sb) (isr_now_zyncoder inp k) s)
             as [s1|f] eqn:Eu; [|discriminate H].
           cbn [bind] in H.
           destruct (update_zyncoder_wiring _ _ _ _ _ _ Eu Hz)
             as (Hother & z1 & Hz1 & _ & Fa & Fb & _).
           rewrite Hz1 in H. injection H as <- <-.
           split; [reflexivity|]. split.
           ++ simpl. apply (update_zyncoder_zynswitches _ _ _ _ _ Eu).
           ++ split.
              ** intros j Hj. unfold set_zyncoder; simpl.
                 rewrite nth_error_array_set_neq by congruence. now apply Hother.
              ** intros z' Hz'. unfold set_zyncoder in Hz'; simpl in Hz'.
                 rewrite nth_error_array_set_eq in Hz'
                   by (now apply nth_error_Some_lt with (x := z1)).
                 injection Hz' as <-. right; right. simpl.
                 rewrite Fa, Fb. auto.
        -- injection H as <- <-.
           apply orb_false_elim in Ech as [E1 E2].
           apply negb_false_iff in E1, E2. apply Z.eqb_eq in E1, E2.
           split; [reflexivity|]. split; [reflexivity|]. split; [reflexivity|].
           intros z' Hz'. rewrite Hz in Hz'. injection Hz' as <-.
           right; right. rewrite Ea, Eb. now subst sa sb.
      * injection H as <- <-.
        split; [reflexivity|]. split; [reflexivity|]. split; [reflexivity|].
        intros z' Hz'. rewrite Hz in Hz'. injection Hz' as <-.
        right; left. exact Hb.
    + injection H as <- <-.
      split; [reflexivity|]. split; [reflexivity|]. split; [reflexivity|].
      intros z' Hz'. rewrite Hz in Hz'. injection Hz' as <-.
      left. exact Hen.
  - injection H as <- <-.
    split; [reflexivity|]. split; [reflexivity|]. split; [reflexivity|].
    intros z' Hz'. rewrite Hz in Hz'. discriminate Hz'.
Qed.

(** What a switch edge does to the encoders: [value] and [subvalue] of
    those on its controller, nothing else. *)
Lemma send_zynswitch_midi_wiring zs status st j z' :
  nth_error (zyncoders (send_zynswitch_midi zs status st)) j = Some z' ->
  exists z, nth_error (zyncoders st) j = Some z
    /\ z' = with_subvalue (subvalue z') (with_value (value z') z).
Proof.
  unfold send_zynswitch_midi.
  assert (Hsame : nth_error (zyncoders st) j = Some z' ->
            exists z, nth_error (zyncoders st) j = Some z
              /\ z' = with_subvalue (subvalue z') (with_value (value z') z)).
  { intros H. exists z'. split; [exact H|]. destruct z'; reflexivity. }
  destruct (ev_type (sw_midi_event zs)); try exact Hsame.
  - cbn [zyncoders emit with_trace].
    match goal with
    | |- nth_error (zyncoders (midi_event_zyncoders ?c ?k ?v ?s)) j = _ -> _ =>
        destruct (midi_event_zyncoders_spec c k v s) as (_ & _ & Hnth)
    end.
    cbv zeta in Hnth. rewrite Hnth.
    destruct (j <? MAX_NUM_ZYNCODERS)%nat; [|exact Hsame].
    cbn [zyncoders emit with_trace].
    destruct (nth_error (zyncoders st) j) as [z|]; [|discriminate].
    cbn [option_map]. intros H. injection H as <-.
    exists z. split; [reflexivity|].
    unfold midi_event_zyncoder.
    destruct (enabled z && _ && _); destruct z; reflexivity.
  - destruct (status =? 0); exact Hsame.
  - destruct (status =? 0); exact Hsame.
Qed.

Lemma zyncoder_quiet_wiring reg pin_min pin_max z z' :
  z' = with_subvalue (subvalue z') (with_value (value z') z) ->
  zyncoder_quiet reg pin_min pin_max z -> zyncoder_quiet reg pin_min pin_max z'.
Proof. intros ->. exact (fun H => H). Qed.

Lemma edge_zynswitch_zyncoders release i zs status now st :
  zyncoders (fst (edge_zynswitch release i zs status now st))
  = zyncoders (send_zynswitch_midi (with_sw_status status zs) status
                 (set_zynswitch i (with_sw_status status zs) st)).
Proof.
  unfold edge_zynswitch.
  destruct (debounce_zynswitch release now (with_sw_status status zs));
    reflexivity.
Qed.

(** The switch loop settles the switch it is at, leaves the other
    switches, and changes no encoder's wiring. *)
Lemma isr_zynswitch_step reg pin_min pin_max inp k s s' fl :
  (k < MAX_NUM_ZYNSWITCHES)%nat ->
  isr_zynswitch reg pin_min pin_max inp k s = Ok (s', fl) ->
  fl = Continue
  /\ (forall j, j <> k -> nth_error (zynswitches s') j = nth_error (zynswitches s) j)
  /\ (forall zs', nth_error (zynswitches s') k = Some zs' ->
        zynswitch_quiet reg pin_min pin_max zs')
  /\ (forall j z', nth_error (zyncoders s') j = Some z' ->
        exists z, nth_error (zyncoders s) j = Some z
          /\ z' = with_subvalue (subvalue z') (with_value (value z') z)).
Proof.
  intros Hk. unfold isr_zynswitch. intros H.
  assert (Hkeep : forall j z', nth_error (zyncoders s) j = Some z' ->
            exists z, nth_error (zyncoders s) j = Some z
              /\ z' = with_subvalue (subvalue z') (with_value (value z') z)).
  { intros j z' Hj. exists z'. split; [exact Hj|]. destruct z'; reflexivity. }
  destruct (nth_error (zynswitches s) k) as [zs|] eqn:Hz.
  - destruct (sw_enabled zs) eqn:Hen; cbn [negb] in H.
    + destruct (in_bank pin_min pin_max (sw_pin zs)) eqn:Hb.
      * destruct (bitRead_reg reg (uint8_t (sw_pin zs - pin_min)))
          as [lv|f] eqn:Er; [|discriminate H].
        cbn [bind] in H.
        destruct (negb (lv =? sw_status zs)) eqn:Ech.
        -- injection H as <- <-.
           apply negb_true_iff in Ech. apply Z.eqb_neq in Ech.
           unfold update_zynswitch.
           replace (MAX_NUM_ZYNSWITCHES <=? k)%nat with false
             by (symmetry; apply Nat.leb_gt; exact Hk).
           rewrite Hz, Hen. cbn [negb read_status].
           replace (lv =? sw_status zs) with false
             by (symmetry; apply Z.eqb_neq; exact Ech).
           destruct (edge_zynswitch_zynswitches 1 k zs lv
                       (isr_now_zynswitch inp k) s) as [Hsw _].
           destruct (debounce_zynswitch_spec 1 (isr_now_zynswitch inp k) zs lv Ech)
             as ((Hst & _) & Hen' & Hpin & _).
           cbv zeta in Hst, Hen', Hpin.
           split; [reflexivity|]. split; [|split].
           ++ intros j Hj. rewrite Hsw. now apply nth_error_array_set_neq.
           ++ intros zs' Hz'. rewrite Hsw in Hz'.
              rewrite nth_error_array_set_eq in Hz'
                by (now apply nth_error_Some_lt with (x := zs)).
              injection Hz' as <-. right; right.
              rewrite Hpin, Hst. exact Er.
           ++ intros j z' Hj. rewrite edge_zynswitch_zyncoders in Hj.
              apply send_zynswitch_midi_wiring in Hj. exact Hj.
        -- injection H as <- <-.
           apply negb_false_iff in Ech. apply Z.eqb_eq in Ech.
           split; [reflexivity|]. split; [reflexivity|]. split; [|exact Hkeep].
           intros zs' Hz'. rewrite Hz in Hz'. injection Hz' as <-.
           right; right. rewrite Er. now subst lv.
      * injection H as <- <-.
        split; [reflexivity|]. split; [reflexivity|]. split; [|exact Hkeep].
        intros zs' Hz'. rewrite Hz in Hz'. injection Hz' as <-.
        right; left. exact Hb.
    + injection H as <- <-.
      split; [reflexivity|]. split; [reflexivity|]. split; [|exact Hkeep].
      intros zs' Hz'. rewrite Hz in Hz'. injection Hz' as <-.
      left. exact Hen.
  - injection H as <- <-.
    split; [reflexivity|]. split; [reflexivity|]. split; [|exact Hkeep].
    intros zs' Hz'. rewrite Hz in Hz'. discriminate Hz'.
Qed.

(** X27.  The interrupt routine is idempotent.  Run again on the same
    register value, whatever the clock says, [zyncoder_mcp23017_ISR]
    finds every encoder's last pin states and every switch's status
    equal to the register and does nothing: an interrupt without a pin
    change costs nothing and sends nothing. *)
Theorem zyncoder_mcp23017_ISR_idempotent base_pin bank inp inp' st st1 :
  isr_reg inp' = isr_reg inp ->
  zyncoder_mcp23017_ISR base_pin bank inp st = Ok st1 ->
  zyncoder_mcp23017_ISR base_pin bank inp' st1 = Ok st1.
Proof.
  intros Hreg H.
  rewrite zyncoder_mcp23017_ISR_loops in *. cbv zeta in *.
  rewrite Hreg.
  set (reg := uint8_t (isr_reg inp)) in *.
  set (pin_min := if bank =? 0 then uint8_t base_pin
                  else uint8_t (base_pin + 8)) in *.
  set (pin_max := uint8_t (pin_min + 7)) in *.
  destruct (for_loop_out (isr_zyncoder reg pin_min pin_max inp)
              0 MAX_NUM_ZYNCODERS st) as [[sA flA]|f] eqn:E1; [|discriminate H].
  cbn [bind fst] in H.
  destruct (for_loop_out (isr_zynswitch reg pin_min pin_max inp)
              0 MAX_NUM_ZYNSWITCHES sA) as [[sB flB]|f] eqn:E2; [|discriminate H].
  cbn [bind fst] in H. injection H as <-.
  assert (HA : forall j z, (j < MAX_NUM_ZYNCODERS)%nat ->
             nth_error (zyncoders sA) j = Some z ->
             zyncoder_quiet reg pin_min pin_max z).
  { refine (for_loop_out_all
              (fun k s => forall j z, (j < k)%nat ->
                 nth_error (zyncoders s) j = Some z ->
                 zyncoder_quiet reg pin_min pin_max z)
              _ MAX_NUM_ZYNCODERS 0%nat st sA flA _ _ E1).
    - intros j z Hj. lia.
    - intros k s s' fl _ HP Hb.
      destruct (isr_zyncoder_step _ _ _ _ _ _ _ _ Hb) as (Hfl & _ & Hother & Hq).
      split; [exact Hfl|].
      intros j z Hj Hz. destruct (Nat.eq_dec j k) as [->|Hne].
      + now apply Hq.
      + rewrite Hother in Hz by exact Hne. apply (HP j z); [lia|exact Hz]. }
  assert (HB : (forall j zs, (j < MAX_NUM_ZYNSWITCHES)%nat ->
                  nth_error (zynswitches sB) j = Some zs ->
                  zynswitch_quiet reg pin_min pin_max zs)
               /\ (forall j z, (j < MAX_NUM_ZYNCODERS)%nat ->
                     nth_error (zyncoders sB) j = Some z ->
                     zyncoder_quiet reg pin_min pin_max z)).
  { refine (for_loop_out_all
              (fun k s =>
                 (forall j zs, (j < k)%nat ->
                    nth_error (zynswitches s) j = Some zs ->
                    zynswitch_quiet reg pin_min pin_max zs)
                 /\ (forall j z, (j < MAX_NUM_ZYNCODERS)%nat ->
                       nth_error (zyncoders s) j = Some z ->
                       zyncoder_quiet reg pin_min pin_max z))
              _ MAX_NUM_ZYNSWITCHES 0%nat sA sB flB _ _ E2).
    - split; [intros j zs Hj; lia|exact HA].
    - intros k s s' fl Hk [HPs HPz] Hb.
      assert (Hk' : (k < MAX_NUM_ZYNSWITCHES)%nat) by lia.
      destruct (isr_zynswitch_step _ _ _ _ _ _ _ _ Hk' Hb)
        as (Hfl & Hother & Hq & Hw).
      split; [exact Hfl|]. split.
      + intros j zs Hj Hz. destruct (Nat.eq_dec j k) as [->|Hne].
        * now apply Hq.
        * rewrite Hother in Hz by exact Hne. apply (HPs j zs); [lia|exact Hz].
      + intros j z' Hj Hz'. destruct (Hw j z' Hz') as (z & Hz & Hfr).
        apply (zyncoder_quiet_wiring _ _ _ z z' Hfr). now apply (HPz j). }
  destruct HB as [HBs HBz].
  rewrite for_loop_out_idle_range.
  - cbn [bind fst]. rewrite for_loop_out_idle_range; [reflexivity|].
    intros k Hk.
    destruct (nth_error (zynswitches sB) k) as [zs|] eqn:Hz.
    + apply (isr_zynswitch_quiet _ _ _ _ _ _ zs Hz). apply (HBs k); [lia|exact Hz].
    + unfold isr_zynswitch. now rewrite Hz.
  - intros k Hk.
    destruct (nth_error (zyncoders sB) k) as [z|] eqn:Hz.
    + apply (isr_zyncoder_quiet _ _ _ _ _ _ z Hz). apply (HBz k); [lia|exact Hz].
    + unfold isr_zyncoder. now rewrite Hz.
Qed.

(** ** What a bulk scan reads *)








(** X28.  A pending duration has passed the filter.  In every state the
    library reaches, through any of its operations on any build, the
    [dtus] of every switch is 0 or at least 1000: a release that comes
    less than 1000 us after the press never leaves a duration to
    report. *)
Theorem pending_duration_passed_filter st :
  lib_reachable st ->
  forall i zs, nth_error (zynswitches st) i = Some zs ->
    sw_dtus zs = 0 \/ 1000 <= sw_dtus zs.
Proof.
  intros Hr i zs Hz.
  apply (lib_reachable_switches_inv st Hr zs). apply (nth_error_In _ _ Hz).
Qed.


End Zyncoder.

(** * Instances

    The statements above at [MAX_NUM_ZYNCODERS = 1], a capacity of one or
    two switches and [ZYNCODER_TICKS_PER_RETENT = 4], on the example
    records. *)

(** C1 as stated fails, in two ways.
    - Encoder 0 is set up on the UART build with value 0, bound 10,
      step 1 on channel 0, controller 1; [midi_event_zyncoders 0 1 100]
      then leaves it with [value = 100].
    - On the MCP23017 build the setup calls alone do it.  Encoder 0 is
      set up with bound 10 on channel 0, controller 1; switch 0 is set up
      on pin 100 while the pin reads 1, and bound to the control change
      (0, 1, 127); encoder 0 is set up again, on other pins, while pin
      100 reads 0.  The second [setup_zyncoder] runs the interrupt
      routine, which sees the edge of the switch and hands 127 to
      [midi_event_zyncoders]: [value = 127]. *)
Lemma bound_invariant_counterexample :
  ~ bound_invariant_claim 1 1 4 512 (fun _ => 0) (fun _ => 0) UART_ENCODERS
  /\ ~ bound_invariant_claim 1 1 4 512 (fun _ => 0) (fun _ => 0)
         MCP23017_ENCODERS.
Proof.
  assert (Hu : forall x, 0 <= x < 256 -> is_uint x)
    by (unfold is_uint; intros x Hx; lia).
  split.
  - intros H.
    assert (Hr : reachable 1 1 4 512 (fun _ => 0) (fun _ => 0) any_midi UART_ENCODERS
                   (midi_event_zyncoders 1 4 0 1 100
                      (example_state (example_encoder 1 10 0 0) [disabled_switch]))
                   (configure (fun _ => 0) 0 10)).
    { apply reach_midi_event_zyncoders.
      - apply (reach_setup_zyncoder 1 1 4 512 (fun _ => 0) (fun _ => 0) any_midi
                 UART_ENCODERS (init_zyncoder 1 1 4) (fun _ => 0)
                 0%nat 1 2 0 1 None 0 10 1 no_hw (Some 0%nat)).
        + apply reach_init_zyncoder.
        + unfold is_uint; lia.
        + unfold is_uint; lia.
        + unfold is_uint; lia.
        + reflexivity.
        + intros _ zs _ _. exact I.
      - unfold is_uint8; lia.
      - exact I. }
    specialize (H _ _ Hr 0%nat (example_encoder 1 10 400 100) eq_refl eq_refl).
    unfold configure in H. simpl in H. lia.
  - intros H.
    pose proof (reach_init_zyncoder 1 1 4 512 (fun _ => 0) (fun _ => 0) any_midi
                  MCP23017_ENCODERS) as R0.
    destruct (setup_zyncoder 1 1 4 512 (fun _ => 0) (fun _ => 0)
                MCP23017_ENCODERS 0 1 2 0 1 None 5 10 1 (example_hw 0 1000)
                (init_zyncoder 1 1 4)) as [[r1 st1]|f] eqn:E1;
      [|vm_compute in E1; discriminate E1].
    pose proof E1 as Q1. vm_compute in Q1. injection Q1 as <- <-.
    pose proof (reach_setup_zyncoder _ _ _ _ _ _ any_midi _ _ _ _ _ _ _ _ _ _ _ _ _ _ _
                  R0 (Hu 5 ltac:(lia)) (Hu 10 ltac:(lia)) (Hu 1 ltac:(lia)) E1
                  (fun _ _ _ _ => I)) as R1.
    clear E1 R0.
    match type of R1 with reachable _ _ _ _ _ _ _ _ ?s _ => set (st1 := s) in * end.
    destruct (setup_zynswitch 1 1 4 MCP23017_ENCODERS 0 100 (example_hw 1 2000)
                st1) as [[r2 st2]|f] eqn:E2;
      [|vm_compute in E2; discriminate E2].
    pose proof E2 as Q2. vm_compute in Q2. injection Q2 as <- <-.
    pose proof (reach_setup_zynswitch _ _ _ _ _ _ any_midi _ _ _ _ _ _ _ _
                  R1 E2) as R2.
    clear E2 R1.
    match type of R2 with reachable _ _ _ _ _ _ _ _ ?s _ => set (st2 := s) in * end.
    pose proof (reach_setup_zynswitch_midi _ _ _ _ _ _ any_midi _ _ _
                  0%nat CTRL_CHANGE 0 1 127 R2
                  ltac:(unfold is_uint8; lia) (fun _ _ _ _ => I)) as R3.
    clear R2.
    destruct (setup_zyncoder 1 1 4 512 (fun _ => 0) (fun _ => 0)
                MCP23017_ENCODERS 0 3 4 0 1 None 5 10 1 (example_hw 0 9000)
                (snd (setup_zynswitch_midi 1 0 CTRL_CHANGE 0 1 127 st2)))
      as [[r4 st4]|f] eqn:E4;
      [|vm_compute in E4; discriminate E4].
    pose proof E4 as Q4. vm_compute in Q4. injection Q4 as <- <-.
    pose proof (reach_setup_zyncoder _ _ _ _ _ _ any_midi _ _ _ _ _ _ _ _ _ _ _ _ _ _ _
                  R3 (Hu 5 ltac:(lia)) (Hu 10 ltac:(lia)) (Hu 1 ltac:(lia)) E4
                  (fun _ _ _ _ => I)) as R4.
    clear E4 R3.
    pose proof (H _ _ R4 0%nat _ eq_refl eq_refl) as Hb.
    unfold configure in Hb. simpl in Hb. lia.
Qed.

(** C2 as stated fails.  Encoder 0, set up with bound 10 and step 1, is
    left at value 100 by [midi_event_zyncoders 0 1 100].  The pins (0, 0)
    read with [last_encoded = 0] give [sum = 0], in neither set, yet the
    tick cuts [value] back to 10 and sends it. *)
Lemma quadrature_noop_counterexample : ~ quadrature_noop_claim 1 4.
Proof.
  intros H.
  specialize (H (midi_event_zyncoders 1 4 0 1 100
                   (example_state (example_encoder 1 10 0 0) [disabled_switch]))
                0%nat (example_encoder 1 10 400 100) 0 0 2000
                (emit (internal_send_ccontrol_change 0 1 10)
                   (example_state (example_encoder 1 10 400 10)
                      [disabled_switch]))).
  assert (Hne : emit (internal_send_ccontrol_change 0 1 10)
                  (example_state (example_encoder 1 10 400 10) [disabled_switch])
                <> set_zyncoder 0
                     (with_last_encoded (quadrature_encoded 0 0)
                        (example_encoder 1 10 400 100))
                     (midi_event_zyncoders 1 4 0 1 100
                        (example_state (example_encoder 1 10 0 0)
                           [disabled_switch]))).
  { vm_compute. discriminate. }
  apply Hne. apply H.
  - lia.
  - reflexivity.
  - reflexivity.
  - vm_compute. intros [E|[E|[E|[E|[]]]]]; discriminate E.
  - vm_compute. intros [E|[E|[E|[E|[]]]]]; discriminate E.
  - reflexivity.
Qed.

(** At [i = MAX_NUM_ZYNCODERS] the guard of [setup_zyncoder] lets the
    call through to the array. *)
Lemma setup_zyncoder_capacity_index :
  setup_zyncoder 1 1 4 512 (fun _ => 0) (fun _ => 0) UART_ENCODERS
    1%nat 1 2 0 1 None 0 10 1 no_hw
    (example_state example_fixed_encoder [disabled_switch])
  = Fault OutOfBounds.
Proof. reflexivity. Qed.

(** C3 as stated fails: [get_value_zyncoder] at index 1 of one encoder
    returns 0 and logs nothing (and [setup_zyncoder] at that index does
    not take the guarded path, see [setup_zyncoder_capacity_index]). *)
Lemma out_of_bounds_counterexample :
  ~ out_of_bounds_claim 1 1 4 512 (fun _ => 0) (fun _ => 0).
Proof.
  intros H.
  destruct (H (example_state example_fixed_encoder [disabled_switch]))
    as (_ & _ & _ & Hget & _).
  - split; reflexivity.
  - destruct (Hget 1%nat (Nat.le_refl 1)) as (msg & Hmsg).
    vm_compute in Hmsg. discriminate Hmsg.
Qed.

(** C4 as stated fails.  An encoder in fixed-step mode (step 1, value 5)
    ticks Up 500 us after its last time stamp: [value] becomes 6. *)
Lemma debounce_counterexample : ~ debounce_claim 1 4.
Proof.
  intros H.
  destruct (H (example_state example_fixed_encoder [disabled_switch]) 0%nat
              example_fixed_encoder (from_args 1 0) 500
              (emit (internal_send_ccontrol_change 0 1 6)
                 (example_state
                    (with_last_encoded 2 (with_value 6 example_fixed_encoder))
                    [disabled_switch])))
    as (z' & Hz' & Hval & _).
  - lia.
  - reflexivity.
  - reflexivity.
  - vm_compute. reflexivity.
  - reflexivity.
  - vm_compute in Hz'. inversion Hz'; subst z'. vm_compute in Hval. discriminate.
Qed.

(** C5 as stated fails.  With step 3 and bound 10 from value 0, Up ticks
    stop at 9: no run of them ends at 10. *)
Lemma saturation_counterexample : ~ saturation_claim 4.
Proof.
  intros H.
  destruct (H example_coarse_encoder) as [(n & Hn) _].
  - unfold zyncoder_ok, is_uint; simpl; lia.
  - simpl; lia.
  - vm_compute. discriminate.
  - destruct (Hn (repeat 0 n)) as (z' & Ht & Hv).
    + rewrite repeat_length. lia.
    + apply all_accepted_fixed. simpl. lia.
    + destruct (ticks_up_fixed 4 (repeat 0 n) example_coarse_encoder)
        as (z1 & Ht1 & Hv1).
      * unfold zyncoder_ok, is_uint; simpl; lia.
      * simpl; lia.
      * simpl; lia.
      * rewrite Ht in Ht1. inversion Ht1; subst z1.
        rewrite Hv in Hv1.
        change (configured_max 4 example_coarse_encoder) with 10 in Hv1.
        change (value example_coarse_encoder) with 0 in Hv1.
        change (step example_coarse_encoder) with 3 in Hv1.
        change (max_value example_coarse_encoder) with 10 in Hv1.
        change ((10 - 0) / 3) with 3 in Hv1. lia.
Qed.

(** C8 at the failing input.  On the UART build switches 0 and 1 are set
    up on payload bits 1 and 2.  The payload 0x06, 0x00 at 1000 us presses
    both.  The payload 0x00, 0x00 at 1500 us delivers level 0 for both:
    [update_zynswitches] stores it for switch 0, finds that release
    spurious (500 us) and returns from the whole scan, so switch 1 keeps
    [status = 1] and its [tsus] although the payload it was handed holds
    level 0 for it. *)
Theorem bulk_scan_misses_observed_level :
  exists st1 st2 st3 st4,
    setup_zynswitch 1 2 4 UART_ENCODERS 0 1 no_hw (init_zyncoder 1 2 4)
    = Ok (Some 0%nat, st1)
    /\ setup_zynswitch 1 2 4 UART_ENCODERS 1 2 no_hw st1 = Ok (Some 1%nat, st2)
    /\ update_zynswitches 1 2 4 [6; 0] 1000 st2 = Ok st3
    /\ map sw_status (zynswitches st3) = [1; 1]
    /\ update_zynswitches 1 2 4 [0; 0] 1500 st3 = Ok st4
    /\ payload_bit [0; 0] 1 = Ok 0 /\ payload_bit [0; 0] 2 = Ok 0
    /\ map sw_status (zynswitches st4) = [0; 1]
    /\ map sw_tsus (zynswitches st4) = [0; 1000]
    /\ map sw_dtus (zynswitches st4) = [0; 0].
Proof.
  do 4 eexists.
  split; [reflexivity|]. split; [reflexivity|]. split; [reflexivity|].
  split; [reflexivity|]. split; [reflexivity|].
  repeat split; reflexivity.
Qed.

(** C9 as stated fails.  The ring holds 0xEA, 0xFF, 0x00 and 0xFB
    arrives: the frame is rejected, and the ring still holds its four
    bytes afterwards. *)
Lemma corrupt_frame_counterexample : ~ corrupt_frame_claim 1 1 4.
Proof.
  intros H.
  destruct (H example_ring_state 0xFB (fun _ => 0) 0 [0; 0])
    as (payload' & st' & Hrun & _ & _ & (Hflushed & _) & _).
  - unfold ring_inv. simpl. change BUFFER_SIZE_BYTES with 4.
    repeat split; try lia; reflexivity.
  - unfold corrupt_frame. vm_compute.
    repeat split; try reflexivity. left. right. right. reflexivity.
  - vm_compute in Hrun. inversion Hrun; subst st'.
    vm_compute in Hflushed. discriminate.
Qed.

(** The bounds on [ZYNCODER_TICKS_PER_RETENT] at 4. *)
Lemma four_ticks_positive : 0 < 4.
Proof. reflexivity. Defined.

Lemma four_ticks_int : 10000 * 4 < 2 ^ 31.
Proof. reflexivity. Defined.

(** C1 at the example, on the MCP23017 build: encoder 0 is set up with
    bound 10 on channel 0, controller 1; switch 0 is set up on pin 100
    while the pin reads 1 and bound to the control change (0, 1, 7);
    encoder 0 is set up again while the pin reads 0.  The edge of the
    switch leaves the encoder at [value = 7], within its bound. *)
Lemma value_bounded_under_bounded_midi_witness :
  exists st1 st2 st4 z,
    setup_zyncoder 1 1 4 512 (fun _ => 0) (fun _ => 0) MCP23017_ENCODERS
      0 1 2 0 1 None 5 10 1 (example_hw 0 1000) (init_zyncoder 1 1 4)
    = Ok (Some 0%nat, st1)
    /\ setup_zynswitch 1 1 4 MCP23017_ENCODERS 0 100 (example_hw 1 2000) st1
       = Ok (Some 0%nat, st2)
    /\ setup_zyncoder 1 1 4 512 (fun _ => 0) (fun _ => 0) MCP23017_ENCODERS
         0 3 4 0 1 None 5 10 1 (example_hw 0 9000)
         (snd (setup_zynswitch_midi 1 0 CTRL_CHANGE 0 1 7 st2))
       = Ok (Some 0%nat, st4)
    /\ nth_error (zyncoders st4) 0 = Some z /\ value z = 7
    /\ value_in_bounds st4 (configure (configure (fun _ => 0) 0 10) 0 10).
Proof.
  assert (Hu : forall x, 0 <= x < 256 -> is_uint x)
    by (unfold is_uint; intros x Hx; lia).
  pose proof (reach_init_zyncoder 1 1 4 512 (fun _ => 0) (fun _ => 0)
                bounded_midi MCP23017_ENCODERS) as R0.
  destruct (setup_zyncoder 1 1 4 512 (fun _ => 0) (fun _ => 0)
              MCP23017_ENCODERS 0 1 2 0 1 None 5 10 1 (example_hw 0 1000)
              (init_zyncoder 1 1 4)) as [[r1 st1]|f] eqn:E1;
    [|vm_compute in E1; discriminate E1].
  pose proof E1 as Q1. vm_compute in Q1. injection Q1 as <- <-.
  pose proof (reach_setup_zyncoder _ _ _ _ _ _ bounded_midi _ _ _ _ _ _ _ _ _
                _ _ _ _ _ _
                R0 (Hu 5 ltac:(lia)) (Hu 10 ltac:(lia)) (Hu 1 ltac:(lia)) E1)
    as R1.
  match type of R1 with _ -> reachable _ _ _ _ _ _ _ _ ?s _ => set (st1 := s) in * end.
  specialize (R1 ltac:(intros _ zs [<-|[]] Hty; discriminate Hty)).
  clear R0.
  destruct (setup_zynswitch 1 1 4 MCP23017_ENCODERS 0 100 (example_hw 1 2000)
              st1) as [[r2 st2]|f] eqn:E2;
    [|vm_compute in E2; discriminate E2].
  pose proof E2 as Q2. vm_compute in Q2. injection Q2 as <- <-.
  pose proof (reach_setup_zynswitch _ _ _ _ _ _ bounded_midi _ _ _ _ _ _ _ _
                R1 E2) as R2.
  match type of R2 with reachable _ _ _ _ _ _ _ _ ?s _ => set (st2 := s) in * end.
  clear R1.
  pose proof (reach_setup_zynswitch_midi _ _ _ _ _ _ bounded_midi _ _ _
                0%nat CTRL_CHANGE 0 1 7 R2 ltac:(unfold is_uint8; lia)) as R3.
  assert (Hguard : forall st,
            List.length (zyncoders st) = 1%nat ->
            (forall zs, In zs (zynswitches st) ->
               ev_val (sw_midi_event zs) <= 7) ->
            switches_guarded bounded_midi
              (configure (configure (fun _ => 0) 0 10) 0 10) st
            /\ switches_guarded bounded_midi (configure (fun _ => 0) 0 10) st).
  { intros st Hlen Hval.
    split; intros zs Hin _ j z Hz _ _ _; specialize (Hval zs Hin);
      apply nth_error_Some_lt in Hz; rewrite Hlen in Hz;
      (destruct j as [|j]; [|lia]); unfold configure; simpl; lia. }
  specialize (R3 ltac:(intros _; apply Hguard;
                       [reflexivity
                       |intros zs [<-|[]]; simpl; lia])).
  clear R2.
  destruct (setup_zyncoder 1 1 4 512 (fun _ => 0) (fun _ => 0)
              MCP23017_ENCODERS 0 3 4 0 1 None 5 10 1 (example_hw 0 9000)
              (snd (setup_zynswitch_midi 1 0 CTRL_CHANGE 0 1 7 st2)))
    as [[r4 st4]|f] eqn:E4;
    [|vm_compute in E4; discriminate E4].
  pose proof E4 as Q4. vm_compute in Q4. injection Q4 as <- <-.
  pose proof (reach_setup_zyncoder _ _ _ _ _ _ bounded_midi _ _ _ _ _ _ _ _ _
                _ _ _ _ _ _
                R3 (Hu 5 ltac:(lia)) (Hu 10 ltac:(lia)) (Hu 1 ltac:(lia)) E4)
    as R4.
  match type of R4 with _ -> reachable _ _ _ _ _ _ _ _ ?s _ => set (st4 := s) in * end.
  specialize (R4 ltac:(intros _; apply Hguard;
                       [reflexivity
                       |intros zs [<-|[]]; simpl; lia])).
  clear R3.
  exists st1, st2, st4. eexists.
  split; [exact E1|]. split; [exact E2|]. split; [exact E4|].
  split; [reflexivity|]. split; [reflexivity|].
  exact (value_bounded_under_bounded_midi 1 1 4 512 (fun _ => 0) (fun _ => 0)
           four_ticks_positive four_ticks_int MCP23017_ENCODERS _ _ R4).
Defined.

(** C2 at the example: the fixed-step encoder at value 5 with
    [last_encoded = 0] reads the pins (1, 0): [sum] is 0b0010, the tick
    is Up and [value] becomes 6. *)
Lemma quadrature_classification_witness :
  exists st' z',
    update_zyncoder 1 4 0 (from_args 1 0) 2000
      (example_state example_fixed_encoder [disabled_switch]) = Ok st'
    /\ nth_error (zyncoders st') 0 = Some z'
    /\ last_encoded z' = 2 /\ value z' = 6.
Proof.
  destruct (update_zyncoder 1 4 0 (from_args 1 0) 2000
              (example_state example_fixed_encoder [disabled_switch]))
    as [st'|f] eqn:E; [|vm_compute in E; discriminate E].
  assert (Hok : zyncoder_ok example_fixed_encoder)
    by (unfold zyncoder_ok, is_uint; simpl; lia).
  destruct (proj1 (quadrature_classification 1 4 four_ticks_positive
                     four_ticks_int)
              (example_state example_fixed_encoder [disabled_switch]) 0%nat
              example_fixed_encoder (from_args 1 0) 1 0 2000 st'
              ltac:(lia) eq_refl eq_refl Hok eq_refl E)
    as (z' & send & Hz' & _ & _ & Hle & Hfixed & _).
  destruct (Hfixed ltac:(simpl; lia)) as (Hup & _).
  exists st', z'. split; [reflexivity|]. split; [exact Hz'|].
  split; [exact Hle|].
  apply Hup. right. right. left. reflexivity.
Defined.

(** C3 at the example: [setup_zynswitch] at index 1 of one switch. *)
Lemma out_of_bounds_soft_failure_witness :
  (1 <= 1)%nat
  /\ setup_zynswitch 1 1 4 MCP23008_ENCODERS 1 7 no_hw
       (example_state example_fixed_encoder [disabled_switch])
     = Ok (None,
           emit (printf MaxZynswitchesExceeded)
             (example_state example_fixed_encoder [disabled_switch])).
Proof.
  split; [lia|].
  apply (proj1 (proj2 (out_of_bounds_soft_failure 1 1 4 512 (fun _ => 0)
                         (fun _ => 0)
                         (example_state example_fixed_encoder [disabled_switch])))).
  lia.
Defined.

(** C4 at the example: the velocity-mode encoder ticks 500 us after its
    last time stamp; only [last_encoded] moves. *)
Lemma debounce_velocity_mode_only_witness :
  uint (500 - tsus example_velocity_encoder) < 1000
  /\ update_zyncoder 1 4 0 (from_args 1 0) 500
       (example_state example_velocity_encoder [disabled_switch])
     = Ok (set_zyncoder 0 (with_last_encoded 2 example_velocity_encoder)
             (example_state example_velocity_encoder [disabled_switch])).
Proof.
  split; [reflexivity|].
  apply (proj1 (debounce_velocity_mode_only 1 4
                  (example_state example_velocity_encoder [disabled_switch])
                  0%nat example_velocity_encoder (from_args 1 0) 500
                  ltac:(lia) eq_refl eq_refl)
           eq_refl eq_refl
           (with_last_encoded 2 example_velocity_encoder) 1 0 eq_refl).
Defined.

(** C5 at the examples: step 3 towards the bound 10 ends at 9 from
    value 0; from value 101, above the bound, Up ticks end at 10 and Down
    ticks at 1. *)
Lemma saturation_by_mode_witness :
  (zyncoder_ok example_coarse_encoder
   /\ drives_to 4 1 0 (fun z' => value z' = 9) example_coarse_encoder)
  /\ (zyncoder_ok (example_encoder 3 10 0 101)
      /\ drives_to 4 1 0 (fun z' => value z' = 10) (example_encoder 3 10 0 101)
      /\ drives_to 4 0 1 (fun z' => value z' = 1) (example_encoder 3 10 0 101)).
Proof.
  assert (Hok : zyncoder_ok example_coarse_encoder)
    by (unfold zyncoder_ok, is_uint; simpl; lia).
  assert (Hok' : zyncoder_ok (example_encoder 3 10 0 101))
    by (unfold zyncoder_ok, is_uint; simpl; lia).
  split; split; [exact Hok | | exact Hok' | ].
  - apply (proj2 (saturation_by_mode 4 four_ticks_positive four_ticks_int
                    example_coarse_encoder Hok)).
    simpl; lia.
  - assert (Hstep : step (example_encoder 3 10 0 101) <> 0) by (simpl; lia).
    destruct (proj2 (saturation_by_mode 4 four_ticks_positive four_ticks_int
                       (example_encoder 3 10 0 101) Hok') Hstep)
      as (Hup & Hdown & _).
    split; [exact Hup | exact Hdown].
Defined.

(** C6 at the example: the value 64 sent to encoder 0. *)
Lemma midi_event_zyncoders_round_trip_witness :
  is_uint8 64
  /\ get_value_zyncoder 1 0
       (midi_event_zyncoders 1 4 0 1 64
          (example_state example_fixed_encoder [disabled_switch]))
     = (64, midi_event_zyncoders 1 4 0 1 64
              (example_state example_fixed_encoder [disabled_switch])).
Proof.
  assert (H8 : is_uint8 64) by (unfold is_uint8; lia).
  split; [exact H8|].
  apply (proj1 (midi_event_zyncoders_round_trip 1 4 four_ticks_positive
                  four_ticks_int
                  (example_state example_fixed_encoder [disabled_switch])
                  0%nat example_fixed_encoder 0 1 64
                  ltac:(lia) eq_refl eq_refl eq_refl eq_refl H8)).
Defined.

(** C7 at the example. *)
Lemma midi_event_zyncoders_frame_witness :
  trace (midi_event_zyncoders 1 4 0 1 64
           (example_state example_fixed_encoder [disabled_switch])) = [].
Proof.
  apply (proj1 (midi_event_zyncoders_frame 1 4 0 1 64
                  (example_state example_fixed_encoder [disabled_switch]))).
Defined.

(** C9 at the example: 0xFB arrives after 0xEA, 0xFF, 0x00. *)
Lemma corrupt_frame_is_logged_witness :
  ring_inv example_ring_state
  /\ corrupt_frame 0xFB example_ring_state
  /\ exists payload',
       uart_thread_iteration 1 1 4 0xFB (fun _ => 0) 0 [0; 0] example_ring_state
       = Ok (payload',
             emit (printf CorruptUartDataBlock)
               (insertInBuffer (uint8_t 0xFB) example_ring_state)).
Proof.
  assert (Hinv : ring_inv example_ring_state).
  { unfold ring_inv. simpl. change BUFFER_SIZE_BYTES with 4.
    repeat split; try lia; reflexivity. }
  assert (Hc : corrupt_frame 0xFB example_ring_state).
  { unfold corrupt_frame. vm_compute.
    repeat split; try reflexivity. left. right. right. reflexivity. }
  split; [exact Hinv|]. split; [exact Hc|].
  apply (proj1 (corrupt_frame_is_logged 1 1 4 example_ring_state 0xFB
                  (fun _ => 0) 0 [0; 0] Hinv Hc)).
Defined.

(** C10 at the example: both UART switches are released in the payload
    500 us after the press; the scan stops at switch 0. *)
Lemma bulk_scan_returns_at_spurious_release_witness :
  spurious_release 0 0 1500 (example_switch 0 1 1000)
  /\ update_zynswitches 1 2 4 [0; 0] 1500
       (example_state example_fixed_encoder example_uart_switches)
     = update_zynswitches_upto 1 4 1 [0; 0] 1500
         (example_state example_fixed_encoder example_uart_switches).
Proof.
  assert (Hsp : spurious_release 0 0 1500 (example_switch 0 1 1000)).
  { unfold spurious_release. simpl.
    repeat split; try reflexivity; try lia. }
  split; [exact Hsp|].
  apply (proj1 (proj1 (bulk_scan_returns_at_spurious_release 1 2 4
                         (example_state example_fixed_encoder example_uart_switches)
                         0%nat (example_switch 0 1 1000) 1500
                         ltac:(lia) eq_refl)
                  [0; 0] eq_refl Hsp)).
Defined.

(** * Instances of the further properties *)

Lemma example_ring_inv : ring_inv example_ring_state.
Proof.
  unfold ring_inv. simpl. change BUFFER_SIZE_BYTES with 4.
  repeat split; try reflexivity; try lia.
Defined.

Lemma example_full_ring_inv : ring_inv example_full_ring.
Proof.
  unfold ring_inv. simpl. change BUFFER_SIZE_BYTES with 4.
  repeat split; try reflexivity; try lia.
Defined.

Lemma example_state_flushed z sws : ring_flushed (example_state z sws).
Proof. repeat split. Defined.

(** X1 at the example: a byte into the flushed ring. *)
Lemma uart_ring_stays_in_bounds_witness :
  ring_in_bounds (insertInBuffer (uint8_t 0xEA) (flushBuffer example_ring_state)).
Proof.
  apply uart_ring_stays_in_bounds.
  apply ring_insertInBuffer. apply ring_flushBuffer.
Defined.

(** X2 at the example: 0xFB after the three bytes of the example ring. *)
Lemma insertInBuffer_fifo_witness :
  elementsInBuffer example_ring_state < BUFFER_SIZE_BYTES
  /\ ring_nth (insertInBuffer 0xFB example_ring_state)
       (elementsInBuffer example_ring_state) = 0xFB.
Proof.
  assert (Hlt : elementsInBuffer example_ring_state < BUFFER_SIZE_BYTES)
    by reflexivity.
  split; [exact Hlt|].
  exact (proj2 (proj2 (proj1 (insertInBuffer_fifo 0xFB example_ring_state
                                example_ring_inv) Hlt))).
Defined.

(** X3 at the example: the payload of the frame 0xEA, 1, 2, 0xFB. *)
Lemma getBufferData_payload_witness :
  snd (getBufferData [0; 0] example_full_ring) = [1; 2].
Proof.
  apply (proj1 (proj2 (getBufferData_payload [0; 0] example_full_ring
                         example_full_ring_inv eq_refl eq_refl))).
  reflexivity.
Defined.

(** X4 at the example: the first byte of a frame only goes into the
    ring. *)
Lemma uart_thread_iteration_cases_witness :
  uart_thread_iteration 1 1 4 0xEA (fun _ => 0) 0 [0; 0]
    (flushBuffer example_ring_state)
  = Ok ([0; 0], insertInBuffer (uint8_t 0xEA) (flushBuffer example_ring_state)).
Proof.
  destruct (uart_thread_iteration_cases 1 1 4 0xEA (fun _ => 0) 0 [0; 0]
              (flushBuffer example_ring_state)
              (flushBuffer_ring_inv example_ring_state) eq_refl)
    as [(_ & H)|[(E & _)|[(E & _)|(E & _)]]];
    [exact H|discriminate E|discriminate E|discriminate E].
Defined.

(** X5 at the example: the frame 0xEA, 1, 2, 0xFB. *)
Lemma uart_frame_delivered_witness :
  uart_thread_loop 1 1 4
    [example_rx 0xEA; example_rx 1; example_rx 2; example_rx 0xFB] [0; 0]
    (example_state example_fixed_encoder [disabled_switch])
  = (st' <- deliver_payload 1 1 4 [1; 2] (fun _ => 5000) 5000
              (flushBuffer (example_state example_fixed_encoder [disabled_switch])) ;;
     Ok ([1; 2], st')).
Proof.
  apply (uart_frame_delivered 1 1 4 (example_rx 0xEA) (example_rx 1)
           (example_rx 2) (example_rx 0xFB) [0; 0]
           (example_state example_fixed_encoder [disabled_switch])).
  - apply example_state_flushed.
  - reflexivity.
  - reflexivity.
  - intros [H|[H|H]]; discriminate H.
  - intros [H|[H|H]]; discriminate H.
  - reflexivity.
Defined.

(** X6 at the example: the block 0, 0xEA, 1, 2. *)
Lemma uart_misframed_block_dropped_witness :
  uart_thread_loop 1 1 4
    [example_rx 0; example_rx 0xEA; example_rx 1; example_rx 2] [0; 0]
    (example_state example_fixed_encoder [disabled_switch])
  = Ok ([0; 0],
        emit serialFlush
          (flushBuffer (example_state example_fixed_encoder [disabled_switch]))).
Proof.
  apply (uart_misframed_block_dropped 1 1 4 (example_rx 0) (example_rx 0xEA)
           (example_rx 1) (example_rx 2) [0; 0]
           (example_state example_fixed_encoder [disabled_switch])).
  - apply example_state_flushed.
  - reflexivity.
  - intros [H _]. discriminate H.
Defined.

(** X7 at the example: 50 set on the encoder with bound 10. *)
Lemma set_value_zyncoder_round_trip_witness :
  fst (get_value_zyncoder 1 0
         (set_value_zyncoder 1 4 0 50 0
            (example_state example_fixed_encoder [disabled_switch])))
  = Z.min 50 (configured_max 4 example_fixed_encoder).
Proof.
  apply (proj2 (set_value_zyncoder_round_trip 1 4 four_ticks_positive
                  (example_state example_fixed_encoder [disabled_switch])
                  0%nat example_fixed_encoder 50 0 ltac:(lia) eq_refl)).
  - reflexivity.
  - lia.
  - intros H. discriminate H.
Defined.

(** X8 at the example: encoder 0 set up with value 50 and bound 10 on
    the UART build. *)
Lemma setup_zyncoder_round_trip_witness :
  exists st',
    setup_zyncoder 1 1 4 512 (fun _ => 0) (fun _ => 0) UART_ENCODERS
      0 1 2 0 1 None 50 10 1 no_hw (init_zyncoder 1 1 4) = Ok (Some 0%nat, st')
    /\ get_value_zyncoder 1 0 st' = (10, st').
Proof.
  destruct (setup_zyncoder 1 1 4 512 (fun _ => 0) (fun _ => 0) UART_ENCODERS
              0 1 2 0 1 None 50 10 1 no_hw (init_zyncoder 1 1 4))
    as [[r st']|f] eqn:E; [|vm_compute in E; discriminate E].
  destruct (setup_zyncoder_round_trip 1 1 4 512 (fun _ => 0) (fun _ => 0)
              UART_ENCODERS 0%nat 1 2 0 1 None 50 10 1 no_hw
              (init_zyncoder 1 1 4) r st' ltac:(discriminate) ltac:(lia) E)
    as (Hr & Hget & _).
  exists st'. rewrite Hr. split; [reflexivity|exact Hget].
Defined.

(** X9 at the example: the example encoder set up again on pins 1
    and 2, on the MCP23017 build. *)
Lemma setup_zyncoder_same_pins_witness :
  exists st',
    setup_zyncoder 1 1 4 512 (fun _ => 0) (fun _ => 0) MCP23017_ENCODERS
      0 1 2 0 1 None 3 10 1 no_hw
      (example_state example_fixed_encoder [disabled_switch])
    = Ok (Some 0%nat, st')
    /\ trace st' = [].
Proof.
  destruct (setup_zyncoder 1 1 4 512 (fun _ => 0) (fun _ => 0) MCP23017_ENCODERS
              0 1 2 0 1 None 3 10 1 no_hw
              (example_state example_fixed_encoder [disabled_switch]))
    as [[r st']|f] eqn:E; [|vm_compute in E; discriminate E].
  destruct (setup_zyncoder_same_pins 1 1 4 512 (fun _ => 0) (fun _ => 0)
              MCP23017_ENCODERS 0%nat example_fixed_encoder 0 1 None 3 10 1
              no_hw (example_state example_fixed_encoder [disabled_switch])
              r st' ltac:(lia) eq_refl eq_refl E)
    as (Htr & _).
  assert (Hr : r = Some 0%nat)
    by (vm_compute in E; injection E as <- _; reflexivity).
  exists st'. rewrite Hr. split; [reflexivity|exact Htr].
Defined.

(** X10 at the example: an Up tick of the fixed-step encoder. *)
Lemma update_zyncoder_sends_on_change_witness :
  exists st',
    update_zyncoder 1 4 0 (from_args 1 0) 2000
      (example_state example_fixed_encoder [disabled_switch]) = Ok st'
    /\ (trace st' = [] \/ exists e, trace st' = [] ++ [e]).
Proof.
  destruct (update_zyncoder 1 4 0 (from_args 1 0) 2000
              (example_state example_fixed_encoder [disabled_switch]))
    as [st'|f] eqn:E; [|vm_compute in E; discriminate E].
  destruct (update_zyncoder_sends_on_change 1 4
              (example_state example_fixed_encoder [disabled_switch])
              0%nat example_fixed_encoder (from_args 1 0) 2000 st'
              ltac:(lia) eq_refl eq_refl E)
    as (z' & _ & _ & _ & _ & _ & H).
  exists st'. split; [reflexivity|exact H].
Defined.

(** X11 at the example: the pins of the fixed-step encoder go to (1, 0)
    and back to (0, 0). *)
Lemma fixed_step_bounce_cancels_witness :
  exists st1 st2 z2,
    update_zyncoder 1 4 0 (from_args 1 0) 2000
      (example_state example_fixed_encoder [disabled_switch]) = Ok st1
    /\ update_zyncoder 1 4 0 (from_args 0 0) 2500 st1 = Ok st2
    /\ nth_error (zyncoders st2) 0 = Some z2
    /\ value z2 = value example_fixed_encoder
    /\ last_encoded z2 = last_encoded example_fixed_encoder.
Proof.
  apply (fixed_step_bounce_cancels 1 4
           (example_state example_fixed_encoder [disabled_switch])
           0%nat example_fixed_encoder 0 0 1 0 2000 2500).
  - lia.
  - reflexivity.
  - reflexivity.
  - discriminate.
  - unfold zyncoder_ok, is_uint; simpl; lia.
  - simpl; lia.
  - simpl; lia.
  - now left.
  - now left.
  - now right.
  - now left.
  - reflexivity.
Defined.

(** X12 at the example: an Up tick of the velocity-mode encoder, 2 ms
    after the last one. *)
Lemma velocity_tick_step_bounded_witness :
  exists z' send,
    advance_zyncoder 4 1 0 2000 example_velocity_encoder = Ok (z', send)
    /\ subvalue z' <= subvalue example_velocity_encoder + 2 * 4.
Proof.
  destruct (advance_zyncoder 4 1 0 2000 example_velocity_encoder)
    as [[z' send]|f] eqn:E; [|vm_compute in E; discriminate E].
  exists z', send. split; [reflexivity|].
  refine (proj1 (proj2 (proj1 (velocity_tick_step_bounded 4 four_ticks_positive
                                 four_ticks_int 1 0 2000 example_velocity_encoder
                                 z' send eq_refl _ _ _ E) _))).
  - unfold is_uint; simpl; lia.
  - simpl; lia.
  - vm_compute. discriminate.
  - discriminate.
Defined.

(** X13 at the example: the same tick is defined. *)
Lemma velocity_tick_division_witness :
  exists z' send,
    advance_zyncoder 4 1 0 2000 example_velocity_encoder = Ok (z', send).
Proof.
  apply (proj2 (proj2 (velocity_tick_division 4 four_ticks_positive 1 0 2000
                         example_velocity_encoder))).
  - lia.
  - repeat constructor; lia.
  - reflexivity.
Defined.

(** X15 at the example: a press of 4 ms. *)
Lemma press_measured_once_witness :
  fst (get_zynswitch 1 0 2000000 6000
         (update_zynswitch 1 1 4 0 (status_arg 1) 5000
            (update_zynswitch 1 1 4 0 (status_arg 0) 1000
               (example_state example_fixed_encoder [example_released_switch]))))
  = 5000 - 1000.
Proof.
  apply (proj1 (proj1 (press_measured_once 1 1 4
                         (example_state example_fixed_encoder
                            [example_released_switch])
                         0%nat example_released_switch 1000 5000 2000000 6000
                         ltac:(lia) eq_refl eq_refl eq_refl eq_refl
                         ltac:(lia) ltac:(lia))
                 ltac:(lia))).
Defined.

(** X16 at the example: a press held for 3 s, read with a long-press
    threshold of 2 s. *)
Lemma long_press_reported_once_witness :
  fst (get_zynswitch 1 0 2000000 3001000
         (update_zynswitch 1 1 4 0 (status_arg 0) 1000
            (example_state example_fixed_encoder [example_released_switch])))
  = uint (3001000 - 1000).
Proof.
  apply (proj1 (proj2 (long_press_reported_once 1 1 4
                         (example_state example_fixed_encoder
                            [example_released_switch])
                         0%nat example_released_switch 1000 2000000 3001000 0
                         ltac:(lia) eq_refl eq_refl eq_refl eq_refl
                         ltac:(lia))
                 ltac:(reflexivity))).
Defined.

(** X18 at the example: 5 is written 101. *)
Lemma int_to_int_binary_digits_witness :
  (int_to_int 5 / 10 ^ 2) mod 10 = Z.b2z (Z.testbit 5 2).
Proof. apply (int_to_int_binary_digits 5 2); lia. Defined.

(** X20 at the example: the MCP23008 build, with [pthread_create]
    failing. *)
Lemma init_zyncoder_run_disables_witness :
  exists st' calls,
    init_zyncoder_run 1 1 4 MCP23008_ENCODERS example_init_inputs
      (example_state example_fixed_encoder [example_released_switch])
    = Ok (1, st', calls)
    /\ all_disabled st'.
Proof.
  destruct (init_zyncoder_run 1 1 4 MCP23008_ENCODERS example_init_inputs
              (example_state example_fixed_encoder [example_released_switch]))
    as [[[r st'] calls]|f] eqn:E; [|vm_compute in E; discriminate E].
  destruct (init_zyncoder_run_disables 1 1 4 MCP23008_ENCODERS
              example_init_inputs
              (example_state example_fixed_encoder [example_released_switch])
              r st' calls (conj eq_refl eq_refl) E)
    as (Hr & _ & Hdis & _).
  exists st', calls. rewrite Hr. split; [reflexivity|exact Hdis].
Defined.

(** X21 at the example: a tick in the initial state. *)
Lemma disabled_library_is_inert_witness :
  update_zyncoder 1 4 0 (from_args 1 0) 2000 (init_zyncoder 1 1 4)
  = Ok (init_zyncoder 1 1 4).
Proof.
  refine (proj1 (disabled_library_is_inert 1 1 4 (init_zyncoder 1 1 4) _ _)
            0%nat (from_args 1 0) 2000).
  - split; reflexivity.
  - split; intros x [<-|[]]; reflexivity.
Defined.

(** X22 at the example: the binding "9000:/x". *)
Lemma setup_osc_port_and_path_witness :
  setup_osc 512 (fun _ => 9000) (fun _ => 1) (Some "9000:/x"%string)
    example_fixed_encoder
  = Ok (with_osc_path "/x"
          (with_osc_lo_addr 1 (with_osc_port 9000 example_fixed_encoder))).
Proof.
  apply (proj1 (setup_osc_port_and_path 512 (fun _ => 9000) (fun _ => 1)
                  "9000"%string "/x"%string example_fixed_encoder
                  ltac:(simpl; repeat split) ltac:(discriminate)
                  ltac:(simpl; repeat split) ltac:(discriminate))).
  - reflexivity.
  - simpl; lia.
Defined.

(** X23 at the example: the binding "9000" without a path. *)
Lemma setup_osc_undefined_witness :
  setup_osc 512 (fun _ => 9000) (fun _ => 1) (Some "9000"%string)
    example_fixed_encoder
  = Fault NullPointer.
Proof.
  apply (proj1 (proj2 (setup_osc_undefined 512 (fun _ => 9000) (fun _ => 1)
                         example_fixed_encoder))
           "9000"%string ""%string).
  - simpl; repeat split.
  - discriminate.
  - reflexivity.
  - reflexivity.
Defined.

(** X24 at the example: pin 9 of the payload 5, 2. *)
Lemma payload_bit_layout_witness :
  payload_bit [5; 2] 9 = Ok (Z.b2z (Z.testbit (5 + 256 * 2) 9)).
Proof.
  apply (proj1 (payload_bit_layout 5 2 9 ltac:(unfold is_uint8; lia)
                  ltac:(unfold is_uint8; lia) ltac:(lia))).
  lia.
Defined.

(** X25 at the example: the switch bound to controller 1 of channel 0
    with value 9, pressed. *)
Lemma switch_controller_moves_zyncoders_witness :
  trace (update_zynswitch 1 1 4 0 (status_arg 0) 1000
           (snd (setup_zynswitch_midi 1 0 CTRL_CHANGE 0 1 9
                   (example_state example_fixed_encoder
                      [example_released_switch]))))
  = [] ++ [internal_send_ccontrol_change 0 1 9;
           write_zynmidi_ccontrol_change 0 1 9].
Proof.
  apply (proj1 (switch_controller_moves_zyncoders 1 1 4
                  (example_state example_fixed_encoder [example_released_switch])
                  0%nat example_released_switch 0 1 9 0 1000
                  ltac:(lia) eq_refl eq_refl ltac:(discriminate))).
Defined.

(** X26 at the example: the serial device cannot be opened. *)
Lemma uart_thread_first_frame_witness :
  uart_thread_run 1 1 4 (-1)
    [example_rx 0xEA; example_rx 1; example_rx 2; example_rx 0xFB] [0; 0]
    example_ring_state
  = Ok (unable_to_open_serial_device (flushBuffer example_ring_state)).
Proof.
  refine (proj2 (uart_thread_first_frame 1 1 4 (-1) (example_rx 0xEA)
                   (example_rx 1) (example_rx 2) (example_rx 0xFB) [0; 0]
                   example_ring_state eq_refl eq_refl _ _ eq_refl) _ _).
  - intros [H|[H|H]]; discriminate H.
  - intros [H|[H|H]]; discriminate H.
  - lia.
Defined.

(** X27 at the example: both expander switches released, the register
    read twice. *)
Lemma zyncoder_mcp23017_ISR_idempotent_witness :
  exists st1,
    zyncoder_mcp23017_ISR 1 2 4 MCP23017_BASE_PIN 0 (example_isr_inputs 3 5000)
      (example_state example_fixed_encoder example_expander_switches) = Ok st1
    /\ zyncoder_mcp23017_ISR 1 2 4 MCP23017_BASE_PIN 0 (example_isr_inputs 3 9000) st1
       = Ok st1.
Proof.
  destruct (zyncoder_mcp23017_ISR 1 2 4 MCP23017_BASE_PIN 0
              (example_isr_inputs 3 5000)
              (example_state example_fixed_encoder example_expander_switches))
    as [st1|f] eqn:E; [|vm_compute in E; discriminate E].
  exists st1. split; [reflexivity|].
  apply (zyncoder_mcp23017_ISR_idempotent 1 2 4 MCP23017_BASE_PIN 0
           (example_isr_inputs 3 5000) (example_isr_inputs 3 9000)
           (example_state example_fixed_encoder example_expander_switches)
           st1 eq_refl E).
Defined.
(** X28 at the example: switch 0 on pin 7 of the plain build, released,
    pressed at 1000 us and released at 51000 us, holds the duration
    50000. *)
Lemma pending_duration_passed_filter_witness :
  exists st1 zs,
    setup_zynswitch 1 1 4 PLAIN_WIRING 0 7 no_hw (init_zyncoder 1 1 4)
    = Ok (Some 0%nat, st1)
    /\ nth_error
         (zynswitches
            (update_zynswitch 1 1 4 0 (status_arg 1) 51000
               (update_zynswitch 1 1 4 0 (status_arg 0) 1000
                  (update_zynswitch 1 1 4 0 (status_arg 1) 500 st1)))) 0
       = Some zs
    /\ sw_dtus zs = 50000
    /\ (sw_dtus zs = 0 \/ 1000 <= sw_dtus zs).
Proof.
  destruct (setup_zynswitch 1 1 4 PLAIN_WIRING 0 7 no_hw (init_zyncoder 1 1 4))
    as [[r1 st1]|f] eqn:E1; [|vm_compute in E1; discriminate E1].
  pose proof E1 as Q1. vm_compute in Q1. injection Q1 as <- <-.
  pose proof (lib_setup_zynswitch 1 1 4 512 (fun _ => 0) (fun _ => 0) _ _ _ _ _
                _ _ (lib_init_zyncoder 1 1 4 512 (fun _ => 0) (fun _ => 0)) E1)
    as R1.
  match type of R1 with lib_reachable _ _ _ _ _ _ ?s => set (st1 := s) in * end.
  pose proof (lib_update_zynswitch 1 1 4 512 (fun _ => 0) (fun _ => 0) _
                0%nat (status_arg 1) 51000
                (lib_update_zynswitch 1 1 4 512 (fun _ => 0) (fun _ => 0) _
                   0%nat (status_arg 0) 1000
                   (lib_update_zynswitch 1 1 4 512 (fun _ => 0) (fun _ => 0) _
                      0%nat (status_arg 1) 500 R1))) as R.
  exists st1. eexists.
  split; [exact E1|]. split; [reflexivity|]. split; [reflexivity|].
  exact (pending_duration_passed_filter 1 1 4 512 (fun _ => 0) (fun _ => 0)
           _ R 0%nat _ eq_refl).
Defined.

